(* ===== verification/_CoqProject ===== *)
-Q . S2P
Prelude.v
Wire.v
Serialization.v
OpenSSL.v
RootCa.v
RsaChunk.v
Regex.v
Address.v
CoroQueue.v
StdSort.v
Routing.v
KeyStore.v
Hoare.v
Avif.v
Kernel.v
Effects.v
Mailbox.v
KernelInv.v
Flow.v
Prices.v
Progress.v
Unrouted.v
Network.v
KernelSpec.v
Sendto.v
Wake.v
Relay.v
Arrival.v
Asking.v
Contact.v
Inquiry.v
KernelDemo.v
RunDemo.v
ArrivalDemo.v
InquiryDemo.v
Jackif.v
Streams.v
Delivery.v
StreamDemo.v
DeliveryDemo.v
Login.v
CApi.v
Blocking.v
BlockingDemo.v
CLib.v
Programs.v
Reader.v
Gui.v
Logging.v
Logger.v
