(* ===== verification/Prelude.v ===== *)
(** * avim: a verification library for libavproto

    avim is a store-and-forward messenger.  Every node runs an [avkernel]
    (libavproto/src/avkernel.cpp) with a set of interfaces (avif.hpp).  A packet
    carries a source and a destination address, a time to live, the public key
    of its source, a protocol name ("avim" or "agmp") and a payload.  The kernel
    delivers what is addressed to one of its interfaces, forwards the rest along
    its routing table, encrypts and signs what it sends, and asks for the public
    key of an address it has none for ("pkask", answered by "pkreply").  The one
    interface in the repository, [avjackif] (avjackif.cpp), frames the packets on
    a TCP connection to a router with serialization.cpp, after a login handshake.
    demo/new_im.cpp, gui/gavim.cpp and the C functions of avC_stub.cpp log in,
    add a default route, send and receive.

    ** The files, and the code they model

    - Prelude: outcomes of C++ code ([outcome]: a value, an exception, a failed
      assertion, undefined behaviour, or the model's fuel running out), the
      state-passing monad [ST], integers of a given width ([to_int32],
      [to_uint32]), strings as lists of bytes.
    - Wire, Serialization: serialization.cpp.  [encode], [decode] and
      [create_message], with the 32-bit length fields through the memory of the
      host ([Host] is its byte order) and every read of the buffer checked.
    - RootCa: root_ca.cpp, with a reader for its PEM text and the DER in it; class
      [root_cert] and [container_remove_if_all] of avkernel.cpp.
    - OpenSSL, RsaChunk: the four std::string wrappers [RSA_*_encrypt] and
      [RSA_*_decrypt] of avproto.hpp, loops on an [int] included.
    - Regex, Address: [av_address_from_string], [av_address_to_string] of avif.cpp.
    - CoroQueue: the queue between coroutines of async_coro_queue.hpp: [push],
      [async_pop] with and without a timeout, [async_wait], [cancele], [clear].
      Its state is the record [coro_queue]; an operation returns the queue and
      the completions it posted.
    - StdSort, Routing: [m_avifs] and [m_routes] of avkernel_impl (record
      [rtable]): [add_route], [select_route], [remove_interface].
    - KeyStore: [trusted_pubkey]: [find_RSA_pubkey], [add_RSA_pubkey] and
      [purge_RSA_pubkey], with the iterator of the purge as written.
    - Avif: the handle [avif], its implementation interface as the class
      [AvifImpl], the state its copies share as the record [avif_state].
    - Kernel: all other members of avkernel_impl and avkernel, on the record
      [kernel]: receiving ([process_recived_packet] and the parts it calls),
      sending ([async_sendto_op]), [interface_runner], [interface_writer], the
      timers, [add_interface], the receive queue.
    - The theorems about the kernel.  Hoare: the triples.  KernelInv: the
      invariant of all reachable states, and termination of the loops.
      KernelSpec, Sendto: what each handler does.  Wake: what an answer does to
      the sends that wait for it.  Relay: a packet on its way through routers.
      Contact: what two nodes do together.  Effects: rules that carry a property
      of the kernel's few effects through all its code ([Primitives], and
      [Receives] for the receive queue), on which Mailbox (receiving), Flow (the
      order of packets, and states with nothing left to do) and Prices (an
      amortised count of work and packets) are built.  Progress: sends end.
      Unrouted: a kernel that is never given a route.
      Network: several kernels and the packets between them; Arrival: what
      becomes of one packet in it, and so of a message.  Asking: a send that waits
      for a key; Inquiry: the question, the answer and the message, each carried
      as in Arrival.  KernelDemo, RunDemo, ArrivalDemo and InquiryDemo apply all
      this to concrete nodes and runs.
    - Jackif: avjackif.cpp on a socket [sock] (what it will still deliver, what
      was written to it).  Streams: the network of Network with such connections
      for its links, which may be cut anywhere; Delivery: Arrival and Inquiry for
      that network; StreamDemo and DeliveryDemo: two and three nodes joined so, with a
      concrete serialisation.  Login: the login sequence of the three
      programs, which joins Jackif and Kernel.
    - CApi: the wait of the blocking calls, the buffers of avC_stub.cpp's
      functions and [pass_cb].  Blocking: [sendto] and [recvfrom] of avkernel_impl,
      that wait joined with the kernel; BlockingDemo: concrete runs.  CLib: the
      static pointers of avC_stub.cpp, from [av_start] to [av_stop].
    - Programs: demo/new_im.cpp from the options of [main] on; the parts of its
      coroutines between their yields ([place], [demo_step]), with any events of
      the io_service in between.  Reader: the
      receiving coroutine of the programs ([msg_reader], [recv_msg]) as a loop
      inside the events of the kernel.  Gui: gavim.cpp as an event machine: its
      window, its threads, and who runs the io_service; and gui/main.cpp
      ([gui_main]), which makes the data directory and the window.
    - Logging, Logger: logging.hpp: class [auto_logger_file], and the statements
      [LOG_INFO << ...] with the line they make and its way to file and console.

    ** How coroutines, threads and time are modelled

    All of avkernel runs on one io_service.  A coroutine is cut at its yields;
    each part is a definition ([async_sendto_op] and [resume_send],
    [interface_writer], [writer_popped] and [writer_wrote], ...), and the
    variables that live across a yield are in the state ([sends]; [writing] and
    [reading] of an interface; the handlers in the queues).  What has been posted or spawned is the list [tasks].  An
    [event] is a call of a public member, a completed read or write of an
    interface, a timer, or the io_service running one task -- any one, so the
    theorems about all sequences of events ([run_events]) hold in every order
    the io_service may choose.  The clock is read once per event; times count
    microseconds.  A raw pointer kept across a yield ([avif *] of
    [async_sendto_op]) is the identity of the map element it points to, which is
    looked for at each use ([deref_node]).

    ** Code that is not in the repository

    It enters through classes: [Protobuf], [AvimProto] (the generated messages;
    the .proto files are a submodule that is absent), [OpenSSL], [DiffieHellman],
    [X509Name], [X509Store], [PemFiles], [ProgramOptions], [Qt], [BoostRegex],
    [StdSort], [FileSystem], [DataFiles].  Their documented behaviour
    is a second class ([ProtobufLaws], [OpenSSLLaws], ...), required only by the
    theorems that need it, and each has a concrete instance ([Toy], [ToyRegex],
    [InsertionSort], ...) with which every theorem is applied in a witness.
    [Build] tells whether assertions are compiled in, and [AvifImpl] is what the
    kernel asks an interface for; [jack_impl] of Jackif implements it, and
    [StableNames] is the promise on names that it does not keep.

    ** What the theorems show

    - Delivery.  [end_to_end]: the packet that [async_sendto] queues puts exactly
      the sender's address and the text into the receive queue of its target;
      [message_relayed]: also after passing through up to 63 other nodes, where
      no send waits for the sender's key; and
      [message_arrives]: in a network with any other traffic and in any order of
      events, it is there when nothing is left to run, if the path lasts;
      [message_arrives_over_tcp]: the same for processes joined by TCP
      connections, once every byte sent along the path was read, in runs that are
      [clean] (what is written can be framed, and no rest of a cut frame passes
      for a packet).
      [first_contact]: what the four handlers on two nodes do when the sender has
      to ask for the key first; [first_message_arrives]: then too the message is
      there at the end, if the paths there and back last and the question is
      answered in time; [first_message_over_tcp]: the same over TCP.  [packet_delivered],
      [packet_forwarded], [pkask_answered], [pkreply_trusted]: what a received
      packet does, branch by branch; [sendto_correct], [resume_correct],
      [sendto_gives_up]: the same for a send, up to its three questions;
      [key_wakes_all]: one answer serves all the sends that wait for it.
    - All reachable states.  [kernel_invariant], [sends_complete_once], and
      [kernel_terminates] for the loops.
    - All runs.  [sends_come_to_an_end]: no send waits for ever;
      [sendto_comes_back] and [blocking_call_correct]: nor does a blocking call
      that reached its wait in time, and what becomes of one that did not;
      [kernel_comes_to_rest]: a node left alone stops after a bounded number of
      steps, with nothing lying about; [writes_in_order]: packets do not overtake
      each other; [kernel_refines_mailbox] and [recvs_complete_once]: receiving
      is a mailbox that serves its receivers in turn, its steps ([run_labels])
      determined by the events; [reader_shows_everything]: so the programs' loop
      shows every message that arrives, in order.
    - Networks.  [packets_not_multiplied]: a node writes and queues no more
      packets than it was given, plus four for each message sent; and
      [network_falls_silent]: in any network of nodes, with any wiring, routes
      and losses, and with nodes that fail, a message sets off at most 448
      transmissions; [streams_refine_network]: the same with TCP connections for
      links, in clean runs.  The prices behind these bounds are an instance of
      [Prices]; what a price must satisfy is [PricesLaws].
    - Keys.  [trust_on_first_use], [find_after_add], [purge_exact] and
      [purge_first_expired]; [forged_sender_accepted] and [hostile_packet_ub] say
      what a hostile peer can do.
    - Encoding.  [decode_encode], [decode_sound], [decode_ub_iff]; for a
      connection, [jack_write_read] (sequences of packets, cut anywhere),
      [jack_read_hostile], [handshake_correct]; [rsa_seal_open] and
      [rsa_wrappers_chunked] for the RSA wrappers.
    - Components.  [queue_refines_channel], [queue_fifo], [queue_run_ok],
      [cancele_correct]; [select_route_best], [remove_interface_correct];
      [av_address_from_string_split], [av_address_parse_print];
      [log_files_bounded], [statements_logged]; [root_ca_readable],
      [verity_takes_errors], [container_remove_if_all_correct].
    - Programs.  [login_routes], and [jack_login_never_routes],
      [jack_interface_never_removed]: what becomes of it with avjackif, whose
      name changes at every call; so [demo_message_unreachable]: the kernel of the
      demo has no route in any state its program and the io_service bring it to,
      and its test message never gets into a queue.
      [gui_never_comes_up]: the graphical client waits for the io_service it
      would run itself, and its window stays empty.  [c_library_used_once]:
      [av_start] does not start twice.

    ** Loops and fuel

    [push] loops over the handlers that timed out: fuel [S (length m_handlers)]
    ([push_fuel_spec]).  [remove_interface]: one more than the number of routes
    ([erase_loop_filter]).  The RSA loops: one more than the length of the text,
    since every turn advances by at least one ([RSA_loops_end]), except with an
    11-byte modulus, where [rsa_encrypt_diverges] shows that no fuel is enough.
    [wake_loop], which runs over a list its handlers append to:
    [S (2 * length)], since what a handler appends is not yet due
    ([wake_loop_ok]).  [kernel_terminates] collects them: [OutOfFuel] is never
    the result of an event unless an interface or a received packet brings such
    a key.

    A run of the io_service until nothing is left ([run_until_idle]) has the
    fuel that [kernel_comes_to_rest] shows to be enough.  The DER reader of
    RootCa is given the number of items it is to find.

    ** Not modelled

    Texts written to std::cerr and to Qt's log (only their calls of [get_ifname]
    count); memory exhaustion; leaks (the code does not free some RSA objects);
    how a command line is split; how OpenSSL reads key files; name resolution and
    connecting; Qt's event loop, colours, fonts and scrolling; in async_coro_queue.hpp the
    wrappers that turn a yield_context into a handler; in logging.hpp the
    formatting of values and of the local time (given as bytes), the lock and the
    Windows branches; third_party/protobuf-2.6.1.

    The thread that runs the io_service is one thread, as in every program here;
    calls from other threads are atomic events between its tasks. *)

From stdpp Require Export base tactics option list gmap strings sorting.
From Stdlib Require Export ZArith Lia.
From Stdlib Require Export Strings.Byte.

#[export] Set Default Goal Selector "!".

Declare Scope avim_scope.
Delimit Scope avim_scope with avim.
Open Scope Z_scope.
Open Scope avim_scope.

Create HintDb avim.
Create Rewrite HintDb avim_rw.

(** ** Outcomes of C++ code *)

(** The exceptions that the modelled code lets escape. *)
Inductive exn :=
  | length_error   (* std::length_error: a string asked to grow past max_size *)
  | out_of_range   (* std::out_of_range: std::map::at *)
  | regex_error    (* boost::regex_error: a pattern that does not compile *)
  | system_error.  (* boost::system::system_error: an asio operation that fails
                      with no error_code bound to its yield_context *)

(** What running a piece of C++ code comes to: a value, an exception, a failed
    assert, undefined behaviour, or (loops only) the model's fuel running out. *)
Inductive outcome (A : Type) :=
  | Ret (a : A)
  | Throw (e : exn)
  | AssertFail
  | UB
  | OutOfFuel.
Arguments Ret {A} a.
Arguments Throw {A} e.
Arguments AssertFail {A}.
Arguments UB {A}.
Arguments OutOfFuel {A}.

#[export] Instance exn_eq_dec : EqDecision exn.
Proof. solve_decision. Defined.

#[export] Instance outcome_eq_dec {A} `{EqDecision A} : EqDecision (outcome A).
Proof. solve_decision. Defined.

#[export] Instance outcome_ret : MRet outcome := fun A a => Ret a.
#[export] Instance outcome_bind : MBind outcome := fun A B f m =>
  match m with
  | Ret a => f a
  | Throw e => Throw e
  | AssertFail => AssertFail
  | UB => UB
  | OutOfFuel => OutOfFuel
  end.

Lemma outcome_bind_Ret {A B} (f : A -> outcome B) a : (Ret a ≫= f) = f a.
Proof. reflexivity. Qed.

Lemma outcome_bind_inv {A B} (m : outcome A) (f : A -> outcome B) b :
  (m ≫= f) = Ret b -> exists a, m = Ret a /\ f a = Ret b.
Proof. destruct m; try discriminate. intros H. by exists a. Qed.

#[export] Hint Rewrite @outcome_bind_Ret : avim_rw.

(** Dereferencing a pointer that may be null. *)
Definition deref {A} (p : option A) : outcome A :=
  match p with Some a => Ret a | None => UB end.

(** The build configuration: [assert] and [BOOST_ASSERT] are compiled out
    when NDEBUG is defined. *)
Class Build := { NDEBUG : bool }.

(** The two builds, for concrete runs. *)
Definition debug_build : Build := {| NDEBUG := false |}.
Definition release_build : Build := {| NDEBUG := true |}.

Definition cassert `{Build} (b : bool) : outcome unit :=
  if b || NDEBUG then Ret tt else AssertFail.

(** The error codes that completion handlers receive.  [errc_] codes are
    boost::system::errc conditions (generic category), the others
    boost::asio::error values. *)
Inductive error_code :=
  | ec_success
  | errc_operation_canceled
  | errc_timed_out
  | operation_aborted
  | timed_out
  | network_unreachable
  | io_error.   (* whatever a socket operation reports *)

#[export] Instance error_code_eq_dec : EqDecision error_code.
Proof. solve_decision. Defined.

(** [if (ec)] *)
Definition failed (ec : error_code) : bool :=
  match ec with ec_success => false | _ => true end.

(** ** State-passing code that may fail.  The state at the point of an
    exception is kept: scope guards run on it. *)
Definition ST (S A : Type) : Type := S -> outcome A * S.

Section st.
Context {S : Type}.

Definition st_ret {A} (a : A) : ST S A := fun s => (Ret a, s).
Definition st_bind {A B} (m : ST S A) (f : A -> ST S B) : ST S B := fun s =>
  match m s with
  | (Ret a, s') => f a s'
  | (Throw e, s') => (Throw e, s')
  | (AssertFail, s') => (AssertFail, s')
  | (UB, s') => (UB, s')
  | (OutOfFuel, s') => (OutOfFuel, s')
  end.
Definition st_get : ST S S := fun s => (Ret s, s).
Definition st_modify (f : S -> S) : ST S unit := fun s => (Ret tt, f s).
Definition st_lift {A} (o : outcome A) : ST S A := fun s => (o, s).

(** BOOST_SCOPE_EXIT_ALL: [guard] runs when [body] leaves its scope, by a
    return or by an exception; undefined behaviour and failed assertions do
    not unwind the stack. *)
Definition scope_exit {A} (guard : ST S unit) (body : ST S A) : ST S A := fun s =>
  match body s with
  | (Ret a, s') => st_bind guard (fun _ => st_ret a) s'
  | (Throw e, s') => st_bind guard (fun _ => st_lift (Throw e)) s'
  | r => r
  end.
End st.

Notation "'let*' x ':=' m 'in' k" := (st_bind m (fun x => k))
  (at level 10, x pattern, m at level 200, k at level 200) : avim_scope.
Notation "m ;;- k" := (st_bind m (fun _ => k))
  (at level 100, right associativity) : avim_scope.

Lemma st_bind_Ret {S A B} (m : ST S A) (f : A -> ST S B) s a s' :
  m s = (Ret a, s') -> st_bind m f s = f a s'.
Proof. unfold st_bind. by intros ->. Qed.

Lemma st_bind_inv {S A B} (m : ST S A) (f : A -> ST S B) s b s' :
  st_bind m f s = (Ret b, s') ->
  exists a s1, m s = (Ret a, s1) /\ f a s1 = (Ret b, s').
Proof.
  unfold st_bind. destruct (m s) as [[a| | | |] s1] eqn:E; try discriminate.
  eauto.
Qed.

(** ** Machine integers *)

Definition INT_MAX : Z := 2147483647.
Definition INT_MIN : Z := -2147483648.

(** Conversions to uint32_t and to int32_t (two's complement). *)
Definition to_uint32 (z : Z) : Z := z mod 4294967296.
Definition to_int32 (z : Z) : Z :=
  let u := z mod 4294967296 in if u <? 2147483648 then u else u - 4294967296.

Definition int_ok (z : Z) : bool := (INT_MIN <=? z) && (z <=? INT_MAX).

(** Signed arithmetic: overflow is undefined. *)
Definition int_arith (z : Z) : outcome Z := if int_ok z then Ret z else UB.

Lemma int_arith_ok z : INT_MIN <= z <= INT_MAX -> int_arith z = Ret z.
Proof. intros H. unfold int_arith, int_ok. by rewrite !(proj2 (Z.leb_le _ _)) by lia. Qed.

Lemma to_uint32_small z : 0 <= z < 4294967296 -> to_uint32 z = z.
Proof. apply Z.mod_small. Qed.

Lemma to_int32_small z : 0 <= z <= INT_MAX -> to_int32 z = z.
Proof.
  unfold to_int32, INT_MAX. intros H. rewrite Z.mod_small by lia.
  destruct (Z.ltb_spec z 2147483648); lia.
Qed.

Lemma to_int32_range z : INT_MIN <= to_int32 z <= INT_MAX.
Proof.
  unfold to_int32, INT_MIN, INT_MAX.
  pose proof (Z.mod_pos_bound z 4294967296 ltac:(lia)).
  destruct (Z.ltb_spec (z mod 4294967296) 2147483648); lia.
Qed.

Lemma to_uint32_int32 z : to_uint32 (to_int32 z) = to_uint32 z.
Proof.
  unfold to_uint32, to_int32.
  destruct (Z.ltb_spec (z mod 4294967296) 2147483648).
  - by rewrite Z.mod_mod by lia.
  - rewrite Zminus_mod, Z.mod_same, Z.sub_0_r by lia. by rewrite !Z.mod_mod by lia.
Qed.

#[export] Hint Rewrite to_uint32_small to_int32_small using lia : avim_rw.

(** ** Bytes *)

(** The contents of a std::string or of a buffer. *)
Abbreviation bytes := (list byte).

Definition byte_val (b : byte) : Z := Z.of_N (Byte.to_N b).
Definition byte_of (z : Z) : byte :=
  default x00 (Byte.of_N (Z.to_N (z mod 256))).

#[export] Instance byte_eq_dec : EqDecision byte := Byte.byte_eq_dec.

Lemma byte_val_range b : 0 <= byte_val b < 256.
Proof. unfold byte_val. pose proof (Byte.to_N_bounded b). lia. Qed.

Lemma byte_of_val b : byte_of (byte_val b) = b.
Proof.
  unfold byte_of. rewrite Z.mod_small by apply byte_val_range.
  unfold byte_val. by rewrite N2Z.id, Byte.of_to_N.
Qed.

Lemma byte_val_of z : byte_val (byte_of z) = z mod 256.
Proof.
  unfold byte_of, byte_val.
  pose proof (Z.mod_pos_bound z 256 ltac:(lia)) as Hz.
  destruct (Byte.of_N (Z.to_N (z mod 256))) as [b|] eqn:E; simpl.
  - apply Byte.to_of_N in E. rewrite E. lia.
  - apply Byte.of_N_None_iff in E. lia.
Qed.

Lemma byte_of_eq n x : n mod 256 = byte_val x -> byte_of n = x.
Proof.
  intros Hn. rewrite <-(byte_of_val x). unfold byte_of.
  by rewrite Hn, Z.mod_small by apply byte_val_range.
Qed.

#[export] Hint Resolve byte_val_range : avim.
#[export] Hint Rewrite byte_of_val byte_val_of : avim_rw.

(** The length of a buffer as the code computes with it. *)
Definition zlen {A} (l : list A) : Z := Z.of_nat (length l).

Lemma zlen_nonneg {A} (l : list A) : 0 <= zlen l.
Proof. unfold zlen. lia. Qed.

Lemma zlen_app {A} (l k : list A) : zlen (l ++ k) = zlen l + zlen k.
Proof. unfold zlen. rewrite length_app. lia. Qed.

Lemma zlen_nil {A} : zlen (@nil A) = 0.
Proof. reflexivity. Qed.

Lemma zlen_cons {A} (a : A) l : zlen (a :: l) = 1 + zlen l.
Proof. unfold zlen. simpl length. lia. Qed.

Lemma zlen_0_inv {A} (l : list A) : zlen l = 0 -> l = [].
Proof. destruct l; [done|]. unfold zlen. simpl. lia. Qed.

#[export] Hint Resolve zlen_nonneg : avim.
#[export] Hint Rewrite @zlen_app @zlen_nil @zlen_cons : avim_rw.

(** [slice l i n]: the [n] elements of [l] from index [i]. *)
Definition slice {A} (l : list A) (i n : Z) : list A :=
  take (Z.to_nat n) (drop (Z.to_nat i) l).

Lemma slice_app_r {A} (l k : list A) n :
  slice (l ++ k) (zlen l) n = take (Z.to_nat n) k.
Proof. unfold slice, zlen. by rewrite Nat2Z.id, drop_app_length. Qed.

Lemma slice_drop {A} (l : list A) i n :
  0 <= i -> 0 <= n -> slice l i n ++ drop (Z.to_nat (i + n)) l = drop (Z.to_nat i) l.
Proof.
  intros. unfold slice. rewrite Z2Nat.inj_add, <-drop_drop by done. apply take_drop.
Qed.

Lemma slice_rest {A} (l : list A) i n :
  0 <= i -> zlen l <= i + n -> slice l i n = drop (Z.to_nat i) l.
Proof. intros. unfold slice. apply take_ge. rewrite length_drop. unfold zlen in *. lia. Qed.

Lemma slice_length {A} (l : list A) i n :
  0 <= i -> 0 <= n -> i + n <= zlen l -> zlen (slice l i n) = n.
Proof. unfold slice, zlen. intros. rewrite length_take, length_drop. lia. Qed.

(** A std::string is a sequence of bytes; names and addresses are kept as
    [string], wire data as [bytes]. *)
Definition s2b (s : string) : bytes := String.list_byte_of_string s.
Definition b2s (b : bytes) : string := String.string_of_list_byte b.

Lemma b2s_s2b s : b2s (s2b s) = s.
Proof. apply String.string_of_list_byte_of_string. Qed.
Lemma s2b_b2s b : s2b (b2s b) = b.
Proof. apply String.list_byte_of_string_of_list_byte. Qed.

#[export] Hint Rewrite b2s_s2b s2b_b2s : avim_rw.

(** The characters a C string shows: up to the first NUL. *)
Fixpoint c_str (b : bytes) : bytes :=
  match b with [] => [] | x :: b => if decide (x = x00) then [] else x :: c_str b end.

Lemma c_str_stops b rest : c_str (c_str b ++ x00 :: rest) = c_str b.
Proof.
  induction b as [|x b IH]; simpl; [done|]. case_decide; simpl; [done|].
  rewrite decide_False by done. by rewrite IH.
Qed.

Lemma c_str_id b : x00 ∉ b -> c_str b = b.
Proof.
  induction b as [|x b IH]; simpl; [done|]. intros Hb. rewrite decide_False by set_solver.
  rewrite IH by set_solver. done.
Qed.

Lemma c_str_length b : zlen (c_str b) <= zlen b.
Proof.
  induction b as [|x b IH]; simpl; [done|]. case_decide; rewrite ?zlen_cons; [|lia].
  pose proof (zlen_nonneg b). change (zlen (@nil byte)) with 0. lia.
Qed.

(** ** Selecting from a list an element of which is removed *)

Lemma omap_delete {A B} (f : A -> option B) (l : list A) (n : nat) x :
  l !! n = Some x -> omap f l ≡ₚ option_list (f x) ++ omap f (delete n l).
Proof.
  intros Hx. rewrite delete_take_drop, <-(take_drop_middle l n x Hx) at 1.
  rewrite !omap_app. cbn [omap list_omap]. destruct (f x); simpl; [|done].
  by rewrite <-Permutation_middle.
Qed.

Lemma omap_delete_None {A B} (f : A -> option B) (l : list A) (n : nat) x :
  l !! n = Some x -> f x = None -> omap f (delete n l) = omap f l.
Proof.
  intros Hx Hf. rewrite delete_take_drop. rewrite <-(take_drop_middle l n x Hx) at 3.
  rewrite !omap_app. cbn [omap list_omap]. by rewrite Hf.
Qed.

Lemma omap_delete_split {A B} (f : A -> option B) (l : list A) (n : nat) x y :
  l !! n = Some x -> f x = Some y ->
  exists pre post, omap f l = pre ++ y :: post /\ omap f (delete n l) = pre ++ post.
Proof.
  intros Hx Hf. exists (omap f (take n l)), (omap f (drop (S n) l)). split.
  - rewrite <-(take_drop_middle l n x Hx) at 1. rewrite omap_app. cbn [omap list_omap]. by rewrite Hf.
  - by rewrite delete_take_drop, omap_app.
Qed.

Lemma length_omap_le {A B C} (f : A -> option B) (g : A -> option C) (l : list A) :
  (forall x, is_Some (f x) -> is_Some (g x)) -> (length (omap f l) <= length (omap g l))%nat.
Proof.
  intros Hfg. induction l as [|x l IH]; [done|]. cbn [omap list_omap].
  change (list_omap _ _ f l) with (omap f l). change (list_omap _ _ g l) with (omap g l).
  destruct (f x) eqn:E.
  - destruct (Hfg x) as [y ->]; [by rewrite E|]. cbn [length]. lia.
  - destruct (g x); cbn [length]; lia.
Qed.

(** ** std::map iteration: in increasing key order *)
Definition map_iter {A} (m : gmap string A) : list (string * A) :=
  omap (fun k => pair k <$> m !! k) (merge_sort String.le (elements (dom m))).

Lemma elem_of_map_iter {A} (m : gmap string A) k a :
  (k, a) ∈ map_iter m <-> m !! k = Some a.
Proof.
  unfold map_iter. rewrite list_elem_of_omap. split.
  - intros (k' & _ & H). destruct (m !! k') eqn:E; simplify_eq/=. done.
  - intros H. exists k. rewrite H. split; [|done].
    rewrite merge_sort_Permutation, elem_of_elements, elem_of_dom. eauto.
Qed.

(** ** Sums over a map *)
Definition map_sum {K A} `{Countable K} (f : A -> nat) (m : gmap K A) : nat :=
  map_fold (fun _ x n => f x + n)%nat 0%nat m.

Section map_sum.
Context {K A : Type} `{Countable K} (f : A -> nat).
Implicit Types m : gmap K A.

Lemma map_sum_empty : map_sum f (∅ : gmap K A) = 0%nat.
Proof. apply map_fold_empty. Qed.

Lemma map_sum_delete m i x : m !! i = Some x -> map_sum f m = (f x + map_sum f (delete i m))%nat.
Proof. intros Hx. apply (map_fold_delete_L (fun _ x n => f x + n)%nat); [lia|done]. Qed.

Lemma map_sum_insert m i x : map_sum f (<[i := x]> m) = (f x + map_sum f (delete i m))%nat.
Proof.
  rewrite (map_sum_delete _ i x) by apply lookup_insert_eq. by rewrite delete_insert_eq.
Qed.

Lemma map_sum_delete_le m i : (map_sum f (delete i m) <= map_sum f m)%nat.
Proof.
  destruct (m !! i) as [x|] eqn:E; [rewrite (map_sum_delete m i x E); lia|].
  by rewrite delete_id.
Qed.

End map_sum.

Lemma map_sum_le {K A} `{Countable K} (f g : A -> nat) (m : gmap K A) :
  (forall a, f a <= g a)%nat -> (map_sum f m <= map_sum g m)%nat.
Proof.
  intros Hfg. induction m as [|i x m Hi IH] using map_ind; [by rewrite !map_sum_empty|].
  rewrite !map_sum_insert, delete_id by done. specialize (Hfg x). lia.
Qed.

Lemma sum_list_with_const {A} (c : nat) (l : list A) : sum_list_with (fun _ => c) l = (length l * c)%nat.
Proof. induction l as [|x l IH]; [done|]. simpl. by rewrite IH. Qed.

(** ** Automation *)

(** Runs the binds whose head is a value, splitting the tests of the goal. *)
Ltac avim_simpl := repeat (progress (autorewrite with avim_rw in *; simpl in * )).

Ltac case_tests :=
  repeat match goal with
  | |- context [if decide ?P then _ else _] => destruct (decide P)
  | |- context [Z.ltb ?a ?b] => destruct (Z.ltb_spec a b)
  | |- context [Z.leb ?a ?b] => destruct (Z.leb_spec a b)
  | |- context [Z.eqb ?a ?b] => destruct (Z.eqb_spec a b)
  end.

(** Splits a hypothesis that says that a bind returned. *)
Ltac inv_bind :=
  repeat match goal with
  | H : (_ ≫= _) = Ret _ |- _ =>
      let a := fresh "a" in let Ha := fresh "Ha" in
      apply outcome_bind_inv in H as (a & Ha & H)
  | H : st_bind _ _ _ = (Ret _, _) |- _ =>
      let a := fresh "a" in let s := fresh "s" in let Ha := fresh "Ha" in
      apply st_bind_inv in H as (a & s & Ha & H)
  end.
