(* ===== verification/Wire.v ===== *)
(** * Wire: 32-bit words in memory and in network byte order

    The length fields of the wire format are read and written through the
    memory image of an [int32_t] (serialization.cpp, avjackif.cpp): the image
    depends on the host's byte order, and [htonl]/[ntohl] convert to network
    order.  The lemmas show that what reaches the wire does not depend on the
    host. *)

From S2P Require Import Prelude.

(** The byte order of the host. *)
Class Host := { little_endian : bool }.

Definition x86_host : Host := {| little_endian := true |}.

(** Four bytes read as a big-endian number, and back. *)
Definition be_val (l : bytes) : Z := foldl (fun acc b => acc * 256 + byte_val b) 0 l.

Definition be32 (z : Z) : bytes :=
  [byte_of (z / 16777216); byte_of (z / 65536); byte_of (z / 256); byte_of z].

Lemma be32_length z : zlen (be32 z) = 4.
Proof. reflexivity. Qed.

Lemma be_val_be32 z : be_val (be32 z) = to_uint32 z.
Proof.
  unfold be_val, be32, to_uint32. simpl. rewrite !byte_val_of.
  Z.div_mod_to_equations. lia.
Qed.

Lemma be_val4 (a b c d : byte) :
  be_val [a; b; c; d] =
  byte_val a * 16777216 + byte_val b * 65536 + byte_val c * 256 + byte_val d.
Proof. unfold be_val. simpl. lia. Qed.

Lemma be_val_range (l : bytes) : length l = 4%nat -> 0 <= be_val l < 4294967296.
Proof.
  intros H. destruct l as [|a [|b [|c [|d [|]]]]]; try discriminate.
  rewrite be_val4.
  pose proof (byte_val_range a). pose proof (byte_val_range b).
  pose proof (byte_val_range c). pose proof (byte_val_range d). lia.
Qed.

Lemma be32_be_val (l : bytes) : length l = 4%nat -> be32 (be_val l) = l.
Proof.
  intros H. destruct l as [|a [|b [|c [|d [|]]]]]; try discriminate. clear H.
  rewrite be_val4. unfold be32.
  pose proof (byte_val_range a). pose proof (byte_val_range b).
  pose proof (byte_val_range c). pose proof (byte_val_range d).
  repeat f_equal; apply byte_of_eq; Z.div_mod_to_equations; lia.
Qed.

#[export] Hint Rewrite be32_length be_val_be32 : avim_rw.

Section host.
Context `{Host}.

(** The memory image of a 32-bit integer, and the integer in four bytes of
    memory (as a uint32_t). *)
Definition mem32 (z : Z) : bytes := if little_endian then reverse (be32 z) else be32 z.
Definition load32 (l : bytes) : Z := be_val (if little_endian then reverse l else l).

(** [htonl] and [ntohl]: on a little-endian host both reverse the bytes. *)
Definition htonl (z : Z) : Z :=
  if little_endian then be_val (reverse (be32 z)) else to_uint32 z.
Definition ntohl (z : Z) : Z :=
  if little_endian then be_val (reverse (be32 z)) else to_uint32 z.

Lemma htonl_ntohl z : htonl z = ntohl z.
Proof. reflexivity. Qed.

Lemma mem32_htonl z : mem32 (htonl z) = be32 z.
Proof.
  unfold mem32, htonl. destruct little_endian.
  - rewrite be32_be_val by by rewrite length_reverse. apply reverse_involutive.
  - rewrite <-be_val_be32. by rewrite be32_be_val.
Qed.

Lemma ntohl_load32 l : length l = 4%nat -> ntohl (load32 l) = be_val l.
Proof.
  intros Hl. unfold ntohl, load32. destruct little_endian.
  - rewrite be32_be_val by by rewrite length_reverse. by rewrite reverse_involutive.
  - by rewrite to_uint32_small by by apply be_val_range.
Qed.

Lemma mem32_length z : length (mem32 z) = 4%nat.
Proof. unfold mem32. destruct little_endian; [by rewrite length_reverse|done]. Qed.

Lemma mem32_load32 l : length l = 4%nat -> mem32 (load32 l) = l.
Proof.
  intros Hl. unfold mem32, load32. destruct little_endian.
  - rewrite be32_be_val by by rewrite length_reverse. apply reverse_involutive.
  - by apply be32_be_val.
Qed.
End host.
