(* ===== verification/Serialization.v ===== *)
(** * Serialization: the framing of protobuf messages

    libavproto/src/serialization.cpp: [encode] writes a frame
    [packet length | type-name length | type name | message], both lengths in
    network order; [decode] checks the lengths, builds the message named by
    the type name and parses the rest of the frame into it. *)

From S2P Require Import Prelude Wire.

(** What the code uses of protobuf: message objects, the reflection calls that
    create one from its type name, and the (de)serialisation of a message. *)
Class Protobuf := {
  message : Type;
  descriptor : Type;
  GetTypeName : message -> string;
  (** the bytes appended, or [None] when the call returns false *)
  AppendToString : message -> option bytes;
  FindMessageTypeByName : string -> option descriptor;
  GetPrototype : descriptor -> option message;
  New : message -> message;
  ParseFromArray : message -> bytes -> option message
}.

(** The documented behaviour of protobuf that the round trip rests on: a
    generated message type is found by its name, its prototype makes a fresh
    message, and parsing what a message serialised to gives the message back. *)
Class ProtobufLaws (P : Protobuf) := {
  reflection_total : forall m, exists d proto,
    FindMessageTypeByName (GetTypeName m) = Some d /\ GetPrototype d = Some proto;
  parse_serialized : forall m d proto b,
    FindMessageTypeByName (GetTypeName m) = Some d -> GetPrototype d = Some proto ->
    AppendToString m = Some b -> ParseFromArray (New proto) b = Some m
}.

Section serialization.
Context `{Host} `{Build} `{Protobuf}.

Definition header_len : Z := 4.

(** [std::string::append(const char*, n)]: [n] is converted to size_t. *)
Definition append_n (r src : bytes) (n : Z) : outcome bytes :=
  if n <? 0 then Throw length_error else Ret (r ++ take (Z.to_nat n) src).

Definition create_message (type_name : string) : option message :=
  match FindMessageTypeByName type_name with
  | Some d =>
      match GetPrototype d with
      | Some prototype => Some (New prototype)
      | None => None
      end
  | None => None
  end.

Definition encode (m : message) : outcome bytes :=
  let type_name := s2b (GetTypeName m) in
  let len := to_int32 (zlen type_name) in
  let be_len := htonl len in
  let result := replicate 4 x00 in
  let result := result ++ mem32 be_len in
  result ← append_n result type_name len;
  match AppendToString m with
  | Some body =>
      let result := result ++ body in
      n ← int_arith (to_int32 (zlen result) - header_len);
      Ret (mem32 (htonl n) ++ drop 4 result)
  | None => _ ← cassert false; Ret []
  end.

(** Reading an int32_t at [buf.data() + off]: the bytes up to and including
    the terminating NUL of the string may be read. *)
Definition read32 (buf : bytes) (off : Z) : outcome Z :=
  if (0 <=? off) && (off + 4 <=? zlen buf + 1)
  then Ret (load32 (slice (buf ++ [x00]) off 4)) else UB.

(** [std::string(first, last)] on pointers into [buf]. *)
Definition string_range (buf : bytes) (first last : Z) : outcome bytes :=
  if (0 <=? first) && (first <=? last) && (last <=? zlen buf)
  then Ret (slice buf first (last - first)) else UB.

Definition decode (buf : bytes) : outcome (option message) :=
  let len := to_int32 (zlen buf) in
  l ← read32 buf 0;
  if negb (to_uint32 len =? to_uint32 (ntohl l + header_len))
  then _ ← cassert false; Ret None
  else
    l2 ← read32 buf header_len;
    let name_len := to_int32 (ntohl l2) in
    limit ← int_arith (len - 2 * header_len);
    if limit <=? name_len
    then _ ← cassert false; Ret None
    else
      let name_begin := 2 * header_len in
      let name_end := name_begin + name_len in
      type_name ← string_range buf name_begin name_end;
      match create_message (b2s type_name) with
      | None => Ret None
      | Some result =>
          data_len ← int_arith (len - (name_len + 2 * header_len));
          Ret (ParseFromArray result (slice buf name_end data_len))
      end.

(** ** The frame format *)

(** The frame that carries [body] under [name]. *)
Definition frame (name body : bytes) : bytes :=
  be32 (4 + zlen name + zlen body) ++ be32 (zlen name) ++ name ++ body.

Lemma zlen_frame name body : zlen (frame name body) = 8 + zlen name + zlen body.
Proof. unfold frame. rewrite !zlen_app, !be32_length. lia. Qed.

Lemma slice_of_app {A} (pre mid post : list A) i n :
  i = zlen pre -> n = zlen mid -> slice (pre ++ mid ++ post) i n = mid.
Proof.
  intros -> ->. rewrite slice_app_r. unfold zlen. by rewrite Nat2Z.id, take_app_length.
Qed.

Lemma read32_app pre w post off :
  off = zlen pre -> length w = 4%nat -> read32 (pre ++ w ++ post) off = Ret (load32 w).
Proof.
  intros -> Hw. unfold read32.
  assert (Hz : zlen w = 4) by (unfold zlen; by rewrite Hw).
  pose proof (zlen_nonneg pre). pose proof (zlen_nonneg post).
  rewrite !zlen_app, !(proj2 (Z.leb_le _ _)) by lia. simpl.
  by rewrite <-!app_assoc, slice_of_app.
Qed.

Lemma read32_frame_len name body :
  read32 (frame name body) 0 = Ret (load32 (be32 (4 + zlen name + zlen body))).
Proof. apply (read32_app [] _ (be32 (zlen name) ++ name ++ body)); done. Qed.

Lemma read32_frame_name name body :
  read32 (frame name body) 4 = Ret (load32 (be32 (zlen name))).
Proof. apply (read32_app (be32 _) _ (name ++ body)); done. Qed.

Lemma string_range_frame name body :
  string_range (frame name body) 8 (8 + zlen name) = Ret name.
Proof.
  unfold string_range. pose proof (zlen_nonneg name). pose proof (zlen_nonneg body).
  rewrite zlen_frame, !(proj2 (Z.leb_le _ _)) by lia. simpl. f_equal.
  unfold frame. rewrite (app_assoc (be32 _)).
  apply slice_of_app; [done|lia].
Qed.

Lemma slice_frame_body name body :
  slice (frame name body) (8 + zlen name) (zlen body) = body.
Proof.
  unfold frame. rewrite <-(app_nil_r body) at 2. rewrite !app_assoc, <-(app_assoc _ body).
  apply slice_of_app; [|done]. rewrite !zlen_app, !be32_length. lia.
Qed.

(** ** Decoding in terms of the two length fields *)

Lemma load32_slice buf off :
  0 <= off -> off + 4 <= zlen buf + 1 ->
  read32 buf off = Ret (load32 (slice (buf ++ [x00]) off 4)) /\
  ntohl (load32 (slice (buf ++ [x00]) off 4)) = be_val (slice (buf ++ [x00]) off 4) /\
  0 <= be_val (slice (buf ++ [x00]) off 4) < 4294967296.
Proof.
  intros Ho Hl. unfold read32. rewrite !(proj2 (Z.leb_le _ _)) by lia.
  assert (Hlen : length (slice (buf ++ [x00]) off 4) = 4%nat).
  { apply Nat2Z.inj. apply slice_length; [lia|lia|]. rewrite zlen_app, zlen_cons, zlen_nil. lia. }
  split_and!; [done| |by apply be_val_range..]. by apply ntohl_load32.
Qed.

Lemma frame_header buf :
  4 <= zlen buf <= INT_MAX ->
  exists l, read32 buf 0 = Ret l /\
    negb (to_uint32 (to_int32 (zlen buf)) =? to_uint32 (ntohl l + header_len)) =
    negb (be_val (take 4 buf) =? zlen buf - 4).
Proof.
  unfold INT_MAX. intros Hl. destruct (load32_slice buf 0) as (Hr & Hn & Hb); [lia..|].
  assert (Hs : slice (buf ++ [x00]) 0 4 = take 4 buf).
  { unfold slice. simpl Z.to_nat. rewrite drop_0, take_app_le; [done|]. unfold zlen in Hl. lia. }
  rewrite Hs in *. eexists. split; [done|]. f_equal.
  rewrite Hn, to_uint32_int32, to_uint32_small by lia. unfold header_len, to_uint32.
  apply eq_true_iff_eq. rewrite !Z.eqb_eq.
  Z.div_mod_to_equations. lia.
Qed.

Lemma decode_bad_length buf :
  4 <= zlen buf <= INT_MAX -> be_val (take 4 buf) <> zlen buf - 4 ->
  decode buf = (_ ← cassert false; Ret None).
Proof.
  intros Hl Hne. destruct (frame_header buf Hl) as (l & Hr & Hc).
  unfold decode. rewrite Hr, outcome_bind_Ret, Hc. by rewrite (proj2 (Z.eqb_neq _ _)).
Qed.

(** The part of [decode] after the packet length has been accepted. *)
Lemma decode_good_length buf :
  7 <= zlen buf <= INT_MAX -> be_val (take 4 buf) = zlen buf - 4 ->
  let name_len := to_int32 (be_val (slice (buf ++ [x00]) 4 4)) in
  decode buf =
    if zlen buf - 8 <=? name_len then (_ ← cassert false; Ret None)
    else if name_len <? 0 then UB
    else match create_message (b2s (slice buf 8 name_len)) with
         | None => Ret None
         | Some result =>
             Ret (ParseFromArray result (slice buf (8 + name_len) (zlen buf - (name_len + 8))))
         end.
Proof.
  intros Hl Heq name_len. destruct (frame_header buf) as (l & Hr & Hc); [lia|].
  destruct (load32_slice buf 4) as (Hr4 & Hn4 & Hb4); [lia..|].
  unfold decode. rewrite Hr, outcome_bind_Ret, Hc, Heq, Z.eqb_refl. simpl negb.
  unfold header_len in *. rewrite Hr4, outcome_bind_Ret, Hn4. fold name_len.
  pose proof (to_int32_range (be_val (slice (buf ++ [x00]) 4 4))) as Hnr.
  fold name_len in Hnr. clearbody name_len.
  rewrite to_int32_small, (int_arith_ok (_ - 2 * 4)), outcome_bind_Ret by (unfold INT_MIN, INT_MAX in *; lia).
  change (2 * 4) with 8. destruct (Z.leb_spec (zlen buf - 8) name_len); [done|].
  unfold string_range. destruct (Z.ltb_spec name_len 0).
  - rewrite (proj2 (Z.leb_gt 8 (8 + name_len))) by lia. by rewrite andb_false_r.
  - rewrite !(proj2 (Z.leb_le _ _)) by lia. simpl. replace (8 + name_len - 8) with name_len by lia.
    destruct (create_message _) as [r|]; [|done].
    by rewrite int_arith_ok by (unfold INT_MIN, INT_MAX in *; lia).
Qed.

Lemma decode_frame name body :
  8 + zlen name + zlen body <= INT_MAX -> body <> [] ->
  decode (frame name body) =
    match create_message (b2s name) with
    | None => Ret None
    | Some result => Ret (ParseFromArray result body)
    end.
Proof.
  intros Hl Hb. pose proof (zlen_nonneg name). pose proof (zlen_nonneg body).
  assert (zlen body <> 0) by (intros ?%zlen_0_inv; done).
  assert (Hfl : be_val (take 4 (frame name body)) = zlen (frame name body) - 4).
  { unfold frame at 1. rewrite take_app_length', be_val_be32, zlen_frame by done.
    rewrite to_uint32_small; unfold INT_MAX in *; lia. }
  assert (Hnl : slice (frame name body ++ [x00]) 4 4 = be32 (zlen name)).
  { unfold frame. rewrite <-!app_assoc. by apply slice_of_app. }
  assert (Htz : to_int32 (to_uint32 (zlen name)) = zlen name).
  { rewrite to_uint32_small by (unfold INT_MAX in *; lia). apply to_int32_small. lia. }
  rewrite decode_good_length by (done || (rewrite zlen_frame; lia)).
  rewrite Hnl, be_val_be32, Htz, zlen_frame.
  rewrite (proj2 (Z.leb_gt _ _)) by lia. rewrite (proj2 (Z.ltb_ge _ _)) by lia.
  replace (8 + zlen name + zlen body - (zlen name + 8)) with (zlen body) by lia.
  rewrite slice_frame_body.
  replace (slice (frame name body) 8 (zlen name)) with name; [done|].
  unfold frame. rewrite (app_assoc (be32 _)). symmetry. by apply slice_of_app.
Qed.

(** A seven-byte buffer has NUL as the last byte of the second field. *)
Lemma slice_last_nul buf :
  zlen buf = 7 -> be_val (slice (buf ++ [x00]) 4 4) <= 4294967040.
Proof.
  intros Hl. unfold zlen in Hl. do 8 (destruct buf as [|? buf]; simpl in Hl; try lia).
  change (slice _ 4 4) with [b3; b4; b5; x00]. rewrite be_val4.
  pose proof (byte_val_range b3). pose proof (byte_val_range b4). pose proof (byte_val_range b5).
  change (byte_val x00) with 0. lia.
Qed.

Lemma take_slice_drop (buf : bytes) n :
  8 <= zlen buf -> 0 <= n -> 8 + n <= zlen buf ->
  buf = take 4 buf ++ slice buf 4 4 ++ slice buf 8 n ++ slice buf (8 + n) (zlen buf - (n + 8)).
Proof.
  intros Hl Hn Hle. rewrite (slice_rest buf (8 + n)) by lia.
  rewrite slice_drop by lia. pose proof (slice_drop buf 4 4) as E. change (4 + 4) with 8 in E.
  rewrite E by lia. symmetry. apply (take_drop 4).
Qed.

(** ** What [encode] and [decode] promise *)

Lemma encode_frame m body :
  AppendToString m = Some body ->
  8 + zlen (s2b (GetTypeName m)) + zlen body <= INT_MAX ->
  encode m = Ret (frame (s2b (GetTypeName m)) body).
Proof.
  intros Hm Hl. unfold encode. rewrite Hm. set (name := s2b _) in *.
  pose proof (zlen_nonneg name). pose proof (zlen_nonneg body).
  rewrite to_int32_small by (unfold INT_MAX in *; lia).
  unfold append_n at 1. rewrite (proj2 (Z.ltb_ge _ _)) by lia.
  rewrite outcome_bind_Ret. rewrite take_ge by (unfold zlen; lia).
  rewrite mem32_htonl. change (replicate 4 x00) with (be32 0).
  assert (Hz : zlen (((be32 0 ++ be32 (zlen name)) ++ name) ++ body) = 8 + zlen name + zlen body).
  { rewrite !zlen_app, !be32_length. lia. }
  rewrite Hz, to_int32_small by lia.
  rewrite int_arith_ok by (unfold header_len, INT_MIN, INT_MAX in *; lia).
  rewrite outcome_bind_Ret, mem32_htonl. unfold frame, header_len.
  rewrite <-!app_assoc, drop_app_length'; [|done]. do 2 f_equal. f_equal. lia.
Qed.

Lemma own_frame `{!ProtobufLaws H1} m body :
  AppendToString m = Some body -> body <> [] ->
  8 + zlen (s2b (GetTypeName m)) + zlen body <= INT_MAX ->
  encode m = Ret (frame (s2b (GetTypeName m)) body) /\
  decode (frame (s2b (GetTypeName m)) body) = Ret (Some m).
Proof.
  intros Hm Hb Hl. split; [by apply encode_frame|].
  destruct (reflection_total m) as (d & proto & Hd & Hp).
  rewrite decode_frame by done. rewrite b2s_s2b. unfold create_message. rewrite Hd, Hp. f_equal.
  by eapply parse_serialized.
Qed.

(** C25: every message of a generated type whose serialisation is not empty
    survives the wire: [decode] of the frame [encode] writes gives the
    message back, whatever the host's byte order and build. *)
Theorem decode_encode `{!ProtobufLaws H1} m body :
  AppendToString m = Some body -> body <> [] ->
  8 + zlen (s2b (GetTypeName m)) + zlen body <= INT_MAX ->
  (encode m ≫= decode) = Ret (Some m).
Proof. intros Hm Hb Hl. by destruct (own_frame m body Hm Hb Hl) as [-> Hd]. Qed.

(** A message that serialises to zero bytes does not survive: the bound
    on the type-name length is off by one, so [decode] trips its assertion,
    or gives no message in an NDEBUG build. *)
Theorem decode_encode_empty m :
  AppendToString m = Some [] -> 8 + zlen (s2b (GetTypeName m)) <= INT_MAX ->
  (encode m ≫= decode) = if NDEBUG then Ret None else AssertFail.
Proof.
  intros Hm Hl. set (name := s2b (GetTypeName m)) in *.
  pose proof (zlen_nonneg name).
  rewrite (encode_frame m []) by (rewrite ?zlen_nil; fold name; lia || done).
  fold name. rewrite outcome_bind_Ret.
  assert (Hfl : be_val (take 4 (frame name [])) = zlen (frame name []) - 4).
  { unfold frame at 1. rewrite take_app_length', be_val_be32, zlen_frame, zlen_nil by done.
    rewrite to_uint32_small; unfold INT_MAX in *; lia. }
  assert (Hnl : slice (frame name [] ++ [x00]) 4 4 = be32 (zlen name)).
  { unfold frame. rewrite <-!app_assoc. by apply slice_of_app. }
  rewrite decode_good_length by (done || (rewrite zlen_frame, zlen_nil; lia)).
  rewrite Hnl, be_val_be32, to_uint32_small, to_int32_small, zlen_frame, zlen_nil
    by (unfold INT_MAX in *; lia).
  rewrite (proj2 (Z.leb_le _ _)) by lia. unfold cassert. by destruct NDEBUG.
Qed.

(** C39: [decode] only accepts well-formed frames: a message that comes out
    of a buffer was parsed from a non-empty body that stands, under the name
    of its type, in a frame with both length fields exact. *)
Theorem decode_sound buf m :
  4 <= zlen buf <= INT_MAX -> decode buf = Ret (Some m) ->
  exists name body proto,
    buf = frame name body /\ body <> [] /\
    create_message (b2s name) = Some proto /\ ParseFromArray proto body = Some m.
Proof.
  intros Hl Hd.
  destruct (Z.eq_dec (be_val (take 4 buf)) (zlen buf - 4)) as [Heq|Hne].
  2:{ rewrite decode_bad_length in Hd by done. unfold cassert in Hd. by destruct NDEBUG. }
  destruct (Z.lt_ge_cases (zlen buf) 7) as [Hs|Hs].
  { exfalso. destruct (frame_header buf) as (l & Hr & Hc); [lia|].
    unfold decode in Hd. rewrite Hr, outcome_bind_Ret, Hc, Heq, Z.eqb_refl in Hd.
    simpl in Hd. unfold read32 in Hd. unfold header_len in Hd.
    by rewrite (proj2 (Z.leb_gt (4 + 4) _)) in Hd by lia. }
  rewrite decode_good_length in Hd by lia.
  set (field := slice (buf ++ [x00]) 4 4) in *.
  destruct (Z.leb_spec (zlen buf - 8) (to_int32 (be_val field))) as [|Hlt].
  { unfold cassert in Hd. by destruct NDEBUG. }
  destruct (Z.ltb_spec (to_int32 (be_val field)) 0) as [|Hn]; [done|].
  assert (Hf : field = slice buf 4 4).
  { unfold field, slice. rewrite drop_app_le by (unfold zlen in *; lia).
    rewrite take_app_le; [done|]. rewrite length_drop. unfold zlen in *. lia. }
  assert (Hfl : length field = 4%nat).
  { rewrite Hf. apply Nat2Z.inj. apply slice_length; lia. }
  assert (Hsmall : be_val field = to_int32 (be_val field)).
  { pose proof (be_val_range field Hfl). unfold to_int32 in *.
    rewrite Z.mod_small in * by lia. destruct (Z.ltb_spec (be_val field) 2147483648); lia. }
  rewrite <-Hsmall in *. set (n := be_val field) in *.
  destruct (create_message _) as [proto|] eqn:Hc; [|done].
  exists (slice buf 8 n), (slice buf (8 + n) (zlen buf - (n + 8))), proto.
  assert (Hz1 : zlen (slice buf 8 n) = n) by (apply slice_length; lia).
  assert (Hz2 : zlen (slice buf (8 + n) (zlen buf - (n + 8))) = zlen buf - (n + 8))
    by (apply slice_length; lia).
  split_and!; [| |done|congruence].
  - rewrite (take_slice_drop buf n) at 1 by lia. unfold frame. rewrite Hz1, Hz2.
    replace (4 + n + (zlen buf - (n + 8))) with (be_val (take 4 buf)) by lia.
    rewrite be32_be_val by (rewrite length_take; unfold zlen in *; lia).
    unfold n. rewrite be32_be_val by done. by rewrite Hf.
  - intros E. rewrite E, zlen_nil in Hz2. lia.
Qed.

(** Exactly which buffers make [decode] undefined: the packet length
    must be right, and then either the buffer is too short to hold the second
    length field, or that field is 2^31 or more, which the signed comparison
    takes for a small length. Both are for the peer to choose. *)
Theorem decode_ub_iff buf :
  4 <= zlen buf <= INT_MAX ->
  decode buf = UB <->
    be_val (take 4 buf) = zlen buf - 4 /\
    (zlen buf < 7 \/ INT_MAX < be_val (slice (buf ++ [x00]) 4 4)).
Proof.
  intros Hl.
  destruct (Z.eq_dec (be_val (take 4 buf)) (zlen buf - 4)) as [Heq|Hne].
  2:{ rewrite decode_bad_length by done. unfold cassert.
      split; [by destruct NDEBUG|tauto]. }
  destruct (Z.lt_ge_cases (zlen buf) 7) as [Hs|Hs].
  { destruct (frame_header buf) as (l & Hr & Hc); [lia|].
    split; [eauto|intros _]. unfold decode.
    rewrite Hr, outcome_bind_Ret, Hc, Heq, Z.eqb_refl. simpl. unfold read32, header_len.
    by rewrite (proj2 (Z.leb_gt (4 + 4) _)) by lia. }
  rewrite decode_good_length by lia.
  destruct (load32_slice buf 4) as (_ & _ & Hb); [lia..|].
  pose proof (slice_last_nul buf) as Hnul.
  set (n := be_val (slice (buf ++ [x00]) 4 4)) in *.
  unfold to_int32. rewrite Z.mod_small by lia. unfold INT_MAX in *.
  destruct (Z.ltb_spec n 2147483648).
  - split; [|lia]. destruct (Z.leb_spec (zlen buf - 8) n).
    + unfold cassert. by destruct NDEBUG.
    + rewrite (proj2 (Z.ltb_ge _ _)) by lia. by destruct (create_message _).
  - split; [intros _; split; [done|right; lia]|intros _].
    rewrite (proj2 (Z.leb_gt _ _)) by lia. by rewrite (proj2 (Z.ltb_lt _ _)) by lia.
Qed.
End serialization.

(** ** Concrete runs *)
Module Demo.
(** One registered message type, carrying its bytes. *)
Definition ping : string := "proto.ping".

Definition protobuf : Protobuf := {|
  message := bytes;
  descriptor := unit;
  GetTypeName := fun _ => ping;
  AppendToString := fun m => Some m;
  FindMessageTypeByName := fun n => if String.eqb n ping then Some tt else None;
  GetPrototype := fun _ => Some [];
  New := fun p => p;
  ParseFromArray := fun _ b => Some b
|}.

Lemma protobuf_laws : ProtobufLaws protobuf.
Proof.
  constructor.
  - intros m. by exists tt, [].
  - intros m [] proto b _ _ H. simpl in *. congruence.
Defined.

Definition body : bytes := [x01; x02; xff].

Lemma decode_encode_witness :
  (@encode x86_host debug_build protobuf body ≫= @decode x86_host debug_build protobuf) =
    Ret (Some body).
Proof.
  apply (@decode_encode x86_host debug_build protobuf protobuf_laws body body);
    [reflexivity|discriminate|vm_compute; discriminate].
Defined.

Lemma decode_encode_empty_witness :
  (@encode x86_host release_build protobuf [] ≫= @decode x86_host release_build protobuf) =
    Ret None.
Proof.
  apply (@decode_encode_empty x86_host release_build protobuf []);
    [reflexivity|vm_compute; discriminate].
Defined.

Definition good_frame : bytes := frame (s2b ping) body.

Lemma decode_sound_witness :
  exists name b proto, good_frame = frame name b /\ b <> [] /\
    @create_message protobuf (b2s name) = Some proto /\
    @ParseFromArray protobuf proto b = Some body.
Proof.
  apply (@decode_sound x86_host debug_build protobuf good_frame body);
    [vm_compute; split; discriminate|vm_compute; reflexivity].
Defined.

(** Nine bytes: a correct packet length, then the type-name length 2^32 - 1. *)
Definition bad_frame : bytes := be32 5 ++ [xff; xff; xff; xff] ++ [x00].

Lemma decode_ub_iff_witness : @decode x86_host release_build protobuf bad_frame = UB.
Proof.
  apply (@decode_ub_iff x86_host release_build protobuf bad_frame);
    [vm_compute; split; discriminate|].
  split; [vm_compute; reflexivity|right; vm_compute; reflexivity].
Defined.
End Demo.
