(* ===== verification/OpenSSL.v ===== *)
(** * OpenSSL: the cryptography the program calls

    libavproto calls OpenSSL for RSA with PKCS#1 padding, for the modulus of a
    key as bytes, and for X.509 certificates.  These calls are the operations
    of a class; their documented behaviour is a second class, which only the
    theorems that need it assume.  An instance fixes the random padding. *)

From S2P Require Import Prelude.

Class OpenSSL := {
  RSA : Type;
  X509 : Type;
  EVP_PKEY : Type;
  (** the modulus size in bytes *)
  RSA_size : RSA -> Z;
  (** The block operations: the bytes written to the output block, or [None]
      when the call returns -1. *)
  RSA_public_encrypt_block : RSA -> bytes -> option bytes;
  RSA_private_decrypt_block : RSA -> bytes -> option bytes;
  RSA_private_encrypt_block : RSA -> bytes -> option bytes;
  RSA_public_decrypt_block : RSA -> bytes -> option bytes;
  (** the modulus as a big-endian number (BN_bn2bin), and the public key with
      exponent 65537 and that modulus (BN_bin2bn) *)
  RSA_n : RSA -> bytes;
  RSA_of_n : bytes -> RSA;
  (** DER encoding and decoding of certificates; [None] is a null pointer *)
  i2d_X509 : X509 -> bytes;
  d2i_X509 : bytes -> option X509;
  X509_get_pubkey : X509 -> option EVP_PKEY;
  EVP_PKEY_get1_RSA : EVP_PKEY -> option RSA
}.

(** RSA_PKCS1_PADDING_SIZE *)
Definition RSA_PKCS1_PADDING_SIZE : Z := 11.

(** The documented behaviour of the block operations.  [rsa_pair p s]: the
    public key [p] belongs to the private key [s]. *)
Class OpenSSLLaws (O : OpenSSL) := {
  rsa_pair : RSA -> RSA -> Prop;
  rsa_pair_size p s : rsa_pair p s -> RSA_size p = RSA_size s;
  rsa_pair_of_n p s : rsa_pair p s -> rsa_pair (RSA_of_n (RSA_n s)) s;
  RSA_encrypt_decrypt p s b :
    rsa_pair p s -> zlen b <= RSA_size s - RSA_PKCS1_PADDING_SIZE ->
    exists c, RSA_public_encrypt_block p b = Some c /\ zlen c = RSA_size s /\
              RSA_private_decrypt_block s c = Some b;
  RSA_sign_verify p s b :
    rsa_pair p s -> zlen b <= RSA_size s - RSA_PKCS1_PADDING_SIZE ->
    exists c, RSA_private_encrypt_block s b = Some c /\ zlen c = RSA_size s /\
              RSA_public_decrypt_block p c = Some b
}.

(** ** A concrete instance, for the runs

    A key is a one-byte identity, zero for the key without a modulus; a block is the identity, the length, the data
    and zeros up to 16 bytes; it opens with the same identity only. *)
Module Toy.
Definition size : nat := 16.

Definition seal (k : byte) (b : bytes) : option bytes :=
  if decide (length b <= 5)%nat
  then Some (k :: byte_of (zlen b) :: b ++ replicate (14 - length b) x00) else None.

Definition unseal (k : byte) (c : bytes) : option bytes :=
  match c with
  | k' :: n :: rest => if decide (k = k') then Some (take (Z.to_nat (byte_val n)) rest) else None
  | _ => None
  end.

Definition openssl : OpenSSL := {|
  RSA := byte; X509 := byte; EVP_PKEY := byte;
  RSA_size := fun k => if Byte.eqb k x00 then 0 else 16;
  RSA_public_encrypt_block := seal;
  RSA_private_decrypt_block := unseal;
  RSA_private_encrypt_block := seal;
  RSA_public_decrypt_block := unseal;
  RSA_n := fun k => [k];
  RSA_of_n := fun n => match n with [k] => k | _ => x00 end;
  i2d_X509 := fun k => [k];
  d2i_X509 := fun b => match b with [k] => Some k | _ => None end;
  X509_get_pubkey := fun k => Some k;
  EVP_PKEY_get1_RSA := fun k => Some k
|}.

Lemma seal_unseal k b :
  zlen b <= 5 -> exists c, seal k b = Some c /\ zlen c = 16 /\ unseal k c = Some b.
Proof.
  intros Hb. unfold zlen in Hb. eexists. unfold seal. rewrite decide_True by lia.
  split_and!; [done| |].
  - unfold zlen. simpl. rewrite length_app, length_replicate. lia.
  - simpl. rewrite decide_True by done. f_equal.
    rewrite byte_val_of, Z.mod_small by (unfold zlen; lia).
    unfold zlen. by rewrite Nat2Z.id, take_app_length.
Qed.

Definition laws : OpenSSLLaws openssl.
Proof.
  refine {| rsa_pair := fun p s => (p : @RSA openssl) = s |};
    simpl; unfold RSA_PKCS1_PADDING_SIZE; try done.
  - by intros p s ->.
  - intros p s b ->. pose proof (zlen_nonneg b). destruct (Byte.eqb s x00); intros Hb; [lia|]. by apply seal_unseal.
  - intros p s b ->. pose proof (zlen_nonneg b). destruct (Byte.eqb s x00); intros Hb; [lia|]. by apply seal_unseal.
Defined.

Lemma not_tiny (r : @RSA openssl) : RSA_size r <> RSA_PKCS1_PADDING_SIZE.
Proof. simpl. by destruct (Byte.eqb r x00). Qed.
Lemma size_16 (r : @RSA openssl) : r <> x00 -> RSA_size r = 16.
Proof. intros Hr. simpl. destruct (Byte.eqb r x00) eqn:E; [|done]. by apply Byte.byte_dec_bl in E. Qed.
End Toy.
