(* ===== verification/RootCa.v ===== *)
(** * RootCa: the built-in root certificate

    libavproto/src/root_ca.cpp is the text of one certificate, which the
    constructor of [avkernel_impl] gives to PEM_read_bio_X509 and
    [avkernel::get_root_ca] returns; no program verifies anything with it.
    What is checked here is that the text is what its reader expects: one PEM
    block (RFC 7468) around one DER item (X.690) of the shape of a certificate.
    The class [root_cert] and the template [container_remove_if_all], at the top
    of avkernel.cpp, which nothing uses, are here too. *)

From S2P Require Import Prelude Wire OpenSSL.

(** ** The text *)
Definition avim_root_ca_certificate_string : string :=
"-----BEGIN CERTIFICATE-----
MIIJ/jCCBeYCCQCe/1kdkGDRZDANBgkqhkiG9w0BAQUFADCBwDELMAkGA1UEBhMC
Y24xETAPBgNVBAgMCHNoYW5naGFpMREwDwYDVQQHDAhzaGFuZ2hhaTEVMBMGA1UE
CgwMYXZwbGF5ZXIub3JnMSswKQYDVQQLDCJDZXJ0aWZpY2F0ZSBBZ2VuY3kgb2Yg
YXZwbGF5ZXIub3JnMScwJQYDVQQDDB5hdnBsYXllci5vcmcgY29tbXVuaXR5IENB
IFJvb3QxHjAcBgkqhkiG9w0BCQEWD2NhQGF2cGxheWVyLm9yZzAeFw0xNDExMDcx
MDI0MzZaFw0xNzExMDYxMDI0MzZaMIHAMQswCQYDVQQGEwJjbjERMA8GA1UECAwI
c2hhbmdoYWkxETAPBgNVBAcMCHNoYW5naGFpMRUwEwYDVQQKDAxhdnBsYXllci5v
cmcxKzApBgNVBAsMIkNlcnRpZmljYXRlIEFnZW5jeSBvZiBhdnBsYXllci5vcmcx
JzAlBgNVBAMMHmF2cGxheWVyLm9yZyBjb21tdW5pdHkgQ0EgUm9vdDEeMBwGCSqG
SIb3DQEJARYPY2FAYXZwbGF5ZXIub3JnMIIEIjANBgkqhkiG9w0BAQEFAAOCBA8A
MIIECgKCBAEAzVwxivoLnk0mmv5tKKYo+LvZoMUB5OLoNbU1t8q/2gkawsKn5ms1
X72x+eec8agaOgC3NAJYq8U4EKeRcHjvahCTny+ps2zUbKG6+TOn1GY+YqE/Kmh1
wJUX5TTath+JqWdgI6ggx1EzSyscYRGxjmT7Hrp7fvKC8uJA8MmkAulAbRU6KNT4
JbVAndSxG9WLfAH1UzCInZWu2sudflsjsT/cwByFqtEncWtNX0JKH4DhQ0xPMni2
1oqFl+89aTF/E5O/1GcBbCHcc+tYD6j8INNDc0ytRVSw/GhwRdMqhrxUYTcvpMjq
pM1E43A/VS2wO3V+kbVJcnG84j7C9UFZx+wJ2AkwrWUYu2NWUJqDnjsgibsY/f0/
6bTAQ/YQMwBC4qi5M9ZQVmGFBl0h5zVsrV0QgLofzlbi8a/9bhVcXFv0bLKoGnBI
YiqAwGEqh2z7j9wAZn1HFHUAuP6/7w9cdyl3zEcrYFZAei97OLwF8oGu52RaR81p
8Xlh8rCdsVGpWBFb9nkCnrfkN+gMdkYBLzHPXd/BBHo+4kGMDanoEUD7uZwI4lhm
uLhkjWfmuHrHrDW5FCQ5GEXKJVMe2z4cp55xIxdT2XOvmH9OHMHT4XZ1gNTDpidO
zWLonHly5X1AvxFuQOynG0Y0rmP0ve3Zi2u+fI7iZHjfy22sR/GyamlvkCwZxhVU
b+2XNv9aOalqzWD4hlQqENavXr6+G7XQxTHWoEMTAJQQet84AeySgsc4NLp3xdal
JuV29V9uOlAL93FQthWlN8Og47PPxc23FoOq6uScs9d+U0VlAhSRylfnetXHKyf4
0tLWagY5zqhAS3bBCOMIGa85N3sNUysTB+zQcMBzu/iJXEzTl2YH8SyOUwvGkPJj
M2Kg/wvgP0aLWFTZyaTDQlKsPT9qkkR875huN5R37gMkLwyCGzUh+p+7ZX29S6vc
uzvt4tTi79AOuJorc5OFoKijYWVonzJRDkfnCdljTKmOAgLM8vQo2ylYf20MswcD
aWZk25/S0orEO89eAzy/Y1ZfkYYYYtBBHFgM625+tNqh9Rod3VL5KC8CPZs+pq35
xdUJikKovBwxcf6tIGnCEcs7U+pWcCGLI4M+ovnQN19LaClVFow3Us++tDOh9NKK
zcANyDNVp4k6AE6qJPTxb7ppXrubCMd+QSh2ZbbfrIGXvQhSMCKtq7wBDMjmvehQ
sOehmMUx3glKkIXVvOaikzAplKSvhfceQGcAXVn6CaJbZ0y8VElKV8V5pq1pRzOY
JYI3C35qrV3n3Qd0fIzVVbxFIE8HU0gWP3GrT30GIbKxZEoxCIkTlV/rt+XAuxpA
hnx0nCvjo54x3gFS1J9Qoqxr+5yKZd4QjQIDAQABMA0GCSqGSIb3DQEBBQUAA4IE
AQB3BrVl8oNCscO8c75b1U8ODAkQ+YorZ97BAxFAXBSiudS83gmZlp0z/QTcg1dC
kiwc34jU+k/Hmzc8T8rBgYqrPczfylwW9jWit6OvPADDudimhNyJTdplp/7OQsXX
3W1V0BcaPOyOYI8Kt3U3kk9MEhqJJFrhSlWilbCIURcYCcRvsvJSElEpU3gLr/VI
EOL0a/JW0+2i2guO8/p2uvQnC4Kugk/H4Krwg+Hl4fCkaUb0BJ7+ra0Z/1UXu5UV
lMHeEcgsqcPsVTWOzvKkup63WOL8pypUz2wakjc26xpnQRPtjS2c/33uLUcl2lbj
8PdwJfmpTe0n78wfZQ6/q9MaY2+NZYeX3sZYY82I7lDUhzrSXAuOVWoSwTzFx0pW
4msr47FVE8DQ19+ea85lJFjKrClRgXpqhfLfVQ1NLQwmpmmm0ybwQEQZlZATa04s
IHm7gda52THlb9/DfZsU8yDIVtyy6I005P/MvD7xTjcynED/f6X8n01xtLocYrIX
VG/k+2X/mtNjjoRa8dP8USrL0G8b4Ye4wHhnFAEi7ShdmGiJSKLjTlzgxarumpei
mD1PaS2tVtdZ1aXfuWNVdYBXXdr48NIUfJgA9F7QtVOOiyHrfbeYtjPWdgCm9Ntp
QUn6Ms1NjxDs27DL9CFo5IbRtFp6bWme8N1tC9tL3QnJn6bQxds7Nd6S9ie56zYY
1j08U4wAPYp5kTSJ+qHnjP+KcB6X3ieYg2FLgQ+a2CdXL5c9D087HoETNLhRC9Ca
HQzmB+grJ/GH24688i3NnW+sZE1RZDGUD0hbeVxyUsqe0Zy7MgE8DXtY/VjTFEO/
t51An5KBGR9GeyXqM+STL3RdS9zoOidzZ59jq/cUT82wt9qR8IYLhnLWWAMmeux+
8vjLH710ul3nkasTkKFbrNDx2BKvKOEQ8OBx7KHBZKXi28/TE8ujm9Wqp0gxdFj0
eGbZK1otTVFeig1+rqkAnykfZrzsQCt99boj7FftlIlxuV10phZLu0iY2AqlwihH
qN35WZrn+cPp0zzJBAMszBVFzjJvxj/Fi8nfbKhj21WXUTqYA1BBUH2mOVQlIp9T
KdYQgG2j0o6JFjqdnRgxpyqNv8mjAseDXx3KmsZzHe28+3GD2PhDVTspVJBP8Mu4
9nqIIMDmhWYhbmRjLoH7dFASp9mZNDk+hUtprc1AvwQS4wd6XNRS0E42B8GE1L03
93INTSXykrMZyDwFcHlaGQyVQ4RWgRJ3/zQ1ODmmlyPXLjneQVxqsXLepxgPj/yU
o9doRDkvYhUJmaWrlXQ8r89SN8gzdA0p1RefSOvzbp+HTpvSGOO0AEeCeYP4VAuP
RWoyL0IT0ajNL716EvFY1XE9
-----END CERTIFICATE-----".

(** ** PEM *)

(** The value of a base64 character. *)
Definition base64_value (c : byte) : option Z :=
  let v := byte_val c in
  if (65 <=? v) && (v <=? 90) then Some (v - 65)
  else if (97 <=? v) && (v <=? 122) then Some (v - 71)
  else if (48 <=? v) && (v <=? 57) then Some (v + 4)
  else if v =? 43 then Some 62
  else if v =? 47 then Some 63
  else None.

(** Whole groups of four characters; none of the text's groups is padded. *)
Fixpoint base64_decode (cs : bytes) : option bytes :=
  match cs with
  | [] => Some []
  | a :: b :: c :: d :: cs =>
      a ← base64_value a; b ← base64_value b; c ← base64_value c; d ← base64_value d;
      let v := a * 262144 + b * 4096 + c * 64 + d in
      rest ← base64_decode cs;
      Some (byte_of (v / 65536) :: byte_of (v / 256) :: byte_of v :: rest)
  | _ => None
  end.

(** The lines of a text. *)
Fixpoint lines (cs : bytes) : list bytes :=
  match cs with
  | [] => [[]]
  | c :: cs =>
      if decide (c = x0a) then [] :: lines cs
      else match lines cs with l :: ls => (c :: l) :: ls | [] => [[c]] end
  end.

(** The content of a PEM block: between its two boundaries, 64 characters on
    each line but the last. *)
Definition pem_certificate (text : string) : option bytes :=
  match lines (s2b text) with
  | first :: rest =>
      guard (first = s2b "-----BEGIN CERTIFICATE-----");;
      guard (last rest = Some (s2b "-----END CERTIFICATE-----"));;
      let body := removelast rest in
      guard (Forall (fun l => length l = 64%nat) (removelast body));;
      guard (length (default [] (last body)) <= 64)%nat;;
      base64_decode (concat body)
  | [] => None
  end.

(** ** DER *)

Fixpoint be_nat (b : bytes) (acc : Z) : Z :=
  match b with [] => acc | c :: b => be_nat b (acc * 256 + byte_val c) end.

(** The first item: its tag, its content, and what follows it. *)
Definition der_item (b : bytes) : option (Z * bytes * bytes) :=
  match b with
  | tag :: l :: b =>
      let '(len, b) :=
        if byte_val l <? 128 then (byte_val l, b)
        else let n := Z.to_nat (byte_val l - 128) in (be_nat (take n b) 0, drop n b) in
      guard (len <= zlen b);;
      Some (byte_val tag, take (Z.to_nat len) b, drop (Z.to_nat len) b)
  | _ => None
  end.

(** All items of a content. *)
Fixpoint der_items (fuel : nat) (b : bytes) : option (list (Z * bytes)) :=
  match b, fuel with
  | [], _ => Some []
  | _, O => None
  | _, S fuel =>
      '(tag, content, rest) ← der_item b;
      items ← der_items fuel rest;
      Some ((tag, content) :: items)
  end.

Definition sequence_tag : Z := 48.

(** The fields of a version 1 certificate: serial number, algorithm, issuer,
    validity, subject, key; algorithm; signature. *)
Record certificate := {
  serial : bytes; tbs_algorithm : bytes; issuer : bytes; validity : bytes; subject : bytes;
  subject_key : bytes; algorithm : bytes; signature : bytes
}.

Definition parse_certificate (der : bytes) : option certificate :=
  match der_items 1 der with
  | Some [(48, cert)] =>
      match der_items 3 cert with
      | Some [(48, tbs); (48, alg); (3, sig)] =>
          match der_items 6 tbs with
          | Some [(2, sn); (48, talg); (48, iss); (48, val); (48, sub); (48, key)] =>
              Some {| serial := sn; tbs_algorithm := talg; issuer := iss; validity := val;
                      subject := sub; subject_key := key; algorithm := alg; signature := sig |}
          | _ => None
          end
      | _ => None
      end
  | _ => None
  end.

(** The two times of a validity, as they are written. *)
Definition validity_times (c : certificate) : option (list string) :=
  (fun items : list (Z * bytes) => (fun it => b2s it.2) <$> items) <$> der_items 2 (validity c).

(** The built-in certificate can be read: its text is one PEM block whose
    content is exactly one DER certificate; the certificate is issued by its own
    subject, states the same algorithm twice, and was valid until 2017-11-06. *)
Theorem root_ca_readable : exists der c,
  pem_certificate avim_root_ca_certificate_string = Some der /\ parse_certificate der = Some c /\
  issuer c = subject c /\ tbs_algorithm c = algorithm c /\
  validity_times c = Some ["141107102436Z"; "171106102436Z"].
Proof.
  eexists _, _. split_and!; [vm_compute; reflexivity|vm_compute; reflexivity|..]; vm_compute; reflexivity.
Qed.

(** ** The kernel's copy, and verification *)

(** OpenSSL's certificate stores.  X509_verify_cert is documented to return 1
    for a certificate that is verified, 0 for one that is not, and a negative
    number when it could not tell. *)
Class X509Store (O : OpenSSL) := {
  PEM_read_mem_X509 : bytes -> option X509;
  X509_STORE : Type;
  X509_STORE_new : X509_STORE;
  X509_STORE_add_cert : X509 -> X509_STORE -> X509_STORE;
  X509_STORE_set_default_paths : X509_STORE -> X509_STORE;
  X509_verify_cert : X509_STORE -> X509 -> Z -> Z
}.

Section root_cert.
Context `{O : OpenSSL} `{!X509Store O}.

(** [m_root_ca_cert] and [get_root_ca]; [None] is a null pointer. *)
Definition m_root_ca_cert : option X509 := PEM_read_mem_X509 (s2b avim_root_ca_certificate_string).
Definition get_root_ca : option X509 := m_root_ca_cert.

Definition X509_V_FLAG_CB_ISSUER_CHECK : Z := 1.

(** [root_cert::root_cert] and [root_cert::verity], whose bool is the int that
    OpenSSL returned. *)
Definition root_cert (ca : X509) : X509_STORE :=
  X509_STORE_set_default_paths (X509_STORE_add_cert ca X509_STORE_new).
Definition verity (m_store : X509_STORE) (cert : X509) : bool :=
  negb (X509_verify_cert m_store cert X509_V_FLAG_CB_ISSUER_CHECK =? 0).

(** A verification that failed to run counts as a success. *)
Lemma verity_takes_errors m_store cert :
  X509_verify_cert m_store cert X509_V_FLAG_CB_ISSUER_CHECK < 0 -> verity m_store cert = true.
Proof. unfold verity. intros Hneg. destruct (Z.eqb_spec (X509_verify_cert m_store cert X509_V_FLAG_CB_ISSUER_CHECK) 0); [lia|done]. Qed.
End root_cert.

(** ** [container_remove_if_all] *)

(** For a container whose iterators outlive the erasure of other elements, such
    as std::list; [it] is a position. *)
Section remove.
Context {A : Type} (pred : A -> bool).

(** [std::find_if] from a position. *)
Fixpoint skipped (l : list A) : nat :=
  match l with [] => O | x :: l => if pred x then O else S (skipped l) end.
Definition find_if (it : nat) (c : list A) : nat := (it + skipped (drop it c))%nat.

Fixpoint remove_loop (fuel it : nat) (c : list A) : outcome (nat * list A) :=
  match fuel with
  | O => OutOfFuel
  | S fuel =>
      let it := find_if it c in
      if bool_decide (it = length c) then Ret (it, c) else remove_loop fuel it (delete it c)
  end.
Definition container_remove_if_all (c : list A) : outcome (nat * list A) :=
  remove_loop (S (length c)) 0 c.

Definition kept : list A -> list A := filter (fun x => negb (pred x)).

Lemma kept_cons x l : kept (x :: l) = if pred x then kept l else x :: kept l.
Proof. unfold kept. rewrite filter_cons. by destruct (pred x). Qed.

Lemma skipped_spec l :
  (skipped l = length l /\ kept l = l) \/
  exists a w b, l = a ++ w :: b /\ skipped l = length a /\ kept l = a ++ kept b.
Proof.
  induction l as [|x l IH]; [by left|]. cbn [skipped]. rewrite kept_cons. destruct (pred x) eqn:Ex.
  - right. by exists [], x, l.
  - destruct IH as [[-> ->]|(a & w & b & -> & -> & ->)]; [by left|]. right. by exists (x :: a), w, b.
Qed.

Lemma remove_loop_kept fuel pre rest :
  (length rest < fuel)%nat ->
  remove_loop fuel (length pre) (pre ++ rest) = Ret (length (pre ++ kept rest), pre ++ kept rest).
Proof.
  revert pre rest. induction fuel as [|fuel IH]; intros pre rest Hf; [lia|]. cbn [remove_loop].
  unfold find_if. rewrite drop_app_length. destruct (skipped_spec rest) as [[Es Ek]|(a & w & b & -> & Es & Ek)].
  - rewrite Es, Ek, <-length_app, bool_decide_eq_true_2 by done. done.
  - rewrite Es, Ek, app_assoc, <-length_app in *. rewrite !length_app in Hf. simpl in Hf.
    rewrite bool_decide_eq_false_2 by (rewrite !length_app; simpl; lia).
    rewrite delete_middle, IH by lia. by rewrite <-app_assoc.
Qed.

(** It ends with what the predicate does not hold of, in order, and the end. *)
Theorem container_remove_if_all_correct c :
  container_remove_if_all c = Ret (length (kept c), kept c).
Proof. apply (remove_loop_kept (S (length c)) [] c). lia. Qed.
End remove.
