(* ===== verification/RsaChunk.v ===== *)
(** * RsaChunk: the std::string wrappers around RSA

    libavproto/include/avproto.hpp: four inline functions split a string into
    blocks, run the OpenSSL block operation on each and append the results.
    The loops count in [int] while the strings have [size_t] lengths. *)

From S2P Require Import Prelude OpenSSL.

(** [n] bytes at [&from[i]] *)
Definition read_at (from : bytes) (i n : Z) : outcome bytes :=
  if (0 <=? i) && (0 <=? n) && (i + n <=? zlen from) then Ret (slice from i n) else UB.

Lemma read_at_ok from i n :
  0 <= i -> 0 <= n -> i + n <= zlen from -> read_at from i n = Ret (slice from i n).
Proof. intros. unfold read_at. by rewrite !(proj2 (Z.leb_le _ _)) by lia. Qed.

Section loop.
(** The loop the four functions share: its condition, the length it passes
    to the block operation and its stride, all functions of [i]. *)
Variables (keysize : Z) (cond : Z -> bool) (flen : Z -> Z) (stride : Z).
Variables (op : bytes -> option bytes) (from : bytes).

Fixpoint rsa_loop (fuel : nat) (i : Z) (result : bytes) : outcome bytes :=
  match fuel with
  | O => OutOfFuel
  | S fuel =>
      if cond i then
        input ← read_at from i (flen i);
        (* &block[0] on a vector of keysize elements *)
        if keysize <=? 0 then UB else
        match op input with
        | None => Throw length_error (* append(block, (size_t)-1) *)
        | Some block =>
            i' ← int_arith (i + stride);
            rsa_loop fuel i' (result ++ block)
        end
      else Ret result
  end.
End loop.

(** A comparison [i < from.length()]: the int is converted to size_t. *)
Definition lt_size (i : Z) (from : bytes) : bool := i mod 18446744073709551616 <? zlen from.

Section rsa.
Context `{OpenSSL}.

Definition RSA_public_encrypt (rsa : RSA) (from : bytes) : outcome bytes :=
  let keysize := RSA_size rsa in
  let chunksize := keysize - RSA_PKCS1_PADDING_SIZE in
  let inputlen := to_int32 (zlen from) in
  rsa_loop keysize (fun i => i <? inputlen) (fun i => Z.min chunksize (inputlen - i)) chunksize
    (RSA_public_encrypt_block rsa) from (S (length from)) 0 [].

Definition RSA_private_decrypt (rsa : RSA) (from : bytes) : outcome bytes :=
  let keysize := RSA_size rsa in
  rsa_loop keysize (fun i => lt_size i from)
    (fun i => Z.min keysize (to_int32 (zlen from - i))) keysize
    (RSA_private_decrypt_block rsa) from (S (length from)) 0 [].

Definition RSA_private_encrypt (rsa : RSA) (from : bytes) : outcome bytes :=
  let keysize := RSA_size rsa in
  let chunksize := keysize - RSA_PKCS1_PADDING_SIZE in
  let inputlen := to_int32 (zlen from) in
  rsa_loop keysize (fun i => lt_size i from) (fun i => Z.min chunksize (inputlen - i)) chunksize
    (RSA_private_encrypt_block rsa) from (S (length from)) 0 [].

Definition RSA_public_decrypt (rsa : RSA) (from : bytes) : outcome bytes :=
  let keysize := RSA_size rsa in
  let inputlen := to_int32 (zlen from) in
  rsa_loop keysize (fun i => lt_size i from) (fun i => Z.min keysize (inputlen - i)) keysize
    (RSA_public_decrypt_block rsa) from (S (length from)) 0 [].
End rsa.

(** ** The reference: split into blocks, map, concatenate *)

Fixpoint chunks_aux (fuel n : nat) (l : bytes) : list bytes :=
  match fuel, l with
  | S fuel, _ :: _ => take n l :: chunks_aux fuel n (drop n l)
  | _, _ => []
  end.

Definition chunks (n : Z) (l : bytes) : list bytes := chunks_aux (length l) (Z.to_nat n) l.

Abbreviation join := (@List.concat byte).

Definition map_chunks (n : Z) (op : bytes -> option bytes) (l : bytes) : option bytes :=
  join <$> mapM op (chunks n l).

Definition or_length_error (o : option bytes) : outcome bytes :=
  match o with Some r => Ret r | None => Throw length_error end.

Lemma chunks_aux_fuel f g n (l : bytes) :
  (0 < n)%nat -> (length l <= f)%nat -> (length l <= g)%nat ->
  chunks_aux f n l = chunks_aux g n l.
Proof.
  intros Hn. revert g l. induction f as [|f IH]; intros g l Hf Hg.
  { destruct l; simpl in *; [by destruct g|lia]. }
  destruct l as [|b l]; [by destruct g|]. destruct g as [|g]; simpl in *; [lia|].
  f_equal. apply IH; rewrite length_drop; simpl; lia.
Qed.

Lemma chunks_nil n : chunks n [] = [].
Proof. reflexivity. Qed.

Lemma chunks_cons n l :
  0 < n -> l <> [] -> chunks n l = take (Z.to_nat n) l :: chunks n (drop (Z.to_nat n) l).
Proof.
  intros Hn Hl. unfold chunks. destruct l as [|b l]; [done|].
  cbn [chunks_aux length]. f_equal. apply chunks_aux_fuel; rewrite ?length_drop; simpl; lia.
Qed.

(** Induction that follows the loop. *)
Lemma chunk_ind (n : Z) (Hn : 0 < n) (P : bytes -> Prop) :
  P [] -> (forall l, l <> [] -> P (drop (Z.to_nat n) l) -> P l) -> forall l, P l.
Proof.
  intros H0 Hs l. remember (length l) as k eqn:Hk.
  revert l Hk. induction (lt_wf k) as [k _ IH]. intros l ->.
  destruct l as [|b l]; [done|]. apply Hs; [done|].
  eapply IH; [|done]. rewrite length_drop. simpl. lia.
Qed.

Lemma chunks_concat n l : 0 < n -> join (chunks n l) = l.
Proof.
  intros Hn. induction l as [|l Hl IH] using (chunk_ind n Hn); [done|].
  rewrite chunks_cons by done. simpl. rewrite IH. apply take_drop.
Qed.

Lemma chunks_bounded n l : 0 < n -> Forall (fun c => 0 < zlen c <= n) (chunks n l).
Proof.
  intros Hn. induction l as [|l Hl IH] using (chunk_ind n Hn); [done|].
  rewrite chunks_cons by done. constructor; [|done].
  destruct l; [done|]. unfold zlen. rewrite length_take. simpl. lia.
Qed.

Lemma chunks_number n l :
  0 < n -> Z.of_nat (length (chunks n l)) = (zlen l + n - 1) / n.
Proof.
  intros Hn. induction l as [|l Hl IH] using (chunk_ind n Hn).
  { symmetry. apply Z.div_small. change (zlen (@nil byte)) with 0. lia. }
  rewrite chunks_cons by done. simpl length. rewrite Nat2Z.inj_succ, IH.
  assert (0 < zlen l) by (destruct l; [done|unfold zlen; simpl; lia]).
  unfold zlen at 1. rewrite length_drop.
  destruct (Z.le_gt_cases n (zlen l)).
  - replace (Z.of_nat (length l - Z.to_nat n)) with (zlen l - n) by (unfold zlen in *; lia).
    replace (zlen l + n - 1) with (zlen l - n + n - 1 + 1 * n) by lia.
    rewrite Z.div_add by lia. lia.
  - replace (Z.of_nat (length l - Z.to_nat n)) with 0 by (unfold zlen in *; lia).
    rewrite (Z.div_small (0 + n - 1)) by lia. apply Z.div_unique with (zlen l - 1); lia.
Qed.

(** Blocks of full size come apart as they were put together. *)
Lemma chunks_blocks n (cs : list bytes) :
  0 < n -> Forall (fun c => zlen c = n) cs -> chunks n (join cs) = cs.
Proof.
  intros Hn. induction 1 as [|c cs Hc Hcs IH]; [done|]. simpl.
  rewrite chunks_cons by (done || (destruct c; [unfold zlen in Hc; simpl in Hc; lia|done])).
  assert (Z.to_nat n = length c) as -> by (unfold zlen in Hc; lia).
  by rewrite take_app_length, drop_app_length, IH.
Qed.

(** ** The loop does what the reference does *)
Section loop_correct.
Variables (keysize : Z) (cond : Z -> bool) (flen : Z -> Z) (stride : Z).
Variables (op : bytes -> option bytes) (from : bytes).
Hypothesis keysize_pos : 0 < keysize.
Hypothesis stride_pos : 0 < stride.
Hypothesis no_overflow : zlen from + stride <= INT_MAX.
Hypothesis cond_ok : forall i, 0 <= i <= zlen from + stride -> cond i = (i <? zlen from).
Hypothesis flen_ok : forall i, 0 <= i < zlen from -> flen i = Z.min stride (zlen from - i).

Lemma rsa_loop_done fuel i result :
  zlen from <= i <= zlen from + stride -> rsa_loop keysize cond flen stride op from (S fuel) i result = Ret result.
Proof.
  intros Hi. pose proof (zlen_nonneg from). simpl.
  by rewrite cond_ok, (proj2 (Z.ltb_ge _ _)) by lia.
Qed.

Lemma rsa_loop_correct fuel i result :
  0 <= i <= zlen from + stride ->
  Z.max 0 (zlen from - i) < Z.of_nat fuel ->
  rsa_loop keysize cond flen stride op from fuel i result =
    or_length_error (app result <$> map_chunks stride op (drop (Z.to_nat i) from)).
Proof.
  revert i result. induction fuel as [|fuel IH]; intros i result Hi Hf; [lia|].
  destruct (Z.lt_ge_cases i (zlen from)) as [Hlt|Hge].
  2:{ rewrite rsa_loop_done by lia. rewrite drop_ge by (unfold zlen in *; lia).
      simpl. by rewrite app_nil_r. }
  simpl. rewrite cond_ok, (proj2 (Z.ltb_lt _ _)) by lia.
  rewrite flen_ok, read_at_ok by lia. simpl.
  rewrite (proj2 (Z.leb_gt keysize 0)) by lia.
  unfold map_chunks. rewrite chunks_cons.
  2:{ done. }
  2:{ intros E%(f_equal length). rewrite length_drop in E. unfold zlen in *. simpl in E. lia. }
  assert (Htake : slice from i (Z.min stride (zlen from - i)) =
                  take (Z.to_nat stride) (drop (Z.to_nat i) from)).
  { unfold slice. destruct (Z.le_gt_cases stride (zlen from - i)).
    - by rewrite Z.min_l by lia.
    - rewrite Z.min_r, !take_ge by (try rewrite length_drop; unfold zlen in *; lia). done. }
  rewrite Htake. rewrite drop_drop, <-Z2Nat.inj_add by lia.
  simpl. destruct (op _) as [block|]; [|done]. simpl.
  rewrite int_arith_ok by (unfold INT_MIN, INT_MAX in *; lia). simpl.
  rewrite IH by lia. unfold map_chunks.
  destruct (mapM op _) as [bs|]; [|done]. simpl. by rewrite app_assoc.
Qed.
End loop_correct.

Lemma lt_size_ok i from :
  0 <= i <= INT_MAX -> lt_size i from = (i <? zlen from).
Proof. unfold INT_MAX. intros. unfold lt_size. by rewrite Z.mod_small by lia. Qed.

Lemma map_chunks_all n op l bs :
  Forall2 (fun c b => op c = Some b) (chunks n l) bs -> map_chunks n op l = Some (join bs).
Proof.
  intros HF. unfold map_chunks. replace (mapM op (chunks n l)) with (Some bs); [done|].
  symmetry. by apply mapM_Some_2.
Qed.

Section rsa_correct.
Context `{OpenSSL}.

(** The strings the [int] counters can walk. *)
Definition rsa_input_ok (rsa : RSA) (from : bytes) : Prop :=
  RSA_PKCS1_PADDING_SIZE < RSA_size rsa /\ zlen from + RSA_size rsa <= INT_MAX.

Ltac start_loop :=
  intros [Hk Hl]; unfold RSA_PKCS1_PADDING_SIZE in *;
  unfold RSA_public_encrypt, RSA_private_decrypt, RSA_private_encrypt, RSA_public_decrypt,
    RSA_PKCS1_PADDING_SIZE;
  match goal with |- context [zlen ?from] => pose proof (zlen_nonneg from)
                | |- context [rsa_loop _ _ _ _ _ ?from] => pose proof (zlen_nonneg from) end;
  rewrite rsa_loop_correct;
    [ rewrite drop_0; by destruct (map_chunks _ _ _) | lia | lia | lia | | |lia|unfold zlen; lia];
    intros i Hi.

Lemma RSA_public_encrypt_chunks rsa from :
  rsa_input_ok rsa from ->
  RSA_public_encrypt rsa from = or_length_error
    (map_chunks (RSA_size rsa - RSA_PKCS1_PADDING_SIZE) (RSA_public_encrypt_block rsa) from).
Proof. start_loop; by rewrite to_int32_small by lia. Qed.

Lemma RSA_private_encrypt_chunks rsa from :
  rsa_input_ok rsa from ->
  RSA_private_encrypt rsa from = or_length_error
    (map_chunks (RSA_size rsa - RSA_PKCS1_PADDING_SIZE) (RSA_private_encrypt_block rsa) from).
Proof. start_loop; [by rewrite lt_size_ok by lia|by rewrite to_int32_small by lia]. Qed.

Lemma RSA_public_decrypt_chunks rsa from :
  rsa_input_ok rsa from ->
  RSA_public_decrypt rsa from = or_length_error
    (map_chunks (RSA_size rsa) (RSA_public_decrypt_block rsa) from).
Proof. start_loop; [by rewrite lt_size_ok by lia|by rewrite to_int32_small by lia]. Qed.

Lemma RSA_private_decrypt_chunks rsa from :
  rsa_input_ok rsa from ->
  RSA_private_decrypt rsa from = or_length_error
    (map_chunks (RSA_size rsa) (RSA_private_decrypt_block rsa) from).
Proof. start_loop; [by rewrite lt_size_ok by lia|by rewrite to_int32_small by lia]. Qed.

(** The four wrappers, counting in [int] over [size_t] lengths, are the
    reference "split into blocks, run the block operation on each,
    concatenate": encryption in blocks of the key size less the padding,
    decryption in blocks of the key size, and a block operation that fails
    shows as std::length_error. *)
Theorem rsa_wrappers_chunked rsa from :
  rsa_input_ok rsa from ->
  let by_chunks n op := or_length_error (map_chunks n op from) in
  RSA_public_encrypt rsa from =
    by_chunks (RSA_size rsa - 11) (RSA_public_encrypt_block rsa) /\
  RSA_private_encrypt rsa from =
    by_chunks (RSA_size rsa - 11) (RSA_private_encrypt_block rsa) /\
  RSA_public_decrypt rsa from = by_chunks (RSA_size rsa) (RSA_public_decrypt_block rsa) /\
  RSA_private_decrypt rsa from = by_chunks (RSA_size rsa) (RSA_private_decrypt_block rsa).
Proof.
  intros Hok. split_and!.
  - by apply RSA_public_encrypt_chunks.
  - by apply RSA_private_encrypt_chunks.
  - by apply RSA_public_decrypt_chunks.
  - by apply RSA_private_decrypt_chunks.
Qed.

(** ** Termination: the loops end unless the stride is zero *)

Lemma int_arith_Ret z z' : int_arith z = Ret z' -> z' = z /\ z <= INT_MAX.
Proof.
  unfold int_arith, int_ok. destruct (_ && _) eqn:E; [|done].
  intros [= ->]. apply andb_prop in E as [_ E%Z.leb_le]. done.
Qed.

Lemma rsa_loop_ends keysize cond flen stride op from fuel i result :
  (forall j, 0 <= j <= INT_MAX -> cond j = true -> j < zlen from) ->
  (forall j, flen j <= stride) -> (stride = 0 -> keysize <= 0) ->
  0 <= i <= INT_MAX -> Z.max 0 (zlen from - i) < Z.of_nat fuel ->
  rsa_loop keysize cond flen stride op from fuel i result <> OutOfFuel.
Proof.
  intros Hc Hfl Hz. revert i result. induction fuel as [|fuel IH]; intros i result Hi Hf; [lia|].
  simpl. destruct (cond i) eqn:Ec; [|done]. apply Hc in Ec; [|done].
  unfold read_at. destruct (_ && _) eqn:Er; [|done]. simpl.
  destruct (Z.leb_spec keysize 0) as [|Hk]; [done|].
  destruct (op _) as [block|]; [|done].
  destruct (int_arith (i + stride)) as [i'| | | |] eqn:Ei; try done; [|by unfold int_arith in Ei; case_match].
  apply int_arith_Ret in Ei as [-> Hmax]. simpl. specialize (Hfl i).
  apply andb_prop in Er as [[_ Hn%Z.leb_le]%andb_prop _].
  assert (stride <> 0) by (intros ->; lia). apply IH; lia.
Qed.

Lemma to_int32_le z : 0 <= z -> to_int32 z <= z.
Proof.
  intros Hz. unfold to_int32. pose proof (Z.mod_le z 4294967296 Hz ltac:(lia)).
  destruct (Z.ltb_spec (z mod 4294967296) 2147483648); lia.
Qed.

Lemma lt_size_lt i (from : bytes) :
  0 <= i <= INT_MAX -> lt_size i from = true -> i < zlen from.
Proof.
  unfold lt_size, INT_MAX. intros Hi Hlt%Z.ltb_lt. by rewrite Z.mod_small in Hlt by lia.
Qed.

Lemma RSA_loops_end rsa from :
  (RSA_public_encrypt rsa from = OutOfFuel -> RSA_size rsa = RSA_PKCS1_PADDING_SIZE) /\
  (RSA_private_encrypt rsa from = OutOfFuel -> RSA_size rsa = RSA_PKCS1_PADDING_SIZE) /\
  RSA_public_decrypt rsa from <> OutOfFuel /\ RSA_private_decrypt rsa from <> OutOfFuel.
Proof.
  assert (Hlen : zlen from < Z.of_nat (S (length from))) by (unfold zlen; lia).
  pose proof (zlen_nonneg from). pose proof (to_int32_le (zlen from) ltac:(lia)).
  split_and!; unfold RSA_public_encrypt, RSA_private_encrypt, RSA_public_decrypt,
    RSA_private_decrypt.
  - intros E. destruct (decide (RSA_size rsa = RSA_PKCS1_PADDING_SIZE)) as [|Hne]; [done|].
    exfalso. revert E. apply rsa_loop_ends; [intros j _ Hj%Z.ltb_lt|..]; unfold INT_MAX; lia.
  - intros E. destruct (decide (RSA_size rsa = RSA_PKCS1_PADDING_SIZE)) as [|Hne]; [done|].
    exfalso. revert E. apply rsa_loop_ends; [intros j Hj; by apply lt_size_lt|..]; unfold INT_MAX; lia.
  - apply rsa_loop_ends; [intros j Hj; by apply lt_size_lt|..]; unfold INT_MAX; lia.
  - apply rsa_loop_ends; [intros j Hj; by apply lt_size_lt|..]; unfold INT_MAX; lia.
Qed.

(** With an 11-byte modulus, which OpenSSL takes and a peer may send, the
    chunk size of [RSA_public_encrypt] is zero and its loop never ends on a
    non-empty text: no amount of fuel lets it return, as long as encrypting
    the empty chunk succeeds. *)
Theorem rsa_encrypt_diverges rsa b from block fuel :
  RSA_size rsa = RSA_PKCS1_PADDING_SIZE -> zlen (b :: from) <= INT_MAX ->
  RSA_public_encrypt_block rsa [] = Some block ->
  RSA_public_encrypt rsa (b :: from) = OutOfFuel /\
  rsa_loop (RSA_size rsa) (fun i => i <? to_int32 (zlen (b :: from)))
    (fun i => Z.min (RSA_size rsa - RSA_PKCS1_PADDING_SIZE) (to_int32 (zlen (b :: from)) - i))
    (RSA_size rsa - RSA_PKCS1_PADDING_SIZE) (RSA_public_encrypt_block rsa) (b :: from) fuel 0 []
  = OutOfFuel.
Proof.
  intros Hk Hl Hop. unfold RSA_public_encrypt. generalize (S (length (b :: from))). intros n.
  rewrite Hk, Z.sub_diag. pose proof (zlen_nonneg from).
  rewrite to_int32_small by (rewrite zlen_cons; rewrite zlen_cons in Hl; lia).
  assert (Hloop : forall f r, rsa_loop RSA_PKCS1_PADDING_SIZE (fun i => i <? zlen (b :: from))
    (fun i => Z.min 0 (zlen (b :: from) - i)) 0 (RSA_public_encrypt_block rsa) (b :: from) f 0 r
    = OutOfFuel).
  { induction f as [|f IH]; intros r; [done|]. cbn [rsa_loop].
    rewrite (proj2 (Z.ltb_lt _ _)), Z.min_l, read_at_ok by (rewrite ?zlen_cons; lia).
    cbn [slice drop take Z.to_nat mbind outcome_bind].
    change (slice (b :: from) 0 0) with (@nil byte). rewrite Hop.
    change (int_arith (0 + 0)) with (@Ret Z 0). cbn. apply IH. }
  split; apply Hloop.
Qed.

(** An empty modulus (a packet without a public key) is undefined on any
    input: the output vector has no first element. *)
Lemma RSA_public_decrypt_empty_key rsa b from :
  RSA_size rsa = 0 -> zlen (b :: from) <= INT_MAX -> RSA_public_decrypt rsa (b :: from) = UB.
Proof.
  intros Hk Hl. unfold RSA_public_decrypt. rewrite Hk. cbn [rsa_loop].
  pose proof (zlen_nonneg from). rewrite zlen_cons in *.
  rewrite lt_size_ok by (unfold INT_MAX; lia). rewrite (proj2 (Z.ltb_lt _ _)) by (rewrite zlen_cons; lia).
  rewrite to_int32_small, Z.min_l by lia. by rewrite read_at_ok by (rewrite ?zlen_cons; lia).
Qed.

(** Encryption grows a string to whole blocks. *)
Definition sealed_len (keysize n : Z) : Z :=
  (n + (keysize - RSA_PKCS1_PADDING_SIZE) - 1) / (keysize - RSA_PKCS1_PADDING_SIZE) * keysize.

Lemma map_chunks_roundtrip n k op inv l :
  0 < n -> 0 < k ->
  (forall b, zlen b <= n -> exists c, op b = Some c /\ zlen c = k /\ inv c = Some b) ->
  exists c, map_chunks n op l = Some c /\
    zlen c = (zlen l + n - 1) / n * k /\ map_chunks k inv c = Some l.
Proof.
  intros Hn Hk Hop.
  assert (exists cs, Forall2 (fun b c => op b = Some c) (chunks n l) cs /\
    Forall (fun c => zlen c = k) cs /\ Forall2 (fun c b => inv c = Some b) cs (chunks n l)) as
    (cs & H1 & H2 & H3).
  { pose proof (chunks_bounded n l Hn) as HF. induction HF as [|b bs Hb _ IH].
    - exists []. auto.
    - destruct IH as (cs & ? & ? & ?). destruct (Hop b) as (c & ? & ? & ?); [lia|].
      exists (c :: cs). auto. }
  exists (join cs). split_and!.
  - by apply map_chunks_all.
  - rewrite <-chunks_number by done. rewrite (Forall2_length _ _ _ H1).
    clear -H2. induction H2 as [|c cs Hc _ IH]; [done|].
    simpl. rewrite zlen_app, IH, Hc. lia.
  - rewrite <-(chunks_concat n l) by done. apply map_chunks_all. by rewrite chunks_blocks.
Qed.

Context `{!OpenSSLLaws H}.

(** What it takes for the wrappers to round-trip under the private key [s]. *)
Definition seal_ok (s : RSA) (n : Z) : Prop :=
  RSA_PKCS1_PADDING_SIZE < RSA_size s /\ n + RSA_size s <= INT_MAX /\
  sealed_len (RSA_size s) n + RSA_size s <= INT_MAX.

Lemma RSA_encrypt_roundtrip p s data :
  rsa_pair p s -> seal_ok s (zlen data) ->
  exists c, RSA_public_encrypt p data = Ret c /\
    zlen c = sealed_len (RSA_size s) (zlen data) /\ RSA_private_decrypt s c = Ret data.
Proof.
  intros Hp (Hk & Hl & Hc).
  destruct (map_chunks_roundtrip (RSA_size s - RSA_PKCS1_PADDING_SIZE) (RSA_size s)
    (RSA_public_encrypt_block p) (RSA_private_decrypt_block s) data) as (c & H1 & H2 & H3).
  { lia. } { unfold RSA_PKCS1_PADDING_SIZE in *; lia. }
  { intros b Hb. by apply (RSA_encrypt_decrypt p s). }
  exists c. pose proof (rsa_pair_size p s Hp) as Hsz.
  rewrite RSA_public_encrypt_chunks, Hsz, H1 by (unfold rsa_input_ok; rewrite Hsz; lia).
  rewrite RSA_private_decrypt_chunks, H3.
  2:{ unfold rsa_input_ok, sealed_len in *. rewrite H2. lia. }
  done.
Qed.

Lemma RSA_sign_roundtrip p s data :
  rsa_pair p s -> seal_ok s (zlen data) ->
  exists c, RSA_private_encrypt s data = Ret c /\
    zlen c = sealed_len (RSA_size s) (zlen data) /\ RSA_public_decrypt p c = Ret data.
Proof.
  intros Hp (Hk & Hl & Hc).
  destruct (map_chunks_roundtrip (RSA_size s - RSA_PKCS1_PADDING_SIZE) (RSA_size s)
    (RSA_private_encrypt_block s) (RSA_public_decrypt_block p) data) as (c & H1 & H2 & H3).
  { lia. } { unfold RSA_PKCS1_PADDING_SIZE in *; lia. }
  { intros b Hb. by apply (RSA_sign_verify p s). }
  exists c. pose proof (rsa_pair_size p s Hp) as Hsz.
  rewrite RSA_private_encrypt_chunks, H1 by (unfold rsa_input_ok; lia).
  rewrite RSA_public_decrypt_chunks, Hsz, H3.
  2:{ unfold rsa_input_ok, sealed_len in *. rewrite Hsz, H2. lia. }
  done.
Qed.

(** C26: the double encryption of a message (to the receiver's public key,
    then under the sender's private key) opens, in the receiver's order, to
    the message: any length that keeps the [int] counters in range, the
    sealed length being whole blocks at each layer. *)
Theorem rsa_seal_open p_to s_to p_me s_me data :
  rsa_pair p_to s_to -> rsa_pair p_me s_me ->
  seal_ok s_to (zlen data) -> seal_ok s_me (sealed_len (RSA_size s_to) (zlen data)) ->
  exists first second,
    RSA_public_encrypt p_to data = Ret first /\ RSA_private_encrypt s_me first = Ret second /\
    zlen second = sealed_len (RSA_size s_me) (sealed_len (RSA_size s_to) (zlen data)) /\
    (stage1 ← RSA_public_decrypt p_me second; RSA_private_decrypt s_to stage1) = Ret data.
Proof.
  intros Hto Hme H1 H2.
  destruct (RSA_encrypt_roundtrip p_to s_to data) as (first & E1 & L1 & D1); [done..|].
  rewrite <-L1 in H2.
  destruct (RSA_sign_roundtrip p_me s_me first) as (second & E2 & L2 & D2); [done..|].
  exists first, second. split_and!; [done..|congruence|]. by rewrite D2.
Qed.
End rsa_correct.

(** ** Concrete runs *)
Module RsaDemo.
Definition data : bytes := s2b "hello, world".

Lemma rsa_wrappers_chunked_witness :
  @RSA_public_encrypt Toy.openssl x07 data =
    or_length_error (map_chunks 5 (Toy.seal x07) data).
Proof.
  apply (@rsa_wrappers_chunked Toy.openssl x07 data).
  split; vm_compute; [reflexivity|discriminate].
Defined.

Lemma rsa_seal_open_witness :
  exists first second,
    @RSA_public_encrypt Toy.openssl x07 data = Ret first /\
    @RSA_private_encrypt Toy.openssl x09 first = Ret second /\
    zlen second = 160 /\
    (stage1 ← @RSA_public_decrypt Toy.openssl x09 second;
     @RSA_private_decrypt Toy.openssl x07 stage1) = Ret data.
Proof.
  apply (@rsa_seal_open Toy.openssl Toy.laws x07 x07 x09 x09 data);
    [reflexivity|reflexivity| |]; (split_and!; vm_compute; [reflexivity|discriminate|discriminate]).
Defined.

(** The toy keys with an 11-byte modulus. *)
Definition tiny : OpenSSL := {|
  RSA := byte; X509 := byte; EVP_PKEY := byte;
  RSA_size := fun _ => 11;
  RSA_public_encrypt_block := Toy.seal;
  RSA_private_decrypt_block := Toy.unseal;
  RSA_private_encrypt_block := Toy.seal;
  RSA_public_decrypt_block := Toy.unseal;
  RSA_n := fun k => [k];
  RSA_of_n := fun n => match n with [k] => k | _ => x00 end;
  i2d_X509 := fun k => [k];
  d2i_X509 := fun b => match b with [k] => Some k | _ => None end;
  X509_get_pubkey := fun k => Some k;
  EVP_PKEY_get1_RSA := fun k => Some k
|}.

Lemma rsa_encrypt_diverges_witness : @RSA_public_encrypt tiny x07 [x68; x69] = OutOfFuel.
Proof.
  refine (proj1 (@rsa_encrypt_diverges tiny x07 x68 [x69] (x07 :: replicate 15 x00) 0 _ _ _)).
  - reflexivity.
  - vm_compute. discriminate.
  - reflexivity.
Defined.
End RsaDemo.
