(* ===== verification/Regex.v ===== *)
(** * Regex: the Boost.Regex the program relies on

    The program compiles two patterns: the address pattern of avif.cpp and the
    route patterns given to [add_route] (".+@.+" in every caller).  Boost.Regex
    is a class of operations; its documented behaviour on these patterns is
    stated with the textbook meaning of a Perl regular expression, the list of
    its matches in the order a backtracking matcher tries them. *)

From S2P Require Import Prelude.
From Stdlib Require Import Ascii String.
From stdpp Require Import strings list.
Local Open Scope stdpp_scope.
Local Open Scope avim_scope.

Abbreviation chars := (list ascii).

(** The operations: [None] from [regex_compile] is boost::regex_error, [None]
    from [regex_search] is "no match"; a match gives the sub-matches m[0],
    m[1], ..., [None] where a group took no part. *)
Class BoostRegex := {
  regex : Type;
  regex_compile : string -> option regex;
  regex_search : string -> regex -> option (list (option string));
  regex_match : string -> regex -> bool
}.

(** ** Patterns *)

(** Character classes: [.] and [[^c]]. *)
Inductive cls := CAny | CNot (c : ascii).

Inductive re :=
  | RChar (c : ascii)
  | RMany (k : cls)          (* k*, greedy *)
  | RMany1 (k : cls)         (* k+, greedy *)
  | RSeq (r1 r2 : re)
  | ROpt (r : re)            (* r?, greedy *)
  | RGroup (r : re).         (* (r) *)

Definition in_cls (k : cls) (a : ascii) : bool :=
  match k with CAny => true | CNot c => negb (Ascii.eqb a c) end.

Fixpoint ngroups (r : re) : nat :=
  match r with
  | RChar _ | RMany _ | RMany1 _ => 0
  | RSeq r1 r2 => ngroups r1 + ngroups r2
  | ROpt r => ngroups r
  | RGroup r => S (ngroups r)
  end.

(** A match: the text, the groups in the order of their parentheses, the rest. *)
Definition parse : Type := chars * list (option chars) * chars.

Fixpoint many (k : cls) (s : chars) : list parse :=
  match s with
  | a :: s' =>
      if in_cls k a
      then ((fun p : parse => (a :: p.1.1, p.1.2, p.2)) <$> many k s') ++ [([], [], s)]
      else [([], [], s)]
  | [] => [([], [], [])]
  end.

(** The matches of [r] at the start of [s], first choice first. *)
Fixpoint parses (r : re) (s : chars) : list parse :=
  match r with
  | RChar c =>
      match s with
      | a :: s' => if Ascii.eqb a c then [([a], [], s')] else []
      | [] => []
      end
  | RMany k => many k s
  | RMany1 k =>
      match s with
      | a :: s' =>
          if in_cls k a
          then (fun p : parse => (a :: p.1.1, p.1.2, p.2)) <$> many k s' else []
      | [] => []
      end
  | RSeq r1 r2 =>
      p ← parses r1 s;
      (fun q : parse => (p.1.1 ++ q.1.1, p.1.2 ++ q.1.2, q.2)) <$> parses r2 p.2
  | ROpt r => parses r s ++ [([], replicate (ngroups r) None, s)]
  | RGroup r => (fun p : parse => (p.1.1, Some p.1.1 :: p.1.2, p.2)) <$> parses r s
  end.

(** Leftmost search: the first choice at the first position with a match. *)
Fixpoint perl_search (r : re) (s : chars) : option (list (option chars)) :=
  match parses r s with
  | p :: _ => Some (Some p.1.1 :: p.1.2)
  | [] => match s with [] => None | _ :: s' => perl_search r s' end
  end.

(** A match of the whole text. *)
Definition perl_match (r : re) (s : chars) : bool :=
  existsb (fun p : parse => bool_decide (p.2 = [])) (parses r s).

Definition show_cls (k : cls) : string :=
  match k with CAny => "." | CNot c => "[^" +:+ String c "]" end.

Fixpoint show (r : re) : string :=
  match r with
  | RChar c => String c ""
  | RMany k => show_cls k +:+ "*"
  | RMany1 k => show_cls k +:+ "+"
  | RSeq r1 r2 => show r1 +:+ show r2
  | ROpt r => show r +:+ "?"
  | RGroup r => "(" +:+ show r +:+ ")"
  end.

(** The pattern of avif.cpp. *)
Definition address_re : re :=
  RSeq (RGroup (RMany (CNot "@"))) (RSeq (RChar "@") (RSeq (RGroup (RMany (CNot "/")))
    (ROpt (RGroup (RSeq (RChar "/") (RGroup (RMany CAny))))))).

(** The route pattern of every caller of [add_route]. *)
Definition any_address_re : re := RSeq (RMany1 CAny) (RSeq (RChar "@") (RMany1 CAny)).

Example show_address_re : show address_re = "([^@]*)@([^/]*)(/(.*))?".
Proof. reflexivity. Qed.
Example show_any_address_re : show any_address_re = ".+@.+".
Proof. reflexivity. Qed.

Abbreviation chars_of := list_ascii_of_string.
Abbreviation string_of := string_of_list_ascii.

(** The sub-matches as strings. *)
Definition groups_of (o : option (list (option chars))) : option (list (option string)) :=
  match o with Some l => Some (map (option_map string_of) l) | None => None end.

(** The documented behaviour: the two patterns compile and mean what Perl
    regular expressions mean. *)
Class BoostRegexLaws (B : BoostRegex) := {
  boost_regex_perl : forall r, r ∈ [address_re; any_address_re] ->
    exists x, regex_compile (show r) = Some x /\ forall s,
      regex_search s x = groups_of (perl_search r (chars_of s)) /\
      regex_match s x = perl_match r (chars_of s)
}.

(** ** Strings as lists of characters *)

Lemma string_of_chars s : string_of (chars_of s) = s.
Proof. apply string_of_list_ascii_of_string. Qed.
Lemma chars_of_string l : chars_of (string_of l) = l.
Proof. apply list_ascii_of_string_of_list_ascii. Qed.

Lemma chars_of_app s t : chars_of (s +:+ t) = chars_of s ++ chars_of t.
Proof. induction s as [|a s IH]; simpl; [done|]. by rewrite IH. Qed.

Lemma string_of_app l k : string_of (l ++ k) = string_of l +:+ string_of k.
Proof. induction l as [|a l IH]; simpl; [done|]. by rewrite IH. Qed.

Lemma chars_of_inj s t : chars_of s = chars_of t -> s = t.
Proof. intros E%(f_equal string_of). by rewrite !string_of_chars in E. Qed.

#[export] Hint Rewrite string_of_chars chars_of_string chars_of_app string_of_app : avim_rw.

(** Splitting at the first occurrence of a character. *)
Fixpoint cut (c : ascii) (s : chars) : option (chars * chars) :=
  match s with
  | [] => None
  | a :: s' =>
      if Ascii.eqb a c then Some ([], s')
      else match cut c s' with Some (u, v) => Some (a :: u, v) | None => None end
  end.

Lemma cut_sound c s u v : cut c s = Some (u, v) -> s = u ++ c :: v /\ c ∉ u.
Proof.
  revert u. induction s as [|a s IH]; intros u; simpl; [done|].
  destruct (Ascii.eqb_spec a c) as [->|Hne].
  - intros [= <- <-]. split; [done|apply not_elem_of_nil].
  - destruct (cut c s) as [[u' v']|]; [|done]. intros [= <- <-].
    destruct (IH u' eq_refl) as [-> Hu]. split; [done|].
    rewrite not_elem_of_cons. done.
Qed.

Lemma cut_app c u v : c ∉ u -> cut c (u ++ c :: v) = Some (u, v).
Proof.
  induction u as [|a u IH]; simpl.
  - intros _. by rewrite Ascii.eqb_refl.
  - rewrite not_elem_of_cons. intros [Hne Hu].
    destruct (Ascii.eqb_spec a c) as [->|_]; [done|]. by rewrite IH.
Qed.

Lemma cut_Some c s u v : cut c s = Some (u, v) <-> s = u ++ c :: v /\ c ∉ u.
Proof. split; [apply cut_sound|]. intros [-> Hu]. by apply cut_app. Qed.

Lemma cut_None c s : cut c s = None <-> c ∉ s.
Proof.
  split.
  - intros Hc Hin. apply list_elem_of_split in Hin as (u & v & ->).
    revert Hc. induction u as [|a u IH]; simpl; [by rewrite Ascii.eqb_refl|].
    destruct (Ascii.eqb_spec a c); [done|]. by destruct (cut c _) as [[]|].
  - destruct (cut c s) as [[u v]|] eqn:E; [|done].
    apply cut_sound in E as [-> _]. intros Hn. destruct Hn. set_solver.
Qed.

(** ** What the matches are *)

(** The first choice of [k*]: as much as possible. *)
Fixpoint span (k : cls) (s : chars) : chars * chars :=
  match s with
  | a :: s' => if in_cls k a then let (u, v) := span k s' in (a :: u, v) else ([], s)
  | [] => ([], [])
  end.

Lemma many_head k s : exists ps, many k s = ((span k s).1, [], (span k s).2) :: ps.
Proof.
  induction s as [|a s [ps IH]]; simpl; [by exists []|].
  destruct (in_cls k a); [|by exists []].
  rewrite IH. destruct (span k s) as [u v]. simpl. eexists. done.
Qed.

Lemma span_any s : span CAny s = (s, []).
Proof. induction s as [|a s IH]; simpl; [done|]. by rewrite IH. Qed.

Lemma span_not_cut c s :
  span (CNot c) s = match cut c s with Some (u, v) => (u, c :: v) | None => (s, []) end.
Proof.
  induction s as [|a s IH]; simpl; [done|].
  destruct (Ascii.eqb_spec a c) as [->|Hne]; simpl; [done|].
  rewrite IH. by destruct (cut c s) as [[u v]|].
Qed.

Lemma elem_of_many k s u g v :
  (u, g, v) ∈ many k s <-> g = [] /\ s = u ++ v /\ forallb (in_cls k) u = true.
Proof.
  revert u. induction s as [|a s IH]; intros u; simpl.
  { rewrite list_elem_of_singleton. split.
    - intros [= -> -> ->]. done.
    - intros (-> & E & _). symmetry in E. apply app_eq_nil in E as [-> ->]. done. }
  destruct (in_cls k a) eqn:Ha.
  - rewrite elem_of_app, list_elem_of_fmap, list_elem_of_singleton. split.
    + intros [(((u' & g') & v') & [= -> -> ->] & Hin)|[= -> -> ->]]; [|done].
      apply IH in Hin as (-> & -> & Hu). simpl. by rewrite Ha, Hu.
    + intros (-> & E & Hu). destruct u as [|b u]; simplify_eq/=; [by right|left].
      apply andb_true_iff in Hu as [_ Hu]. exists (u, [], v). split; [done|]. by apply IH.
  - rewrite list_elem_of_singleton. split; [by intros [= -> -> ->]|].
    intros (-> & E & Hu). destruct u as [|b u]; simplify_eq/=; [done|]. by rewrite Ha in Hu.
Qed.

(** ** A concrete instance *)
Module ToyRegex.
(** Small letters and the at sign mean themselves. *)
Definition plain (c : ascii) : bool := Ascii.eqb c "@" || ((97 <=? nat_of_ascii c)%nat && (nat_of_ascii c <=? 122)%nat).
Fixpoint literal (p : chars) : option re :=
  match p with
  | [] => None
  | c :: p =>
      if plain c then
        match p with [] => Some (RChar c) | _ => r ← literal p; Some (RSeq (RChar c) r) end
      else None
  end.
Definition compile (p : string) : option re :=
  if String.eqb p (show address_re) then Some address_re
  else if String.eqb p (show any_address_re) then Some any_address_re
  else literal (chars_of p).

Definition boost : BoostRegex := {|
  regex := re;
  regex_compile := compile;
  regex_search := fun s r => groups_of (perl_search r (chars_of s));
  regex_match := fun s r => perl_match r (chars_of s)
|}.

Lemma laws : BoostRegexLaws boost.
Proof.
  constructor. intros r Hr. exists r. split; [|done].
  apply list_elem_of_In in Hr. destruct Hr as [<-|[<-|[]]]; reflexivity.
Defined.
End ToyRegex.
