(* ===== verification/Address.v ===== *)
(** * Address: av addresses and their text

    libavproto/src/avif.cpp, [av_address_from_string] and
    [av_address_to_string]: an address is [username@domain] or
    [username@domain/resource]; a text without an '@' is a username at
    avplayer.org. *)

From S2P Require Import Prelude Regex.
From Stdlib Require Import Ascii String.
From stdpp Require Import strings list.
Local Open Scope stdpp_scope.
Local Open Scope avim_scope.

(** proto::avAddress as the code sees it through the generated accessors:
    [username()], [domain()], and [resource()] with [has_resource()]. *)
Record avAddress := {
  username : string;
  domain : string;
  resource : option string
}.

#[export] Instance avAddress_eq_dec : EqDecision avAddress.
Proof. solve_decision. Defined.

(** A sub-match converted to std::string: empty when it did not match. *)
Definition sub_match (m : list (option string)) (i : nat) : option string :=
  match m !! i with Some o => o | None => None end.
Definition sub_str (m : list (option string)) (i : nat) : string := default "" (sub_match m i).

Section address.
Context `{BoostRegex}.

Definition av_address_from_string (av_address : string) : outcome avAddress :=
  match regex_compile "([^@]*)@([^/]*)(/(.*))?" with
  | None => Throw regex_error
  | Some re =>
      match regex_search av_address re with
      | Some m =>
          Ret {| username := sub_str m 1; domain := sub_str m 2;
                 resource := if sub_match m 3 is Some _ then Some (sub_str m 4) else None |}
      | None =>
          Ret {| username := av_address; domain := "avplayer.org"; resource := None |}
      end
  end.

Definition av_address_to_string (addr : avAddress) : string :=
  match resource addr with
  | Some r => username addr +:+ "@" +:+ domain addr +:+ "/" +:+ r
  | None => username addr +:+ "@" +:+ domain addr
  end.
End address.

(** ** The reference: cut at the first '@', then at the first '/' *)
Definition split_address (s : string) : avAddress :=
  match cut "@" (chars_of s) with
  | Some (u, rest) =>
      match cut "/" rest with
      | Some (d, r) =>
          {| username := string_of u; domain := string_of d; resource := Some (string_of r) |}
      | None => {| username := string_of u; domain := string_of rest; resource := None |}
      end
  | None => {| username := s; domain := "avplayer.org"; resource := None |}
  end.

(** First choices compose. *)
Lemma seq_head r1 r2 s p ps q qs :
  parses r1 s = p :: ps -> parses r2 p.2 = q :: qs ->
  exists l, parses (RSeq r1 r2) s = (p.1.1 ++ q.1.1, p.1.2 ++ q.1.2, q.2) :: l.
Proof. intros H1 H2. simpl. rewrite H1. simpl. rewrite H2. simpl. eexists. done. Qed.

Lemma group_head r s p ps :
  parses r s = p :: ps ->
  exists l, parses (RGroup r) s = (p.1.1, Some p.1.1 :: p.1.2, p.2) :: l.
Proof. intros E. simpl. rewrite E. simpl. eexists. done. Qed.

Lemma many_group_head k s :
  exists l, parses (RGroup (RMany k)) s = ((span k s).1, [Some (span k s).1], (span k s).2) :: l.
Proof.
  destruct (many_head k s) as [ps E]. destruct (group_head (RMany k) s _ _ E) as [l El].
  exists l. rewrite El. done.
Qed.

(** The resource part: present exactly when a '/' follows. *)
Lemma opt_resource_head r :
  exists l, parses (ROpt (RGroup (RSeq (RChar "/") (RGroup (RMany CAny))))) ("/" :: r)%char =
    (("/" :: r)%char, [Some ("/" :: r)%char; Some r], []) :: l.
Proof.
  destruct (many_group_head CAny r) as [l1 E1]. rewrite span_any in E1.
  destruct (seq_head (RChar "/") _ ("/" :: r)%char _ _ _ _ eq_refl E1) as [l2 E2].
  destruct (group_head _ _ _ _ E2) as [l3 E3].
  exists (l3 ++ [([], [None; None], ("/" :: r)%char)]).
  change (parses (ROpt ?x) ?s) with (parses x s ++ [([], replicate (ngroups x) None, s)]).
  by rewrite E3.
Qed.

Lemma opt_resource_nil :
  parses (ROpt (RGroup (RSeq (RChar "/") (RGroup (RMany CAny))))) [] = [([], [None; None], [])].
Proof. reflexivity. Qed.

Definition address_groups (u rest : chars) : list (option chars) :=
  match cut "/" rest with
  | Some (d, r) => [Some u; Some d; Some ("/" :: r)%char; Some r]
  | None => [Some u; Some rest; None; None]
  end.

Lemma search_address u rest :
  "@"%char ∉ u ->
  exists all, perl_search address_re (u ++ "@" :: rest)%char = Some (all :: address_groups u rest).
Proof.
  intros Hu. set (s := (u ++ "@" :: rest)%char).
  destruct (many_group_head (CNot "@") s) as [l1 E1].
  assert (Hc : cut "@" s = Some (u, rest)) by by apply cut_app.
  rewrite span_not_cut, Hc in E1. cbn [fst snd] in E1.
  assert (exists p l, parses (RSeq (RGroup (RMany (CNot "/")))
    (ROpt (RGroup (RSeq (RChar "/") (RGroup (RMany CAny)))))) rest = p :: l /\
    Some u :: p.1.2 = address_groups u rest) as (p & l & E2 & Hg).
  { destruct (many_group_head (CNot "/") rest) as [l E]. rewrite span_not_cut in E.
    unfold address_groups. destruct (cut "/" rest) as [[d r]|] eqn:Ec; cbn [fst snd] in E.
    - destruct (opt_resource_head r) as [l' E'].
      destruct (seq_head _ _ _ _ _ _ _ E E') as [l2 E2]. eexists _, l2. split; [exact E2|done].
    - destruct (seq_head _ _ _ _ _ _ _ E opt_resource_nil) as [l2 E2].
      eexists _, l2. split; [exact E2|done]. }
  destruct (seq_head (RChar "@") _ ("@" :: rest)%char _ _ _ _ eq_refl E2) as [l3 E3].
  destruct (seq_head _ _ _ _ _ _ _ E1 E3) as [l4 E4].
  fold address_re in E4. unfold perl_search. fold perl_search.
  assert (Hs : perl_search address_re s = Some (Some (u ++ ["@"%char] ++ p.1.1) :: Some u :: p.1.2)).
  { destruct s; cbn [perl_search]; rewrite E4; done. }
  rewrite Hs, Hg. eauto.
Qed.

Lemma parses_address_none s : "@"%char ∉ s -> parses address_re s = [].
Proof.
  intros Hs. unfold address_re.
  change (parses (RSeq ?a ?b) s) with
    (parses a s ≫= fun p => (fun q : parse => (p.1.1 ++ q.1.1, p.1.2 ++ q.1.2, q.2)) <$> parses b p.2).
  assert (HF : Forall (fun p : parse => "@"%char ∉ p.2) (parses (RGroup (RMany (CNot "@"))) s)).
  { apply Forall_forall. intros [[u g] v] Hin. cbn [parses] in Hin.
    apply list_elem_of_fmap in Hin as ([[u' g'] v'] & [= -> -> ->] & Hin).
    apply elem_of_many in Hin as (_ & -> & _). simpl. set_solver. }
  induction HF as [|p ps Hp _ IH]; [done|].
  cbn [mbind list_bind]. rewrite IH, app_nil_r.
  cbn [parses]. destruct (p.2) as [|a v]; [done|].
  destruct (Ascii.eqb_spec a "@") as [->|]; [set_solver|done].
Qed.

Lemma search_address_none s : "@"%char ∉ s -> perl_search address_re s = None.
Proof.
  induction s as [|a s IH]; intros Hs; cbn [perl_search]; rewrite parses_address_none by done; [done|].
  apply IH. set_solver.
Qed.

Lemma forallb_any u : forallb (in_cls CAny) u = true.
Proof. induction u; simpl; done. Qed.

Lemma perl_match_any s :
  perl_match any_address_re s = true <->
  exists u v, s = (u ++ "@" :: v)%char /\ u <> [] /\ v <> [].
Proof.
  unfold perl_match. rewrite existsb_exists. setoid_rewrite bool_decide_eq_true. split.
  - intros (p & Hin & Hp). apply list_elem_of_In in Hin.
    cbn [parses any_address_re] in Hin. apply list_elem_of_bind in Hin as (q & Hq & Hin).
    destruct s as [|a s]; [by apply not_elem_of_nil in Hin|].
    cbn [in_cls] in Hin. apply list_elem_of_fmap in Hin as ([[u g] w] & -> & Hu).
    apply elem_of_many in Hu as (-> & -> & _). cbn [fst snd] in Hq.
    apply list_elem_of_fmap in Hq as (r & -> & Hr).
    apply list_elem_of_bind in Hr as (r2 & Hr2 & Hr).
    destruct w as [|b w]; [by apply not_elem_of_nil in Hr|].
    destruct (Ascii.eqb_spec b "@") as [->|]; [|by apply not_elem_of_nil in Hr].
    apply list_elem_of_singleton in Hr as ->. cbn [fst snd] in Hr2.
    apply list_elem_of_fmap in Hr2 as (r3 & -> & Hr3).
    destruct w as [|c w]; [by apply not_elem_of_nil in Hr3|].
    exists (a :: u), (c :: w). done.
  - intros (u & v & -> & Hu & Hv). destruct u as [|a u]; [done|]. destruct v as [|c v]; [done|].
    eexists (_, _, []). split; [|done]. apply list_elem_of_In.
    cbn [parses any_address_re app in_cls]. apply list_elem_of_bind.
    exists (a :: u, [], ("@" :: c :: v)%char). split.
    2:{ apply list_elem_of_fmap. exists (u, [], ("@" :: c :: v)%char). split; [done|].
        apply elem_of_many. split_and!; [done..|apply forallb_any]. }
    cbn [fst snd]. apply list_elem_of_fmap. eexists (_, _, []). split; [done|].
    apply list_elem_of_bind. exists (["@"%char], [], c :: v). split; [|by left].
    cbn [fst snd in_cls]. apply list_elem_of_fmap. eexists (_, _, []). split; [done|].
    apply list_elem_of_fmap. exists (v, [], []). split; [done|].
    apply elem_of_many. rewrite app_nil_r. split_and!; [done..|apply forallb_any].
Qed.

Section address_correct.
Context `{BoostRegex} `{!BoostRegexLaws H}.

Lemma from_string_split s : av_address_from_string s = Ret (split_address s).
Proof.
  unfold av_address_from_string. rewrite <-show_address_re.
  destruct (boost_regex_perl address_re) as (x & -> & Hx); [set_solver|].
  destruct (Hx s) as [-> _]. unfold split_address.
  destruct (cut "@" (chars_of s)) as [[u rest]|] eqn:Hc.
  - apply cut_Some in Hc as [-> Hu].
    destruct (search_address u rest Hu) as [all ->]. unfold address_groups.
    by destruct (cut "/" rest) as [[d r]|].
  - apply cut_None in Hc. by rewrite search_address_none.
Qed.

(** C40: parsing an address never throws and is the split at the first '@'
    and, after it, the first '/': everything before the '@' is the username,
    the part up to the '/' the domain, the rest the resource (present, though
    perhaps empty, exactly when there is a '/'); a text without '@' is a
    username at avplayer.org. *)
Theorem av_address_from_string_split s :
  av_address_from_string s = Ret (split_address s).
Proof. apply from_string_split. Qed.

Lemma to_string_split s :
  av_address_to_string (split_address s) =
    if decide ("@"%char ∈ chars_of s) then s else s +:+ "@avplayer.org".
Proof.
  unfold split_address, av_address_to_string.
  destruct (cut "@" (chars_of s)) as [[u rest]|] eqn:Hc.
  - apply cut_Some in Hc as [Hs Hu]. rewrite decide_True by (rewrite Hs; set_solver).
    apply chars_of_inj. rewrite Hs.
    destruct (cut "/" rest) as [[d r]|] eqn:Hr; simpl;
      repeat (rewrite ?chars_of_app, ?chars_of_string; simpl); [|done].
    by apply cut_Some in Hr as [-> _].
  - apply cut_None in Hc. by rewrite decide_False.
Qed.

(** Printing what was parsed gives the text back, completed with the
    default domain when it named none; so parsing loses nothing, and a
    printed address is a fixed point. *)
Theorem av_address_print_parse s :
  (av_address_from_string s ≫= fun a => Ret (av_address_to_string a)) =
    Ret (if decide ("@"%char ∈ chars_of s) then s else s +:+ "@avplayer.org").
Proof. by rewrite from_string_split, outcome_bind_Ret, to_string_split. Qed.

(** An address whose text can be parsed back. *)
Definition address_ok (a : avAddress) : Prop :=
  ("@"%char ∉ chars_of (username a)) /\ ("/"%char ∉ chars_of (domain a)).

Lemma parse_print_iff a :
  (av_address_from_string (av_address_to_string a) = Ret a) <-> address_ok a.
Proof.
  rewrite from_string_split. destruct a as [u d r]. unfold address_ok, av_address_to_string.
  simpl. set (tail := match r with Some r => "/" +:+ r | None => "" end).
  assert (Hs : chars_of match r with
               | Some r => u +:+ "@" +:+ d +:+ "/" +:+ r
               | None => u +:+ "@" +:+ d end
             = (chars_of u ++ "@" :: (chars_of d ++ chars_of tail))%char).
  { destruct r; simpl; rewrite !chars_of_app; simpl; rewrite ?chars_of_app, ?app_nil_r; done. }
  split.
  - unfold split_address. rewrite Hs. intros [= E].
    destruct (cut "@" _) as [[u' rest]|] eqn:Hc.
    2:{ apply cut_None in Hc. destruct Hc. apply elem_of_app. right. by left. }
    apply cut_Some in Hc as [Heq Hu'].
    assert (u = string_of u') as -> by (destruct (cut "/" rest) as [[]|]; simplify_eq; done).
    rewrite chars_of_string in *. split; [done|].
    apply app_inv_head in Heq as [= Htail].
    destruct (cut "/" rest) as [[d' r']|] eqn:Hr.
    + apply cut_Some in Hr as [-> Hd']. simplify_eq. by rewrite chars_of_string.
    + apply cut_None in Hr. simplify_eq. rewrite not_elem_of_app in Hr. tauto.
  - intros [Hu Hd]. unfold split_address. rewrite Hs, cut_app by done.
    destruct r as [r|]; unfold tail; simpl.
    + rewrite cut_app by done. by rewrite !string_of_chars.
    + rewrite app_nil_r, (proj2 (cut_None _ _)) by done. by rewrite !string_of_chars.
Qed.

(** Parsing what was printed gives the address back exactly when the
    username has no '@' and the domain no '/' -- so two interfaces or peers
    whose fields hold those characters can print alike. *)
Theorem av_address_parse_print a :
  (av_address_from_string (av_address_to_string a) = Ret a) <-> address_ok a.
Proof. apply parse_print_iff. Qed.

(** The route pattern of every caller: the texts it matches. *)
Lemma regex_match_any s x :
  regex_compile ".+@.+" = Some x ->
  regex_match s x = true <->
  exists u v, chars_of s = (u ++ "@" :: v)%char /\ u <> [] /\ v <> [].
Proof.
  intros Hx. destruct (boost_regex_perl any_address_re) as (x' & Hx' & Hm); [set_solver|].
  rewrite show_any_address_re, Hx in Hx'. simplify_eq.
  destruct (Hm s) as [_ ->]. apply perl_match_any.
Qed.
End address_correct.

(** ** Concrete runs *)
Module AddressDemo.
Example parse_full :
  @av_address_from_string ToyRegex.boost "a@b@c/d/e" =
    Ret {| username := "a"; domain := "b@c"; resource := Some "d/e" |}.
Proof. vm_compute. reflexivity. Qed.

Lemma av_address_from_string_split_witness :
  @av_address_from_string ToyRegex.boost "test@avplayer.org/" =
    Ret {| username := "test"; domain := "avplayer.org"; resource := Some "" |}.
Proof. apply (@av_address_from_string_split ToyRegex.boost ToyRegex.laws). Defined.

Lemma av_address_print_parse_witness :
  (@av_address_from_string ToyRegex.boost "test" ≫= fun a => Ret (av_address_to_string a)) =
    Ret "test@avplayer.org".
Proof. apply (@av_address_print_parse ToyRegex.boost ToyRegex.laws "test"). Defined.

Lemma av_address_parse_print_witness :
  let a := {| username := "test"; domain := "avplayer.org"; resource := Some "x/y@z" |} in
  @av_address_from_string ToyRegex.boost (av_address_to_string a) = Ret a.
Proof.
  apply (@av_address_parse_print ToyRegex.boost ToyRegex.laws).
  split; apply (bool_decide_unpack _); vm_compute; exact I.
Defined.
End AddressDemo.
