(* ===== verification/CoroQueue.v ===== *)
(** * CoroQueue: the queue between coroutines

    libavproto/src/async_coro_queue.hpp.  Values wait in [m_list] or handlers
    wait in [m_handlers]; completions are not run but posted to the
    io_service, so every operation returns the new queue and what it posted.
    A handler with a timeout shares a flag with its queue entry: the flags are
    a store of their own.

    The overload of [async_pop] with a timeout is a template that no program
    uses and that does not compile as it stands ([m_realhandler(ec, t)] calls a
    shared_ptr; [pop_front] is no member of std::queue, which the other overload
    needs).  It is modelled with the handler behind the pointer called and the
    front of the queue popped. *)

From S2P Require Import Prelude.

Section coro_queue.
(** Queue values, and handlers of [async_pop] and [async_wait]. *)
Context {V H W : Type} `{!Inhabited V}.

(** A completion handed to [m_io_service.post]. *)
Inductive posted :=
  | PostPop (h : H) (ec : error_code) (v : V)
  | PostWait (w : W) (ec : error_code).

Record coro_queue := {
  m_list : list V;
  m_handlers : list (nat * H);       (* the flag's address, the handler *)
  m_wait_handlers : list W;
  flags : gmap nat bool;             (* the shared_ptr<bool> store *)
  next_flag : nat
}.

Definition empty_queue : coro_queue :=
  {| m_list := []; m_handlers := []; m_wait_handlers := []; flags := ∅; next_flag := 0 |}.

Definition set_list l q := {| m_list := l; m_handlers := m_handlers q;
  m_wait_handlers := m_wait_handlers q; flags := flags q; next_flag := next_flag q |}.
Definition set_handlers hs q := {| m_list := m_list q; m_handlers := hs;
  m_wait_handlers := m_wait_handlers q; flags := flags q; next_flag := next_flag q |}.
Definition set_waiters ws q := {| m_list := m_list q; m_handlers := m_handlers q;
  m_wait_handlers := ws; flags := flags q; next_flag := next_flag q |}.
Definition set_flag f b q := {| m_list := m_list q; m_handlers := m_handlers q;
  m_wait_handlers := m_wait_handlers q; flags := <[f := b]> (flags q); next_flag := next_flag q |}.

(** [make_shared<bool>(false)] *)
Definition make_flag (q : coro_queue) : nat * coro_queue :=
  (next_flag q,
   {| m_list := m_list q; m_handlers := m_handlers q; m_wait_handlers := m_wait_handlers q;
      flags := <[next_flag q := false]> (flags q); next_flag := S (next_flag q) |}).

Definition make_canceled : error_code := errc_operation_canceled.

Definition async_pop_impl (h : H) (q : coro_queue) : coro_queue * list posted :=
  match m_list q with
  | [] =>
      let (f, q) := make_flag q in
      (set_handlers (m_handlers q ++ [(f, h)]) q, [])
  | front :: rest => (set_list rest q, [PostPop h ec_success front])
  end.

(** The overload with a timeout: the entry's flag is shared with the timer's
    handler, which is returned as the flag and the handler it wraps. *)
Definition async_pop_timeout (h : H) (q : coro_queue) :
    coro_queue * list posted * option (nat * H) :=
  match m_list q with
  | [] =>
      let (f, q) := make_flag q in
      (set_handlers (m_handlers q ++ [(f, h)]) q, [], Some (f, h))
  | front :: rest => (set_list rest q, [PostPop h ec_success front], None)
  end.

(** [timed_out_handler_wrapper::operator()(ec)], run by the deadline timer. *)
Definition timed_out_handler (ec : error_code) (t : nat * H) (q : coro_queue) :
    coro_queue * list posted :=
  match ec with
  | operation_aborted => (q, [])
  | _ => (set_flag t.1 true q, [PostPop t.2 errc_timed_out inhabitant])
  end.

Definition async_wait_impl (w : W) (q : coro_queue) : coro_queue * list posted :=
  match m_list q with
  | [] => (set_waiters (m_wait_handlers q ++ [w]) q, [])
  | _ => (q, [PostWait w ec_success])
  end.

Definition is_nil {A} (l : list A) : bool := match l with [] => true | _ => false end.

Context `{Build}.

(** The first half of [push]: wake every [async_wait]. *)
Definition wake_waiters (q : coro_queue) : outcome (coro_queue * list posted) :=
  if negb (is_nil (m_wait_handlers q)) then
    _ ← cassert (is_nil (m_list q));
    Ret (set_waiters [] q, (fun w => PostWait w ec_success) <$> m_wait_handlers q)
  else Ret (q, []).

(** [push]; the recursive call is on a queue with one handler less. *)
Fixpoint push_fuel (fuel : nat) (value : V) (q : coro_queue) : outcome (coro_queue * list posted) :=
  match fuel with
  | O => OutOfFuel
  | S fuel =>
      '(q, ps) ← wake_waiters q;
      match m_handlers q with
      | (f, h) :: rest =>
          _ ← cassert (is_nil (m_list q));
          timed_outed ← deref (flags q !! f);
          if negb timed_outed then
            Ret (set_handlers rest q, ps ++ [PostPop h ec_success value])
          else
            '(q, ps') ← push_fuel fuel value (set_handlers rest q);
            Ret (q, ps ++ ps')
      | [] => Ret (set_list (m_list q ++ [value]) q, ps)
      end
  end.

Definition push (value : V) (q : coro_queue) : outcome (coro_queue * list posted) :=
  push_fuel (S (length (m_handlers q))) value q.

(** The while loop of [cancele]. *)
Fixpoint cancel_handlers (hs : list (nat * H)) (fl : gmap nat bool) : outcome (list posted) :=
  match hs with
  | [] => Ret []
  | (f, h) :: hs =>
      timed_outed ← deref (fl !! f);
      ps ← cancel_handlers hs fl;
      Ret ((if negb timed_outed then [PostPop h make_canceled inhabitant] else []) ++ ps)
  end.

Definition cancele (q : coro_queue) : outcome (coro_queue * list posted) :=
  let '(q, ps) :=
    if negb (is_nil (m_handlers q))
    then (set_waiters [] q, (fun w => PostWait w make_canceled) <$> m_wait_handlers q)
    else (q, []) in
  ps' ← cancel_handlers (m_handlers q) (flags q);
  Ret (set_handlers [] q, ps ++ ps').

Definition clear (q : coro_queue) : outcome (coro_queue * list posted) :=
  '(q, ps) ← cancele q; Ret (set_list [] q, ps).

Definition empty (q : coro_queue) : bool := is_nil (m_list q).

(** ** The operations as events *)
Inductive qop :=
  | OPush (v : V)
  | OPop (h : H)
  | OPopTimeout (h : H)
  | OTimer (ec : error_code) (t : nat * H)
  | OWait (w : W)
  | OCancel.

Definition run_op (o : qop) (q : coro_queue) : outcome (coro_queue * list posted) :=
  match o with
  | OPush v => push v q
  | OPop h => Ret (async_pop_impl h q)
  | OPopTimeout h => Ret (async_pop_timeout h q).1
  | OTimer ec t => Ret (timed_out_handler ec t q)
  | OWait w => Ret (async_wait_impl w q)
  | OCancel => cancele q
  end.

Fixpoint run_ops (os : list qop) (q : coro_queue) : outcome (coro_queue * list posted) :=
  match os with
  | [] => Ret (q, [])
  | o :: os =>
      '(q, ps) ← run_op o q;
      '(q, ps') ← run_ops os q;
      Ret (q, ps ++ ps')
  end.

(** ** The invariant: values and handlers never wait together, and every
    entry's flag is in the store *)
Record queue_ok (q : coro_queue) : Prop := {
  one_side : m_list q = [] \/ (m_handlers q = [] /\ m_wait_handlers q = []);
  flags_live : Forall (fun e : nat * H => is_Some (flags q !! e.1)) (m_handlers q)
}.

Lemma empty_queue_ok : queue_ok empty_queue.
Proof. split; [by left|constructor]. Qed.

(** What [push] does, in one step: wake all waiters, drop the timed-out
    entries at the front, and serve the first live handler or store the value. *)
Fixpoint first_live (fl : gmap nat bool) (hs : list (nat * H)) : option H * list (nat * H) :=
  match hs with
  | [] => (None, [])
  | (f, h) :: hs =>
      if default false (fl !! f) then first_live fl hs else (Some h, hs)
  end.

Definition push_spec (value : V) (q : coro_queue) : coro_queue * list posted :=
  let woken := (fun w => PostWait w ec_success) <$> m_wait_handlers q in
  match first_live (flags q) (m_handlers q) with
  | (Some h, rest) =>
      (set_handlers rest (set_waiters [] q), woken ++ [PostPop h ec_success value])
  | (None, _) =>
      (set_list (m_list q ++ [value]) (set_handlers [] (set_waiters [] q)), woken)
  end.

Lemma set_waiters_nil q : m_wait_handlers q = [] -> set_waiters [] q = q.
Proof. destruct q; simpl. by intros ->. Qed.

Lemma set_handlers_nil q : m_handlers q = [] -> set_handlers [] q = q.
Proof. destruct q; simpl. by intros ->. Qed.

Lemma push_fuel_spec fuel value q :
  queue_ok q -> (length (m_handlers q) < fuel)%nat ->
  push_fuel fuel value q = Ret (push_spec value q).
Proof.
  revert q. induction fuel as [|fuel IH]; intros q [Hone Hfl] Hf; [lia|].
  cbn [push_fuel]. set (q1 := set_waiters [] q).
  assert (Hw : wake_waiters q = Ret (q1, (fun w => PostWait w ec_success) <$> m_wait_handlers q)).
  { unfold wake_waiters. destruct (m_wait_handlers q) eqn:E; simpl.
    - unfold q1. by rewrite set_waiters_nil.
    - destruct Hone as [->|[_ [=]]]. done. }
  rewrite Hw, outcome_bind_Ret. unfold push_spec.
  change (m_handlers q1) with (m_handlers q). change (m_list q1) with (m_list q).
  change (flags q1) with (flags q).
  destruct (m_handlers q) as [|[f h] rest] eqn:Eh; cbn [first_live].
  { unfold q1. rewrite (set_handlers_nil (set_waiters [] q)) by done. done. }
  destruct Hone as [El|[? _]]; [|done].
  rewrite El. cbn [is_nil cassert orb]. unfold cassert. simpl.
  inversion Hfl as [|? ? [b Hb] Hfl']; subst. simpl in Hb. rewrite Hb. simpl.
  destruct b; simpl; [|done].
  rewrite IH; [|by constructor; [left|]|simpl in *; lia].
  unfold push_spec. simpl. rewrite El.
  destruct (first_live (flags q) rest) as [[h'|] rest']; simpl.
  - unfold q1. done.
  - unfold q1. by rewrite app_nil_r.
Qed.

Lemma push_eq value q : queue_ok q -> push value q = Ret (push_spec value q).
Proof. intros Hq. apply push_fuel_spec; [done|lia]. Qed.

Lemma cancel_handlers_eq hs fl :
  Forall (fun e : nat * H => is_Some (fl !! e.1)) hs ->
  cancel_handlers hs fl = Ret
    ((fun e : nat * H => PostPop e.2 make_canceled inhabitant) <$>
      filter (fun e : nat * H => fl !! e.1 = Some false) hs).
Proof.
  induction 1 as [|[f h] hs [b Hb] _ IH]; [done|].
  cbn [cancel_handlers]. simpl in Hb. rewrite Hb. cbn [deref]. rewrite outcome_bind_Ret, IH.
  rewrite outcome_bind_Ret. destruct b; simpl.
  - by rewrite filter_cons_False by (simpl; congruence).
  - by rewrite filter_cons_True by done.
Qed.

(** What [cancele] does: every live handler gets operation_canceled; the
    waiters only if some handler is there. *)
Definition cancele_spec (q : coro_queue) : coro_queue * list posted :=
  let canceled := (fun e : nat * H => PostPop e.2 make_canceled inhabitant) <$>
    filter (fun e : nat * H => flags q !! e.1 = Some false) (m_handlers q) in
  match m_handlers q with
  | [] => (q, [])
  | _ => (set_handlers [] (set_waiters [] q),
          ((fun w => PostWait w make_canceled) <$> m_wait_handlers q) ++ canceled)
  end.

Lemma cancele_eq q : queue_ok q -> cancele q = Ret (cancele_spec q).
Proof.
  intros [Hone Hfl]. unfold cancele, cancele_spec.
  destruct (m_handlers q) as [|e hs] eqn:E; cbn [is_nil negb].
  - rewrite E. simpl. by rewrite set_handlers_nil.
  - change (m_handlers (set_waiters [] q)) with (m_handlers q).
    change (flags (set_waiters [] q)) with (flags q).
    rewrite E, cancel_handlers_eq by done. done.
Qed.

(** ** Every operation is total and keeps the invariant *)

Lemma first_live_Forall (P : nat * H -> Prop) fl hs :
  Forall P hs -> Forall P (first_live fl hs).2.
Proof.
  induction 1 as [|[f h] hs Hp Hhs IH]; simpl; [done|]. by destruct (default false _).
Qed.

Lemma push_spec_ok value q : queue_ok q -> queue_ok (push_spec value q).1.
Proof.
  intros [Hone Hfl]. unfold push_spec.
  pose proof (first_live_Forall _ (flags q) _ Hfl) as HF.
  assert (Hs : (first_live (flags q) (m_handlers q)).1 <> None -> m_list q = []).
  { destruct Hone as [?|[-> _]]; [done|]. done. }
  destruct (first_live _ _) as [[h|] rest]; simpl in *.
  - split; simpl; [left; by apply Hs|done].
  - split; simpl; [by right|constructor].
Qed.

Lemma cancele_spec_ok q : queue_ok q -> queue_ok (cancele_spec q).1.
Proof.
  intros [Hone Hfl]. unfold cancele_spec.
  destruct (m_handlers q) as [|e hs] eqn:E; [split; simpl; rewrite E; [done|constructor]|].
  split; simpl; [|constructor]. destruct Hone as [?|[? _]]; [by left|done].
Qed.

Lemma flags_grow q f b :
  Forall (fun e : nat * H => is_Some (flags q !! e.1)) (m_handlers q) ->
  Forall (fun e : nat * H => is_Some (<[f := b]> (flags q) !! e.1)) (m_handlers q).
Proof.
  intros HF. eapply Forall_impl; [exact HF|]. intros e He. simpl in *. destruct (decide (f = e.1)) as [->|].
  - rewrite lookup_insert_eq. eauto.
  - by rewrite lookup_insert_ne.
Qed.

Lemma run_op_ok o q :
  queue_ok q -> exists r, run_op o q = Ret r /\ queue_ok r.1.
Proof.
  intros Hq. destruct o as [v|h|h|ec t|w|]; simpl.
  - rewrite push_eq by done. eexists. split; [done|]. by apply push_spec_ok.
  - eexists. split; [done|]. destruct Hq as [Hone Hfl]. unfold async_pop_impl.
    destruct (m_list q) as [|v l] eqn:E; simpl.
    + split; simpl; [by left|]. apply Forall_app. split; [by apply flags_grow|].
      constructor; [|constructor]. simpl. rewrite lookup_insert_eq. eauto.
    + destruct Hone as [|[Hh Hw]]; [done|]. split; simpl; [by right|done].
  - eexists. split; [done|]. destruct Hq as [Hone Hfl]. unfold async_pop_timeout.
    destruct (m_list q) as [|v l] eqn:E; simpl.
    + split; simpl; [by left|]. apply Forall_app. split; [by apply flags_grow|].
      constructor; [|constructor]. simpl. rewrite lookup_insert_eq. eauto.
    + destruct Hone as [|[Hh Hw]]; [done|]. split; simpl; [by right|done].
  - eexists. split; [done|]. destruct Hq as [Hone Hfl].
    destruct ec; simpl; split; simpl; try done; by apply flags_grow.
  - eexists. split; [done|]. destruct Hq as [Hone Hfl]. unfold async_wait_impl.
    destruct (m_list q) as [|v l] eqn:E; simpl; split; simpl; try done.
    + by left.
    + by rewrite E.
  - rewrite cancele_eq by done. eexists. split; [done|]. by apply cancele_spec_ok.
Qed.

(** The queue never trips its assertions and never reads a dead flag:
    from the empty queue every sequence of pushes, pops, timed pops, timer
    firings, waits and cancellations runs to the end, in every build, and
    values and handlers never wait at the same time. *)
Theorem queue_run_ok os q :
  queue_ok q -> exists q' ps, run_ops os q = Ret (q', ps) /\ queue_ok q'.
Proof.
  revert q. induction os as [|o os IH]; intros q Hq; simpl; [eauto|].
  destruct (run_op_ok o q Hq) as ([q1 ps1] & -> & Hq1). simpl.
  destruct (IH q1 Hq1) as (q2 & ps2 & -> & Hq2). simpl. eauto.
Qed.

(** ** First in, first out *)

Definition pushed (os : list qop) : list V :=
  omap (fun o => match o with OPush v => Some v | _ => None end) os.

Definition popped (os : list qop) : list H :=
  omap (fun o => match o with OPop h => Some h | _ => None end) os.

Definition delivered (ps : list posted) : list V :=
  omap (fun p => match p with PostPop _ ec_success v => Some v | _ => None end) ps.

Lemma delivered_app ps ps' : delivered (ps ++ ps') = delivered ps ++ delivered ps'.
Proof. unfold delivered. apply omap_app. Qed.

Lemma delivered_waiters ws ec :
  delivered ((fun w => PostWait w ec) <$> ws) = [].
Proof. induction ws; simpl; done. Qed.

Lemma delivered_canceled (hs : list (nat * H)) :
  delivered ((fun e : nat * H => PostPop e.2 make_canceled inhabitant) <$> hs) = [].
Proof. induction hs; simpl; done. Qed.

Lemma run_op_fifo o q q' ps :
  queue_ok q -> run_op o q = Ret (q', ps) ->
  m_list q ++ pushed [o] = delivered ps ++ m_list q'.
Proof.
  intros Hq. destruct o as [v|h|h|ec t|w|]; simpl.
  - rewrite push_eq by done. destruct Hq as [Hone Hfl]. unfold push_spec.
    destruct (first_live _ (m_handlers q)) as [[h|] rest] eqn:E; intros [= <- <-].
    + rewrite delivered_app, delivered_waiters. simpl.
      destruct Hone as [->|[Hh _]]; [done|]. by rewrite Hh in E.
    + by rewrite delivered_waiters.
  - unfold async_pop_impl. destruct (m_list q) eqn:E; intros [= <- <-]; simpl; [done|].
    by rewrite app_nil_r.
  - unfold async_pop_timeout. destruct (m_list q) eqn:E; intros [= <- <-]; simpl; [done|].
    by rewrite app_nil_r.
  - destruct ec; intros [= <- <-]; simpl; by rewrite app_nil_r.
  - unfold async_wait_impl. destruct (m_list q) eqn:E; intros [= <- <-]; simpl; [done|].
    by rewrite app_nil_r, E.
  - rewrite cancele_eq by done. unfold cancele_spec.
    destruct (m_handlers q); intros [= <- <-]; simpl; rewrite app_nil_r; [done|].
    by rewrite delivered_app, delivered_waiters, delivered_canceled.
Qed.

(** A failed completion carries a default value. *)
Definition default_on_error (p : posted) : Prop :=
  match p with PostPop _ ec v => ec = ec_success \/ v = inhabitant | PostWait _ _ => True end.

Lemma run_op_default o q q' ps :
  queue_ok q -> run_op o q = Ret (q', ps) -> Forall default_on_error ps.
Proof.
  intros Hq. destruct o as [v|h|h|ec t|w|]; simpl.
  - rewrite push_eq by done. unfold push_spec.
    destruct (first_live _ (m_handlers q)) as [[h|] rest]; intros [= <- <-];
      [apply Forall_app; split|]; try (apply Forall_fmap, Forall_true; done).
    constructor; [by left|constructor].
  - unfold async_pop_impl. destruct (m_list q); intros [= <- <-]; repeat constructor.
  - unfold async_pop_timeout. destruct (m_list q); intros [= <- <-]; repeat constructor.
  - destruct ec; intros [= <- <-]; repeat constructor; by right.
  - unfold async_wait_impl. destruct (m_list q); intros [= <- <-]; repeat constructor.
  - rewrite cancele_eq by done. unfold cancele_spec.
    destruct (m_handlers q); intros [= <- <-]; [constructor|].
    apply Forall_app. split; apply Forall_fmap, Forall_true; [done|by right].
Qed.

(** C28: no value is lost, duplicated or reordered: whatever mix of
    operations runs, the values handed to handlers so far followed by the ones
    still stored are the values pushed, in the order of the pushes. *)
Theorem queue_fifo os q q' ps :
  queue_ok q -> run_ops os q = Ret (q', ps) ->
  m_list q ++ pushed os = delivered ps ++ m_list q'.
Proof.
  revert q ps. induction os as [|o os IH]; intros q ps Hq; simpl.
  { intros [= <- <-]. by rewrite app_nil_r. }
  destruct (run_op_ok o q Hq) as ([q1 ps1] & E1 & Hq1). rewrite E1. simpl.
  destruct (run_ops os q1) as [[q2 ps2]| | | |] eqn:E2; try done. intros [= <- <-].
  pose proof (run_op_fifo o q q1 ps1 Hq E1) as H1.
  pose proof (IH q1 ps2 Hq1 E2) as H2.
  rewrite delivered_app, <-app_assoc, <-H2, app_assoc, <-H1, <-app_assoc. f_equal.
  by destruct o.
Qed.

(** ** The abstract channel: the k-th pop meets the k-th push *)

Definition plain (o : qop) : Prop :=
  match o with OPush _ | OPop _ => True | _ => False end.

(** Without timers no entry is flagged. *)
Definition all_live (q : coro_queue) : Prop :=
  Forall (fun e : nat * H => flags q !! e.1 = Some false) (m_handlers q) /\
  m_wait_handlers q = [] /\ (m_list q = [] \/ m_handlers q = []) /\
  forall f, is_Some (flags q !! f) -> (f < next_flag q)%nat.

Lemma all_live_ok q : all_live q -> queue_ok q.
Proof.
  intros (Hl & Hw & Ho & _). split; [destruct Ho; auto|].
  eapply Forall_impl; [exact Hl|]. simpl. intros e ->. eauto.
Qed.

(** [push] on such a queue: serve the first handler, or store the value. *)
Lemma push_live v q :
  all_live q ->
  push v q = Ret (match m_handlers q with
    | (_, h) :: rest => (set_handlers rest q, [PostPop h ec_success v])
    | [] => (set_list (m_list q ++ [v]) q, [])
    end).
Proof.
  intros Hq. rewrite push_eq by by apply all_live_ok. destruct Hq as (Hl & Hw & _).
  unfold push_spec. rewrite Hw, (set_waiters_nil q Hw). simpl.
  destruct (m_handlers q) as [|[f h] rest] eqn:Eh; cbn [first_live].
  - by rewrite set_handlers_nil.
  - inversion Hl as [|? ? Hf]; subst. simpl in Hf. by rewrite Hf.
Qed.

(** [cancele] on such a queue completes every handler. *)
Lemma cancele_live q :
  all_live q ->
  cancele q = Ret (set_handlers [] q,
    (fun e : nat * H => PostPop e.2 make_canceled inhabitant) <$> m_handlers q).
Proof.
  intros Hq. rewrite cancele_eq by by apply all_live_ok. destruct Hq as (Hl & Hw & _).
  unfold cancele_spec. rewrite Hw, (set_waiters_nil q Hw).
  destruct (m_handlers q) as [|e hs] eqn:Eh; [by rewrite set_handlers_nil|].
  assert (Hall : filter (fun e : nat * H => flags q !! e.1 = Some false) (e :: hs) = e :: hs).
  { clear -Hl. induction Hl as [|x l Hx _ IH]; [done|]. by rewrite filter_cons_True, IH. }
  by rewrite Hall.
Qed.

Definition serve (hs : list H) (vs : list V) : list posted :=
  zip_with (fun h v => PostPop h ec_success v) hs vs.

(** What one plain operation serves: as many handlers as values, each side
    taken from the front. *)
Definition serves (q : coro_queue) (ps : list posted) (hs : list H) (vs : list V)
    (q' : coro_queue) : Prop :=
  exists served dealt,
    ps = serve served dealt /\ length served = length dealt /\
    (m_handlers q).*2 ++ hs = served ++ (m_handlers q').*2 /\
    m_list q ++ vs = dealt ++ m_list q'.

Lemma serves_none q q' hs vs :
  (m_handlers q).*2 ++ hs = (m_handlers q').*2 -> m_list q ++ vs = m_list q' ->
  serves q [] hs vs q'.
Proof. intros. by exists [], []. Qed.

Lemma serves_trans q q1 q2 ps1 ps2 hs1 hs2 vs1 vs2 :
  serves q ps1 hs1 vs1 q1 -> serves q1 ps2 hs2 vs2 q2 ->
  serves q (ps1 ++ ps2) (hs1 ++ hs2) (vs1 ++ vs2) q2.
Proof.
  intros (s1 & d1 & -> & L1 & H1 & D1) (s2 & d2 & -> & L2 & H2 & D2).
  exists (s1 ++ s2), (d1 ++ d2). split_and!.
  - unfold serve. by rewrite zip_with_app.
  - rewrite !length_app. lia.
  - by rewrite app_assoc, H1, <-!app_assoc, H2.
  - by rewrite app_assoc, D1, <-!app_assoc, D2.
Qed.

Lemma run_plain o q q' ps :
  all_live q -> plain o -> run_op o q = Ret (q', ps) ->
  all_live q' /\ serves q ps (popped [o]) (pushed [o]) q'.
Proof.
  intros Hq Ho. pose proof (all_live_ok q Hq) as Hok.
  destruct Hq as (Hl & Hw & Hone & Hfresh).
  destruct o as [v|h| | | |]; try done; simpl.
  - rewrite push_eq by done. unfold push_spec. rewrite Hw. simpl.
    destruct (m_handlers q) as [|[f h] rest] eqn:Eh; cbn [first_live].
    + intros [= <- <-]. split; [split_and!; simpl; [constructor|done|by right|done]|].
      apply serves_none; [by rewrite Eh|done].
    + inversion Hl as [|? ? Hf Hl']; subst. simpl in Hf. rewrite Hf. simpl.
      destruct Hone as [El|]; [|done]. intros [= <- <-].
      split; [split_and!; simpl; [done|done|by left|done]|].
      exists [h], [v]. simpl. rewrite Eh, El, app_nil_r. done.
  - unfold async_pop_impl. destruct (m_list q) as [|v l] eqn:El; simpl.
    + intros [= <- <-]. split.
      * split_and!; simpl; [|done|by left|].
        -- apply Forall_app. split.
           ++ eapply Forall_impl; [exact Hl|]. simpl. intros e He.
              rewrite lookup_insert_ne; [done|].
              assert (Hlt : (e.1 < next_flag q)%nat) by (apply Hfresh; eauto). lia.
           ++ constructor; [|constructor]. simpl. by rewrite lookup_insert_eq.
        -- intros f. destruct (decide (next_flag q = f)) as [<-|Hne]; [lia|].
           rewrite lookup_insert_ne by done. intros Hf. pose proof (Hfresh f Hf). lia.
      * apply serves_none; simpl; [by rewrite fmap_app|by rewrite El].
    + destruct Hone as [|Hh]; [done|]. intros [= <- <-].
      split; [split_and!; simpl; [done|done|by right|done]|].
      exists [h], [v]. simpl. by rewrite Hh, El, app_nil_r.
Qed.

Lemma run_plains os q q' ps :
  all_live q -> Forall plain os -> run_ops os q = Ret (q', ps) ->
  all_live q' /\ serves q ps (popped os) (pushed os) q'.
Proof.
  intros Hq Hp. revert q ps Hq. induction Hp as [|o os Ho _ IH]; intros q ps Hq; simpl.
  { intros [= <- <-]. split; [done|]. apply serves_none; by rewrite app_nil_r. }
  destruct (run_op o q) as [[q1 ps1]| | | |] eqn:E1; try done. simpl.
  destruct (run_ops os q1) as [[q2 ps2]| | | |] eqn:E2; try done. intros [= <- <-].
  destruct (run_plain o q q1 ps1 Hq Ho E1) as [Hq1 H1].
  destruct (IH q1 ps2 Hq1 E2) as [Hq2 H2]. split; [done|].
  pose proof (serves_trans _ _ _ _ _ _ _ _ _ H1 H2) as H3. by destruct o.
Qed.

Lemma empty_all_live : all_live empty_queue.
Proof.
  split_and!; simpl; [constructor|done|by left|].
  intros f [b Hb]. by rewrite lookup_empty in Hb.
Qed.

(** C27: refinement of the abstract channel: run only pushes and pops, in any
    interleaving, and the completions posted are exactly the k-th pop with the
    k-th pushed value, in order; the surplus of either side is what waits. *)
Theorem queue_refines_channel os q ps :
  Forall plain os -> run_ops os empty_queue = Ret (q, ps) ->
  ps = serve (popped os) (pushed os) /\
  m_list q = drop (length (popped os)) (pushed os) /\
  (m_handlers q).*2 = drop (length (pushed os)) (popped os).
Proof.
  intros Hp Hr. destruct (run_plains os _ _ _ empty_all_live Hp Hr) as [Hq Hs].
  destruct Hs as (served & dealt & -> & Hlen & Hh & Hv). simpl in Hh, Hv.
  rewrite Hh, Hv. destruct Hq as (_ & _ & Hone & _).
  destruct Hone as [E|E]; rewrite E in *; simpl in *; rewrite ?app_nil_r.
  - split_and!.
    + unfold serve. by rewrite zip_with_app_l, Hlen, take_ge, drop_ge, zip_with_nil_r, app_nil_r by lia.
    + symmetry. apply drop_ge. rewrite length_app. lia.
    + by rewrite <-Hlen, drop_app_length.
  - split_and!.
    + unfold serve. by rewrite zip_with_app_r, <-Hlen, take_ge, drop_ge, zip_with_nil_l, app_nil_r by lia.
    + by rewrite Hlen, drop_app_length.
    + symmetry. apply drop_ge. rewrite length_app. lia.
Qed.

(** ** Cancellation *)

Definition canceled_pops (ps : list posted) : list H :=
  omap (fun p => match p with PostPop h errc_operation_canceled _ => Some h | _ => None end) ps.

(** [cancele] completes every live handler once with operation_canceled,
    keeps the stored values and leaves no handler; but its test looks at the
    wrong list: waiters are cancelled only when some [async_pop] is pending,
    and otherwise stay asleep. *)
Theorem cancele_correct q :
  queue_ok q ->
  exists q' ps, cancele q = Ret (q', ps) /\ m_handlers q' = [] /\ m_list q' = m_list q /\
    canceled_pops ps = (filter (fun e : nat * H => flags q !! e.1 = Some false) (m_handlers q)).*2 /\
    (m_handlers q <> [] -> m_wait_handlers q' = []) /\
    (m_handlers q = [] -> ps = [] /\ m_wait_handlers q' = m_wait_handlers q).
Proof.
  intros Hq. rewrite cancele_eq by done. exists (cancele_spec q).1, (cancele_spec q).2.
  split; [by destruct (cancele_spec q)|].
  unfold cancele_spec. destruct (m_handlers q) as [|e hs] eqn:E; simpl.
  { rewrite E. done. }
  split_and!; try done. unfold canceled_pops. rewrite omap_app.
  replace (omap _ (_ <$> m_wait_handlers q)) with (@nil H) by (induction (m_wait_handlers q); done).
  simpl. generalize (filter (fun e : nat * H => flags q !! e.1 = Some false) (e :: hs)).
  induction l as [|x l IH]; [done|]. cbn [fmap list_fmap omap list_omap make_canceled].
  f_equal. exact IH.
Qed.
End coro_queue.

Arguments coro_queue : clear implicits.
Arguments posted : clear implicits.
Arguments qop : clear implicits.

(** ** Concrete runs *)
Module QueueDemo.
(** Handlers and waiters are numbers, values are numbers. *)
Abbreviation queue := (coro_queue nat nat nat).

Lemma queue_run_ok_witness :
  exists (q' : queue) ps,
    @run_ops nat nat nat _ debug_build
      [OPopTimeout 1; OTimer timed_out (0, 1); OWait 7; OPush 5; OCancel]%nat empty_queue
      = Ret (q', ps) /\ queue_ok q'.
Proof. apply (@queue_run_ok nat nat nat _ debug_build). apply empty_queue_ok. Defined.

Definition mixed : list (qop nat nat nat) := [OPush 1; OPush 2; OPop 10; OPop 11; OPop 12; OPush 3]%nat.
Definition mixed_end : queue :=
  {| m_list := []; m_handlers := []; m_wait_handlers := []; flags := {[0%nat := false]}; next_flag := 1 |}.
Definition mixed_posts : list (posted nat nat nat) :=
  [PostPop 10 ec_success 1; PostPop 11 ec_success 2; PostPop 12 ec_success 3]%nat.

Lemma queue_fifo_witness : [1; 2; 3]%nat = delivered mixed_posts ++ m_list mixed_end.
Proof.
  apply (@queue_fifo nat nat nat _ debug_build mixed empty_queue mixed_end mixed_posts);
    [apply empty_queue_ok|vm_compute; reflexivity].
Defined.

Lemma queue_refines_channel_witness :
  mixed_posts = serve [10; 11; 12]%nat [1; 2; 3]%nat /\
  m_list mixed_end = [] /\ (m_handlers mixed_end).*2 = [].
Proof.
  apply (@queue_refines_channel nat nat nat _ debug_build mixed mixed_end mixed_posts);
    [repeat constructor|vm_compute; reflexivity].
Defined.

(** One waiter and no [async_pop]: cancellation does not reach the waiter. *)
Definition lone_waiter : queue := set_waiters [7%nat] empty_queue.

Lemma cancele_correct_witness :
  exists q' ps, @cancele nat nat nat _ lone_waiter = Ret (q', ps) /\
    ps = [] /\ m_wait_handlers q' = [7%nat].
Proof.
  destruct (@cancele_correct nat nat nat _ lone_waiter) as (q' & ps & H1 & _ & _ & _ & _ & H2).
  - split; [left; reflexivity|constructor].
  - exists q', ps. destruct (H2 eq_refl) as [-> ->]. split; [exact H1|split; reflexivity].
Defined.
End QueueDemo.
