(* ===== verification/StdSort.v ===== *)
(** * StdSort: std::sort

    The code sorts routes and keys with std::sort, which promises a sorted
    permutation and nothing about the order of equivalent elements.  So
    std::sort is an interface: every theorem holds for any sort that keeps the
    promise.  Insertion sort is the instance used to run examples. *)

From S2P Require Import Prelude.

(** A comparison that std::sort accepts (a strict weak order). *)
Record strict_weak {A} (lt : A -> A -> bool) : Prop := {
  sw_irrefl : forall a, lt a a = false;
  sw_trans : forall a b c, lt a b = true -> lt b c = true -> lt a c = true;
  sw_negtrans : forall a b c, lt a b = false -> lt b c = false -> lt a c = false
}.

(** No element is smaller than one before it. *)
Abbreviation sorted lt := (StronglySorted (fun a b => lt b a = false)).

Class StdSort := { std_sort : forall {A}, (A -> A -> bool) -> list A -> list A }.

Class StdSortLaws (S : StdSort) := {
  std_sort_perm {A} (lt : A -> A -> bool) l : strict_weak lt -> std_sort lt l ≡ₚ l;
  std_sort_sorted {A} (lt : A -> A -> bool) l : strict_weak lt -> sorted lt (std_sort lt l)
}.

(** Comparing by a number, either way, is such an order. *)
Lemma strict_weak_ltb {A} (f : A -> Z) : strict_weak (fun a b => f a <? f b).
Proof.
  split.
  - intros. apply Z.ltb_irrefl.
  - intros a b c. rewrite !Z.ltb_lt. lia.
  - intros a b c. rewrite !Z.ltb_ge. lia.
Qed.

Lemma strict_weak_gtb {A} (f : A -> Z) : strict_weak (fun a b => f a >? f b).
Proof.
  split.
  - intros a. rewrite Z.gtb_ltb. apply Z.ltb_irrefl.
  - intros a b c. rewrite !Z.gtb_ltb, !Z.ltb_lt. lia.
  - intros a b c. rewrite !Z.gtb_ltb, !Z.ltb_ge. lia.
Qed.

(** ** Insertion sort *)
Module InsertionSort.
Fixpoint insert {A} (lt : A -> A -> bool) (x : A) (l : list A) : list A :=
  match l with
  | [] => [x]
  | y :: l' => if lt x y then x :: l else y :: insert lt x l'
  end.

(** Elements are inserted in order, each after its equals. *)
Definition sort {A} (lt : A -> A -> bool) (l : list A) : list A :=
  foldl (fun acc x => insert lt x acc) [] l.

Definition std : StdSort := {| std_sort := @sort |}.

Lemma insert_perm {A} (lt : A -> A -> bool) x l : insert lt x l ≡ₚ x :: l.
Proof.
  induction l as [|y l IH]; simpl; [done|].
  destruct (lt x y); [done|]. rewrite IH. apply Permutation_swap.
Qed.

Lemma insert_sorted {A} (lt : A -> A -> bool) x l :
  strict_weak lt -> sorted lt l -> sorted lt (insert lt x l).
Proof.
  intros Hlt. induction 1 as [|y l Hs IH HF]; simpl; [repeat constructor|].
  destruct (lt x y) eqn:E.
  - assert (Hyx : lt y x = false).
    { destruct (lt y x) eqn:E'; [|done].
      by rewrite <-(sw_irrefl lt Hlt x), (sw_trans lt Hlt x y x). }
    constructor; [by constructor|]. constructor; [done|].
    eapply Forall_impl; [exact HF|]. simpl. intros z Hz. by apply (sw_negtrans lt Hlt z y x).
  - constructor; [done|]. rewrite insert_perm. by constructor.
Qed.

Lemma sort_gen {A} (lt : A -> A -> bool) l acc :
  strict_weak lt -> sorted lt acc ->
  foldl (fun acc x => insert lt x acc) acc l ≡ₚ acc ++ l /\
  sorted lt (foldl (fun acc x => insert lt x acc) acc l).
Proof.
  intros Hlt. revert acc. induction l as [|x l IH]; intros acc Hacc; simpl.
  { by rewrite app_nil_r. }
  destruct (IH (insert lt x acc)) as [Hp Hs]; [by apply insert_sorted|].
  split; [|done]. rewrite Hp, insert_perm. simpl. apply Permutation_middle.
Qed.

Lemma std_laws : StdSortLaws std.
Proof.
  constructor; intros A lt l Hlt.
  - apply (sort_gen lt l [] Hlt). constructor.
  - apply (sort_gen lt l [] Hlt). constructor.
Defined.
End InsertionSort.
