(* ===== verification/Routing.v ===== *)
(** * Routing: the interface map and the routing table

    avkernel.cpp: [RouteItem] and its order, [add_route], [select_route],
    [remove_interface] on the members [m_avifs] (interface name to interface)
    and [m_routes] (sorted by metric; the first matching pattern wins). *)

From S2P Require Import Prelude StdSort Regex.

Section routing.
Context `{Build} `{BoostRegex} `{StdSort}.
(** What the map holds for an interface. *)
Context {I : Type}.

Record RouteItem := {
  pattern : regex;
  gateway : string;
  ifname : string;
  metric : Z
}.

(** operator< of RouteItem *)
Definition route_lt (lhs rhs : RouteItem) : bool := metric lhs <? metric rhs.

Record rtable := {
  m_avifs : gmap string I;
  m_routes : list RouteItem
}.

Definition empty_rtable : rtable := {| m_avifs := ∅; m_routes := [] |}.

Definition add_route (targetAddress gw name : string) (m : Z) (t : rtable) :
    outcome (bool * rtable) :=
  _ ← cassert (bool_decide (is_Some (m_avifs t !! name)));
  if bool_decide (is_Some (m_avifs t !! name)) then
    match regex_compile targetAddress with
    | None => Throw regex_error
    | Some re =>
        let r := {| pattern := re; gateway := gw; ifname := name; metric := m |} in
        Ret (true, {| m_avifs := m_avifs t; m_routes := std_sort route_lt (m_routes t ++ [r]) |})
    end
  else Ret (false, t).

(** [&m_avifs.at(name)]: the node of the map, or std::out_of_range. *)
Definition avifs_at (name : string) (avifs : gmap string I) : outcome (string * I) :=
  match avifs !! name with Some i => Ret (name, i) | None => Throw out_of_range end.

Fixpoint select_in (address : string) (routes : list RouteItem) (avifs : gmap string I) :
    outcome (option (string * I)) :=
  match routes with
  | [] => Ret None
  | r :: routes =>
      if regex_match address (pattern r)
      then n ← avifs_at (ifname r) avifs; Ret (Some n)
      else select_in address routes avifs
  end.

Definition select_route (address : string) (t : rtable) : outcome (option (string * I)) :=
  select_in address (m_routes t) (m_avifs t).

(** [erase(find_if(...))] on the first route of the interface; [None] when
    find_if returns end(). *)
Fixpoint erase_first (name : string) (routes : list RouteItem) : option (list RouteItem) :=
  match routes with
  | [] => None
  | r :: routes =>
      if String.eqb (ifname r) name then Some routes
      else match erase_first name routes with Some l => Some (r :: l) | None => None end
  end.

Fixpoint erase_loop (fuel : nat) (name : string) (routes : list RouteItem) :
    outcome (list RouteItem) :=
  match fuel with
  | O => OutOfFuel
  | S fuel =>
      match erase_first name routes with
      | None => Ret routes
      | Some routes => erase_loop fuel name routes
      end
  end.

Definition remove_interface (avifname : string) (t : rtable) : outcome rtable :=
  routes ← erase_loop (S (length (m_routes t))) avifname (m_routes t);
  Ret {| m_avifs := delete avifname (m_avifs t); m_routes := routes |}.

(** [m_avifs.insert(make_pair(name, i))]: an existing entry stays. *)
Definition insert_interface (name : string) (i : I) (t : rtable) : rtable :=
  match m_avifs t !! name with
  | Some _ => t
  | None => {| m_avifs := <[name := i]> (m_avifs t); m_routes := m_routes t |}
  end.

Lemma add_route_eq target gw name m t re :
  is_Some (m_avifs t !! name) -> regex_compile target = Some re ->
  add_route target gw name m t = Ret (true, {| m_avifs := m_avifs t;
    m_routes := std_sort route_lt (m_routes t ++
      [{| pattern := re; gateway := gw; ifname := name; metric := m |}]) |}).
Proof. intros Hn Hre. unfold add_route, cassert. by rewrite bool_decide_eq_true_2, Hre. Qed.

(** ** The invariant: the table is sorted and names known interfaces only *)
Record rtable_ok (t : rtable) : Prop := {
  routes_sorted : sorted route_lt (m_routes t);
  routes_known : Forall (fun r => is_Some (m_avifs t !! ifname r)) (m_routes t)
}.

Lemma empty_rtable_ok : rtable_ok empty_rtable.
Proof. split; constructor. Qed.

Lemma route_lt_strict : strict_weak route_lt.
Proof. apply (strict_weak_ltb metric). Qed.

(** ** Removing an interface *)

Definition not_via (name : string) (r : RouteItem) : Prop := ifname r <> name.
#[local] Instance not_via_dec name r : Decision (not_via name r) := _.

Lemma erase_first_Some name l l' :
  erase_first name l = Some l' ->
  filter (not_via name) l' = filter (not_via name) l /\ length l = S (length l').
Proof.
  revert l'. induction l as [|r l IH]; intros l'; simpl; [done|].
  destruct (String.eqb_spec (ifname r) name) as [E|E].
  - intros [= <-]. split; [|done]. by rewrite filter_cons_False by (unfold not_via; tauto).
  - destruct (erase_first name l) as [l1|]; [|done]. intros [= <-].
    destruct (IH l1 eq_refl) as [Hf Hl]. simpl. split; [|lia].
    by rewrite !filter_cons_True, Hf by done.
Qed.

Lemma erase_first_None name l : erase_first name l = None -> filter (not_via name) l = l.
Proof.
  induction l as [|r l IH]; simpl; [done|].
  destruct (String.eqb_spec (ifname r) name) as [E|E]; [done|].
  destruct (erase_first name l); [done|]. intros _.
  by rewrite filter_cons_True, IH by done.
Qed.

Lemma erase_loop_filter fuel name l :
  (length l < fuel)%nat -> erase_loop fuel name l = Ret (filter (not_via name) l).
Proof.
  revert l. induction fuel as [|fuel IH]; intros l Hl; [lia|]. simpl.
  destruct (erase_first name l) as [l'|] eqn:E.
  - apply erase_first_Some in E as [Hf Hn]. rewrite IH by lia. by rewrite Hf.
  - by rewrite erase_first_None.
Qed.

Lemma remove_interface_eq name t :
  remove_interface name t = Ret {| m_avifs := delete name (m_avifs t);
    m_routes := filter (not_via name) (m_routes t) |}.
Proof. unfold remove_interface. by rewrite erase_loop_filter by lia. Qed.

Lemma filter_all {A} (P : A -> Prop) `{!forall a, Decision (P a)} l : Forall P l -> filter P l = l.
Proof. induction 1 as [|a l Ha _ IH]; [done|]. by rewrite filter_cons_True, IH. Qed.

Lemma StronglySorted_filter {A} (R : A -> A -> Prop) (P : A -> Prop)
    `{!forall a, Decision (P a)} l : StronglySorted R l -> StronglySorted R (filter P l).
Proof.
  induction 1 as [|a l Hs IH HF]; [constructor|].
  destruct (decide (P a)); [rewrite filter_cons_True by done|by rewrite filter_cons_False by done].
  constructor; [done|]. apply Forall_forall. intros x Hx.
  apply list_elem_of_filter in Hx as [_ Hx]. by eapply Forall_forall in HF.
Qed.

Lemma remove_interface_ok name t t' :
  rtable_ok t -> remove_interface name t = Ret t' -> rtable_ok t'.
Proof.
  intros [Hs Hk]. rewrite remove_interface_eq. intros [= <-]. split; simpl.
  - by apply StronglySorted_filter.
  - apply Forall_forall. intros r Hr. apply list_elem_of_filter in Hr as [Hn Hr].
    eapply Forall_forall in Hk; [|done]. rewrite lookup_delete_ne; [done|].
    intros E. by apply Hn.
Qed.

Lemma insert_interface_ok name i t : rtable_ok t -> rtable_ok (insert_interface name i t).
Proof.
  intros [Hs Hk]. unfold insert_interface. destruct (m_avifs t !! name); [done|].
  split; simpl; [done|]. eapply Forall_impl; [exact Hk|]. simpl. intros r Hr.
  destruct (decide (name = ifname r)) as [->|]; [rewrite lookup_insert_eq; eauto|].
  by rewrite lookup_insert_ne.
Qed.

Context `{!StdSortLaws H1}.

Lemma add_route_ok target gw name m t b t' :
  rtable_ok t -> add_route target gw name m t = Ret (b, t') -> rtable_ok t'.
Proof.
  intros [Hs Hk] E. unfold add_route in E. inv_bind.
  destruct (bool_decide_reflect (is_Some (m_avifs t !! name))) as [Hn|]; [|by simplify_eq].
  destruct (regex_compile target); [|done]. simplify_eq. split; simpl.
  - apply std_sort_sorted. apply route_lt_strict.
  - rewrite (std_sort_perm _ _ route_lt_strict). apply Forall_app. split; [done|].
    by repeat constructor.
Qed.

(** ** Selection *)

Lemma select_in_spec address routes avifs :
  sorted route_lt routes -> Forall (fun r => is_Some (avifs !! ifname r)) routes ->
  (select_in address routes avifs = Ret None /\
     Forall (fun r => regex_match address (pattern r) = false) routes) \/
  exists r i, select_in address routes avifs = Ret (Some (ifname r, i)) /\ r ∈ routes /\
    regex_match address (pattern r) = true /\ avifs !! ifname r = Some i /\
    forall r', r' ∈ routes -> regex_match address (pattern r') = true -> metric r <= metric r'.
Proof.
  induction 1 as [|r l Hs IH HF]; intros Hk; simpl; [left; split; [done|constructor]|].
  inversion Hk as [|? ? [i Hi] Hk']; subst.
  destruct (regex_match address (pattern r)) eqn:Em.
  - right. exists r, i. unfold avifs_at. rewrite Hi. split_and!; [done|by left|done..|].
    intros r' [->|Hr']%elem_of_cons _; [lia|]. eapply Forall_forall in HF; [|done].
    unfold route_lt in HF. apply Z.ltb_ge in HF. lia.
  - destruct (IH Hk') as [[-> Hn]|(r1 & i1 & E & Hr1 & Hm & Hl & Hmin)].
    + left. split; [done|]. by constructor.
    + right. exists r1, i1. split_and!; [done|by right|done..|].
      intros r' [->|Hr']%elem_of_cons Hm'; [congruence|]. by apply Hmin.
Qed.

Lemma select_route_total address t :
  rtable_ok t -> exists o, select_route address t = Ret o.
Proof.
  intros [Hs Hk]. destruct (select_in_spec address _ _ Hs Hk) as [[E _]|(r & i & E & _)]; eauto.
Qed.

Lemma select_route_ok address t :
  rtable_ok t ->
  exists o, select_route address t = Ret o /\
    match o with
    | None => Forall (fun r => regex_match address (pattern r) = false) (m_routes t)
    | Some (name, i) =>
        m_avifs t !! name = Some i /\
        exists r, r ∈ m_routes t /\ ifname r = name /\ regex_match address (pattern r) = true /\
          forall r', r' ∈ m_routes t -> regex_match address (pattern r') = true ->
            metric r <= metric r'
    end.
Proof.
  intros [Hs Hk]. destruct (select_in_spec address _ _ Hs Hk) as
    [[E HF]|(r & i & E & Hr & Hm & Hl & Hmin)].
  - by exists None.
  - exists (Some (ifname r, i)). split; [done|]. split; [done|]. by exists r.
Qed.

(** C31: under the table's invariant route selection never throws, finds no
    interface exactly when no pattern matches the address, and otherwise gives
    a known interface reached by a matching route of the smallest metric. *)
Theorem select_route_best address t :
  rtable_ok t ->
  exists o, select_route address t = Ret o /\
    match o with
    | None => Forall (fun r => regex_match address (pattern r) = false) (m_routes t)
    | Some (name, i) =>
        m_avifs t !! name = Some i /\
        exists r, r ∈ m_routes t /\ ifname r = name /\ regex_match address (pattern r) = true /\
          forall r', r' ∈ m_routes t -> regex_match address (pattern r') = true ->
            metric r <= metric r'
    end.
Proof. apply select_route_ok. Qed.

(** [add_route] refuses an unknown interface (by its assertion, or by
    returning false in an NDEBUG build), throws on a pattern that does not
    compile, and otherwise adds exactly the one route, leaving the others. *)
Theorem add_route_correct target gw name m t :
  match add_route target gw name m t with
  | Ret (true, t') =>
      is_Some (m_avifs t !! name) /\ m_avifs t' = m_avifs t /\
      exists re, regex_compile target = Some re /\
        m_routes t' ≡ₚ {| pattern := re; gateway := gw; ifname := name; metric := m |} :: m_routes t
  | Ret (false, t') => m_avifs t !! name = None /\ NDEBUG = true /\ t' = t
  | Throw e => e = regex_error /\ is_Some (m_avifs t !! name) /\ regex_compile target = None
  | AssertFail => m_avifs t !! name = None /\ NDEBUG = false
  | UB | OutOfFuel => False
  end.
Proof.
  unfold add_route, cassert.
  destruct (bool_decide_reflect (is_Some (m_avifs t !! name))) as [Hn|Hn]; simpl.
  - destruct (regex_compile target) as [re|] eqn:E; [|done]. simpl. split_and!; [done..|].
    exists re. split; [done|].
    rewrite (std_sort_perm _ _ route_lt_strict). symmetry. apply Permutation_cons_append.
  - apply eq_None_not_Some in Hn. destruct NDEBUG; done.
Qed.

(** The invariant of the routing table is kept by every operation on it:
    adding an interface, adding a route, removing an interface. *)
Theorem rtable_invariant t t' :
  rtable_ok t ->
  (exists name i, t' = insert_interface name i t) \/
  (exists target gw name m b, add_route target gw name m t = Ret (b, t')) \/
  (exists name, remove_interface name t = Ret t') ->
  rtable_ok t'.
Proof.
  intros Ht [(name & i & ->)|[(target & gw & name & m & b & E)|(name & E)]].
  - by apply insert_interface_ok.
  - by eapply add_route_ok.
  - by eapply remove_interface_ok.
Qed.

(** Removing an interface removes it, all routes through it and nothing
    else (the erase loop ends), so no address is routed to it any more. *)
Theorem remove_interface_correct name t :
  rtable_ok t ->
  exists t', remove_interface name t = Ret t' /\
    m_avifs t' = delete name (m_avifs t) /\
    m_routes t' = filter (not_via name) (m_routes t) /\
    forall address i, select_route address t' <> Ret (Some (name, i)).
Proof.
  intros Ht. rewrite remove_interface_eq. eexists. split; [done|]. split_and!; [done..|].
  intros address i E.
  set (t' := {| m_avifs := _; m_routes := _ |}) in *.
  assert (Ht' : rtable_ok t') by (eapply remove_interface_ok; [exact Ht|apply remove_interface_eq]).
  destruct (select_route_ok address t' Ht') as (o & Eo & Hspec).
  rewrite E in Eo. simplify_eq. destruct Hspec as [Hl _].
  subst t'. simpl in Hl. by rewrite lookup_delete_eq in Hl.
Qed.
End routing.

Arguments rtable {_} I.

(** ** Concrete runs *)
Module RoutingDemo.
#[local] Existing Instances debug_build ToyRegex.boost InsertionSort.std InsertionSort.std_laws.

(** Two interfaces and two routes that both match every address. *)
Definition route (name : string) (m : Z) : RouteItem :=
  {| pattern := any_address_re : regex; gateway := ""; ifname := name; metric := m |}.
Definition table : rtable nat :=
  {| m_avifs := <["avjack1" := 1%nat]> {["avjack2" := 2%nat]};
     m_routes := [route "avjack2" 50; route "avjack1" 100] |}.

Lemma table_ok : rtable_ok table.
Proof.
  split; [|repeat constructor; vm_compute; eauto].
  repeat constructor.
Defined.

Lemma select_route_best_witness :
  select_route "a@b" table = Ret (Some ("avjack2", 2%nat)) /\
  exists o, select_route "a@b" table = Ret o /\
    match o with
    | None => False
    | Some (name, i) => m_avifs table !! name = Some i
    end.
Proof.
  split; [vm_compute; reflexivity|].
  destruct (select_route_best "a@b" table table_ok) as (o & E & Ho).
  exists o. split; [exact E|]. vm_compute in E. injection E as <-. apply Ho.
Defined.

Lemma add_route_correct_witness :
  exists t', add_route ".+@.+" "gw" "avjack1" 10 table = Ret (true, t') /\
    m_avifs t' = m_avifs table.
Proof.
  assert (E : exists t', add_route ".+@.+" "gw" "avjack1" 10 table = Ret (true, t'))
    by (eexists; vm_compute; reflexivity).
  pose proof (add_route_correct ".+@.+" "gw" "avjack1" 10 table) as H.
  destruct E as [t' E]. rewrite E in H. exists t'. split; [exact E|apply H].
Defined.

Lemma rtable_invariant_witness : rtable_ok (insert_interface "avjack3" 3%nat table).
Proof. apply (rtable_invariant table); [exact table_ok|left; eauto]. Defined.

Lemma remove_interface_correct_witness :
  exists t', remove_interface "avjack2" table = Ret t' /\
    select_route "a@b" t' = Ret (Some ("avjack1", 1%nat)) /\
    forall address i, select_route address t' <> Ret (Some ("avjack2", i)).
Proof.
  destruct (remove_interface_correct "avjack2" table table_ok) as (t' & E & _ & _ & Hn).
  exists t'. split; [exact E|]. split; [|exact Hn].
  vm_compute in E. injection E as <-. vm_compute. reflexivity.
Defined.
End RoutingDemo.
