(* ===== verification/KeyStore.v ===== *)
(** * KeyStore: the public keys the kernel trusts

    avkernel.cpp: [AVPubKey], [AVdbitem], and [find_RSA_pubkey],
    [add_RSA_pubkey], [purge_RSA_pubkey] on the member [trusted_pubkey], a
    std::map from addresses to keys kept by decreasing expiry time.  Times are
    counts of microseconds. *)

From S2P Require Import Prelude StdSort OpenSSL.

Section keystore.
Context `{OpenSSL} `{StdSort}.

Record AVPubKey := {
  rsa : RSA;
  valid_until : Z
}.

Record AVdbitem := {
  avaddr : string;
  keys : list AVPubKey
}.

Abbreviation keystore := (gmap string AVdbitem).

Definition find_RSA_pubkey (address : string) (st : keystore) : outcome (option RSA) :=
  match st !! address with
  | Some item =>
      match keys item with
      | front :: _ => Ret (Some (rsa front))
      | [] => UB (* front() of an empty vector *)
      end
  | None => Ret None
  end.

(** The comparison given to std::sort. *)
Definition key_lt (lhs rhs : AVPubKey) : bool := valid_until lhs >? valid_until rhs.

Definition add_RSA_pubkey (address : string) (pubkey : RSA) (until : Z) (st : keystore) : keystore :=
  (* operator[] makes an empty item for a new address *)
  let key_item := default {| avaddr := ""; keys := [] |} (st !! address) in
  let key := {| rsa := pubkey; valid_until := until |} in
  <[address := {| avaddr := address; keys := std_sort key_lt (keys key_item ++ [key]) |}]> st.

(** The inner loop of [purge_RSA_pubkey]: erase from the first expired key on. *)
Fixpoint erase_expired (now : Z) (ks : list AVPubKey) : list AVPubKey :=
  match ks with
  | [] => []
  | k :: ks => if valid_until k <? now then [] else k :: erase_expired now ks
  end.

(** The outer loop, over the keys of the map still to visit.  Erasing an entry
    advances the iterator twice: [erase(iter++)] and then the [++iter] of the
    for statement, which is undefined on end(). *)
Fixpoint purge_loop (now : Z) (iter : list string) (st : keystore) : outcome keystore :=
  match iter with
  | [] => Ret st
  | address :: iter =>
      item ← deref (st !! address);
      let ks := erase_expired now (keys item) in
      let st := <[address := {| avaddr := avaddr item; keys := ks |}]> st in
      match ks with
      | [] =>
          let st := delete address st in
          match iter with
          | [] => UB
          | _ :: iter => purge_loop now iter st
          end
      | _ => purge_loop now iter st
      end
  end.

Definition purge_RSA_pubkey (now : Z) (st : keystore) : outcome keystore :=
  purge_loop now (map_iter st).*1 st.

(** ** The invariant *)
Definition item_ok (address : string) (item : AVdbitem) : Prop :=
  avaddr item = address /\ keys item <> [] /\ sorted key_lt (keys item).

Definition keystore_ok (st : keystore) : Prop := map_Forall item_ok st.

Lemma empty_keystore_ok : keystore_ok ∅.
Proof. apply map_Forall_empty. Qed.

Lemma key_lt_strict : strict_weak key_lt.
Proof. apply (strict_weak_gtb valid_until). Qed.

Lemma key_lt_le a b : key_lt b a = false <-> valid_until b <= valid_until a.
Proof. unfold key_lt. rewrite Z.gtb_ltb, Z.ltb_ge. done. Qed.

(** ** Purging *)

(** A key is live at [now] when it has not expired. *)
Definition live (now : Z) (k : AVPubKey) : Prop := now <= valid_until k.
#[local] Instance live_dec now k : Decision (live now k).
Proof. unfold live. apply _. Defined.

Lemma erase_expired_filter now ks :
  sorted key_lt ks -> erase_expired now ks = filter (live now) ks.
Proof.
  induction 1 as [|k ks Hs IH HF]; simpl; [done|].
  destruct (Z.ltb_spec (valid_until k) now) as [Hlt|Hge].
  - rewrite filter_cons_False by (unfold live; lia). symmetry.
    clear -HF Hlt. induction HF as [|k' ks Hk _ IH]; [done|].
    apply key_lt_le in Hk. by rewrite filter_cons_False by (unfold live; lia).
  - by rewrite filter_cons_True, IH by (unfold live; lia).
Qed.

Lemma erase_expired_sorted now ks : sorted key_lt ks -> sorted key_lt (erase_expired now ks).
Proof.
  induction 1 as [|k ks Hs IH HF]; simpl; [constructor|].
  destruct (valid_until k <? now); [constructor|]. constructor; [done|].
  apply Forall_forall. intros x Hx. rewrite Forall_forall in HF. apply HF.
  clear -Hx. induction ks as [|k' ks IH]; simpl in *; [done|].
  destruct (valid_until k' <? now); [by apply not_elem_of_nil in Hx|].
  apply elem_of_cons in Hx as [->|Hx]; [by left|right; by apply IH].
Qed.

(** The relation between a store and what purging leaves of it: entries keep
    their address; live keys stay; no key is invented. *)
Definition purged (now : Z) (st st' : keystore) : Prop :=
  (forall address item, st !! address = Some item ->
     forall k, k ∈ keys item -> live now k ->
     exists item', st' !! address = Some item' /\ k ∈ keys item') /\
  (forall address item', st' !! address = Some item' ->
     exists item, st !! address = Some item /\ keys item' ⊆ keys item).

Lemma purged_refl now st : purged now st st.
Proof. split; eauto. Qed.

Lemma purged_trans now st1 st2 st3 :
  purged now st1 st2 -> purged now st2 st3 -> purged now st1 st3.
Proof.
  intros [H12 K12] [H23 K23]. split.
  - intros a item Ha k Hk Hl. destruct (H12 a item Ha k Hk Hl) as (i2 & E2 & Hk2).
    by apply (H23 a i2 E2 k).
  - intros a i3 E3. destruct (K23 a i3 E3) as (i2 & E2 & S2).
    destruct (K12 a i2 E2) as (i1 & E1 & S1). exists i1. set_solver.
Qed.

(** One visited entry. *)
Definition visit (now : Z) (address : string) (st : keystore) : keystore :=
  match st !! address with
  | Some item =>
      match erase_expired now (keys item) with
      | [] => delete address st
      | ks => <[address := {| avaddr := avaddr item; keys := ks |}]> st
      end
  | None => st
  end.

Lemma visit_ok now address st : keystore_ok st -> keystore_ok (visit now address st).
Proof.
  intros Hst. unfold visit. destruct (st !! address) as [item|] eqn:E; [|done].
  destruct (Hst address item E) as (Ha & Hne & Hs).
  pose proof (erase_expired_sorted now _ Hs) as Hs'.
  destruct (erase_expired now (keys item)) as [|k ks]; [by apply map_Forall_delete|].
  apply map_Forall_insert_2; [|done]. done.
Qed.

Lemma visit_purged now address st : keystore_ok st -> purged now st (visit now address st).
Proof.
  intros Hst. unfold visit. destruct (st !! address) as [item|] eqn:E; [|apply purged_refl].
  destruct (Hst address item E) as (Ha & Hne & Hs).
  rewrite (erase_expired_filter now _ Hs).
  assert (Hin : forall k, k ∈ filter (live now) (keys item) <-> live now k /\ k ∈ keys item)
    by (intros k; apply list_elem_of_filter).
  destruct (filter (live now) (keys item)) as [|k0 ks0].
  - split.
    + intros a i Hi k Hk Hl. destruct (decide (address = a)) as [<-|Hn].
      * exfalso. simplify_eq. specialize (Hin k). apply (not_elem_of_nil k), Hin. done.
      * exists i. by rewrite lookup_delete_ne.
    + intros a i Hi. apply lookup_delete_Some in Hi as [_ Hi]. eauto.
  - split.
    + intros a i Hi k Hk Hl. destruct (decide (address = a)) as [<-|Hn].
      * simplify_eq. rewrite lookup_insert_eq. eexists. split; [done|]. simpl. by apply Hin.
      * exists i. by rewrite lookup_insert_ne.
    + intros a i Hi. destruct (decide (address = a)) as [<-|Hn].
      * rewrite lookup_insert_eq in Hi. simplify_eq. exists item. split; [done|]. simpl.
        intros k Hk. by apply Hin in Hk as [_ Hk].
      * rewrite lookup_insert_ne in Hi by done. eauto.
Qed.

Lemma visit_lookup_ne now address a st : address <> a -> visit now address st !! a = st !! a.
Proof.
  intros Hn. unfold visit. destruct (st !! address) as [item|]; [|done].
  destruct (erase_expired now (keys item)); [by rewrite lookup_delete_ne|by rewrite lookup_insert_ne].
Qed.

(** The loop in terms of visits. *)
Lemma purge_loop_cons now address iter st item :
  st !! address = Some item ->
  purge_loop now (address :: iter) st =
    match erase_expired now (keys item), iter with
    | [], [] => UB
    | [], _ :: iter => purge_loop now iter (visit now address st)
    | _ :: _, _ => purge_loop now iter (visit now address st)
    end.
Proof.
  intros E. cbn [purge_loop]. rewrite E. simpl. unfold visit. rewrite E.
  destruct (erase_expired now (keys item)) as [|k ks]; [|done].
  destruct iter; [done|]. by rewrite delete_insert_eq.
Qed.

Lemma purge_loop_live now pre rest st :
  NoDup pre ->
  (forall a, a ∈ pre -> exists item, st !! a = Some item /\ erase_expired now (keys item) <> []) ->
  purge_loop now (pre ++ rest) st = purge_loop now rest (foldl (fun s a => visit now a s) st pre).
Proof.
  intros Hnd. revert st. induction Hnd as [|a pre Ha Hnd IH]; intros st Hl; [done|].
  cbn [app foldl]. destruct (Hl a) as (item & E & Hk); [by left|].
  rewrite (purge_loop_cons _ _ _ _ _ E).
  destruct (erase_expired now (keys item)); [done|]. apply IH.
  intros b Hb. rewrite visit_lookup_ne by (intros ->; done). apply Hl. by right.
Qed.

Lemma foldl_visit_ne now l a st :
  a ∉ l -> foldl (fun s b => visit now b s) st l !! a = st !! a.
Proof.
  revert st. induction l as [|b l IH]; intros st Hn; simpl; [done|].
  apply not_elem_of_cons in Hn as [Hne Hn]. rewrite IH by done. by apply visit_lookup_ne.
Qed.

Lemma purge_loop_ne now l a st st' :
  a ∉ l -> purge_loop now l st = Ret st' -> st' !! a = st !! a.
Proof.
  remember (length l) as n eqn:Hn. revert l st Hn.
  induction (lt_wf n) as [n _ IH]. intros l st -> Hl. destruct l as [|b l]; [by intros [= <-]|].
  apply not_elem_of_cons in Hl as [Hne Hl]. intros E.
  destruct (st !! b) as [item|] eqn:Eb; [|by cbn [purge_loop] in E; rewrite Eb in E].
  rewrite (purge_loop_cons _ _ _ _ _ Eb) in E.
  rewrite <-(visit_lookup_ne now b a st) by done.
  destruct (erase_expired now (keys item)) as [|k ks]; [destruct l as [|c l]; [done|]|].
  - eapply (IH (length l)); [simpl; lia|done| |exact E].
    by apply not_elem_of_cons in Hl as [_ Hl].
  - eapply (IH (length l)); [simpl; lia|done|done|exact E].
Qed.

Lemma purge_loop_outcome now l st :
  purge_loop now l st = UB \/ exists st', purge_loop now l st = Ret st'.
Proof.
  remember (length l) as n eqn:Hn. revert l st Hn.
  induction (lt_wf n) as [n _ IH]. intros [|b l] st ->; [by right; exists st|].
  destruct (st !! b) as [item|] eqn:Eb; [|by left; cbn [purge_loop]; rewrite Eb].
  rewrite (purge_loop_cons _ _ _ _ _ Eb).
  destruct (erase_expired now (keys item)) as [|k ks]; [destruct l as [|c l]; [by left|]|];
    (eapply IH; [|done]); simpl; lia.
Qed.

Lemma purge_loop_safe now l st st' :
  keystore_ok st -> purge_loop now l st = Ret st' -> keystore_ok st' /\ purged now st st'.
Proof.
  remember (length l) as n eqn:Hn. revert l st Hn.
  induction (lt_wf n) as [n _ IH]. intros l st -> Hst E.
  destruct l as [|b l]; [simplify_eq/=; split; [done|apply purged_refl]|].
  destruct (st !! b) as [item|] eqn:Eb; [|by cbn [purge_loop] in E; rewrite Eb in E].
  rewrite (purge_loop_cons _ _ _ _ _ Eb) in E.
  assert (exists l', (length l' < length (b :: l))%nat /\
    purge_loop now l' (visit now b st) = Ret st') as (l' & Hl' & E').
  { destruct (erase_expired now (keys item)); [destruct l as [|c l]; [done|]|];
      eexists; (split; [|exact E]); simpl; lia. }
  destruct (IH (length l') Hl' l' (visit now b st) eq_refl (visit_ok now b st Hst) E') as [Hok Hp].
  split; [done|]. eapply purged_trans; [by apply visit_purged|done].
Qed.

Lemma NoDup_map_iter (st : keystore) : NoDup (map_iter st).*1.
Proof.
  unfold map_iter. set (l := merge_sort _ _).
  assert (Hl : NoDup l).
  { unfold l. rewrite merge_sort_Permutation. apply NoDup_elements. }
  clearbody l. induction Hl as [|a l Ha Hl IH]; simpl; [constructor|].
  destruct (st !! a) as [i|]; simpl; [|done]. constructor; [|done].
  intros Hin. apply list_elem_of_fmap in Hin as ([a' i'] & -> & Hin).
  apply list_elem_of_omap in Hin as (a'' & Hin & E).
  destruct (st !! a''); simplify_eq/=. done.
Qed.

Lemma elem_of_map_keys (st : keystore) a : a ∈ (map_iter st).*1 <-> is_Some (st !! a).
Proof.
  rewrite list_elem_of_fmap. split.
  - intros ([a' i] & -> & Hin). apply elem_of_map_iter in Hin. simpl. eauto.
  - intros [i Hi]. exists (a, i). split; [done|]. by apply elem_of_map_iter.
Qed.

(** Purging never takes a key that has not expired and invents none, and
    keeps the store well-formed, whenever it returns. *)
Theorem purge_keeps_live now st st' :
  keystore_ok st -> purge_RSA_pubkey now st = Ret st' -> keystore_ok st' /\ purged now st st'.
Proof. intros Hst E. by eapply purge_loop_safe. Qed.

(** When every address has a key that has not expired, purging returns and
    is exact: each address keeps precisely its unexpired keys, in order. *)
Theorem purge_exact now st :
  keystore_ok st ->
  (forall a item, st !! a = Some item -> exists k, k ∈ keys item /\ live now k) ->
  exists st', purge_RSA_pubkey now st = Ret st' /\
    forall a, st' !! a = (fun item =>
      {| avaddr := avaddr item; keys := filter (live now) (keys item) |}) <$> st !! a.
Proof.
  intros Hst Hl.
  assert (Hne : forall a item, st !! a = Some item -> erase_expired now (keys item) <> []).
  { intros a item Ha E. destruct (Hst a item Ha) as (_ & _ & Hs).
    rewrite (erase_expired_filter now _ Hs) in E. destruct (Hl a item Ha) as (k & Hk & Hkl).
    apply (not_elem_of_nil k). rewrite <-E. by apply list_elem_of_filter. }
  unfold purge_RSA_pubkey. rewrite <-(app_nil_r (map_iter st).*1).
  rewrite purge_loop_live; [|apply NoDup_map_iter|].
  2:{ intros a [item Ha]%elem_of_map_keys. eauto. }
  simpl. eexists. split; [done|]. intros a.
  assert (Hvis : forall l s, NoDup l -> a ∈ l -> s !! a = st !! a ->
    foldl (fun s a => visit now a s) s l !! a = visit now a s !! a).
  { induction l as [|b l IH]; intros s Hnd Hin Hs; [by apply not_elem_of_nil in Hin|].
    inversion Hnd; subst. simpl. apply elem_of_cons in Hin as [->|Hin].
    - by rewrite foldl_visit_ne.
    - assert (b <> a) by (intros ->; done).
      rewrite IH by (try rewrite visit_lookup_ne; done).
      unfold visit at 1 3. rewrite visit_lookup_ne by done.
      destruct (s !! a) as [item|]; [|by apply visit_lookup_ne].
      destruct (erase_expired now (keys item)); [by rewrite !lookup_delete_eq|].
      by rewrite !lookup_insert_eq. }
  destruct (st !! a) as [item|] eqn:Ea; simpl.
  - rewrite (Hvis _ st (NoDup_map_iter st)) by (try (apply elem_of_map_keys; eauto); done).
    unfold visit. rewrite Ea. pose proof (Hne a item Ea) as Hn.
    destruct (Hst a item Ea) as (_ & _ & Hs). rewrite <-(erase_expired_filter now _ Hs).
    destruct (erase_expired now (keys item)); [done|]. by rewrite lookup_insert_eq.
  - rewrite foldl_visit_ne; [done|]. rewrite elem_of_map_keys, Ea. by intros [? [=]].
Qed.

(** The purge loop advances its iterator twice when it erases an entry.
    At the first address (in map order) whose keys have all expired: if it is
    the last one the iterator runs past the end, which is undefined; otherwise
    the entry goes, and the next address is skipped, its expired keys kept,
    whatever the loop does later (it may still run past the end). *)
Theorem purge_first_expired now st pre a rest item :
  (map_iter st).*1 = pre ++ a :: rest ->
  (forall b, b ∈ pre -> exists i, st !! b = Some i /\ erase_expired now (keys i) <> []) ->
  st !! a = Some item -> erase_expired now (keys item) = [] ->
  match rest with
  | [] => purge_RSA_pubkey now st = UB
  | next :: _ => purge_RSA_pubkey now st = UB \/
      exists st', purge_RSA_pubkey now st = Ret st' /\ st' !! a = None /\ st' !! next = st !! next
  end.
Proof.
  intros Hit Hpre Ha He. pose proof (NoDup_map_iter st) as Hnd. rewrite Hit in Hnd.
  apply NoDup_app in Hnd as (Hndp & Hdis & Hnd). inversion Hnd as [|? ? Har Hndr]; subst.
  assert (Hap : a ∉ pre) by (intros Hin; apply (Hdis a Hin); by left).
  set (s := foldl (fun s b => visit now b s) st pre).
  assert (Hsa : s !! a = Some item) by (unfold s; by rewrite foldl_visit_ne).
  assert (E : purge_RSA_pubkey now st = match rest with
    | [] => UB | _ :: iter => purge_loop now iter (visit now a s) end).
  { unfold purge_RSA_pubkey. rewrite Hit, purge_loop_live by done. fold s.
    by rewrite (purge_loop_cons _ _ _ _ _ Hsa), He. }
  destruct rest as [|next rest]; [done|].
  destruct (purge_loop_outcome now rest (visit now a s)) as [E'|[st' E']]; rewrite E, E'; [by left|right].
  exists st'. split; [done|].
  inversion Hndr as [|? ? Hnr _]; subst. apply not_elem_of_cons in Har as [Hne Har].
  rewrite (purge_loop_ne _ _ _ _ _ Har E'), (purge_loop_ne _ _ _ _ _ Hnr E'). split.
  - unfold visit. rewrite Hsa, He. apply lookup_delete_eq.
  - rewrite visit_lookup_ne by done. unfold s. rewrite foldl_visit_ne; [done|].
    intros Hin. apply (Hdis next Hin). right. by left.
Qed.

(** ** Adding and finding *)
Context `{!StdSortLaws H0}.

Lemma add_RSA_pubkey_ok address k until st :
  keystore_ok st -> keystore_ok (add_RSA_pubkey address k until st).
Proof.
  intros Hst. unfold add_RSA_pubkey. apply map_Forall_insert_2; [|done].
  split_and!; simpl; [done| |apply std_sort_sorted, key_lt_strict].
  intros E. pose proof (std_sort_perm key_lt
    (keys (default {| avaddr := ""; keys := [] |} (st !! address)) ++
      [{| rsa := k; valid_until := until |}]) key_lt_strict) as Hp.
  rewrite E in Hp. apply Permutation_nil_l in Hp.
  symmetry in Hp. by apply app_eq_nil in Hp as [_ ?].
Qed.

Lemma find_RSA_pubkey_ok address st :
  keystore_ok st ->
  (st !! address = None /\ find_RSA_pubkey address st = Ret None) \/
  exists item k, st !! address = Some item /\ k ∈ keys item /\
    find_RSA_pubkey address st = Ret (Some (rsa k)) /\
    forall k', k' ∈ keys item -> valid_until k' <= valid_until k.
Proof.
  intros Hst. unfold find_RSA_pubkey. destruct (st !! address) as [item|] eqn:E; [right|by left].
  destruct (Hst address item E) as (_ & Hne & Hs).
  destruct (keys item) as [|k ks] eqn:Ek; [done|]. exists item, k.
  rewrite Ek. split_and!; [done|by left|done|].
  intros k' [->|Hk']%elem_of_cons; [lia|].
  inversion Hs as [|? ? _ HF]; subst. rewrite Forall_forall in HF. by apply key_lt_le, HF.
Qed.

(** After [add_RSA_pubkey], looking the address up succeeds and gives,
    among the keys it had and the new one, one that expires last; the other
    addresses are untouched. *)
Theorem find_after_add address k until st :
  keystore_ok st ->
  let st' := add_RSA_pubkey address k until st in
  (exists best, find_RSA_pubkey address st' = Ret (Some (rsa best)) /\
    let old := match st !! address with Some item => keys item | None => [] end in
    best ∈ old ++ [{| rsa := k; valid_until := until |}] /\
    until <= valid_until best /\ forall k', k' ∈ old -> valid_until k' <= valid_until best) /\
  forall other, other <> address -> find_RSA_pubkey other st' = find_RSA_pubkey other st.
Proof.
  intros Hst st'. pose proof (add_RSA_pubkey_ok address k until st Hst) as Hok.
  split.
  2:{ intros other Hne. unfold find_RSA_pubkey, st', add_RSA_pubkey. by rewrite lookup_insert_ne. }
  destruct (find_RSA_pubkey_ok address st' Hok) as [[E _]|(item & best & E & Hin & Hf & Hmax)].
  { unfold st', add_RSA_pubkey in E. by rewrite lookup_insert_eq in E. }
  exists best. split; [done|]. unfold st', add_RSA_pubkey in E. rewrite lookup_insert_eq in E.
  simplify_eq. simpl in Hin, Hmax.
  set (old := match st !! address with Some item => keys item | None => [] end).
  assert (Hold : keys (default {| avaddr := ""; keys := [] |} (st !! address)) = old)
    by (unfold old; by destruct (st !! address)).
  rewrite Hold in Hin, Hmax.
  setoid_rewrite (std_sort_perm key_lt (old ++ [{| rsa := k; valid_until := until |}])
    key_lt_strict) in Hin.
  setoid_rewrite (std_sort_perm key_lt (old ++ [{| rsa := k; valid_until := until |}])
    key_lt_strict) in Hmax.
  split_and!; [done| |].
  - apply (Hmax {| rsa := k; valid_until := until |}). apply elem_of_app. right. by left.
  - intros k' Hk'. apply Hmax. apply elem_of_app. by left.
Qed.
End keystore.

Arguments AVPubKey {_}.
Arguments AVdbitem {_}.

(** ** Concrete runs *)
Module KeyStoreDemo.
#[local] Existing Instances Toy.openssl InsertionSort.std InsertionSort.std_laws.

Definition key (b : byte) : @RSA Toy.openssl := b.
Definition entry (b : byte) (until : Z) : AVPubKey := {| rsa := key b; valid_until := until |}.

(** Two addresses: at time 100 the key of "a@x" has expired, and of the two
    keys of "b@x" one has. *)
Definition store : gmap string AVdbitem :=
  add_RSA_pubkey "b@x" (key x03) 500
    (add_RSA_pubkey "b@x" (key x02) 50 (add_RSA_pubkey "a@x" (key x01) 20 ∅)).

Lemma store_ok : keystore_ok store.
Proof. repeat apply add_RSA_pubkey_ok. apply empty_keystore_ok. Defined.

Definition fresh : gmap string AVdbitem :=
  add_RSA_pubkey "b@x" (key x03) 500 (add_RSA_pubkey "b@x" (key x02) 50 ∅).

Lemma fresh_ok : keystore_ok fresh.
Proof. repeat apply add_RSA_pubkey_ok. apply empty_keystore_ok. Defined.

Definition returns (o : outcome (gmap string AVdbitem)) : bool :=
  match o with Ret _ => true | _ => false end.

Lemma purge_keeps_live_witness :
  returns (purge_RSA_pubkey 10 store) = true /\
  exists st', purge_RSA_pubkey 10 store = Ret st' /\ keystore_ok st' /\ purged 10 store st'.
Proof.
  assert (Hr : returns (purge_RSA_pubkey 10 store) = true) by (vm_compute; reflexivity).
  split; [exact Hr|].
  destruct (purge_RSA_pubkey 10 store) as [st'| | | |] eqn:E; try discriminate Hr.
  exists st'. split; [reflexivity|]. exact (purge_keeps_live 10 store st' store_ok E).
Defined.

Lemma purge_exact_witness :
  exists st', purge_RSA_pubkey 100 fresh = Ret st' /\
    (keys <$> st' !! "b@x") = Some [entry x03 500].
Proof.
  destruct (purge_exact 100 fresh fresh_ok) as (st' & E & Hst').
  - intros a item Ha. exists (entry x03 500).
    split; [|unfold live; simpl; lia].
    destruct (decide (a = "b@x")) as [->|Hne].
    + assert (Hb : fresh !! "b@x" =
          Some {| avaddr := "b@x"; keys := [entry x03 500; entry x02 50] |})
        by (vm_compute; reflexivity).
      rewrite Hb in Ha. injection Ha as <-. by left.
    + unfold fresh, add_RSA_pubkey in Ha. by rewrite !lookup_insert_ne in Ha.
  - exists st'. split; [exact E|]. rewrite Hst'. vm_compute. reflexivity.
Defined.

(** Purging [store] at time 100 erases "a@x" and skips "b@x". *)
Lemma purge_first_expired_witness :
  exists st', purge_RSA_pubkey 100 store = Ret st' /\
    st' !! "a@x" = None /\ st' !! "b@x" = store !! "b@x".
Proof.
  assert (E : match purge_RSA_pubkey 100 store with Ret _ => true | _ => false end = true)
    by (vm_compute; reflexivity).
  destruct (purge_first_expired 100 store [] "a@x" ["b@x"]
    {| avaddr := "a@x"; keys := [entry x01 20] |}) as [Hub|Hret].
  - vm_compute. reflexivity.
  - intros b Hb. destruct (not_elem_of_nil b Hb).
  - vm_compute. reflexivity.
  - vm_compute. reflexivity.
  - rewrite Hub in E. discriminate E.
  - exact Hret.
Defined.

Lemma find_after_add_witness :
  find_RSA_pubkey "b@x" store = Ret (Some (key x03)) /\
  find_RSA_pubkey "a@x" (add_RSA_pubkey "b@x" (key x09) 900 store) = find_RSA_pubkey "a@x" store.
Proof.
  split; [vm_compute; reflexivity|].
  apply (find_after_add "b@x" (key x09) 900 store store_ok). discriminate.
Defined.
End KeyStoreDemo.
