(* ===== verification/Hoare.v ===== *)
(** * Hoare: triples for state-passing code that may fail

    [hoare D P m Q X]: run from a state in [P], the code [m] runs out of the
    model's fuel only if [D] holds; if it returns [a] the state is in [Q a], and
    if it throws the state the exception leaves is in [X].  Undefined behaviour
    and failed assertions end the program, so nothing is said after them. *)

From S2P Require Import Prelude.

Definition hoare {S A} (D : Prop) (P : S -> Prop) (m : ST S A) (Q : A -> S -> Prop) (X : S -> Prop) : Prop :=
  forall s, P s ->
    match m s with
    | (Ret a, s') => Q a s'
    | (Throw _, s') => X s'
    | (OutOfFuel, _) => D
    | _ => True
    end.

Create HintDb hoare.

Section rules.
Context {S : Type} (D : Prop).
Implicit Types (P X : S -> Prop).

Lemma hoare_ret {A} P (a : A) (Q : A -> S -> Prop) X :
  (forall s, P s -> Q a s) -> hoare D P (st_ret a) Q X.
Proof. intros H s Hs. by apply H. Qed.

Lemma hoare_bind {A B} P (m : ST S A) (f : A -> ST S B) R Q X :
  hoare D P m R X -> (forall a, hoare D (R a) (f a) Q X) -> hoare D P (st_bind m f) Q X.
Proof.
  intros Hm Hf s Hs. specialize (Hm s Hs). unfold st_bind.
  destruct (m s) as [[a| | | |] s']; try done. by apply Hf.
Qed.

Lemma hoare_conseq {A} P P' (m : ST S A) Q Q' X X' :
  hoare D P' m Q' X' -> (forall s, P s -> P' s) -> (forall a s, Q' a s -> Q a s) ->
  (forall s, X' s -> X s) -> hoare D P m Q X.
Proof.
  intros Hm HP HQ HX s Hs. specialize (Hm s (HP s Hs)).
  destruct (m s) as [[a| | | |] s']; auto.
Qed.

Lemma hoare_modify P (f : S -> S) (Q : unit -> S -> Prop) X :
  (forall s, P s -> Q tt (f s)) -> hoare D P (st_modify f) Q X.
Proof. intros H s Hs. by apply H. Qed.

Lemma hoare_get P (Q : S -> S -> Prop) X :
  (forall s, P s -> Q s s) -> hoare D P st_get Q X.
Proof. intros H s Hs. by apply H. Qed.

(** A computation that only reads the state. *)
Lemma hoare_read {A} P (f : S -> outcome A) (Q : A -> S -> Prop) (X : S -> Prop) :
  (forall s, P s -> f s = OutOfFuel -> D) ->
  (forall s a, P s -> f s = Ret a -> Q a s) -> (forall s, P s -> X s) ->
  hoare D P (fun s => (f s, s)) Q X.
Proof.
  intros Hf HQ HX s Hs. specialize (Hf s Hs). specialize (HQ s).
  destruct (f s); [by apply HQ|by apply HX|done|done|by apply Hf].
Qed.

Lemma hoare_pre {A} P P' (m : ST S A) Q X :
  hoare D P' m Q X -> (forall s, P s -> P' s) -> hoare D P m Q X.
Proof. intros H HP. by eapply hoare_conseq. Qed.

(** A fact about the first state may be assumed. *)
Lemma hoare_fact {A} P (F : Prop) (m : ST S A) Q X :
  (F -> hoare D P m Q X) -> hoare D (fun s => F /\ P s) m Q X.
Proof. intros H s [HF Hs]. by apply H. Qed.

Lemma hoare_exists {A T} (P : T -> S -> Prop) (m : ST S A) Q X :
  (forall t, hoare D (P t) m Q X) -> hoare D (fun s => exists t, P t s) m Q X.
Proof. intros H s [t Hs]. by eapply H. Qed.

(** The guard of a scope runs after a return and after an exception. *)
Lemma hoare_scope_exit {A} P (guard : ST S unit) (body : ST S A) R Q X :
  hoare D P body (fun _ => R) R ->
  hoare D R guard (fun _ s => (forall a, Q a s) /\ X s) X ->
  hoare D P (scope_exit guard body) Q X.
Proof.
  intros Hb Hg s Hs. specialize (Hb s Hs). unfold scope_exit.
  destruct (body s) as [[a|e| | |] s1]; try done; specialize (Hg s1 Hb);
    unfold st_bind, st_ret, st_lift;
    destruct (guard s1) as [[[]| | | |] s2]; try done; by destruct Hg.
Qed.
End rules.
