(* ===== verification/Avif.v ===== *)
(** * Avif: the interfaces the kernel sends and receives packets through

    libavproto/include/avif.hpp and libavproto/src/avif.cpp.  An [avif] is a
    handle: its copies share the implementation object, the [quitting] flag and
    the write queue.  A handle is therefore an identity (a number), the calls
    on the implementation are the class [AvifImpl], and the shared parts are
    the record [avif_state], which the kernel's model keeps in a store. *)

From S2P Require Import Prelude OpenSSL Address CoroQueue.

(** proto::avPacket through its generated accessors. *)
Record avPacket := {
  src : avAddress;
  dest : avAddress;
  upperlayerpotocol : string;
  payload : option bytes;
  publickey : option bytes;
  time_to_live : Z
}.

#[export] Instance avPacket_eq_dec : EqDecision avPacket.
Proof. solve_decision. Defined.

#[export] Instance avAddress_inhabited : Inhabited avAddress :=
  populate {| username := ""; domain := ""; resource := None |}.

#[export] Instance avPacket_inhabited : Inhabited avPacket :=
  populate {| src := inhabitant; dest := inhabitant; upperlayerpotocol := "";
              payload := None; publickey := None; time_to_live := 0 |}.

(** [set_time_to_live] *)
Definition set_time_to_live (p : avPacket) (ttl : Z) : avPacket :=
  {| src := src p; dest := dest p; upperlayerpotocol := upperlayerpotocol p;
     payload := payload p; publickey := publickey p; time_to_live := ttl |}.

(** detail::avif_implement_interface, for the object behind each handle.  A
    null pointer is [None].  The name may depend on how many names were asked
    for before, by anyone: avjackif counts the calls in a static variable.  The
    two packet operations suspend the calling coroutine; what they return are
    events of the kernel's model. *)
Class AvifImpl (O : OpenSSL) := {
  get_ifname : nat -> nat -> string;
  if_address : nat -> option avAddress;
  remote_address : nat -> option avAddress;
  get_rsa_key : nat -> option RSA;
  get_cert : nat -> option X509
}.

(** An implementation whose handles each have one name, as the kernel's use of
    names as map keys expects. *)
Class StableNames (O : OpenSSL) (A : AvifImpl O) := {
  ifname_of : nat -> string;
  get_ifname_stable i n : get_ifname i n = ifname_of i
}.

(** The entry of a write queue: a packet and its completion handler, either
    the suspended [async_sendto_op] with that number or the empty lambda. *)
Abbreviation write_request := (avPacket * option nat)%type.

(** The queue's only readers are the writer coroutines of its interface. *)
Abbreviation wqueue := (@coro_queue write_request nat Empty_set).

(** What the copies of a handle share, with its coroutines: how many
    [interface_runner]s are suspended in [async_read_packet], and what the
    suspended [interface_writer]s are writing. *)
Record avif_state := {
  quitting : bool;
  write_queue : wqueue;
  reading : nat;
  writing : list write_request
}.

Definition set_quitting (b : bool) (a : avif_state) : avif_state :=
  {| quitting := b; write_queue := write_queue a; reading := reading a; writing := writing a |}.
Definition set_write_queue (q : wqueue) (a : avif_state) : avif_state :=
  {| quitting := quitting a; write_queue := q; reading := reading a; writing := writing a |}.
Definition set_reading (n : nat) (a : avif_state) : avif_state :=
  {| quitting := quitting a; write_queue := write_queue a; reading := n; writing := writing a |}.
Definition set_writing (l : list write_request) (a : avif_state) : avif_state :=
  {| quitting := quitting a; write_queue := write_queue a; reading := reading a; writing := l |}.

(** [avif::construct] *)
Definition construct : avif_state :=
  {| quitting := false; write_queue := empty_queue; reading := 0; writing := [] |}.
