(* ===== verification/Kernel.v ===== *)
(** * Kernel: avkernel_impl and avkernel

    libavproto/src/avkernel.cpp.  The state is the record [kernel]; every
    member function is a function in the state-and-failure monad [ST kernel].
    A coroutine is cut at its yields: its part up to the first yield and its
    part after each yield are definitions of their own, and what it keeps
    between them is in the state.  The io_service is the list [tasks] of what
    has been posted or spawned; [step] runs one event, [run_events] a
    sequence of them.  Clock readings are arguments, in microseconds. *)

From S2P Require Import Prelude StdSort OpenSSL RsaChunk Regex Address CoroQueue Routing KeyStore Avif.

Definition seconds (n : Z) : Z := n * 1000000.
Definition hours (n : Z) : Z := n * 3600000000.

(** An element of the map [m_avifs]; the pointer [&m_avifs.at(name)] stays
    valid until that element is erased. *)
Record node := { node_id : nat; node_if : nat }.

#[export] Instance node_eq_dec : EqDecision node.
Proof. solve_decision. Defined.

(** [async_wait_packet_pred_handler]: the only predicate the program registers
    is the lambda of [async_sendto_op], which captures [target], and the only
    handler resumes that coroutine. *)
Record waiter := { deadline : Z; pred_target : string; w_op : nat }.

#[export] Instance waiter_eq_dec : EqDecision waiter.
Proof. solve_decision. Defined.

(** Where an [async_sendto_op] is suspended: waiting for the key in round [i]
    of its loop, or for its packet to be written. *)
Inductive stage := WaitKey (i : Z) | WaitWrite.

Record send_op := {
  s_target : string;
  s_data : bytes;
  s_interface : node;
  s_stage : stage
}.

(** What the io_service holds: spawned coroutines that have not started, and
    posted completions of [async_pop]. *)
Inductive task :=
  | TProcess (pkt : avPacket) (i : nat)
  | TRunner (i : nat)
  | TWriter (i : nat)
  | TSendto (id : nat) (target : string) (data : bytes)
  | TRecvfrom (id : nat)
  | TWriterPop (i : nat) (ec : error_code) (v : write_request)
  | TRecvPop (id : nat) (ec : error_code) (v : string * bytes).

(** Calls of the handlers given to [async_sendto] and [async_recvfrom]; the
    received data is what was stored through the references. *)
Inductive completion :=
  | SendDone (id : nat) (ec : error_code)
  | RecvDone (id : nat) (ec : error_code) (v : option (string * bytes)).

Section kernel.
Context `{Build} `{OpenSSL} `{BoostRegex} `{StdSort} `{!AvifImpl H0}.

Record kernel := {
  (* members of avkernel_impl *)
  table : rtable node;                       (* m_avifs, m_routes *)
  trusted_pubkey : gmap string AVdbitem;
  m_recv_buffer : @coro_queue (string * bytes) nat Empty_set;
  preprocess_list : list waiter;
  postprocess_list : list waiter;
  m_quitting : bool;
  timer1_armed : bool;
  timer2_armed : bool;
  (* objects and coroutines outside it *)
  ifs : gmap nat avif_state;
  sends : gmap nat send_op;
  tasks : list task;
  log : list completion;
  names_asked : nat;                         (* calls of get_ifname so far *)
  next_node : nat;
  next_op : nat
}.

Definition with_members (t : rtable node) (ks : gmap string AVdbitem)
    (rb : @coro_queue (string * bytes) nat Empty_set) (pre post : list waiter) (k : kernel) : kernel :=
  {| table := t; trusted_pubkey := ks; m_recv_buffer := rb; preprocess_list := pre;
     postprocess_list := post; m_quitting := m_quitting k; timer1_armed := timer1_armed k;
     timer2_armed := timer2_armed k; ifs := ifs k; sends := sends k; tasks := tasks k;
     log := log k; names_asked := names_asked k; next_node := next_node k; next_op := next_op k |}.
Definition with_timers (q t1 t2 : bool) (k : kernel) : kernel :=
  {| table := table k; trusted_pubkey := trusted_pubkey k; m_recv_buffer := m_recv_buffer k;
     preprocess_list := preprocess_list k; postprocess_list := postprocess_list k;
     m_quitting := q; timer1_armed := t1; timer2_armed := t2; ifs := ifs k; sends := sends k;
     tasks := tasks k; log := log k; names_asked := names_asked k; next_node := next_node k;
     next_op := next_op k |}.
Definition with_world (a : gmap nat avif_state) (s : gmap nat send_op) (ts : list task)
    (l : list completion) (k : kernel) : kernel :=
  {| table := table k; trusted_pubkey := trusted_pubkey k; m_recv_buffer := m_recv_buffer k;
     preprocess_list := preprocess_list k; postprocess_list := postprocess_list k;
     m_quitting := m_quitting k; timer1_armed := timer1_armed k; timer2_armed := timer2_armed k;
     ifs := a; sends := s; tasks := ts; log := l; names_asked := names_asked k;
     next_node := next_node k; next_op := next_op k |}.
Definition with_counters (names nodes ops : nat) (k : kernel) : kernel :=
  {| table := table k; trusted_pubkey := trusted_pubkey k; m_recv_buffer := m_recv_buffer k;
     preprocess_list := preprocess_list k; postprocess_list := postprocess_list k;
     m_quitting := m_quitting k; timer1_armed := timer1_armed k; timer2_armed := timer2_armed k;
     ifs := ifs k; sends := sends k; tasks := tasks k; log := log k; names_asked := names;
     next_node := nodes; next_op := ops |}.

Definition set_table t k := with_members t (trusted_pubkey k) (m_recv_buffer k)
  (preprocess_list k) (postprocess_list k) k.
Definition set_keys ks k := with_members (table k) ks (m_recv_buffer k)
  (preprocess_list k) (postprocess_list k) k.
Definition set_recv rb k := with_members (table k) (trusted_pubkey k) rb
  (preprocess_list k) (postprocess_list k) k.
Definition set_pre l k := with_members (table k) (trusted_pubkey k) (m_recv_buffer k)
  l (postprocess_list k) k.
Definition set_post l k := with_members (table k) (trusted_pubkey k) (m_recv_buffer k)
  (preprocess_list k) l k.
Definition set_ifs a k := with_world a (sends k) (tasks k) (log k) k.
Definition set_sends s k := with_world (ifs k) s (tasks k) (log k) k.
Definition set_tasks ts k := with_world (ifs k) (sends k) ts (log k) k.
Definition add_log c k := with_world (ifs k) (sends k) (tasks k) (log k ++ [c]) k.

(** The state the constructor of [avkernel] leaves: both timers started. *)
Definition init_kernel : kernel :=
  {| table := empty_rtable; trusted_pubkey := ∅; m_recv_buffer := empty_queue;
     preprocess_list := []; postprocess_list := []; m_quitting := false;
     timer1_armed := true; timer2_armed := true; ifs := ∅; sends := ∅; tasks := [];
     log := []; names_asked := 0; next_node := 0; next_op := 0 |}.

Abbreviation K := (ST kernel).

(** A member read through a function that may fail. *)
Definition read_k {A} (f : kernel -> outcome A) : K A := fun k => (f k, k).

Definition io_post (ts : list task) : K unit := st_modify (fun k => set_tasks (tasks k ++ ts) k).

(** ** Interfaces *)

(** A call of [get_ifname()]. *)
Definition ask_ifname (i : nat) : K string := fun k =>
  (Ret (get_ifname i (names_asked k)),
   with_counters (S (names_asked k)) (next_node k) (next_op k) k).

Definition get_if (i : nat) : K avif_state := read_k (fun k => deref (ifs k !! i)).
Definition set_if (i : nat) (a : avif_state) : K unit :=
  st_modify (fun k => set_ifs (<[i := a]> (ifs k)) k).

(** Using an [avif *] into [m_avifs]: undefined once the element is erased. *)
Definition deref_node (nd : node) : K nat :=
  read_k (fun k => if bool_decide (nd ∈ (map_iter (m_avifs (table k))).*2)
                   then Ret (node_if nd) else UB).

Definition pop_task (i : nat) (p : @posted write_request nat Empty_set) : list task :=
  match p with PostPop _ ec v => [TWriterPop i ec v] | PostWait w _ => match w with end end.

(** An operation on the write queue of an interface. *)
Definition with_queue (i : nat)
    (op : wqueue -> outcome (wqueue * list (@posted write_request nat Empty_set))) : K unit :=
  let* a := get_if i in
  let* r := st_lift (op (write_queue a)) in
  set_if i (set_write_queue r.1 a) ;;-
  io_post (r.2 ≫= pop_task i).

(** [async_interface_write_packet], on the interface behind the pointer. *)
Definition async_interface_write_packet (i : nat) (pkt : avPacket) (handler : option nat) : K unit :=
  with_queue i (push (pkt, handler)).

(** ** The local address and the routing table *)

Fixpoint is_to_me_in (addr : avAddress) (avifs : list (string * node)) : outcome bool :=
  match avifs with
  | [] => Ret false
  | (_, nd) :: avifs =>
      a ← deref (if_address (node_if nd));
      if String.eqb (username addr) (username a) && String.eqb (domain addr) (domain a)
      then Ret true else is_to_me_in addr avifs
  end.

Definition is_to_me (addr : avAddress) : K bool :=
  read_k (fun k => is_to_me_in addr (map_iter (m_avifs (table k)))).

Definition kernel_select_route (address : string) : K (option node) :=
  let* r := read_k (fun k => select_route address (table k)) in
  st_ret (match r with Some (_, nd) => Some nd | None => None end).

(** ** Keys *)
Definition kernel_find_key (address : string) : K (option RSA) :=
  read_k (fun k => find_RSA_pubkey address (trusted_pubkey k)).
Definition kernel_add_key (address : string) (key : RSA) (until : Z) : K unit :=
  st_modify (fun k => set_keys (add_RSA_pubkey address key until (trusted_pubkey k)) k).

(** ** Key exchange packets *)
Definition async_send_agmp_pkask (i : nat) (target : string) : K unit :=
  let* me := st_lift (deref (if_address i)) in
  let* dst := st_lift (av_address_from_string target) in
  async_interface_write_packet i
    {| src := me; dest := dst; upperlayerpotocol := "pkask"; payload := None;
       publickey := None; time_to_live := 64 |} None.

(** OpenSSL is given whatever [get_cert] returns; with a null pointer the code
    goes on with an error result for a length, and the model stops. *)
Definition async_send_agmp_pkreply (i : nat) (target : string) : K unit :=
  let* me := st_lift (deref (if_address i)) in
  let* dst := st_lift (av_address_from_string target) in
  let* cert := st_lift (deref (get_cert i)) in
  async_interface_write_packet i
    {| src := me; dest := dst; upperlayerpotocol := "pkreply"; payload := Some (i2d_X509 cert);
       publickey := None; time_to_live := 64 |} None.

(** ** async_sendto_op *)

(** [handler(ec)] of a send: the coroutine ends. *)
Definition finish_send (id : nat) (ec : error_code) : K unit :=
  st_modify (fun k => add_log (SendDone id ec) (set_sends (delete id (sends k)) k)).

Definition suspend_send (id : nat) (op : send_op) (s : stage) : K unit :=
  st_modify (fun k => set_sends (<[id := {| s_target := s_target op; s_data := s_data op;
    s_interface := s_interface op; s_stage := s |}]> (sends k)) k).

(** [async_wait_processed_packet]: register, then yield. *)
Definition async_wait_processed_packet (deadline : Z) (target : string) (id : nat) : K unit :=
  st_modify (fun k => set_post (postprocess_list k ++
    [{| deadline := deadline; pred_target := target; w_op := id |}]) k).

(** From the loop head with the key still missing, to the next yield. *)
Definition ask_round (now : Z) (id : nat) (op : send_op) (i : Z) : K unit :=
  if i <? 3 then
    let* ifc := deref_node (s_interface op) in
    async_send_agmp_pkask ifc (s_target op) ;;-
    async_wait_processed_packet (now + seconds 8) (s_target op) id ;;-
    suspend_send id op (WaitKey i)
  else finish_send id network_unreachable.

(** From the construction of the packet to its yield. *)
Definition send_packet (id : nat) (op : send_op) (target_pubkey : RSA) : K unit :=
  let* first_pubencode := st_lift (RSA_public_encrypt target_pubkey (s_data op)) in
  let* ifc := deref_node (s_interface op) in
  let* key := st_lift (deref (get_rsa_key ifc)) in
  let* second_sign := st_lift (RSA_private_encrypt key first_pubencode) in
  let* dst := st_lift (av_address_from_string (s_target op)) in
  let* me := st_lift (deref (if_address ifc)) in
  async_interface_write_packet ifc
    {| src := me; dest := dst; upperlayerpotocol := "avim"; payload := Some second_sign;
       publickey := Some (RSA_n key); time_to_live := 64 |} (Some id) ;;-
  suspend_send id op WaitWrite.

Definition async_sendto_op (now : Z) (id : nat) (target : string) (data : bytes) : K unit :=
  let* interface := kernel_select_route target in
  match interface with
  | None => finish_send id network_unreachable
  | Some nd =>
      let op := {| s_target := target; s_data := data; s_interface := nd; s_stage := WaitKey 0 |} in
      let* target_pubkey := kernel_find_key target in
      match target_pubkey with
      | Some key => send_packet id op key
      | None => ask_round now id op 0
      end
  end.

(** The coroutine resumed with [ec]. *)
Definition resume_send (now : Z) (id : nat) (ec : error_code) : K unit :=
  let* op := read_k (fun k => deref (sends k !! id)) in
  match s_stage op with
  | WaitKey i =>
      let* target_pubkey := kernel_find_key (s_target op) in
      match target_pubkey with
      | Some key => send_packet id op key
      | None => ask_round now id op (i + 1)
      end
  | WaitWrite => finish_send id ec
  end.

(** ** The lists of waiters *)
Inductive wait_list := Pre | Post.

Definition waiters (l : wait_list) (k : kernel) : list waiter :=
  match l with Pre => preprocess_list k | Post => postprocess_list k end.
Definition set_waiters_of (l : wait_list) (ws : list waiter) (k : kernel) : kernel :=
  match l with Pre => set_pre ws k | Post => set_post ws k end.

(** [while (it != list.end())]: a handler whose test holds is called and its
    element erased; the handler runs its coroutine and may append. *)
Fixpoint wake_loop (fuel : nat) (now : Z) (l : wait_list) (test : waiter -> kernel -> outcome bool)
    (ec : error_code) (it : nat) : K unit :=
  match fuel with
  | O => st_lift OutOfFuel
  | S fuel =>
      let* k := st_get in
      match waiters l k !! it with
      | None => st_ret tt
      | Some w =>
          let* b := st_lift (test w k) in
          if b then
            resume_send now (w_op w) ec ;;-
            st_modify (fun k => set_waiters_of l (delete it (waiters l k)) k) ;;-
            wake_loop fuel now l test ec it
          else wake_loop fuel now l test ec (S it)
      end
  end.

Definition wake (now : Z) (l : wait_list) (test : waiter -> kernel -> outcome bool)
    (ec : error_code) : K unit :=
  let* k := st_get in
  wake_loop (S (2 * length (waiters l k))) now l test ec 0.

(** The predicate of [async_sendto_op]. *)
Definition pred (pkt : avPacket) (w : waiter) (k : kernel) : outcome bool :=
  if String.eqb (av_address_to_string (src pkt)) (pred_target w)
  then key ← find_RSA_pubkey (pred_target w) (trusted_pubkey k); Ret (bool_decide (is_Some key))
  else Ret false.

Definition expired (now : Z) (w : waiter) (k : kernel) : outcome bool := Ret (deadline w <? now).

(** ** Received packets *)

Definition recv_task (p : @posted (string * bytes) nat Empty_set) : list task :=
  match p with PostPop id ec v => [TRecvPop id ec v] | PostWait w _ => match w with end end.

Definition push_recv (v : string * bytes) : K unit :=
  let* r := read_k (fun k => push v (m_recv_buffer k)) in
  st_modify (set_recv r.1) ;;-
  io_post (r.2 ≫= recv_task).

Definition process_recived_packet_to_me (now : Z) (pkt : avPacket) (i : nat) : K unit :=
  let add := av_address_to_string (src pkt) in
  let rsa := RSA_of_n (default [] (publickey pkt)) in
  if String.eqb (upperlayerpotocol pkt) "pkask" then async_send_agmp_pkreply i add
  else if String.eqb (upperlayerpotocol pkt) "pkreply" then
    let* crt := st_lift (deref (d2i_X509 (default [] (payload pkt)))) in
    let* pkey := st_lift (deref (X509_get_pubkey crt)) in
    let* key := st_lift (deref (EVP_PKEY_get1_RSA pkey)) in
    kernel_add_key add key (now + hours 500)
  else
    let* data := match payload pkt with
      | Some c =>
          let* stage1decypted := st_lift (RSA_public_decrypt rsa c) in
          let* mine := st_lift (deref (get_rsa_key i)) in
          st_lift (RSA_private_decrypt mine stage1decypted)
      | None => st_ret []
      end in
    if String.eqb (upperlayerpotocol pkt) "avim" then push_recv (add, data) else st_ret tt.

(** The forwarding half of [process_recived_packet]. *)
Definition forward_packet (pkt : avPacket) : K unit :=
  if time_to_live pkt <=? 1 then st_ret tt
  else
    let pkt := set_time_to_live pkt (time_to_live pkt - 1) in
    let* interface := kernel_select_route (av_address_to_string (dest pkt)) in
    match interface with
    | None => st_ret tt
    | Some nd =>
        ask_ifname (node_if nd) ;;- (* for the log line *)
        async_interface_write_packet (node_if nd) pkt None
    end.

(** "Trust on first use": the key the packet carries. *)
Definition learn_key (now : Z) (pkt : avPacket) : K unit :=
  let add := av_address_to_string (src pkt) in
  let* stored_key := kernel_find_key add in
  match stored_key, publickey pkt with
  | None, Some n => kernel_add_key add (RSA_of_n n) (now + hours 500)
  | _, _ => st_ret tt
  end.

Definition process_recived_packet (now : Z) (pkt : avPacket) (i : nat) : K unit :=
  scope_exit (wake now Post (pred pkt) ec_success) (
    learn_key now pkt ;;-
    let* me := is_to_me (dest pkt) in
    if me then process_recived_packet_to_me now pkt i else forward_packet pkt).

(** ** The coroutines of an interface *)

(** [interface_writer] from its loop head to the next yield. *)
Definition interface_writer (i : nat) : K unit :=
  let* a := get_if i in
  if quitting a then st_ret tt
  else with_queue i (fun q => Ret (async_pop_impl i q)).

(** Resumed from [async_pop]: leave the loop or start writing. *)
Definition writer_popped (i : nat) (ec : error_code) (v : write_request) : K unit :=
  if failed ec then st_ret tt
  else
    let* a := get_if i in
    set_if i (set_writing (writing a ++ [v]) a).

(** The [n]-th suspended writer resumed from [async_write_packet], its variable
    [ec] being what the call made of it; then back to the loop head. *)
Definition writer_wrote (now : Z) (i n : nat) (ec : error_code) : K unit :=
  let* a := get_if i in
  match writing a !! n with
  | None => st_ret tt (* no such writer: not an event *)
  | Some (_, handler) =>
      set_if i (set_writing (delete n (writing a)) a) ;;-
      match handler with Some id => resume_send now id ec | None => st_ret tt end ;;-
      interface_writer i
  end.

(** The end of [interface_runner], after its loop. *)
Definition runner_exit (i : nat) : K unit :=
  with_queue i cancele ;;-
  let* name := ask_ifname i in
  let* t := read_k (fun k => remove_interface name (table k)) in
  st_modify (set_table t).

(** [interface_runner] from its loop head. *)
Definition interface_runner (i : nat) : K unit :=
  let* a := get_if i in
  if quitting a then runner_exit i else set_if i (set_reading (S (reading a)) a).

(** A runner resumed from [async_read_packet]. *)
Definition runner_read (now : Z) (i : nat) (avpkt : option avPacket) : K unit :=
  let* a := get_if i in
  match reading a with
  | O => st_ret tt (* no such runner: not an event *)
  | S n =>
      set_if i (set_reading n a) ;;-
      match avpkt with
      | Some pkt =>
          wake now Pre (pred pkt) ec_success ;;-
          io_post [TProcess pkt i]
      | None =>
          let* a := get_if i in
          set_if i (set_quitting true a)
      end ;;-
      interface_runner i
  end.

(** ** async_recvfrom_op *)
Definition async_recvfrom_op (id : nat) : K unit := fun k =>
  let r := async_pop_impl id (m_recv_buffer k) in
  io_post (r.2 ≫= recv_task) (set_recv r.1 k).

Definition recv_popped (id : nat) (ec : error_code) (v : string * bytes) : K unit :=
  st_modify (add_log (RecvDone id ec (if failed ec then None else Some v))).

(** ** The timers *)
Definition timer1_start : K unit :=
  st_modify (fun k => if m_quitting k then k else with_timers (m_quitting k) true (timer2_armed k) k).
Definition timer2_start : K unit :=
  st_modify (fun k => if m_quitting k then k else with_timers (m_quitting k) (timer1_armed k) true k).

Definition timer1_tick (now : Z) (ec : error_code) : K unit :=
  timer1_start ;;-
  wake now Post (expired now) timed_out ;;-
  wake now Pre (expired now) timed_out.

Definition kernel_purge (now : Z) : K unit :=
  let* ks := read_k (fun k => purge_RSA_pubkey now (trusted_pubkey k)) in
  st_modify (set_keys ks).

Definition timer2_tick (now : Z) (ec : error_code) : K unit :=
  timer2_start ;;- kernel_purge now.

(** ** The members of avkernel *)
Definition add_interface (i : nat) : K bool :=
  ask_ifname i ;;-
  let* _ := st_lift (deref (remote_address i)) in
  let* name := ask_ifname i in
  st_modify (fun k => with_counters (names_asked k) (S (next_node k)) (next_op k)
    (set_table (insert_interface name {| node_id := next_node k; node_if := i |} (table k)) k)) ;;-
  io_post [TRunner i; TWriter i] ;;-
  let* name := ask_ifname i in
  read_k (fun k => Ret (bool_decide (is_Some (m_avifs (table k) !! name)))).

Definition kernel_add_route (targetAddress gateway ifname : string) (metric : Z) : K bool :=
  let* r := read_k (fun k => add_route targetAddress gateway ifname metric (table k)) in
  st_modify (set_table r.2) ;;- st_ret r.1.

Definition new_op : K nat := fun k =>
  (Ret (next_op k), with_counters (names_asked k) (next_node k) (S (next_op k)) k).

Definition async_sendto (target : string) (data : bytes) : K nat :=
  let* id := new_op in io_post [TSendto id target data] ;;- st_ret id.

Definition async_recvfrom : K nat :=
  let* id := new_op in io_post [TRecvfrom id] ;;- st_ret id.

(** [~avkernel] *)
Definition destroy : K unit :=
  st_modify (fun k => with_timers true (timer1_armed k) (timer2_armed k) k).

(** ** Events *)
Inductive event :=
  | EConstruct (i : nat)                       (* a new avif *)
  | EAddInterface (i : nat)                    (* of a constructed avif *)
  | EAddRoute (target gateway ifname : string) (metric : Z)
  | ESendto (target : string) (data : bytes)
  | ERecvfrom
  | EDestroy
  | ERun (n : nat) (now : Z)                   (* the io_service runs a task *)
  | ERead (i : nat) (avpkt : option avPacket) (now : Z)
  | EWrote (i n : nat) (ec : error_code) (now : Z)
  | ETimer1 (ec : error_code) (now : Z)
  | ETimer2 (ec : error_code) (now : Z).

Definition run_task (now : Z) (t : task) : K unit :=
  match t with
  | TProcess pkt i => process_recived_packet now pkt i
  | TRunner i => interface_runner i
  | TWriter i => interface_writer i
  | TSendto id target data => async_sendto_op now id target data
  | TRecvfrom id => async_recvfrom_op id
  | TWriterPop i ec v => writer_popped i ec v
  | TRecvPop id ec v => recv_popped id ec v
  end.

Definition step (e : event) : K unit :=
  match e with
  | EConstruct i => st_modify (fun k =>
      match ifs k !! i with Some _ => k | None => set_ifs (<[i := construct]> (ifs k)) k end)
  | EAddInterface i => fun k =>
      match ifs k !! i with
      | Some _ => (let* _ := add_interface i in st_ret tt) k
      | None => (Ret tt, k)
      end
  | EAddRoute target gw name m => let* _ := kernel_add_route target gw name m in st_ret tt
  | ESendto target data => let* _ := async_sendto target data in st_ret tt
  | ERecvfrom => let* _ := async_recvfrom in st_ret tt
  | EDestroy => destroy
  | ERun n now => fun k =>
      match tasks k !! n with
      | Some t => run_task now t (set_tasks (delete n (tasks k)) k)
      | None => (Ret tt, k)
      end
  | ERead i avpkt now => runner_read now i avpkt
  | EWrote i n ec now => writer_wrote now i n ec
  | ETimer1 ec now => fun k =>
      if timer1_armed k
      then timer1_tick now ec (with_timers (m_quitting k) false (timer2_armed k) k)
      else (Ret tt, k)
  | ETimer2 ec now => fun k =>
      if timer2_armed k
      then timer2_tick now ec (with_timers (m_quitting k) (timer1_armed k) false k)
      else (Ret tt, k)
  end.

Fixpoint run_events (es : list event) : K unit :=
  match es with
  | [] => st_ret tt
  | e :: es => step e ;;- run_events es
  end.

Lemma run_events_app es1 es2 k :
  run_events (es1 ++ es2) k = (run_events es1 ;;- run_events es2) k.
Proof.
  revert k. induction es1 as [|e es1 IH]; intros k; cbn [app run_events]; [done|].
  unfold st_bind in *. by destruct (step e k) as [[] k1].
Qed.
End kernel.
