(* ===== verification/Effects.v ===== *)
(** * Effects: what the kernel's code may do to its state

    [effects J R m]: whenever the code [m], run in a state of [J], returns, the
    states before and after are related by [R].  The kernel's member functions
    change the state through a few primitive steps; [Primitives] asks of a
    relation that it allows those, and every function is shown to respect
    any such relation, so an instance of the class is all a new relation needs. *)

From S2P Require Import Prelude StdSort OpenSSL RsaChunk Regex Address CoroQueue Routing KeyStore Avif Kernel.

Definition effects {S A} (J : S -> Prop) (R : S -> S -> Prop) (m : ST S A) : Prop :=
  forall s a s', J s -> m s = (Ret a, s') -> R s s'.

Create HintDb effects.

Section rules.
Context {S : Type} (J : S -> Prop) (R : S -> S -> Prop) `{!PreOrder R}.
Hypothesis stable : forall s s', R s s' -> J s -> J s'.

Lemma effects_bind {A B} (m : ST S A) (f : A -> ST S B) :
  effects J R m -> (forall a, effects J R (f a)) -> effects J R (st_bind m f).
Proof.
  intros Hm Hf s b s' Hs (a & s1 & E1 & E2)%st_bind_inv.
  pose proof (Hm s a s1 Hs E1) as H1. transitivity s1; [done|]. by eapply Hf; [eapply stable|].
Qed.

(** Code that leaves the state alone; what it returns may be used. *)
Lemma effects_reads {A B} (m : ST S A) (f : A -> ST S B) :
  (forall s, (m s).2 = s) ->
  (forall a, effects (fun s => J s /\ (m s).1 = Ret a) R (f a)) -> effects J R (st_bind m f).
Proof.
  intros Hm Hf s b s' Hs (a & s1 & E1 & E2)%st_bind_inv. specialize (Hm s). rewrite E1 in Hm.
  simpl in Hm. subst s1. eapply Hf; [|exact E2]. by rewrite E1.
Qed.

Lemma effects_still {A} (m : ST S A) : (forall s, (m s).2 = s) -> effects J R m.
Proof. intros Hm s a s' _ E. specialize (Hm s). rewrite E in Hm. by rewrite <-Hm. Qed.

Lemma effects_ret {A} (a : A) : effects J R (st_ret a).
Proof. by apply effects_still. Qed.

Lemma effects_lift {A} (o : outcome A) : effects J R (st_lift o).
Proof. by apply effects_still. Qed.

Lemma effects_get : effects J R st_get.
Proof. by apply effects_still. Qed.

Lemma effects_modify g : (forall s, J s -> R s (g s)) -> effects J R (st_modify g).
Proof. intros Hg s a s' Hs [= _ <-]. by apply Hg. Qed.

Lemma effects_scope_exit {A} (guard : ST S unit) (body : ST S A) :
  effects J R guard -> effects J R body -> effects J R (scope_exit guard body).
Proof.
  intros Hg Hb s a s' Hs. unfold scope_exit.
  destruct (body s) as [[b|e| | |] s1] eqn:E1; try done.
  - intros ([] & s2 & E2 & [= _ <-])%st_bind_inv. pose proof (Hb s b s1 Hs E1) as H1.
    transitivity s1; [done|]. by eapply Hg; [eapply stable|].
  - by intros ([] & s2 & E2 & [=])%st_bind_inv.
Qed.
End rules.

Lemma effects_weaken {S A} (J J' : S -> Prop) (R : S -> S -> Prop) (m : ST S A) :
  effects J' R m -> (forall s, J s -> J' s) -> effects J R m.
Proof. intros Hm HJ s a s' Hs. by apply Hm, HJ. Qed.

Section kernel.
Context `{Build} `{OpenSSL} `{BoostRegex} `{StdSort} `{!AvifImpl H0}.

Definition recv_done (c : completion) : option nat :=
  match c with RecvDone id _ _ => Some id | _ => None end.

(** Steps that touch keys, lists of waiters, timers, counters and the log of
    completed sends only. *)
Record silent (k k' : kernel) : Prop := {
  si_table : table k' = table k;
  si_ifs : ifs k' = ifs k;
  si_sends : sends k' = sends k;
  si_tasks : tasks k' = tasks k;
  si_recv : m_recv_buffer k' = m_recv_buffer k;
  si_log : log k' = log k;
  si_op : next_op k' = next_op k
}.

Definition in_table (i : nat) (k : kernel) : Prop :=
  exists name nd, m_avifs (table k) !! name = Some nd /\ node_if nd = i.

(** What the coroutines of an interface do by themselves: they change
    interfaces, the table and counters, and post worker tasks. *)
Definition worker (t : task) : Prop :=
  match t with TProcess _ _ | TRunner _ | TWriter _ | TWriterPop _ _ _ => True | _ => False end.

Record spawns (k k' : kernel) : Prop := {
  sp_tasks : exists ts, tasks k' = tasks k ++ ts /\ Forall worker ts;
  sp_sends : sends k' = sends k;
  sp_recv : m_recv_buffer k' = m_recv_buffer k;
  sp_log : log k' = log k;
  sp_op : next_op k' = next_op k
}.

Class Coroutines (J : kernel -> Prop) (R : kernel -> kernel -> Prop) :=
  co_spawns k k' : J k -> spawns k k' -> R k k'.

Lemma spawns_none k k' :
  tasks k' = tasks k -> sends k' = sends k -> m_recv_buffer k' = m_recv_buffer k ->
  log k' = log k -> next_op k' = next_op k -> spawns k k'.
Proof. intros. split; [|done..]. exists []. by rewrite app_nil_r. Qed.

Lemma pop_task_worker i ps : Forall worker (ps ≫= pop_task i).
Proof. induction ps as [|[? ? ?|[]] ps IH]; simpl; [constructor|by constructor]. Qed.

Lemma eff_queue `{!Coroutines J R} i op : effects J R (with_queue i op).
Proof.
  intros k u k' Hk. unfold with_queue, st_bind at 1, get_if, read_k.
  destruct (ifs k !! i) as [a|]; [|done]. cbn [deref]. unfold st_bind at 1, st_lift.
  destruct (op (write_queue a)) as [r| | | |]; try done. intros [= _ <-].
  apply co_spawns; [done|]. split; try done. eexists. split; [done|]. apply pop_task_worker.
Qed.

(** [J] holds of the states considered, [G i] when a send may be suspended on
    interface [i]. *)
Class Primitives (J : kernel -> Prop) (R : kernel -> kernel -> Prop) (G : nat -> kernel -> Prop) := {
  pe_order : PreOrder R;
  pe_stable k k' : R k k' -> J k -> J k';
  pe_good i k k' : J k -> R k k' -> G i k -> G i k';
  pe_node i k : J k -> in_table i k -> G i k;
  pe_silent k k' : J k -> silent k k' -> R k k';
  pe_push i v : effects J R (with_queue i (push v));
  pe_finish id ec : effects J R (finish_send id ec);
  pe_suspend id op s :
    effects (fun k => J k /\ G (node_if (s_interface op)) k) R (suspend_send id op s)
}.

(** A message that arrives for this node; only [process_recived_packet] needs it. *)
Class Receives (J : kernel -> Prop) (R : kernel -> kernel -> Prop) :=
  pe_recv v : effects J R (push_recv v).

Section traversal.
Context {J R G} `{HP : !Primitives J R G}.
#[local] Instance primitives_order : PreOrder R := pe_order.

(** With the interface [i] fit for a send. *)
Definition fit (i : nat) (k : kernel) : Prop := J k /\ G i k.

Lemma fit_stable i k k' : R k k' -> fit i k -> fit i k'.
Proof. intros HR [Hj Hg]. split; [by eapply pe_stable|by eapply pe_good]. Qed.

Lemma fit_only {A} i (m : ST kernel A) : effects J R m -> effects (fit i) R m.
Proof. intros Hm. eapply effects_weaken; [exact Hm|]. by intros k []. Qed.
Lemma effects_silent g : (forall k, silent k (g k)) -> effects J R (st_modify g).
Proof. intros Hg. apply effects_modify. intros k Hk. by apply pe_silent. Qed.

#[local] Hint Extern 1 (forall s, (_ s).2 = s) => done : effects.

Ltac effects_step :=
  lazymatch goal with
  | |- effects (fit ?i) _ (st_bind _ _) => apply (effects_bind _ _ (fit_stable i)); [|intros ?]
  | |- effects _ _ (st_bind _ _) => apply (effects_bind _ _ pe_stable); [|intros ?]
  | |- effects _ _ (st_modify _) => first [apply effects_silent | apply fit_only, effects_silent]; by intros k
  | |- effects _ _ (if ?b then _ else _) => destruct b
  | |- effects _ _ (match ?x with _ => _ end) => destruct x
  | |- effects _ ?R _ => apply (effects_still _ R); done
  end.

Lemma eff_write i pkt handler : effects J R (async_interface_write_packet i pkt handler).
Proof. apply pe_push. Qed.

Lemma eff_deref {A} nd (f : nat -> ST kernel A) :
  effects (fit (node_if nd)) R (f (node_if nd)) -> effects J R (st_bind (deref_node nd) f).
Proof.
  intros Hf. apply effects_reads; [done|]. intros i. unfold deref_node, read_k. simpl.
  intros k a k' [Hk Hi] E. destruct (bool_decide_reflect (nd ∈ (map_iter (m_avifs (table k))).*2))
    as [Hin|]; [|done]. injection Hi as <-. eapply Hf; [|exact E]. split; [done|].
  apply pe_node; [done|]. apply list_elem_of_fmap in Hin as ([name nd'] & -> & Hin).
  apply elem_of_map_iter in Hin. by exists name, nd'.
Qed.

Lemma eff_pkask i target : effects J R (async_send_agmp_pkask i target).
Proof. unfold async_send_agmp_pkask. repeat effects_step. apply eff_write. Qed.

Lemma eff_pkreply i target : effects J R (async_send_agmp_pkreply i target).
Proof. unfold async_send_agmp_pkreply. repeat effects_step. apply eff_write. Qed.

Lemma eff_suspend op id s : effects (fit (node_if (s_interface op))) R (suspend_send id op s).
Proof. apply pe_suspend. Qed.

Lemma eff_ask_round now id op i : effects J R (ask_round now id op i).
Proof.
  unfold ask_round. effects_step; [|apply pe_finish].
  apply eff_deref. effects_step; [apply fit_only, eff_pkask|]. effects_step; [|apply eff_suspend].
  unfold async_wait_processed_packet. effects_step.
Qed.

Lemma eff_send_packet id op key : effects J R (send_packet id op key).
Proof.
  unfold send_packet. effects_step; [effects_step|]. apply eff_deref.
  do 4 (effects_step; [effects_step|]). effects_step; [apply fit_only, eff_write|apply eff_suspend].
Qed.

Lemma eff_sendto_op now id target data : effects J R (async_sendto_op now id target data).
Proof.
  unfold async_sendto_op. effects_step.
  - unfold kernel_select_route. repeat effects_step.
  - effects_step; [|apply pe_finish]. effects_step; [effects_step|].
    effects_step; [apply eff_send_packet|apply eff_ask_round].
Qed.

Lemma eff_resume_send now id ec : effects J R (resume_send now id ec).
Proof.
  unfold resume_send. effects_step; [effects_step|]. effects_step; [|apply pe_finish].
  effects_step; [effects_step|]. effects_step; [apply eff_send_packet|apply eff_ask_round].
Qed.

Lemma eff_wake_loop fuel now l test ec it : effects J R (wake_loop fuel now l test ec it).
Proof.
  revert it. induction fuel as [|fuel IH]; intros it; cbn [wake_loop]; [effects_step|].
  effects_step; [effects_step|]. effects_step; [|effects_step].
  effects_step; [effects_step|]. effects_step; [|apply IH].
  effects_step; [apply eff_resume_send|]. effects_step; [|apply IH].
  apply effects_silent. intros k. by destruct l.
Qed.

Lemma eff_wake now l test ec : effects J R (wake now l test ec).
Proof. unfold wake. effects_step; [effects_step|]. apply eff_wake_loop. Qed.

(** ** Received packets *)

Lemma eff_add_key address key until : effects J R (kernel_add_key address key until).
Proof. unfold kernel_add_key. effects_step. Qed.

Lemma eff_to_me `{!Receives J R} now pkt i : effects J R (process_recived_packet_to_me now pkt i).
Proof.
  unfold process_recived_packet_to_me. effects_step; [apply eff_pkreply|].
  effects_step.
  - do 3 (effects_step; [effects_step|]). apply eff_add_key.
  - effects_step; [repeat effects_step|]. effects_step; [|effects_step]. apply pe_recv.
Qed.

Lemma eff_forward pkt : effects J R (forward_packet pkt).
Proof.
  unfold forward_packet. effects_step; [effects_step|]. effects_step.
  - unfold kernel_select_route. repeat effects_step.
  - effects_step; [|effects_step]. effects_step; [|apply eff_write].
    intros k name k' Hk [= _ <-]. by apply pe_silent.
Qed.

Lemma eff_learn_key now pkt : effects J R (learn_key now pkt).
Proof.
  unfold learn_key. effects_step; [effects_step|]. repeat (effects_step; try apply eff_add_key).
Qed.

Lemma eff_process `{!Receives J R} now pkt i : effects J R (process_recived_packet now pkt i).
Proof.
  unfold process_recived_packet. apply (effects_scope_exit _ _ pe_stable); [apply eff_wake|].
  effects_step; [apply eff_learn_key|]. effects_step; [effects_step|].
  effects_step; [apply eff_to_me|apply eff_forward].
Qed.

(** ** The timers *)

Lemma eff_timer1 now ec : effects J R (timer1_tick now ec).
Proof.
  unfold timer1_tick, timer1_start. repeat (effects_step; try apply eff_wake).
  apply effects_silent. intros k. by destruct (m_quitting k).
Qed.

Lemma eff_timer2 now ec : effects J R (timer2_tick now ec).
Proof.
  unfold timer2_tick, timer2_start, kernel_purge. effects_step.
  - apply effects_silent. intros k. by destruct (m_quitting k).
  - repeat effects_step.
Qed.

(** ** The coroutines of an interface, and the events *)

Context `{HC : !Coroutines J R}.

Lemma eff_post ts : Forall worker ts -> effects J R (io_post ts).
Proof. intros Hts k u k' Hk [= _ <-]. apply co_spawns; [done|]. split; try done. by exists ts. Qed.

Ltac coroutine_step :=
  lazymatch goal with
  | |- effects _ _ (with_queue _ _) => apply eff_queue
  | |- effects _ _ (io_post _) => apply eff_post; by repeat constructor
  | |- effects _ _ (set_if _ _) => apply effects_modify; intros; by apply co_spawns, spawns_none
  | |- effects _ _ (st_modify _) =>
      apply effects_modify; intros; first [by apply co_spawns, spawns_none | by apply pe_silent]
  | |- effects _ _ (ask_ifname _) => intros ? ? ? ? [= _ <-]; by apply co_spawns, spawns_none
  | |- _ => effects_step
  end.

Lemma eff_writer i : effects J R (interface_writer i).
Proof. unfold interface_writer. repeat coroutine_step. Qed.

Lemma eff_writer_popped i ec v : effects J R (writer_popped i ec v).
Proof. unfold writer_popped. repeat coroutine_step. Qed.

Lemma eff_writer_wrote now i n ec : effects J R (writer_wrote now i n ec).
Proof. unfold writer_wrote. repeat (coroutine_step || apply eff_resume_send || apply eff_writer). Qed.

Lemma eff_runner i : effects J R (interface_runner i).
Proof. unfold interface_runner, runner_exit. repeat coroutine_step. Qed.

Lemma eff_runner_read now i avpkt : effects J R (runner_read now i avpkt).
Proof. unfold runner_read. repeat (coroutine_step || apply eff_wake || apply eff_runner). Qed.

Lemma eff_add_interface i : effects J R (add_interface i).
Proof. unfold add_interface. repeat coroutine_step. Qed.

Lemma eff_add_route target gw name m : effects J R (kernel_add_route target gw name m).
Proof. unfold kernel_add_route. repeat coroutine_step. Qed.

Lemma eff_worker `{!Receives J R} now t : worker t -> effects J R (run_task now t).
Proof.
  destruct t; try done; intros _; [apply eff_process|apply eff_runner|apply eff_writer|apply eff_writer_popped].
Qed.

(** The events that neither start an operation nor run a task. *)
Definition outside (e : event) : Prop :=
  match e with ESendto _ _ | ERecvfrom | ERun _ _ => False | _ => True end.

Lemma effects_either {A} (b : kernel -> bool) (m1 m2 : ST kernel A) :
  effects J R m1 -> effects J R m2 -> effects J R (fun k => if b k then m1 k else m2 k).
Proof. intros H1' H2' k a k' Hk. destruct (b k); [by apply H1'|by apply H2']. Qed.

Lemma eff_outside e : outside e -> effects J R (step e).
Proof.
  destruct e as [i|i|target gw name m|target data| | |n now|i avpkt now|i n ec now|ec now|ec now];
    try done; intros _; cbn [step].
  - apply effects_modify. intros k Hk. destruct (ifs k !! i); by apply co_spawns, spawns_none.
  - intros k u k' Hk. destruct (ifs k !! i); [|intros [= _ <-]; by apply co_spawns, spawns_none].
    revert k u k' Hk. change (effects J R (let* _ := add_interface i in st_ret tt)).
    effects_step; [apply eff_add_interface|effects_step].
  - effects_step; [apply eff_add_route|effects_step].
  - unfold destroy. coroutine_step.
  - apply eff_runner_read.
  - apply eff_writer_wrote.
  - apply (effects_either timer1_armed
      (st_modify (fun k => with_timers (m_quitting k) false (timer2_armed k) k) ;;- timer1_tick now ec) (st_ret tt));
      [|effects_step]. effects_step; [coroutine_step|apply eff_timer1].
  - apply (effects_either timer2_armed
      (st_modify (fun k => with_timers (m_quitting k) (timer1_armed k) false k) ;;- timer2_tick now ec) (st_ret tt));
      [|effects_step]. effects_step; [coroutine_step|apply eff_timer2].
Qed.
End traversal.
End kernel.
