(* ===== verification/Mailbox.v ===== *)
(** * Mailbox: what receiving promises

    The abstract specification of [async_recvfrom] (avkernel.cpp): a mailbox to
    which messages arrive and from which receivers take them, the k-th receiver
    to start getting the k-th message to arrive.  The kernel's receive queue, its
    coroutines [async_recvfrom_op] and the completions on their way refine it. *)

From S2P Require Import Prelude StdSort OpenSSL RsaChunk Regex Address CoroQueue Routing KeyStore Avif Kernel Effects.

Abbreviation message := (string * bytes)%type.

(** ** The abstract machine *)

Record mailbox := {
  asking : list nat;               (* receives asked for and not started *)
  receivers : list nat;            (* started, waiting for a message *)
  messages : list message;         (* arrived, waiting for a receiver *)
  handed : list (nat * message);   (* matched, the receiver not yet resumed *)
  received : list (nat * message)  (* completed *)
}.

Definition empty_mailbox : mailbox :=
  {| asking := []; receivers := []; messages := []; handed := []; received := [] |}.

Inductive label := Ask (id : nat) | Start (id : nat) | Arrive (v : message) | Complete.

(** Receivers and messages never wait together: a start takes a waiting message
    and an arrival a waiting receiver. *)
Inductive mailbox_step : label -> mailbox -> mailbox -> Prop :=
  | step_ask id m :
      mailbox_step (Ask id) m
        {| asking := asking m ++ [id]; receivers := receivers m; messages := messages m;
           handed := handed m; received := received m |}
  | step_start_wait id pre post m :
      asking m = pre ++ id :: post -> messages m = [] ->
      mailbox_step (Start id) m
        {| asking := pre ++ post; receivers := receivers m ++ [id]; messages := [];
           handed := handed m; received := received m |}
  | step_start_take id pre post v vs m :
      asking m = pre ++ id :: post -> messages m = v :: vs ->
      mailbox_step (Start id) m
        {| asking := pre ++ post; receivers := receivers m; messages := vs;
           handed := handed m ++ [(id, v)]; received := received m |}
  | step_arrive_wait v m :
      receivers m = [] ->
      mailbox_step (Arrive v) m
        {| asking := asking m; receivers := []; messages := messages m ++ [v];
           handed := handed m; received := received m |}
  | step_arrive_hand v id ids m :
      receivers m = id :: ids ->
      mailbox_step (Arrive v) m
        {| asking := asking m; receivers := ids; messages := messages m;
           handed := handed m ++ [(id, v)]; received := received m |}
  | step_complete e pre post m :
      handed m = pre ++ e :: post ->
      mailbox_step Complete m
        {| asking := asking m; receivers := receivers m; messages := messages m;
           handed := pre ++ post; received := received m ++ [e] |}.

Inductive mailbox_run : list label -> mailbox -> mailbox -> Prop :=
  | run_nil m : mailbox_run [] m m
  | run_snoc ls l m m1 m2 :
      mailbox_run ls m m1 -> mailbox_step l m1 m2 -> mailbox_run (ls ++ [l]) m m2.

Lemma mailbox_run_app ls ls' m m1 m2 :
  mailbox_run ls m m1 -> mailbox_run ls' m1 m2 -> mailbox_run (ls ++ ls') m m2.
Proof.
  intros H1 H2. induction H2 as [|ls' l m1 m2 m3 _ IH Hl]; [by rewrite app_nil_r|].
  rewrite app_assoc. by eapply run_snoc; [apply IH|].
Qed.

Lemma mailbox_run_one l m m' : mailbox_step l m m' -> mailbox_run [l] m m'.
Proof. apply (run_snoc []). constructor. Qed.

Lemma mailbox_run_one_inv l m m' : mailbox_run [l] m m' -> mailbox_step l m m'.
Proof.
  remember [l] as ls eqn:E. destruct 1 as [m|ls l' m m1 m2 H1 H2]; [done|].
  apply (app_inj_tail ls [] l' l) in E as [-> ->]. by inversion H1; subst; [|destruct ls].
Qed.

Definition asks (ls : list label) : list nat :=
  omap (fun l => match l with Ask id => Some id | _ => None end) ls.
Definition starts (ls : list label) : list nat :=
  omap (fun l => match l with Start id => Some id | _ => None end) ls.
Definition arrivals (ls : list label) : list message :=
  omap (fun l => match l with Arrive v => Some v | _ => None end) ls.

(** What a run of the mailbox comes to: every receive asked for is in one
    place, and the matches made are the k-th start with the k-th arrival. *)
Record accounted (ls : list label) (m : mailbox) : Prop := {
  acc_asks : asks ls ≡ₚ asking m ++ starts ls;
  acc_matches : received m ++ handed m ≡ₚ zip (starts ls) (arrivals ls);
  acc_receivers : receivers m = drop (length (arrivals ls)) (starts ls);
  acc_messages : messages m = drop (length (starts ls)) (arrivals ls)
}.

(** All that came: received, on its way to a receiver, or waiting. *)
Definition all_messages (m : mailbox) : list message := (received m).*2 ++ (handed m).*2 ++ messages m.

(** Nothing that came is lost. *)
Lemma mailbox_run_keeps ls m m' : mailbox_run ls m m' -> all_messages m' ≡ₚ all_messages m ++ arrivals ls.
Proof.
  assert (Har : forall l ks, arrivals (l ++ ks) = arrivals l ++ arrivals ks) by (intros; apply omap_app).
  induction 1 as [m0|ls l m0 m1 m2 _ IH Hl]; [by rewrite app_nil_r|]. rewrite Har, app_assoc, <-IH.
  destruct Hl as [id m|id pre post m E En|id pre post v vs m E En|v m En|v id ids m En|e pre post m E];
    unfold all_messages; cbn; rewrite ?E, ?En, ?fmap_app; cbn; rewrite ?app_nil_r; solve_Permutation.
Qed.

(** One more element on one side of a [zip]: nothing to match, or one match. *)
Lemma zip_snoc_l {A B} (l : list A) (k : list B) a :
  zip (l ++ [a]) k = zip l k ++ match drop (length l) k with b :: _ => [(a, b)] | [] => [] end.
Proof. rewrite zip_with_app_l, zip_with_take_r. by destruct (drop (length l) k). Qed.

Lemma zip_snoc_r {A B} (l : list A) (k : list B) b :
  zip l (k ++ [b]) = zip l k ++ match drop (length k) l with a :: _ => [(a, b)] | [] => [] end.
Proof. rewrite zip_with_app_r, zip_with_take_l. destruct (drop (length k) l) as [|a [|]]; done. Qed.

(** What waits when one side grows by an element. *)
Lemma waits_more {A B} (l : list A) (k : list B) a :
  match drop (length l) k with
  | [] => drop (length k) (l ++ [a]) = drop (length k) l ++ [a] /\ drop (length (l ++ [a])) k = []
  | _ :: k' => drop (length k) (l ++ [a]) = drop (length k) l /\ drop (length (l ++ [a])) k = k'
  end.
Proof.
  rewrite length_app, <-drop_drop. cbn [length].
  destruct (drop (length l) k) as [|b k'] eqn:E.
  - apply (f_equal length) in E. rewrite length_drop in E. cbn [length] in E.
    split; [|done]. rewrite drop_app_le by lia. done.
  - split; [|done]. apply (f_equal length) in E. rewrite length_drop in E. cbn [length] in E.
    rewrite !drop_ge; [done|lia|]. rewrite length_app. simpl. lia.
Qed.

Ltac waits l k a Hk En :=
  let Hw := fresh in
  pose proof (waits_more l k a) as Hw; rewrite <-Hk, En in Hw; destruct Hw as [Hw1 Hw2];
  first [rewrite Hw1; congruence | by rewrite Hw2].

Lemma mailbox_accounts ls m : mailbox_run ls empty_mailbox m -> accounted ls m.
Proof.
  remember empty_mailbox as m0 eqn:E0. induction 1 as [m|ls l m m1 m2 _ IH Hl]; subst; [by split|].
  specialize (IH eq_refl) as [Ha Hm Hr Hv].
  assert (Hasks : forall ks, asks (ls ++ ks) = asks ls ++ asks ks) by (intros; apply omap_app).
  assert (Hst : forall ks, starts (ls ++ ks) = starts ls ++ starts ks) by (intros; apply omap_app).
  assert (Har : forall ks, arrivals (ls ++ ks) = arrivals ls ++ arrivals ks) by (intros; apply omap_app).
  destruct Hl as [id m|id pre post m E En|id pre post v vs m E En|v m En|v id ids m En|e pre post m E];
    split; rewrite ?Hasks, ?Hst, ?Har; cbn; rewrite ?app_nil_r; try done.
  - rewrite Ha. solve_Permutation.
  - rewrite Ha, E. solve_Permutation.
  - rewrite zip_snoc_l, <-Hv, En, app_nil_r. done.
  - waits (starts ls) (arrivals ls) id Hv En.
  - waits (starts ls) (arrivals ls) id Hv En.
  - rewrite Ha, E. solve_Permutation.
  - rewrite zip_snoc_l, <-Hv, En, <-Hm. solve_Permutation.
  - waits (starts ls) (arrivals ls) id Hv En.
  - waits (starts ls) (arrivals ls) id Hv En.
  - rewrite zip_snoc_r, <-Hr, En, app_nil_r. done.
  - waits (arrivals ls) (starts ls) v Hr En.
  - waits (arrivals ls) (starts ls) v Hr En.
  - rewrite zip_snoc_r, <-Hr, En, <-Hm. solve_Permutation.
  - waits (arrivals ls) (starts ls) v Hr En.
  - waits (arrivals ls) (starts ls) v Hr En.
  - rewrite <-Hm, E. solve_Permutation.
Qed.

(** ** The kernel's mailbox *)

Section kernel.
Context `{Build} `{OpenSSL} `{BoostRegex} `{StdSort} `{!AvifImpl H0}.

(** What a task or a completion has to do with receiving. *)
Definition started (t : task) : option nat := match t with TRecvfrom id => Some id | _ => None end.
Definition posted_recv (t : task) : option (nat * message) :=
  match t with TRecvPop id _ v => Some (id, v) | _ => None end.
Definition done_recv (c : completion) : option (nat * message) :=
  match c with RecvDone id _ (Some v) => Some (id, v) | _ => None end.

Definition mailbox_of (k : kernel) : mailbox :=
  {| asking := omap started (tasks k);
     receivers := (m_handlers (m_recv_buffer k)).*2;
     messages := m_list (m_recv_buffer k);
     handed := omap posted_recv (tasks k);
     received := omap done_recv (log k) |}.

(** Every completion of a receive is a success: nothing cancels the queue. *)
Definition recv_fine_task (t : task) : Prop :=
  match t with TRecvPop _ ec _ => ec = ec_success | _ => True end.
Definition recv_fine_done (c : completion) : Prop :=
  match c with RecvDone _ ec v => ec = ec_success /\ is_Some v | _ => True end.

Record recv_ok (k : kernel) : Prop := {
  rv_queue : all_live (m_recv_buffer k);
  rv_tasks : Forall recv_fine_task (tasks k);
  rv_log : Forall recv_fine_done (log k)
}.

(** From [k] to [k'] the mailbox moved by these labels. *)
Definition moved (ls : list label) (k k' : kernel) : Prop :=
  (recv_ok k -> recv_ok k') /\ next_op k' = next_op k /\ mailbox_run ls (mailbox_of k) (mailbox_of k').

Lemma moved_trans ls1 ls2 k1 k2 k3 : moved ls1 k1 k2 -> moved ls2 k2 k3 -> moved (ls1 ++ ls2) k1 k3.
Proof.
  intros (H12 & N12 & R12) (H23 & N23 & R23). split_and!; [auto|congruence|by eapply mailbox_run_app].
Qed.

Abbreviation still := (moved []).

#[export] Instance still_order : PreOrder still.
Proof.
  split; [by intros k; split_and!; [| |constructor]|]. intros k1 k2 k3. apply (moved_trans [] []).
Qed.

Lemma still_l ls k1 k2 k3 : still k1 k2 -> moved ls k2 k3 -> moved ls k1 k3.
Proof. apply (moved_trans []). Qed.
Lemma still_r ls k1 k2 k3 : moved ls k1 k2 -> still k2 k3 -> moved ls k1 k3.
Proof. intros Hm Hs. rewrite <-(app_nil_r ls). by eapply moved_trans. Qed.

Lemma all_live_push v (q : @coro_queue message nat Empty_set) r :
  all_live q -> push v q = Ret r -> all_live r.1.
Proof. intros Hq E. destruct r as [q' ps]. by apply (run_plain (OPush v) q q' ps). Qed.

Lemma moved_push v k u k' : recv_ok k -> push_recv v k = (Ret u, k') -> moved [Arrive v] k k'.
Proof.
  intros Hok. unfold push_recv, st_bind, read_k, st_modify, io_post.
  destruct (push v (m_recv_buffer k)) as [r| | | |] eqn:E; try done. intros [= _ <-].
  pose proof (all_live_push v _ r (rv_queue k Hok) E) as Hr.
  rewrite push_live in E by apply Hok. injection E as <-. destruct Hok as [Hq Ht Hd].
  destruct (m_handlers (m_recv_buffer k)) as [|[f id] rest] eqn:Eh; simpl in *;
    (split; [|split; [done|apply mailbox_run_one]]).
  - intros _. split; simpl; [done| |done]. by rewrite app_nil_r.
  - unfold mailbox_of. simpl. rewrite Eh, app_nil_r. by apply (step_arrive_wait v).
  - intros _. split; simpl; [done| |done]. apply Forall_app. by repeat constructor.
  - refine (eq_ind_r _ (step_arrive_hand v id rest.*2 (mailbox_of k) _) _).
    + simpl. by rewrite Eh.
    + unfold mailbox_of. simpl. by rewrite !omap_app, app_nil_r.
Qed.

(** Steps that do not touch the mailbox. *)
Lemma moved_calm k k' :
  next_op k' = next_op k -> m_recv_buffer k' = m_recv_buffer k -> omap started (tasks k') = omap started (tasks k) ->
  omap posted_recv (tasks k') = omap posted_recv (tasks k) ->
  (Forall recv_fine_task (tasks k) -> Forall recv_fine_task (tasks k')) ->
  omap done_recv (log k') = omap done_recv (log k) ->
  (Forall recv_fine_done (log k) -> Forall recv_fine_done (log k')) -> still k k'.
Proof.
  intros Hn Hq Hs Hp Ht Hd Hl. split_and!; [|done|].
  - intros []. split; [by rewrite Hq|auto..].
  - unfold mailbox_of. rewrite Hq, Hs, Hp, Hd. constructor.
Qed.

(** Tasks that do not concern receiving. *)
Definition no_recv (t : task) : Prop :=
  match t with TRecvfrom _ | TRecvPop _ _ _ => False | _ => True end.

#[export] Instance mailbox_coroutines : Coroutines recv_ok still.
Proof.
  intros k k' Hok [(ts & Ht & Hts) Hs Hr Hl Hn].
  assert (E : omap started ts = [] /\ omap posted_recv ts = [] /\ Forall recv_fine_task ts).
  { clear Ht. induction Hts as [|t ts' Ht' _ (E1 & E2 & E3)]; [done|].
    destruct t; try done; (split_and!; [done|done|by constructor]). }
  destruct E as (E1 & E2 & E3). apply moved_calm; rewrite ?Ht, ?Hl, ?omap_app, ?E1, ?E2, ?app_nil_r; try done.
  intros Hk. by apply Forall_app.
Qed.

#[export] Instance mailbox_primitives : Primitives recv_ok still (fun _ _ => True).
Proof.
  split; try done.
  - apply _.
  - by intros k k' [].
  - intros k k' _ []. apply moved_calm; congruence.
  - intros i v. apply eff_queue.
  - intros id ec k u k' _ [= _ <-]. apply moved_calm; simpl; try done.
    + by rewrite omap_app, app_nil_r.
    + intros Hk. apply Forall_app. split; [done|]. by repeat constructor.
  - intros id op s k u k' _ [= _ <-]. by apply moved_calm.
Qed.

(** ** The messages that arrive *)

(** What the payload of a packet opens to, with the key it carries and then with
    the private key of the interface. *)
Definition opened (pkt : avPacket) (i : nat) : outcome bytes :=
  match payload pkt with
  | Some c =>
      stage1 ← RSA_public_decrypt (RSA_of_n (default [] (publickey pkt))) c;
      mine ← deref (get_rsa_key i);
      RSA_private_decrypt mine stage1
  | None => Ret []
  end.

(** The message in a packet: an "avim" packet for this node. *)
Definition arrives_in (pkt : avPacket) (i : nat) (k : kernel) : list message :=
  match is_to_me_in (dest pkt) (map_iter (m_avifs (table k))) with
  | Ret true =>
      if String.eqb (upperlayerpotocol pkt) "avim" then
        match opened pkt i with Ret data => [(av_address_to_string (src pkt), data)] | _ => [] end
      else []
  | _ => []
  end.

Lemma learn_key_table now pkt k u k' : learn_key now pkt k = (Ret u, k') -> table k' = table k.
Proof.
  unfold learn_key, kernel_find_key, kernel_add_key. intros (key & k1 & E1 & E2)%st_bind_inv.
  unfold read_k in E1. injection E1 as _ <-. by destruct key, (publickey pkt); injection E2 as _ <-.
Qed.

Lemma to_me_moved now pkt i k u k' :
  recv_ok k -> process_recived_packet_to_me now pkt i k = (Ret u, k') ->
  moved (if String.eqb (upperlayerpotocol pkt) "avim" then
           match opened pkt i with Ret data => [Arrive (av_address_to_string (src pkt), data)] | _ => [] end
         else []) k k'.
Proof.
  intros Hok. unfold process_recived_packet_to_me.
  destruct (String.eqb_spec (upperlayerpotocol pkt) "pkask") as [->|].
  { intros E. by eapply (eff_pkreply (J := recv_ok) (R := still)). }
  destruct (String.eqb_spec (upperlayerpotocol pkt) "pkreply") as [->|].
  { intros E. inv_bind. injection Ha as _ <-. injection Ha0 as _ <-. injection Ha1 as _ <-.
    by eapply (eff_add_key (J := recv_ok) (R := still)). }
  intros (data & k1 & E1 & E2)%st_bind_inv.
  assert (Ek : k1 = k /\ opened pkt i = Ret data).
  { unfold opened. destruct (payload pkt) as [c|]; [|by injection E1 as <- <-].
    unfold st_bind, st_lift in E1. destruct (RSA_public_decrypt _ c) as [s1| | | |]; try done.
    rewrite outcome_bind_Ret. destruct (deref (get_rsa_key i)) as [mine| | | |]; try done.
    rewrite outcome_bind_Ret. by injection E1 as -> <-. }
  destruct Ek as [-> ->]. destruct (String.eqb (upperlayerpotocol pkt) "avim").
  - by eapply moved_push.
  - injection E2 as _ <-. reflexivity.
Qed.

Lemma process_moved now pkt i k u k' :
  recv_ok k -> process_recived_packet now pkt i k = (Ret u, k') -> moved (Arrive <$> arrives_in pkt i k) k k'.
Proof.
  intros Hok E. unfold process_recived_packet, scope_exit in E.
  destruct ((learn_key now pkt ;;- _) k) as [[a|e| | |] k2] eqn:Eb; try done.
  2:{ unfold st_bind in E. by destruct (wake now Post (pred pkt) ec_success k2) as [[]]. }
  assert (Hb : moved (Arrive <$> arrives_in pkt i k) k k2).
  { apply st_bind_inv in Eb as (u1 & k1 & E1 & Eb). pose proof (learn_key_table _ _ _ _ _ E1) as Ht.
    pose proof (eff_learn_key (J := recv_ok) (R := still) now pkt k u1 k1 Hok E1) as H1'.
    apply st_bind_inv in Eb as (me & k1' & Em & Eb). unfold is_to_me, read_k in Em. injection Em as Em <-.
    eapply still_l; [exact H1'|]. unfold arrives_in. rewrite <-Ht, Em.
    assert (Hok1 : recv_ok k1) by (by apply H1'). destruct me.
    - apply to_me_moved in Eb; [|done]. repeat case_match; exact Eb.
    - by eapply (eff_forward (J := recv_ok) (R := still)). }
  apply st_bind_inv in E as (u3 & k3 & Ew & [= _ <-]).
  eapply still_r; [exact Hb|]. eapply (eff_wake (J := recv_ok) (R := still)); [|exact Ew]. by apply Hb.
Qed.

(** ** Tasks that concern receiving *)

(** A task that does not concern receiving leaves the list. *)
Lemma moved_unqueue n t k :
  tasks k !! n = Some t -> no_recv t -> still k (set_tasks (delete n (tasks k)) k).
Proof.
  intros Ht Hno. apply moved_calm; simpl; try done.
  - apply (omap_delete_None _ _ _ _ Ht). by destruct t.
  - apply (omap_delete_None _ _ _ _ Ht). by destruct t.
  - intros HF. rewrite (delete_Permutation _ _ _ Ht) in HF. by inversion HF.
Qed.

Lemma recv_ok_unqueue n t k :
  recv_ok k -> tasks k !! n = Some t ->
  recv_ok (set_tasks (delete n (tasks k)) k) /\ recv_fine_task t.
Proof.
  intros [Hq HF Hd] Ht. rewrite (delete_Permutation _ _ _ Ht) in HF. inversion HF; subst.
  by split; [split|].
Qed.

Lemma moved_start n id k u k' :
  recv_ok k -> tasks k !! n = Some (TRecvfrom id) ->
  async_recvfrom_op id (set_tasks (delete n (tasks k)) k) = (Ret u, k') -> moved [Start id] k k'.
Proof.
  intros Hok Ht [= _ <-]. destruct (recv_ok_unqueue n _ k Hok Ht) as [[Hq HF Hd] _]. simpl in *.
  destruct (omap_delete_split started _ _ _ id Ht eq_refl) as (pre & post & Ea & Ed).
  pose proof (omap_delete_None posted_recv _ _ _ Ht eq_refl) as Ep.
  assert (Hq' : all_live (async_pop_impl id (m_recv_buffer k)).1)
    by (by eapply (run_plain (OPop id) _ _ (async_pop_impl id (m_recv_buffer k)).2 Hq);
        [|simpl; destruct (async_pop_impl _ _)]).
  unfold async_pop_impl in *. destruct (m_list (m_recv_buffer k)) as [|v vs] eqn:El; simpl in *;
    (split; [|split; [done|apply mailbox_run_one]]).
  - intros _. split; simpl; [done| |done]. by rewrite app_nil_r.
  - refine (eq_ind_r _ (step_start_wait id pre post (mailbox_of k) Ea El) _).
    unfold mailbox_of. simpl. by rewrite El, fmap_app, app_nil_r, Ed, Ep.
  - intros _. split; simpl; [done| |done]. apply Forall_app. by repeat constructor.
  - refine (eq_ind_r _ (step_start_take id pre post v vs (mailbox_of k) Ea El) _).
    unfold mailbox_of. simpl. by rewrite !omap_app, app_nil_r, Ed, Ep.
Qed.

Lemma moved_complete n id ec v k u k' :
  recv_ok k -> tasks k !! n = Some (TRecvPop id ec v) ->
  recv_popped id ec v (set_tasks (delete n (tasks k)) k) = (Ret u, k') -> moved [Complete] k k'.
Proof.
  intros Hok Ht [= _ <-]. destruct (recv_ok_unqueue n _ k Hok Ht) as [[Hq HF Hd] He]. simpl in He.
  subst ec. simpl in *. split; [|split; [done|apply mailbox_run_one]].
  - intros _. split; simpl; [done|done|]. apply Forall_app. split; [done|]. repeat constructor. eauto.
  - destruct (omap_delete_split posted_recv _ _ _ (id, v) Ht eq_refl) as (pre & post & Ea & Ed).
    pose proof (omap_delete_None started _ _ _ Ht eq_refl) as Ep.
    refine (eq_ind_r _ (step_complete (id, v) pre post (mailbox_of k) Ea) _).
    unfold mailbox_of. simpl. by rewrite Ed, Ep, omap_app.
Qed.

(** ** The refinement *)

(** What a task, an event and a run do to the mailbox. *)
Definition task_labels (t : task) (k : kernel) : list label :=
  match t with
  | TProcess pkt i => Arrive <$> arrives_in pkt i k
  | TRecvfrom id => [Start id]
  | TRecvPop _ _ _ => [Complete]
  | _ => []
  end.
Definition event_labels (e : event) (k : kernel) : list label :=
  match e with
  | ERecvfrom => [Ask (next_op k)]
  | ERun n _ => match tasks k !! n with Some t => task_labels t k | None => [] end
  | _ => []
  end.
Fixpoint run_labels (es : list event) (k : kernel) : list label :=
  match es with [] => [] | e :: es => event_labels e k ++ run_labels es (step e k).2 end.

Lemma moved_run_task now n t k u k' :
  recv_ok k -> tasks k !! n = Some t ->
  run_task now t (set_tasks (delete n (tasks k)) k) = (Ret u, k') -> moved (task_labels t k) k k'.
Proof.
  intros Hok Ht E. set (k0 := set_tasks (delete n (tasks k)) k) in *.
  assert (Hrest : forall ls, no_recv t -> (recv_ok k0 -> moved ls k0 k') -> moved ls k k').
  { intros ls Hno Hm. eapply still_l; [by eapply moved_unqueue|]. by apply Hm, (recv_ok_unqueue n t). }
  destruct t as [pkt i|i|i|id target data|id|i ec v|id ec v]; cbn [run_task task_labels] in *.
  - apply Hrest; [done|]. intros Hk0. change (arrives_in pkt i k) with (arrives_in pkt i k0). by eapply process_moved.
  - apply Hrest; [done|]. intros Hk0. by eapply (eff_runner (J := recv_ok) (R := still)).
  - apply Hrest; [done|]. intros Hk0. by eapply (eff_writer (J := recv_ok) (R := still)).
  - apply Hrest; [done|]. intros Hk0. by eapply (eff_sendto_op (J := recv_ok) (R := still)).
  - by eapply moved_start.
  - apply Hrest; [done|]. intros Hk0. by eapply (eff_writer_popped (J := recv_ok) (R := still)).
  - by eapply moved_complete.
Qed.

(** The operation numbers an event takes, and the receives asked for by a
    sequence of events that starts with number [n]. *)
Definition new_ops (e : event) : nat := match e with ESendto _ _ | ERecvfrom => 1 | _ => 0 end.
Definition asks_now (n : nat) (e : event) : list nat := match e with ERecvfrom => [n] | _ => [] end.
Fixpoint asked (n : nat) (es : list event) : list nat :=
  match es with [] => [] | e :: es => asks_now n e ++ asked (n + new_ops e) es end.

Definition simulated (e : event) (k k' : kernel) : Prop :=
  recv_ok k' /\ next_op k' = (next_op k + new_ops e)%nat /\
  mailbox_run (event_labels e k) (mailbox_of k) (mailbox_of k').

Lemma moved_simulated e k k' :
  recv_ok k -> moved (event_labels e k) k k' -> new_ops e = 0%nat -> simulated e k k'.
Proof. intros Hok (Hk & Hn & Hr) En. split_and!; [auto|lia|done]. Qed.

Lemma step_simulated e k u k' : recv_ok k -> step e k = (Ret u, k') -> simulated e k k'.
Proof.
  intros Hok E.
  assert (Hout : outside e -> new_ops e = 0%nat -> event_labels e k = [] -> simulated e k k').
  { intros Ho En El. apply moved_simulated; try done. rewrite El.
    by apply (eff_outside (J := recv_ok) (R := still) e Ho k u k'). }
  destruct e as [i|i|target gw name m|target data| | |n now|i avpkt now|i n ec now|ec now|ec now];
    try by apply Hout.
  - injection E as _ <-. destruct Hok as [Hq HF Hd]. split; [split|split]; simpl; [done| |done|lia|].
    + apply Forall_app. by repeat constructor.
    + unfold mailbox_of. simpl. rewrite !omap_app, !app_nil_r. constructor.
  - injection E as _ <-. destruct Hok as [Hq HF Hd]. split; [split|split]; simpl; [done| |done|lia|].
    + apply Forall_app. by repeat constructor.
    + apply mailbox_run_one. refine (eq_ind_r _ (step_ask (next_op k) (mailbox_of k)) _).
      unfold mailbox_of. simpl. by rewrite !omap_app, !app_nil_r.
  - cbn [step] in E. apply moved_simulated; [done| |done]. cbn [event_labels].
    destruct (tasks k !! n) as [t|] eqn:Et.
    + by eapply moved_run_task.
    + injection E as _ <-. reflexivity.
Qed.

Lemma event_asks e k : asks (event_labels e k) = asks_now (next_op k) e.
Proof.
  destruct e as [| | | | | |n now| | | |]; try done. simpl. destruct (tasks k !! n) as [[pkt i| | | | | |]|]; try done.
  simpl. by induction (arrives_in pkt i k).
Qed.

Lemma run_simulated es k u k' :
  recv_ok k -> run_events es k = (Ret u, k') ->
  recv_ok k' /\ mailbox_run (run_labels es k) (mailbox_of k) (mailbox_of k') /\
  asks (run_labels es k) = asked (next_op k) es.
Proof.
  revert k. induction es as [|e es IH]; intros k Hok; cbn [run_events asked run_labels].
  { intros [= _ <-]. split_and!; [done|constructor|done]. }
  intros ([] & k1 & E1 & E2)%st_bind_inv.
  destruct (step_simulated e k _ k1 Hok E1) as (Hok1 & Hn & R1).
  rewrite E1. cbn [snd]. destruct (IH k1 Hok1 E2) as (Hok2 & R2 & A2). split_and!; [done| |].
  - by eapply mailbox_run_app.
  - rewrite <-Hn, <-A2, <-event_asks. apply omap_app.
Qed.

Lemma init_recv_ok : recv_ok init_kernel.
Proof. split; simpl; [apply empty_all_live|constructor|constructor]. Qed.

(** C19: receiving refines the mailbox: whatever events the kernel goes through,
    the receives and messages it holds are those of the run of the mailbox in
    which the same receives are asked for and a message arrives whenever an
    "avim" packet for this node is processed: what its payload opens to, from the
    address in it. *)
Theorem kernel_refines_mailbox es k u :
  run_events es init_kernel = (Ret u, k) ->
  mailbox_run (run_labels es init_kernel) empty_mailbox (mailbox_of k) /\
  asks (run_labels es init_kernel) = asked 0 es.
Proof. intros E. by apply (run_simulated es _ u k init_recv_ok) in E as [_ E]. Qed.

Lemma asked_fresh n es : NoDup (asked n es) /\ forall id, id ∈ asked n es -> (n <= id)%nat.
Proof.
  revert n. induction es as [|e es IH]; intros n; cbn [asked]; [split; [constructor|by intros id ?%elem_of_nil]|].
  destruct (IH (n + new_ops e)%nat) as [Hnd Hle].
  assert (Hge : forall id, id ∈ asked (n + new_ops e) es -> (n <= id)%nat) by (intros id Hid%Hle; lia).
  destruct e; try by split. simpl. split.
  - constructor; [|done]. intros Hin%Hle. simpl in Hin. lia.
  - intros id [->|Hid]%elem_of_cons; [done|auto].
Qed.

(** Each receive asked for is in exactly one place. *)
Lemma recvs_accounted es k u :
  run_events es init_kernel = (Ret u, k) ->
  let m := mailbox_of k in
  NoDup (asking m ++ receivers m ++ (handed m).*1 ++ (received m).*1) /\
  asking m ++ receivers m ++ (handed m).*1 ++ (received m).*1 ≡ₚ asked 0 es.
Proof.
  intros E m. destruct (run_simulated es _ u k init_recv_ok E) as (_ & Hr & Ha).
  set (ls := run_labels es init_kernel) in *.
  apply mailbox_accounts in Hr as [A1 A2 A3 A4]. fold m in A1, A2, A3, A4.
  assert (Hperm : asking m ++ receivers m ++ (handed m).*1 ++ (received m).*1 ≡ₚ asked 0 es).
  { change 0%nat with (next_op init_kernel). rewrite <-Ha, A1. f_equiv.
    assert (Hz : (handed m).*1 ++ (received m).*1 ≡ₚ take (length (arrivals ls)) (starts ls)).
    { rewrite (Permutation_app_comm (handed m).*1), <-fmap_app, A2. clear.
      generalize (starts ls), (arrivals ls). clear.
      induction l as [|x l IH]; intros [|y k]; simpl; [done..|]. by rewrite IH. }
    by rewrite Hz, A3, (Permutation_app_comm (drop _ _)), take_drop. }
  split; [rewrite Hperm; apply asked_fresh|done].
Qed.

(** The receives that completed, in the log and in the mailbox. *)
Lemma recvs_logged k : recv_ok k -> omap recv_done (log k) = (received (mailbox_of k)).*1.
Proof.
  intros [_ _ Hd]. unfold mailbox_of. simpl.
  induction Hd as [|c l Hc _ IH]; [done|]. simpl. destruct c as [id ec|id ec v]; [exact IH|].
  destruct Hc as [_ [w ->]]. simpl. by f_equal.
Qed.

(** C20: a receive is never lost and completes at most once, with a message:
    each one asked for is in exactly one place -- not started, waiting, on its
    way to its handler, or completed --, the receivers that started met the
    messages that arrived one to one in order, and nobody waits while a message
    does. *)
Theorem recvs_complete_once es k u :
  run_events es init_kernel = (Ret u, k) ->
  let m := mailbox_of k in
  NoDup (asking m ++ receivers m ++ (handed m).*1 ++ (received m).*1) /\
  asking m ++ receivers m ++ (handed m).*1 ++ (received m).*1 ≡ₚ asked 0 es /\
  omap recv_done (log k) = (received m).*1 /\
  let begun := starts (run_labels es init_kernel) in
  let arrived := arrivals (run_labels es init_kernel) in
    received m ++ handed m ≡ₚ zip begun arrived /\
    receivers m = drop (length arrived) begun /\ messages m = drop (length begun) arrived.
Proof.
  intros E m. destruct (run_simulated es _ u k init_recv_ok E) as (Hok & Hr & _).
  destruct (recvs_accounted es k u E) as [Hnd Hperm].
  apply mailbox_accounts in Hr as [A1 A2 A3 A4].
  split_and!; [done|done|by apply recvs_logged|done..].
Qed.
End kernel.
