(* ===== verification/KernelInv.v ===== *)
(** * KernelInv: the kernel's invariant

    Every state the kernel reaches by a sequence of events is well-formed:
    its table, key store and queues satisfy their own invariants, a registered
    waiter belongs to a send that is suspended for its key, a send is completed
    at most once, and no packet with an exhausted ttl is queued.  The loops
    over the waiters end although the handlers they call append to the list. *)

From S2P Require Import Prelude StdSort OpenSSL RsaChunk Regex Address CoroQueue Routing KeyStore Avif Kernel Hoare.

(** A property of the public keys that peers send, kept by the key store: with
    the trivial one nothing is assumed of the peers. *)
Class PeerKeys (O : OpenSSL) := peer_key : RSA -> Prop.
#[export] Instance all_keys O : PeerKeys O | 100 := fun _ => True.

Section invariant.
Context `{Build} `{OpenSSL} `{BoostRegex} `{StdSort} `{!AvifImpl H0} `{!StdSortLaws H2}.
Context `{!PeerKeys H0}.

Definition peer_store (st : gmap string AVdbitem) : Prop :=
  map_Forall (fun _ item => Forall (fun k => peer_key (rsa k)) (keys item)) st.

(** The key a packet carries, and the key of the certificate it carries. *)
Definition cert_key (b : bytes) : option RSA :=
  match d2i_X509 b with
  | Some crt => match X509_get_pubkey crt with Some pkey => EVP_PKEY_get1_RSA pkey | None => None end
  | None => None
  end.
Definition peer_packet (pkt : avPacket) : Prop :=
  (forall n, publickey pkt = Some n -> peer_key (RSA_of_n n)) /\
  (forall key, cert_key (default [] (payload pkt)) = Some key -> peer_key key).
Definition peer_event (e : event) : Prop :=
  match e with ERead _ (Some pkt) _ => peer_packet pkt | _ => True end.

(** The sends that are not yet started or already completed. *)
Definition sendto_id (t : task) : option nat :=
  match t with TSendto id _ _ => Some id | _ => None end.
Definition send_done (c : completion) : option nat :=
  match c with SendDone id _ => Some id | _ => None end.
Definition held (k : kernel) : list nat := omap sendto_id (tasks k) ++ omap send_done (log k).

(** The sends whose packet waits in the queue of interface [i], has been posted
    to its writer, or is being written. *)
Definition posted_at (i : nat) (t : task) : option nat :=
  match t with TWriterPop j _ (_, Some id) => if decide (j = i) then Some id else None | _ => None end.
Definition requests (a : avif_state) : list nat :=
  omap snd (m_list (write_queue a)) ++ omap snd (writing a).
Definition queued (i : nat) (k : kernel) : list nat :=
  match ifs k !! i with Some a => requests a | None => [] end ++ omap (posted_at i) (tasks k).

Definition request_ok (v : write_request) : Prop := 1 <= time_to_live v.1.

Record avif_ok (a : avif_state) : Prop := {
  wq_ok : queue_ok (write_queue a);
  wq_ttl : Forall request_ok (m_list (write_queue a));
  writing_ttl : Forall request_ok (writing a)
}.

Definition task_ok (t : task) : Prop :=
  match t with
  | TWriterPop _ ec v => if failed ec then v.2 = None else request_ok v
  | TProcess pkt _ => peer_packet pkt
  | _ => True
  end.

(** The part of the invariant that does not concern the sends. *)
Record static_ok (k : kernel) : Prop := {
  ok_table : rtable_ok (table k);
  ok_nodes : map_Forall (fun _ nd => is_Some (ifs k !! node_if nd)) (m_avifs (table k));
  ok_keys : keystore_ok (trusted_pubkey k);
  ok_recv : queue_ok (m_recv_buffer k);
  ok_ifs : map_Forall (fun _ => avif_ok) (ifs k);
  ok_tasks : Forall task_ok (tasks k);
  ok_pre : preprocess_list k = [];
  ok_peers : peer_store (trusted_pubkey k)
}.

Definition waits_for_key (s : gmap nat send_op) (w : waiter) : Prop :=
  exists op i, s !! w_op w = Some op /\ s_stage op = WaitKey i /\ s_target op = pred_target w.

(** Interfaces are never forgotten. *)
Lemma nodes_insert i a k :
  map_Forall (fun _ nd => is_Some (ifs k !! node_if nd)) (m_avifs (table k)) ->
  map_Forall (fun _ nd => is_Some (<[i := a]> (ifs k) !! node_if nd)) (m_avifs (table k)).
Proof.
  intros Hn name nd Hnd. specialize (Hn name nd Hnd). destruct (decide (i = node_if nd)) as [->|].
  - rewrite lookup_insert_eq. eauto.
  - by rewrite lookup_insert_ne.
Qed.

Definition waits_for_write (s : gmap nat send_op) (i id : nat) : Prop :=
  exists op, s !! id = Some op /\ s_stage op = WaitWrite /\ node_if (s_interface op) = i.

(** Each suspended send in [P] is held in exactly one place: one waiter of
    [ws], or one write queue; and nothing else is held. *)
Record sends_ok (P : nat -> Prop) (ws : list waiter) (k : kernel) : Prop := {
  ws_once : NoDup (w_op <$> ws);
  ws_sound w : w ∈ ws -> P (w_op w) /\ waits_for_key (sends k) w;
  ws_complete id op i : P id -> sends k !! id = Some op -> s_stage op = WaitKey i ->
    id ∈ (w_op <$> ws);
  wq_once i : NoDup (queued i k);
  wq_sound i id : id ∈ queued i k -> P id /\ waits_for_write (sends k) i id;
  wq_complete i id : P id -> waits_for_write (sends k) i id -> id ∈ queued i k
}.

Definition ids_ok (k : kernel) : Prop :=
  NoDup (held k) /\
  (forall id, id ∈ held k -> sends k !! id = None /\ (id < next_op k)%nat) /\
  (forall id, is_Some (sends k !! id) -> (id < next_op k)%nat).

Definition kernel_ok (k : kernel) : Prop :=
  static_ok k /\ sends_ok (fun _ => True) (postprocess_list k) k /\ ids_ok k.

(** ** Code that leaves the sends alone *)

Definition frame (k0 k : kernel) : Prop :=
  postprocess_list k = postprocess_list k0 /\ sends k = sends k0 /\
  held k = held k0 /\ next_op k = next_op k0 /\ (forall i, queued i k ≡ₚ queued i k0).

(** The loops that may not end: a key of 11 bytes leaves no room in a chunk. *)
Definition tiny (r : RSA) : Prop := RSA_size r = RSA_PKCS1_PADDING_SIZE.
Definition tiny_key : Prop :=
  (exists r, peer_key r /\ tiny r) \/ exists i r, get_rsa_key i = Some r /\ tiny r.

Abbreviation triple := (hoare tiny_key).

(** [keeps m Q]: [m] preserves the static part, leaves the sends alone, and
    returns a value in [Q]. *)
Definition keeps {A} (m : ST kernel A) (Q : A -> Prop) : Prop := forall k0,
  triple (fun k => static_ok k /\ frame k0 k) m (fun a k => (static_ok k /\ frame k0 k) /\ Q a)
    (fun k => static_ok k /\ frame k0 k).

Definition any {A} (_ : A) : Prop := True.

Lemma frame_refl k : frame k k.
Proof. done. Qed.

Lemma frame_trans k0 k1 k2 : frame k0 k1 -> frame k1 k2 -> frame k0 k2.
Proof.
  unfold frame. intros (?&?&?&?&Hq) (?&?&?&?&Hq'). split_and!; try congruence.
  intros i. by rewrite Hq', Hq.
Qed.

Lemma keeps_bind {A B} (m : ST kernel A) (f : A -> ST kernel B) Q R :
  keeps m Q -> (forall a, Q a -> keeps (f a) R) -> keeps (st_bind m f) R.
Proof.
  intros Hm Hf k0. eapply hoare_bind; [apply Hm|]. intros a k [Hk HQ]. by apply (Hf a HQ k0).
Qed.

Lemma keeps_seq {A B} (m : ST kernel A) (f : ST kernel B) R :
  keeps m any -> keeps f R -> keeps (st_bind m (fun _ => f)) R.
Proof. intros Hm Hf. by eapply keeps_bind. Qed.

Lemma keeps_ret {A} (a : A) (Q : A -> Prop) : Q a -> keeps (st_ret a) Q.
Proof. intros HQ k0 k Hk. done. Qed.

Lemma keeps_read {A} (f : kernel -> outcome A) Q :
  (forall k, static_ok k -> f k = OutOfFuel -> tiny_key) ->
  (forall k a, static_ok k -> f k = Ret a -> Q a) -> keeps (read_k f) Q.
Proof.
  intros Hf HQ k0. apply hoare_read; [intros k [??]; by apply Hf| |done].
  intros k a [Hs ?] E. split; [done|]. by eapply HQ.
Qed.

Lemma keeps_lift {A} (o : outcome A) Q :
  (o = OutOfFuel -> tiny_key) -> (forall a, o = Ret a -> Q a) -> keeps (st_lift o) Q.
Proof. intros Ho HQ. apply (keeps_read (fun _ => o)); auto. Qed.

Lemma keeps_modify (g : kernel -> kernel) :
  (forall k, static_ok k -> static_ok (g k) /\ frame k (g k)) -> keeps (st_modify g) any.
Proof.
  intros Hg k0. apply hoare_modify. intros k [Hs Hf]. destruct (Hg k Hs) as [Hs' Hf'].
  split; [|done]. split; [done|]. by eapply frame_trans.
Qed.

Lemma keeps_any {A} (m : ST kernel A) Q : keeps m Q -> keeps m any.
Proof. intros Hm k0. eapply hoare_conseq; [exact (Hm k0)|auto| |auto]. intros a k [??]. by split. Qed.

#[local] Hint Resolve keeps_ret : hoare.

(** Tasks that are no sends. *)
Lemma keeps_post ts :
  Forall task_ok ts -> omap sendto_id ts = [] -> (forall i, omap (posted_at i) ts = []) ->
  keeps (io_post ts) any.
Proof.
  intros Hts Hid Hq. apply keeps_modify. intros k [Ht Hks Hr Hi Htk Hp]. split.
  - split; simpl; try done; try (by apply nodes_insert). by apply Forall_app.
  - unfold frame, held, queued. simpl. split_and!; try done.
    + by rewrite omap_app, Hid, app_nil_r.
    + intros i. by rewrite omap_app, Hq, app_nil_r.
Qed.

Lemma keeps_get_if i : keeps (get_if i) avif_ok.
Proof.
  apply keeps_read.
  - intros k _. by destruct (ifs k !! i).
  - intros k a Hk. destruct (ifs k !! i) eqn:E; [|done]. intros [= <-].
    by apply (ok_ifs k Hk i).
Qed.

Lemma keeps_ask_ifname i : keeps (ask_ifname i) any.
Proof. intros k0 k [[] Hf]. split; [|done]. split; [by split|done]. Qed.

Lemma keeps_deref_node_eq nd : keeps (deref_node nd) (eq (node_if nd)).
Proof. apply keeps_read; [intros k _|intros k a _]; case_match; try done. by intros [= <-]. Qed.

Lemma keeps_deref_node nd : keeps (deref_node nd) any.
Proof. eapply keeps_any, keeps_deref_node_eq. Qed.

Lemma keeps_deref_eq {A} (o : option A) : keeps (st_lift (deref o)) (fun a => o = Some a).
Proof. apply keeps_lift; destruct o; try done. by intros a' [= <-]. Qed.

Lemma keeps_deref {A} (o : option A) : keeps (st_lift (deref o)) any.
Proof. eapply keeps_any, keeps_deref_eq. Qed.

(** ** Operations on a write queue *)

Lemma pop_tasks_ok i (ps : list (@posted write_request nat Empty_set)) :
  Forall request_ok (delivered ps) -> Forall default_on_error ps ->
  let ts := ps ≫= pop_task i in
  Forall task_ok ts /\ omap sendto_id ts = [] /\ omap (posted_at i) ts = omap snd (delivered ps) /\
  forall j, j <> i -> omap (posted_at j) ts = [].
Proof.
  intros Hd Hf. induction Hf as [|p ps Hp Hf IH]; [done|].
  destruct p as [h ec v|[]]. simpl in Hp.
  assert (Hcase : (ec = ec_success /\ delivered (PostPop h ec v :: ps) = v :: delivered ps) \/
    (failed ec = true /\ v.2 = None /\ delivered (PostPop h ec v :: ps) = delivered ps)).
  { destruct Hp as [->| ->]; [by left|]. destruct ec; [by left|by right..]. }
  destruct Hcase as [[-> E]|(Hec & Hv & E)]; rewrite E in *.
  - inversion Hd as [|? ? Hv Hd']; subst. destruct (IH Hd') as (H1' & H2' & H3' & H4').
    destruct v as [pkt [id|]]; simpl.
    + rewrite decide_True by done. split_and!; [by constructor|done|by f_equal|].
      intros j Hj. rewrite decide_False by done. by apply H4'.
    + split_and!; [by constructor|exact H2'|exact H3'|exact H4'].
  - destruct (IH Hd) as (H1' & H2' & H3' & H4'). destruct v as [pkt o]. simpl in Hv. subst o.
    split_and!; [|exact H2'|exact H3'|exact H4']. constructor; [by simpl; rewrite Hec|done].
Qed.

(** What an operation of the queue adds to the requests of its interface. *)
Definition adds (o : @qop write_request nat Empty_set) : list nat := omap snd (pushed [o]).

(** The state after [with_queue i (run_op o)], in terms of the state before. *)
Lemma with_queue_run i o k k' u :
  static_ok k -> Forall request_ok (pushed [o]) -> with_queue i (run_op o) k = (Ret u, k') ->
  static_ok k' /\ postprocess_list k' = postprocess_list k /\ sends k' = sends k /\
  held k' = held k /\ next_op k' = next_op k /\
  queued i k' ≡ₚ adds o ++ queued i k /\ (forall j, j <> i -> queued j k' = queued j k).
Proof.
  intros Hs Hreq. unfold with_queue, st_bind at 1, get_if, read_k.
  destruct (ifs k !! i) as [a|] eqn:Ea; [|done]. cbn [deref].
  destruct (ok_ifs k Hs i a Ea) as [Hq Hl Hw].
  destruct (run_op_ok o (write_queue a) Hq) as ([q' ps] & Er & Hq'). simpl in Hq'.
  unfold st_bind at 1, st_lift. rewrite Er. intros [= _ <-].
  pose proof (run_op_fifo o _ _ _ Hq Er) as Hfifo.
  assert (Hall : Forall request_ok (delivered ps ++ m_list q'))
    by (rewrite <-Hfifo; by apply Forall_app).
  apply Forall_app in Hall as [Hd Hl'].
  destruct (pop_tasks_ok i ps Hd (run_op_default o _ _ _ Hq Er)) as (Ht1 & Ht2 & Ht3 & Ht4).
  split.
  { destruct Hs. split; simpl; try done; try (by apply nodes_insert).
    - apply map_Forall_insert_2; [by split|done].
    - by apply Forall_app. }
  split_and!; [done|done| |done|..].
  - unfold held. simpl. by rewrite omap_app, Ht2, app_nil_r.
  - unfold queued, requests, adds. simpl. rewrite lookup_insert_eq, Ea. simpl.
    rewrite omap_app, Ht3.
    assert (Hh : omap snd (m_list (write_queue a)) ++ omap snd (pushed [o]) =
                 omap snd (delivered ps) ++ omap snd (m_list q')) by (by rewrite <-!omap_app, Hfifo).
    rewrite (Permutation_app_comm (omap (posted_at i) (tasks k))), !app_assoc.
    rewrite (Permutation_app_comm _ (omap snd (delivered ps))), !app_assoc, <-Hh.
    by rewrite (Permutation_app_comm _ (omap snd (pushed [o]))).
  - intros j Hj. unfold queued. simpl. rewrite lookup_insert_ne by done.
    by rewrite omap_app, Ht4, app_nil_r.
Qed.

Lemma with_queue_total i o k :
  static_ok k -> with_queue i (run_op o) k = (UB, k) \/ exists k', with_queue i (run_op o) k = (Ret tt, k').
Proof.
  intros Hs. destruct (with_queue i (run_op o) k) as [u k'] eqn:E. revert E.
  unfold with_queue, st_bind at 1, get_if, read_k.
  destruct (ifs k !! i) as [a|] eqn:Ea; cbn [deref]; [|intros [= <- <-]; by left].
  destruct (run_op_ok o (write_queue a) (wq_ok a (ok_ifs k Hs i a Ea))) as (r & Er & _).
  unfold st_bind at 1, st_lift. rewrite Er. intros [= <- <-]. right. by eexists.
Qed.

Lemma write_total i pkt handler k :
  static_ok k -> async_interface_write_packet i pkt handler k = (UB, k) \/
    exists k', async_interface_write_packet i pkt handler k = (Ret tt, k').
Proof. apply (with_queue_total i (OPush (pkt, handler))). Qed.

Lemma keeps_queue i o :
  Forall request_ok (pushed [o]) -> adds o = [] -> keeps (with_queue i (run_op o)) any.
Proof.
  intros Hreq Ho k0 k [Hs Hf]. destruct (with_queue_total i o k Hs) as [->|[k' E]]; [done|].
  rewrite E. destruct (with_queue_run i o k k' tt Hs Hreq E) as (Hs' & Hp & Hsd & Hh & Hn & Hq & Hq').
  split; [|done]. split; [done|]. eapply frame_trans; [done|]. split_and!; try done.
  intros j. destruct (decide (j = i)) as [->|Hj]; [by rewrite Hq, Ho|by rewrite Hq'].
Qed.

Lemma keeps_write i pkt :
  1 <= time_to_live pkt -> keeps (async_interface_write_packet i pkt None) any.
Proof. intros Httl. by apply (keeps_queue i (OPush (pkt, None))); [repeat constructor|]. Qed.

(** ** Updates of an interface that keep its requests *)

Lemma keeps_with_if {B} i (f : avif_state -> ST kernel B) R :
  (forall a, avif_ok a -> forall k0, triple (fun k => (static_ok k /\ frame k0 k) /\ ifs k !! i = Some a)
     (f a) (fun b k => (static_ok k /\ frame k0 k) /\ R b) (fun k => static_ok k /\ frame k0 k)) ->
  keeps (st_bind (get_if i) f) R.
Proof.
  intros Hf k0 k [Hs Hfr]. unfold st_bind, get_if, read_k.
  destruct (ifs k !! i) as [a|] eqn:E; [|done]. cbn [deref].
  by apply (Hf a (ok_ifs k Hs i a E) k0 k).
Qed.

Lemma set_if_frame i a a' k :
  static_ok k -> ifs k !! i = Some a -> avif_ok a' -> requests a' ≡ₚ requests a ->
  static_ok (set_ifs (<[i := a']> (ifs k)) k) /\ frame k (set_ifs (<[i := a']> (ifs k)) k).
Proof.
  intros [] E Ha' Hr. split.
  - split; simpl; try done; try (by apply nodes_insert). by apply map_Forall_insert_2.
  - split_and!; try done. intros j. unfold queued. simpl.
    destruct (decide (j = i)) as [->|Hj].
    + by rewrite lookup_insert_eq, E, Hr.
    + by rewrite lookup_insert_ne.
Qed.

Lemma set_if_step {B} i a a' k0 (m : ST kernel B) R :
  avif_ok a' -> requests a' ≡ₚ requests a -> keeps m R ->
  triple (fun k => (static_ok k /\ frame k0 k) /\ ifs k !! i = Some a) (set_if i a' ;;- m)
    (fun b k => (static_ok k /\ frame k0 k) /\ R b) (fun k => static_ok k /\ frame k0 k).
Proof.
  intros Ha' Hr Hm. apply (hoare_bind _ _ _ _ (fun _ k => static_ok k /\ frame k0 k)); [|intros ?; apply Hm].
  apply hoare_modify. intros k [[Hs Hf] E].
  destruct (set_if_frame i a a' k Hs E Ha' Hr) as [Hs' Hf']. split; [done|].
  by eapply frame_trans.
Qed.

Lemma keeps_if_drop {B} i a k0 (m : ST kernel B) R :
  keeps m R ->
  triple (fun k => (static_ok k /\ frame k0 k) /\ ifs k !! i = Some a) m
    (fun b k => (static_ok k /\ frame k0 k) /\ R b) (fun k => static_ok k /\ frame k0 k).
Proof. intros Hm. eapply hoare_pre; [apply Hm|]. by intros k [??]. Qed.

(** ** The calls that only read, and the packets of the key exchange *)

Lemma address_fuel s : av_address_from_string s <> OutOfFuel.
Proof. unfold av_address_from_string. repeat case_match; done. Qed.

Lemma keeps_address s : keeps (st_lift (av_address_from_string s)) any.
Proof. apply keeps_lift; [|done]. intros E. by destruct (address_fuel s). Qed.

Lemma is_to_me_fuel addr l : is_to_me_in addr l <> OutOfFuel.
Proof.
  induction l as [|[name nd] l IH]; simpl; [done|].
  destruct (if_address (node_if nd)); simpl; [|done]. by case_match.
Qed.

Lemma keeps_is_to_me addr : keeps (is_to_me addr) any.
Proof. apply keeps_read; [|done]. intros k _ E. by apply is_to_me_fuel in E. Qed.

Lemma keeps_select_route address : keeps (kernel_select_route address) any.
Proof.
  eapply (keeps_bind _ _ any); [|intros; by apply keeps_ret].
  apply keeps_read; [|done]. intros k Hk E.
  destruct (select_route_total address (table k) (ok_table k Hk)) as [o Ho]. congruence.
Qed.

Definition peer_option (o : option RSA) : Prop := forall key, o = Some key -> peer_key key.

Lemma find_peer address st o :
  peer_store st -> find_RSA_pubkey address st = Ret o -> peer_option o.
Proof.
  intros Hst. unfold find_RSA_pubkey. destruct (st !! address) as [item|] eqn:E; [|by intros [= <-] key].
  specialize (Hst address item E). simpl in Hst. destruct (keys item) as [|k ks]; [done|].
  intros [= <-] key [= <-]. by inversion Hst.
Qed.

Lemma add_peer address key until st :
  peer_key key -> peer_store st -> peer_store (add_RSA_pubkey address key until st).
Proof.
  intros Hk Hst. unfold add_RSA_pubkey. apply map_Forall_insert_2; [|done]. simpl.
  rewrite std_sort_perm by apply key_lt_strict. apply Forall_app. split; [|by repeat constructor].
  destruct (st !! address) as [item|] eqn:E; [by apply (Hst address item)|constructor].
Qed.

Lemma purge_peer now st st' : peer_store st -> purged now st st' -> peer_store st'.
Proof.
  intros Hst [_ Hp] a item' Ha. destruct (Hp a item' Ha) as (item & E & Hsub).
  specialize (Hst a item E). simpl in *. rewrite Forall_forall in *. auto.
Qed.

Lemma keeps_find_key address : keeps (kernel_find_key address) peer_option.
Proof.
  apply keeps_read.
  - intros k _. unfold find_RSA_pubkey. by repeat case_match.
  - intros k o Hk. by apply find_peer, ok_peers.
Qed.

Lemma keeps_add_key address key until :
  peer_key key -> keeps (kernel_add_key address key until) any.
Proof.
  intros Hkey. apply keeps_modify. intros k []. split; [|done].
  split; simpl; try done; try (by apply nodes_insert).
  - by apply add_RSA_pubkey_ok.
  - by apply add_peer.
Qed.

Lemma keeps_encrypt r from : peer_key r -> keeps (st_lift (RSA_public_encrypt r from)) any.
Proof.
  intros Hr. apply keeps_lift; [|done]. intros E%(RSA_loops_end r from). left. by exists r.
Qed.

Lemma keeps_sign i r from :
  get_rsa_key i = Some r -> keeps (st_lift (RSA_private_encrypt r from)) any.
Proof.
  intros Hr. apply keeps_lift; [|done]. intros E%(RSA_loops_end r from). right. by exists i, r.
Qed.

Lemma keeps_verify r from : keeps (st_lift (RSA_public_decrypt r from)) any.
Proof. apply keeps_lift; [|done]. intros E. by apply (RSA_loops_end r from) in E. Qed.

Lemma keeps_decrypt r from : keeps (st_lift (RSA_private_decrypt r from)) any.
Proof. apply keeps_lift; [|done]. intros E. by apply (RSA_loops_end r from) in E. Qed.

Ltac keeps_step :=
  first
    [ apply keeps_deref | apply keeps_deref_node | apply keeps_address | apply keeps_is_to_me
    | apply keeps_select_route
    | apply keeps_verify | apply keeps_decrypt
    | apply keeps_ask_ifname | apply keeps_write; simpl; lia
    | by apply keeps_ret
    | eapply (keeps_bind _ _ any); [|intros ? _] ].

Lemma keeps_pkask i target : keeps (async_send_agmp_pkask i target) any.
Proof. unfold async_send_agmp_pkask. repeat keeps_step. Qed.

Lemma keeps_pkreply i target : keeps (async_send_agmp_pkreply i target) any.
Proof. unfold async_send_agmp_pkreply. repeat keeps_step. Qed.

(** ** Received packets *)

Lemma recv_task_ok ps :
  let ts := ps ≫= recv_task in
  Forall task_ok ts /\ omap sendto_id ts = [] /\ forall i, omap (posted_at i) ts = [].
Proof.
  induction ps as [|[? ? ?|[]] ps (IH1 & IH2 & IH3)]; simpl; [done|]. by split_and!; [constructor|..].
Qed.

Lemma keeps_set_recv rb : queue_ok rb -> keeps (st_modify (set_recv rb)) any.
Proof. intros Hq. apply keeps_modify. intros k []. split; [|done]. by split. Qed.

Lemma keeps_push_recv v : keeps (push_recv v) any.
Proof.
  eapply (keeps_bind _ _ (fun r => queue_ok r.1)).
  { apply keeps_read; intros k; [intros Hk|intros r Hk]; rewrite push_eq by apply Hk; [done|].
    intros [= <-]. apply push_spec_ok, Hk. }
  intros r Hr. apply keeps_seq; [by apply keeps_set_recv|].
  apply keeps_post; apply recv_task_ok.
Qed.

Lemma keeps_to_me now pkt i :
  peer_packet pkt -> keeps (process_recived_packet_to_me now pkt i) any.
Proof.
  intros [_ Hcert]. unfold process_recived_packet_to_me. case_match; [apply keeps_pkreply|].
  case_match.
  { eapply keeps_bind; [apply keeps_deref_eq|intros crt Hcrt].
    eapply keeps_bind; [apply keeps_deref_eq|intros pkey Hpkey].
    eapply keeps_bind; [apply keeps_deref_eq|intros key Hkey].
    apply keeps_add_key, Hcert. unfold cert_key. by rewrite Hcrt, Hpkey. }
  eapply (keeps_bind _ _ any).
  - destruct (payload pkt); repeat keeps_step.
  - intros data _. case_match; [apply keeps_push_recv|by apply keeps_ret].
Qed.

Lemma keeps_forward pkt : keeps (forward_packet pkt) any.
Proof.
  unfold forward_packet. destruct (Z.leb_spec (time_to_live pkt) 1); [by apply keeps_ret|].
  keeps_step; [keeps_step|]. destruct a; repeat keeps_step.
Qed.

Lemma keeps_learn_key now pkt : peer_packet pkt -> keeps (learn_key now pkt) any.
Proof.
  intros [Hpk _]. unfold learn_key. eapply keeps_bind; [apply keeps_find_key|]. intros a _.
  destruct a, (publickey pkt); try keeps_step. by apply keeps_add_key, Hpk.
Qed.

(** ** The coroutines of an interface *)

Lemma keeps_writer i : keeps (interface_writer i) any.
Proof.
  eapply keeps_bind; [apply keeps_get_if|]. intros a _.
  destruct (quitting a); [by apply keeps_ret|]. by apply (keeps_queue i (OPop i)).
Qed.

Lemma keeps_runner_exit i : keeps (runner_exit i) any.
Proof.
  apply keeps_seq; [by apply (keeps_queue i OCancel)|].
  eapply (keeps_bind _ _ any); [apply keeps_ask_ifname|]. intros name _.
  intros k0 k [Hs Hf]. unfold st_bind, read_k. rewrite remove_interface_eq. simpl.
  pose proof (remove_interface_ok name (table k) _ (ok_table k Hs) (remove_interface_eq _ _)) as Ht.
  split; [|done]. split; [|by eapply frame_trans]. destruct Hs. split; simpl; try done.
  by apply map_Forall_delete.
Qed.

Lemma keeps_runner i : keeps (interface_runner i) any.
Proof.
  apply keeps_with_if. intros a [] k0.
  destruct (quitting a); [apply keeps_if_drop, keeps_runner_exit|].
  apply (set_if_step i a _ k0 (st_ret tt)); [by split|done|by apply keeps_ret].
Qed.

(** ** Running a send

    [ready id ws k]: the coroutine [id] may run, [ws] being the other waiters.
    [resumed k ws new k']: it ran from [k] to [k'] and registered [new]. *)
Definition ready (id : nat) (ws : list waiter) (k : kernel) : Prop :=
  sends_ok (fun j => j <> id) ws k /\ ids_ok k /\ (id ∉ held k) /\ (id < next_op k)%nat.

Definition resumed (k : kernel) (ws new : list waiter) (k' : kernel) : Prop :=
  static_ok k' /\ postprocess_list k' = postprocess_list k ++ new /\
  sends_ok (fun _ => True) (ws ++ new) k' /\ ids_ok k'.

Lemma sends_ok_frame P ws k0 k : frame k0 k -> sends_ok P ws k0 -> sends_ok P ws k.
Proof.
  intros (_ & Hs & _ & _ & Hq) [H1' H2' H3' H4' H5' H6'].
  split; rewrite ?Hs; try done; intros i; setoid_rewrite Hq; auto.
Qed.

Lemma ids_ok_frame k0 k : frame k0 k -> ids_ok k0 -> ids_ok k.
Proof. intros (_ & Hs & Hh & Hn & _). unfold ids_ok. by rewrite Hs, Hh, Hn. Qed.

Lemma ready_frame id ws k0 k : frame k0 k -> ready id ws k0 -> ready id ws k.
Proof.
  intros Hf (Hw & Hids & Hid & Hlt). pose proof Hf as (_ & _ & Hh & Hn & _). split_and!.
  - by eapply sends_ok_frame.
  - by eapply ids_ok_frame.
  - by rewrite Hh.
  - by rewrite Hn.
Qed.

Lemma kernel_ok_frame k0 k : kernel_ok k0 -> static_ok k -> frame k0 k -> kernel_ok k.
Proof.
  intros (_ & Hw & Hi) Hs Hf. split_and!; [done| |by eapply ids_ok_frame].
  destruct Hf as [Hp Hf]. rewrite Hp. by apply (sends_ok_frame _ _ k0).
Qed.

(** The three ways a run ends: completed, suspended for its packet, suspended
    for the key. *)
Section ends.
Variables (id : nat) (ws : list waiter) (k : kernel).
Hypothesis Hready : ready id ws k.

Lemma sends_ok_finish ec :
  sends_ok (fun _ => True) ws (add_log (SendDone id ec) (set_sends (delete id (sends k)) k)).
Proof.
  destruct Hready as [[H1' H2' H3' H4' H5' H6'] _]. split; simpl; try done; try (by apply nodes_insert).
  - intros w Hw. destruct (H2' w Hw) as (Hne & op & i & Hop & Hrest). split; [done|].
    exists op, i. by rewrite lookup_delete_ne.
  - intros j op i _ [Hne Hj]%lookup_delete_Some Hst. by eapply H3'.
  - intros i j Hj. destruct (H5' i j Hj) as (Hne & op & Hop & Hrest). split; [done|].
    exists op. by rewrite lookup_delete_ne.
  - intros i j _ (op & [Hne Hj]%lookup_delete_Some & Hrest). apply H6'; [done|]. by exists op.
Qed.

Lemma sends_ok_write op k' :
  sends k' = <[id := op]> (sends k) -> s_stage op = WaitWrite ->
  queued (node_if (s_interface op)) k' ≡ₚ id :: queued (node_if (s_interface op)) k ->
  (forall j, j <> node_if (s_interface op) -> queued j k' = queued j k) ->
  sends_ok (fun _ => True) ws k'.
Proof.
  intros Hs Hst Hq Hq'. destruct Hready as [[H1' H2' H3' H4' H5' H6'] _].
  assert (Hnew : forall i, id ∉ queued i k) by (intros i Hin; by destruct (H5' i id Hin)).
  assert (Hin : forall i j, j ∈ queued i k' <->
    (j = id /\ i = node_if (s_interface op)) \/ j ∈ queued i k).
  { intros i j. destruct (decide (i = node_if (s_interface op))) as [->|Hi].
    - rewrite Hq, elem_of_cons. tauto.
    - rewrite Hq' by done. tauto. }
  split; rewrite ?Hs; try done.
  - intros w Hw. destruct (H2' w Hw) as (Hne & op' & i & Hop & Hrest). split; [done|].
    exists op', i. by rewrite lookup_insert_ne.
  - intros j op' i _ [[<- <-]|[Hne Hj]]%lookup_insert_Some Hst'; [congruence|]. by eapply H3'.
  - intros i. destruct (decide (i = node_if (s_interface op))) as [->|Hi].
    + rewrite Hq. by constructor.
    + by rewrite Hq'.
  - intros i j [[-> ->]|Hj]%Hin; split; try done.
    + exists op. by rewrite lookup_insert_eq.
    + destruct (H5' i j Hj) as (Hne & op' & Hop & Hrest). exists op'. by rewrite lookup_insert_ne.
  - intros i j _ (op' & [[<- <-]|[Hne Hj]]%lookup_insert_Some & Hrest); apply Hin.
    + left. by destruct Hrest.
    + right. apply H6'; [done|]. by exists op'.
Qed.

Lemma sends_ok_key op i w k' :
  sends k' = <[id := op]> (sends k) -> s_stage op = WaitKey i ->
  w_op w = id -> pred_target w = s_target op -> (forall j, queued j k' = queued j k) ->
  sends_ok (fun _ => True) (ws ++ [w]) k'.
Proof.
  intros Hs Hst Hid Htg Hq. destruct Hready as [[H1' H2' H3' H4' H5' H6'] _].
  assert (Hnew : id ∉ (w_op <$> ws)).
  { intros (w' & -> & Hw')%list_elem_of_fmap. by destruct (H2' w' Hw'). }
  split; rewrite ?Hs; setoid_rewrite Hq || idtac; try done.
  - rewrite fmap_app. apply NoDup_app. split_and!; [done| |apply NoDup_singleton].
    intros x Hx ->%list_elem_of_singleton. by rewrite Hid in Hx.
  - intros w' [Hw'| ->%list_elem_of_singleton]%elem_of_app; split; try done.
    + destruct (H2' w' Hw') as (Hne & op' & j & Hop & Hrest). exists op', j. by rewrite lookup_insert_ne.
    + exists op, i. by rewrite Hid, lookup_insert_eq.
  - intros j op' i' _ Hj Hst'. rewrite fmap_app, elem_of_app.
    apply lookup_insert_Some in Hj as [[<- <-]|[Hne Hj]].
    + right. rewrite <-Hid. by left.
    + left. by eapply H3'.
  - intros j j' Hj. destruct (H5' j j' Hj) as (Hne & op' & Hop & Hrest). split; [done|].
    exists op'. by rewrite lookup_insert_ne.
  - intros j j' _ (op' & [[<- <-]|[Hne Hj]]%lookup_insert_Some & Hst' & Hif); [congruence|].
    apply H6'; [done|]. by exists op'.
Qed.

Lemma finish_ids ec : ids_ok (add_log (SendDone id ec) (set_sends (delete id (sends k)) k)).
Proof.
  destruct Hready as (_ & (Hnd & Hid & Hlt) & Hnew & Hn).
  assert (Hh : held (add_log (SendDone id ec) (set_sends (delete id (sends k)) k)) = held k ++ [id]).
  { unfold held. simpl. by rewrite omap_app, app_assoc. }
  split_and!; rewrite ?Hh; simpl.
  - apply NoDup_app. split_and!; [done| |apply NoDup_singleton].
    intros x Hx ->%list_elem_of_singleton. done.
  - intros j [Hj| ->%list_elem_of_singleton]%elem_of_app; [|by rewrite lookup_delete_eq].
    destruct (Hid j Hj) as [Hj0 ?]. split; [|done]. rewrite lookup_delete_None. by right.
  - intros j [op Hj]. apply Hlt. apply lookup_delete_Some in Hj as [_ Hj]. by exists op.
Qed.

Lemma suspend_ids op k' :
  sends k' = <[id := op]> (sends k) -> held k' = held k -> next_op k' = next_op k -> ids_ok k'.
Proof.
  destruct Hready as (_ & (Hnd & Hid & Hlt) & Hnew & Hn).
  intros Hs Hh Hop. unfold ids_ok. rewrite Hs, Hh, Hop. split_and!; [done| |].
  - intros j Hj. rewrite lookup_insert_ne by (intros ->; done). by apply Hid.
  - intros j. destruct (decide (j = id)) as [->|]; [done|]. rewrite lookup_insert_ne by done.
    apply Hlt.
Qed.
End ends.

Lemma finish_send_ok id ec ws k k' :
  ready id ws k -> static_ok k -> (finish_send id ec k).2 = k' -> resumed k ws [] k'.
Proof.
  intros Hr Hs <-. split_and!; rewrite ?app_nil_r; [|done|by apply sends_ok_finish|by eapply finish_ids].
  destruct Hs. by split.
Qed.

(** Registering a waiter and suspending for the key. *)
Lemma suspend_key_ok id op i d ws k :
  ready id ws k -> static_ok k ->
  let w := {| deadline := d; pred_target := s_target op; w_op := id |} in
  resumed k ws [w] (suspend_send id op (WaitKey i)
    (async_wait_processed_packet d (s_target op) id k).2).2.
Proof.
  intros Hr Hs w. split_and!; [destruct Hs; by split|done| |].
  - by eapply (sends_ok_key id ws k Hr _ i w).
  - by eapply (suspend_ids id ws k Hr).
Qed.

(** Queueing the packet and suspending for it. *)
Lemma suspend_write_ok id op pkt ws k k1 :
  ready id ws k -> static_ok k -> 1 <= time_to_live pkt ->
  async_interface_write_packet (node_if (s_interface op)) pkt (Some id) k = (Ret tt, k1) ->
  resumed k ws [] (suspend_send id op WaitWrite k1).2.
Proof.
  intros Hr Hs Httl E.
  destruct (with_queue_run (node_if (s_interface op)) (OPush (pkt, Some id)) k k1 tt Hs) as
    (Hs' & Hp & Hsd & Hh & Hn & Hq & Hq'); [by repeat constructor|exact E|].
  split_and!; rewrite ?app_nil_r; [destruct Hs'; by split|done| |].
  - eapply (sends_ok_write id ws k Hr); [simpl; by rewrite Hsd|done|exact Hq|exact Hq'].
  - eapply (suspend_ids id ws k Hr); [simpl; by rewrite Hsd|exact Hh|exact Hn].
Qed.

Lemma resumed_frame k0 k ws new k' : frame k0 k -> resumed k ws new k' -> resumed k0 ws new k'.
Proof. intros [Hp _] (Hs & Hp' & Hw & Hi). split_and!; [done|by rewrite Hp', Hp|done..]. Qed.

(** Code that leaves the sends alone, before code that runs a send. *)
Lemma keeps_then {A B} (m : ST kernel A) (f : A -> ST kernel B) Q k0 R :
  keeps m Q ->
  (forall a, Q a -> triple (fun k => static_ok k /\ frame k0 k) (f a) R (fun _ => True)) ->
  triple (fun k => static_ok k /\ frame k0 k) (st_bind m f) R (fun _ => True).
Proof.
  intros Hm Hf. eapply hoare_bind.
  - eapply hoare_conseq; [exact (Hm k0)|auto|intros a s Hs; exact Hs|done].
  - intros a k [Hk HQ]. by apply (Hf a HQ).
Qed.

Lemma finish_triple id ec ws k0 :
  ready id ws k0 ->
  triple (fun k => static_ok k /\ frame k0 k) (finish_send id ec) (fun _ => resumed k0 ws [])
    (fun _ => True).
Proof.
  intros Hr. apply hoare_modify. intros k [Hs Hf]. eapply resumed_frame; [done|].
  eapply (finish_send_ok id ec); [by eapply ready_frame|done|done].
Qed.

Lemma ask_round_ok now id op i ws k0 :
  ready id ws k0 ->
  triple (fun k => static_ok k /\ frame k0 k) (ask_round now id op i)
    (fun _ k' => exists new, resumed k0 ws new k' /\
       (length new <= 1)%nat /\ Forall (fun w => deadline w = now + seconds 8) new)
    (fun _ => True).
Proof.
  intros Hr. unfold ask_round. destruct (i <? 3).
  - eapply keeps_then; [apply keeps_deref_node|]. intros ifc _.
    eapply keeps_then; [apply keeps_pkask|]. intros ? _ k [Hs Hf].
    eexists. split.
    { eapply resumed_frame; [done|]. apply suspend_key_ok; [by eapply ready_frame|done]. }
    split; [simpl; lia|]. by constructor.
  - eapply hoare_conseq; [by apply finish_triple|done| |done].
    intros ? k Hk. exists []. split_and!; [done|simpl; lia|constructor].
Qed.

Lemma send_packet_ok id op key ws k0 :
  peer_key key -> ready id ws k0 ->
  triple (fun k => static_ok k /\ frame k0 k) (send_packet id op key) (fun _ => resumed k0 ws [])
    (fun _ => True).
Proof.
  intros Hkey Hr. unfold send_packet.
  eapply keeps_then; [by apply keeps_encrypt|intros ? _].
  eapply keeps_then; [apply keeps_deref_node_eq|intros ? <-].
  eapply keeps_then; [apply keeps_deref_eq|intros mine Hmine].
  eapply keeps_then; [exact (keeps_sign _ _ _ Hmine)|intros ? _].
  do 2 (eapply keeps_then; [keeps_step|intros ? _]).
  intros k [Hs Hf]. unfold st_bind.
  match goal with |- context [async_interface_write_packet ?i ?p ?h k] =>
    destruct (write_total i p h k Hs) as [->|[k1 E]]; [done|rewrite E] end.
  eapply resumed_frame; [done|].
  eapply suspend_write_ok; [by eapply ready_frame|done| |exact E]. simpl. lia.
Qed.

Lemma async_sendto_op_ok now id target data ws k0 :
  ready id ws k0 ->
  triple (fun k => static_ok k /\ frame k0 k) (async_sendto_op now id target data)
    (fun _ k' => exists new, resumed k0 ws new k') (fun _ => True).
Proof.
  intros Hr. unfold async_sendto_op. eapply keeps_then; [keeps_step|]. intros [nd|] _.
  - eapply keeps_then; [apply keeps_find_key|]. intros [key|] Hkey.
    + eapply hoare_conseq; [apply send_packet_ok; [by apply Hkey|done]|done| |done]. intros ? k Hk. by exists [].
    + eapply hoare_conseq; [by apply ask_round_ok|done| |done]. intros ? k (new & Hk & _).
      by exists new.
  - eapply hoare_conseq; [by apply finish_triple|done| |done]. intros ? k Hk. by exists [].
Qed.

(** A suspended send, resumed in the state [k]; it registers again only if the
    key is still missing. *)
Definition resume_post (now : Z) (op : send_op) (ws : list waiter) (k k' : kernel) : Prop :=
  exists new, resumed k ws new k' /\ (length new <= 1)%nat /\
    Forall (fun w => deadline w = now + seconds 8) new /\
    (forall key, find_RSA_pubkey (s_target op) (trusted_pubkey k) = Ret (Some key) -> new = []).

Lemma resume_send_ok now id ec op ws k :
  static_ok k -> sends k !! id = Some op -> ready id ws k ->
  triple (eq k) (resume_send now id ec) (fun _ => resume_post now op ws k) (fun _ => True).
Proof.
  intros Hs Hop Hr.
  assert (Hk : static_ok k /\ frame k k) by done.
  intros k1 <-. unfold resume_send, st_bind at 1, read_k at 1. rewrite Hop. cbn [deref].
  destruct (s_stage op) as [i|].
  - unfold st_bind at 1, kernel_find_key at 1, read_k at 1.
    destruct (find_RSA_pubkey (s_target op) (trusted_pubkey k)) as [[key|]|e| | |] eqn:E; try done.
    + eapply (hoare_conseq _ (eq k)); [apply (send_packet_ok id op key ws k)| | |done|done].
      * by apply (find_peer _ _ _ (ok_peers k Hs) E).
      * done.
      * by intros ? <-.
      * intros ? k' Hk'. exists []. split_and!; [done|simpl; lia|constructor|done].
    + eapply (hoare_conseq _ (eq k)); [by apply (ask_round_ok now id op (i + 1) ws k)| | |done|done].
      * by intros ? <-.
      * intros ? k' (new & Hk' & Hn & Hd). exists new. split_and!; [done..|congruence].
    + unfold find_RSA_pubkey in E. by repeat case_match.
  - exists []. split_and!; [by eapply finish_send_ok|simpl; lia|constructor|done].
Qed.

(** ** The loops over the waiters *)

(** A suspended send may run once what held it is gone. *)
Lemma ready_waiter k it w :
  kernel_ok k -> postprocess_list k !! it = Some w ->
  ready (w_op w) (delete it (postprocess_list k)) k /\
  exists op, sends k !! w_op w = Some op /\ s_target op = pred_target w.
Proof.
  intros (Hs & [H1' H2' H3' H4' H5' H6'] & Hids) Hw.
  pose proof (delete_Permutation _ _ _ Hw) as Hp.
  destruct (H2' w (list_elem_of_lookup_2 _ _ _ Hw)) as (_ & op & i & Hop & Hst & Htg).
  split; [|by exists op].
  rewrite Hp in H1'. apply NoDup_cons in H1' as [Hn Hnd]. split_and!; [split|done|..].
  - done.
  - intros w' Hw'. split.
    + intros E. apply Hn. rewrite <-E. by apply list_elem_of_fmap_2.
    + apply H2'. rewrite Hp. by right.
  - intros id op' i' Hne Hid Hst'. assert (Hin : id ∈ (w_op <$> postprocess_list k)) by eauto.
    rewrite Hp in Hin. by apply elem_of_cons in Hin as [|].
  - done.
  - intros j id Hid. destruct (H5' j id Hid) as [_ Hww]. split; [|done]. intros ->.
    destruct Hww as (op' & Hop' & Hst' & _). congruence.
  - intros j id _ Hid. by apply H6'.
  - intros Hin. apply Hids in Hin as [? _]. congruence.
  - apply Hids. eauto.
Qed.

Lemma ready_written k k1 i id :
  kernel_ok k -> static_ok k1 -> sends k1 = sends k -> held k1 = held k -> next_op k1 = next_op k ->
  postprocess_list k1 = postprocess_list k ->
  queued i k ≡ₚ id :: queued i k1 -> (forall j, j <> i -> queued j k1 = queued j k) ->
  ready id (postprocess_list k1) k1 /\ exists op, sends k1 !! id = Some op.
Proof.
  intros (Hs & [H1' H2' H3' H4' H5' H6'] & Hids) Hs1 Esd Eh En Ep Hqi Hqj.
  destruct (H5' i id) as (_ & op & Hop & Hst & Hif); [rewrite Hqi; by left|].
  assert (Hin : forall j x, x ∈ queued j k <-> (x = id /\ j = i) \/ x ∈ queued j k1).
  { intros j x. destruct (decide (j = i)) as [->|Hj].
    - rewrite Hqi, elem_of_cons. tauto.
    - rewrite Hqj by done. tauto. }
  assert (Hni : NoDup (id :: queued i k1)) by (rewrite <-Hqi; done).
  apply NoDup_cons in Hni as [Hnew Hnd].
  rewrite Esd, Ep. split; [|by exists op]. split_and!; [split|..]; rewrite ?Esd, ?Eh, ?En; try done.
  - intros w Hw. destruct (H2' w Hw) as (_ & op' & j & Hop' & Hst' & Htg). split; [congruence|].
    by exists op', j.
  - intros x op' j _. by apply H3'.
  - intros j. destruct (decide (j = i)) as [->|Hj]; [done|]. by rewrite Hqj.
  - intros j x Hx. destruct (H5' j x) as [_ Hww]; [apply Hin; by right|]. split; [|done].
    intros ->. destruct (decide (j = i)) as [->|Hj]; [done|].
    destruct Hww as (op' & Hop' & _ & Hif'). congruence.
  - intros j x Hne Hx. by apply H6', Hin in Hx as [[? _]|].
  - unfold ids_ok. rewrite Esd, Eh, En. apply Hids.
  - intros Hx. apply Hids in Hx as [? _]. congruence.
  - apply Hids. eauto.
Qed.

Lemma kernel_ok_set_post ws k :
  static_ok k -> sends_ok (fun _ => True) ws k -> ids_ok k -> kernel_ok (set_post ws k).
Proof. intros [] [] Hi. split_and!; [by split|by split|apply Hi]. Qed.

Section wake.
Variables (now : Z) (test : waiter -> kernel -> outcome bool) (hot : waiter -> bool).
Hypothesis test_ends : forall w k, test w k <> OutOfFuel.
(** A waiter that is woken is hot, and what it registers anew is not: either no
    new deadline is, or the key it waited for is there and it registers nothing. *)
Hypothesis test_hot : forall w k, test w k = Ret true -> hot w = true /\
  ((forall w', deadline w' = now + seconds 8 -> hot w' = false) \/
   exists key, find_RSA_pubkey (pred_target w) (trusted_pubkey k) = Ret (Some key)).

(** The iterations left: each visit passes a waiter or cools one. *)
Definition visits (rest : list waiter) : nat :=
  length rest + length (filter (fun w => hot w = true) rest).

Lemma visits_cons w rest :
  visits (w :: rest) = S (if hot w then S (visits rest) else visits rest).
Proof.
  unfold visits. destruct (hot w) eqn:E.
  - rewrite filter_cons_True by done. simpl. lia.
  - by rewrite filter_cons_False by congruence.
Qed.

Lemma visits_app rest new :
  (visits (rest ++ new) = visits rest + visits new)%nat.
Proof. unfold visits. rewrite filter_app, !length_app. lia. Qed.

Lemma visits_new w k new :
  test w k = Ret true -> (length new <= 1)%nat -> Forall (fun w => deadline w = now + seconds 8) new ->
  (forall key, find_RSA_pubkey (pred_target w) (trusted_pubkey k) = Ret (Some key) -> new = []) ->
  hot w = true /\ (visits new <= 1)%nat.
Proof.
  intros Ht Hn Hd Hk. destruct (test_hot w k Ht) as [Hw [Hcool|[key Hkey]]]; split; try done.
  - destruct new as [|w' [|]]; [unfold visits; simpl; lia| |simpl in Hn; lia].
    inversion Hd; subst. rewrite visits_cons, Hcool by done. unfold visits. simpl. lia.
  - rewrite (Hk key Hkey). unfold visits. simpl. lia.
Qed.

Lemma wake_loop_ok fuel ec it :
  triple (fun k => kernel_ok k /\ (visits (drop it (postprocess_list k)) < fuel)%nat)
    (wake_loop fuel now Post test ec it) (fun _ => kernel_ok) (fun _ => True).
Proof.
  revert it. induction fuel as [|fuel IH]; intros it k [Hk Hf]; [lia|].
  cbn [wake_loop]. unfold st_bind at 1, st_get at 1. cbn [waiters].
  destruct (postprocess_list k !! it) as [w|] eqn:E; [|done].
  unfold st_bind at 1, st_lift at 1. pose proof (test_ends w k) as Hte.
  destruct (test w k) as [[]| | | |] eqn:Et; try done.
  2:{ apply IH. split; [done|]. rewrite (drop_S _ _ _ E), visits_cons in Hf. case_match; lia. }
  destruct (ready_waiter k it w Hk E) as (Hr & op & Hop & Htg).
  pose proof (resume_send_ok now (w_op w) ec op _ k (proj1 Hk) Hop Hr k eq_refl) as Hres.
  unfold st_bind at 1. destruct (resume_send now (w_op w) ec k) as [[[]| | | |] k']; try done.
  destruct Hres as (new & (Hs' & Hp' & Hws & Hids) & Hn & Hd & Hkey). rewrite Htg in Hkey.
  destruct (visits_new w k new Et Hn Hd Hkey) as [Hhot Hv].
  pose proof (lookup_lt_Some _ _ _ E) as Hit.
  unfold st_bind at 1, st_modify at 1. cbn [waiters set_waiters_of].
  assert (Hdel : delete it (postprocess_list k') = delete it (postprocess_list k) ++ new).
  { rewrite Hp'. rewrite !delete_take_drop, take_app_le, drop_app_le by lia. by rewrite app_assoc. }
  rewrite Hdel. apply IH. split; [by apply kernel_ok_set_post|]. simpl.
  rewrite (drop_S _ _ _ E), visits_cons, Hhot in Hf.
  rewrite delete_take_drop, <-app_assoc, drop_app_ge by (rewrite length_take; lia).
  rewrite length_take, Nat.min_l, Nat.sub_diag, drop_0, visits_app by lia. lia.
Qed.

Lemma wake_post_ok ec : triple kernel_ok (wake now Post test ec) (fun _ => kernel_ok) (fun _ => True).
Proof.
  intros k Hk. unfold wake, st_bind at 1, st_get at 1. apply wake_loop_ok. split; [done|].
  rewrite drop_0. cbn [waiters]. unfold visits.
  pose proof (length_filter (fun w => hot w = true) (postprocess_list k)). lia.
Qed.
End wake.

(** The list of the preprocess waiters is always empty. *)
Lemma wake_pre_nil now test ec k : static_ok k -> wake now Pre test ec k = (Ret tt, k).
Proof.
  intros Hs. unfold wake, st_bind at 1, st_get at 1. cbn [waiters]. rewrite (ok_pre k Hs).
  cbn [length Nat.mul wake_loop]. unfold st_bind, st_get. cbn [waiters].
  by rewrite (ok_pre k Hs).
Qed.

(** ** Received packets and the timer *)

Lemma keeps_ok {A} (m : ST kernel A) Q :
  keeps m Q -> triple kernel_ok m (fun _ => kernel_ok) kernel_ok.
Proof.
  intros Hm k Hk. specialize (Hm k k (conj (proj1 Hk) (frame_refl k))).
  destruct (m k) as [[a| | | |] k']; try done.
  - destruct Hm as [[Hs Hf] _]. by eapply kernel_ok_frame.
  - destruct Hm as [Hs Hf]. by eapply kernel_ok_frame.
Qed.

Lemma keeps_body now pkt i :
  peer_packet pkt -> keeps (learn_key now pkt ;;-
    let* me := is_to_me (dest pkt) in
    if me then process_recived_packet_to_me now pkt i else forward_packet pkt) any.
Proof.
  intros Hp. apply keeps_seq; [by apply keeps_learn_key|]. keeps_step; [keeps_step|].
  destruct a; [by apply keeps_to_me|apply keeps_forward].
Qed.

Lemma wake_packet_ok now pkt ec :
  triple kernel_ok (wake now Post (pred pkt) ec) (fun _ => kernel_ok) (fun _ => True).
Proof.
  apply (wake_post_ok now (pred pkt)
    (fun w => String.eqb (av_address_to_string (src pkt)) (pred_target w))).
  - intros w k. unfold pred, find_RSA_pubkey. by repeat case_match.
  - intros w k. unfold pred. destruct (String.eqb _ _); [|done]. intros E. split; [done|]. right.
    destruct (find_RSA_pubkey _ _) as [[key|]| | | |]; try done. by exists key.
Qed.

Lemma wake_timer_ok now ec :
  triple kernel_ok (wake now Post (expired now) ec) (fun _ => kernel_ok) (fun _ => True).
Proof.
  apply (wake_post_ok now (expired now) (fun w => deadline w <? now)).
  - done.
  - intros w k [= ->]. split; [done|]. left. intros w' ->. unfold seconds. apply Z.ltb_ge. lia.
Qed.

Lemma process_ok now pkt i :
  peer_packet pkt -> triple kernel_ok (process_recived_packet now pkt i) (fun _ => kernel_ok) (fun _ => True).
Proof.
  intros Hp. eapply hoare_scope_exit; [by eapply keeps_ok, keeps_body|].
  eapply hoare_conseq; [apply wake_packet_ok|done| |done]. by intros [] k Hk.
Qed.

Lemma with_timers_ok q t1 t2 k : kernel_ok k -> kernel_ok (with_timers q t1 t2 k).
Proof. intros Hk. eapply kernel_ok_frame; [done| |done]. destruct (proj1 Hk). by split. Qed.

Lemma timer1_ok now ec :
  triple kernel_ok (timer1_tick now ec) (fun _ => kernel_ok) (fun _ => True).
Proof.
  eapply (hoare_bind _ _ _ _ (fun _ => kernel_ok)).
  { apply hoare_modify. intros k Hk. case_match; [done|]. by apply with_timers_ok. }
  intros _. eapply (hoare_bind _ _ _ _ (fun _ => kernel_ok)); [apply wake_timer_ok|].
  intros _ k Hk. by rewrite wake_pre_nil by apply Hk.
Qed.

Lemma purge_no_fuel now iter (st : gmap string AVdbitem) : purge_loop now iter st <> OutOfFuel.
Proof. by destruct (purge_loop_outcome now iter st) as [->|[? ->]]. Qed.

Lemma timer2_ok now ec :
  triple kernel_ok (timer2_tick now ec) (fun _ => kernel_ok) (fun _ => True).
Proof.
  eapply (hoare_bind _ _ _ _ (fun _ => kernel_ok)).
  { apply hoare_modify. intros k Hk. case_match; [done|]. by apply with_timers_ok. }
  intros _. eapply hoare_conseq; [eapply (keeps_ok _ any)|done..].
  eapply (keeps_bind _ _ (fun ks => keystore_ok ks /\ peer_store ks)).
  - apply keeps_read; [intros k _ E; by apply purge_no_fuel in E|].
    intros k st Hk E. apply (purge_loop_safe now _ _ _ (ok_keys k Hk)) in E as [? Hp].
    split; [done|]. by eapply purge_peer, Hp; apply ok_peers.
  - intros ks [Hks Hp]. apply keeps_modify. intros k []. split; [|done]. by split.
Qed.

(** ** Tasks *)

Section run_task.
Variables (n : nat) (t : task) (k : kernel).
Hypothesis Hk : kernel_ok k.
Hypothesis Ht : tasks k !! n = Some t.
Let k1 := set_tasks (delete n (tasks k)) k.

Lemma run_static : static_ok k1 /\ task_ok t.
Proof.
  destruct Hk as [[] _]. rewrite (delete_Permutation _ _ _ Ht) in ok_tasks0.
  apply Forall_cons in ok_tasks0 as [Htk HF]. split; [by split|done].
Qed.

(** A task that holds no send. *)
Lemma run_other : sendto_id t = None -> (forall i, posted_at i t = None) -> kernel_ok k1.
Proof.
  intros Hs Hp. eapply kernel_ok_frame; [done|apply run_static|]. split_and!; try done.
  - unfold held. simpl. by rewrite (omap_delete_None _ _ _ _ Ht).
  - intros i. unfold queued. simpl. by rewrite (omap_delete_None _ _ _ _ Ht).
Qed.

Lemma run_sendto id target data :
  t = TSendto id target data -> ready id (postprocess_list k1) k1.
Proof.
  intros Et. pose proof Ht as Ht'. rewrite Et in Ht'. destruct Hk as (_ & Hs & Hnd & Hid & Hlt).
  assert (Hh : held k ≡ₚ id :: held k1) by (unfold held; by rewrite (omap_delete _ _ _ _ Ht')).
  assert (Hin : id ∈ held k) by (rewrite Hh; by left). destruct (Hid id Hin) as [Hnone Hn].
  rewrite Hh in Hnd. apply NoDup_cons in Hnd as [Hni Hnd].
  assert (Hq : forall i, queued i k1 = queued i k).
  { intros i. unfold queued. simpl. by rewrite (omap_delete_None _ _ _ _ Ht'). }
  assert (Hne : forall j op, sends k !! j = Some op -> j <> id) by (intros j op Hj ->; congruence).
  destruct Hs as [H1' H2' H3' H4' H5' H6'].
  split_and!; [split|split_and!|done|done]; try setoid_rewrite Hq; try done.
  - intros w Hw. destruct (H2' w Hw) as (_ & op & i & Hop & Hrest). split; [by eapply Hne|].
    by exists op, i.
  - intros j op i _. apply H3'. done.
  - intros i j Hj. destruct (H5' i j Hj) as (_ & op & Hop & Hrest). split; [by eapply Hne|].
    by exists op.
  - intros i j _. by apply H6'.
  - intros j Hj. apply Hid. rewrite Hh. by right.
Qed.

Lemma run_writer_pop i ec v :
  t = TWriterPop i ec v ->
  match writer_popped i ec v k1 with (Ret _, k') => kernel_ok k' | (OutOfFuel, _) => False | _ => True end.
Proof.
  intros Et. pose proof Ht as Ht'. rewrite Et in Ht'.
  destruct run_static as [Hs Htk]. rewrite Et in Htk. simpl in Htk. unfold writer_popped.
  destruct (failed ec) eqn:Ef.
  { destruct v as [pkt o]. simpl in Htk. subst o. by apply run_other; rewrite Et. }
  unfold st_bind, get_if, read_k. destruct (ifs k1 !! i) as [a|] eqn:Ea; [|done]. cbn [deref].
  destruct (ok_ifs k1 Hs i a Ea) as [Hq Hl Hw]. simpl.
  eapply kernel_ok_frame; [done| |].
  { destruct Hs. split; simpl; try done; try (by apply nodes_insert). apply map_Forall_insert_2; [|done].
    split; simpl; [done..|]. apply Forall_app. split; [done|]. by constructor. }
  split_and!; try done.
  { unfold held. simpl. by rewrite (omap_delete_None _ _ _ _ Ht'). }
  change (ifs k1) with (ifs k) in *. destruct v as [pkt o].
  intros j. unfold queued. simpl. rewrite (omap_delete (posted_at j) _ _ _ Ht'). simpl.
  destruct (decide (j = i)) as [->|Hj].
  - rewrite lookup_insert_eq, Ea. unfold requests. simpl. rewrite omap_app.
    destruct o as [id|]; simpl; [|by rewrite app_nil_r].
    rewrite decide_True by done. simpl. by rewrite app_assoc, <-(app_assoc _ [id]).
  - rewrite lookup_insert_ne by done. destruct o as [id|]; [|done].
    by rewrite decide_False.
Qed.
End run_task.

Lemma resumed_kernel_ok k new k' : resumed k (postprocess_list k) new k' -> kernel_ok k'.
Proof. intros (Hs & Hp & Hw & Hi). rewrite <-Hp in Hw. done. Qed.

Lemma run_task_ok now n t k :
  kernel_ok k -> tasks k !! n = Some t ->
  match run_task now t (set_tasks (delete n (tasks k)) k) with
  | (Ret _, k') => kernel_ok k' | (OutOfFuel, _) => tiny_key | _ => True end.
Proof.
  intros Hk Ht. pose proof (run_other n t k Hk Ht) as Hother.
  destruct (run_static n t k Hk Ht) as [Hs1 Htk].
  destruct t as [pkt i|i|i|id target data|id|i ec v|id ec v]; simpl.
  - apply process_ok; [done|]. by apply Hother.
  - assert (Hg := keeps_ok _ any (keeps_runner i) _ (Hother eq_refl (fun _ => eq_refl))).
    by destruct (interface_runner _ _) as [[]].
  - assert (Hg := keeps_ok _ any (keeps_writer i) _ (Hother eq_refl (fun _ => eq_refl))).
    by destruct (interface_writer _ _) as [[]].
  - pose proof (run_sendto n _ k Hk Ht id target data eq_refl) as Hr.
    pose proof (async_sendto_op_ok now id target data _ _ Hr _ (conj Hs1 (frame_refl _))) as Hres.
    destruct (async_sendto_op _ _ _ _ _) as [[]]; try done.
    destruct Hres as [new Hres]. by eapply resumed_kernel_ok.
  - eapply kernel_ok_frame; [by apply Hother|..].
    + destruct Hs1. pose proof (recv_task_ok (async_pop_impl id (m_recv_buffer k)).2) as (? & _).
      split; simpl; try done; try (by apply nodes_insert); [|by apply Forall_app].
      pose proof (run_op_ok (OPop id) (m_recv_buffer k) ok_recv0) as (r & [= <-] & Hr). done.
    + pose proof (recv_task_ok (async_pop_impl id (m_recv_buffer k)).2) as (_ & E1 & E2).
      split_and!; try done.
      * unfold held. simpl. by rewrite omap_app, E1, app_nil_r.
      * intros j. unfold queued. simpl. by rewrite omap_app, E2, app_nil_r.
  - pose proof (run_writer_pop n _ k Hk Ht i ec v eq_refl). by destruct (writer_popped _ _ _ _) as [[]].
  - eapply kernel_ok_frame; [by apply Hother|destruct Hs1; by split|].
    split_and!; try done. unfold held. simpl. by rewrite omap_app, app_nil_r.
Qed.

(** ** The other events *)

Lemma writer_wrote_ok now i n ec :
  triple kernel_ok (writer_wrote now i n ec) (fun _ => kernel_ok) (fun _ => True).
Proof.
  intros k Hk. unfold writer_wrote, st_bind at 1, get_if, read_k.
  destruct (ifs k !! i) as [a|] eqn:Ea; [|done]. cbn [deref].
  destruct (writing a !! n) as [[pkt h]|] eqn:Ew; [|done].
  destruct (ok_ifs k (proj1 Hk) i a Ea) as [Hq Hl Hw].
  set (a' := set_writing (delete n (writing a)) a).
  assert (Ha' : avif_ok a').
  { split; simpl; [done..|]. rewrite (delete_Permutation _ _ _ Ew) in Hw. by inversion Hw. }
  assert (Hreq : requests a ≡ₚ option_list h ++ requests a').
  { unfold requests. simpl. rewrite (omap_delete snd _ _ _ Ew). simpl.
    rewrite !app_assoc. by rewrite (Permutation_app_comm _ (option_list h)). }
  unfold st_bind at 1, set_if, st_modify. set (k1 := set_ifs _ k).
  destruct h as [id|].
  2:{ destruct (set_if_frame i a a' k (proj1 Hk) Ea Ha') as [Hs1 Hf1]; [by rewrite Hreq|].
      pose proof (keeps_ok _ any (keeps_writer i) _ (kernel_ok_frame k k1 Hk Hs1 Hf1)) as Hres.
      unfold st_bind, st_ret. by destruct (interface_writer i k1) as [[]]. }
  assert (Hs1 : static_ok k1).
  { destruct (proj1 Hk). split; simpl; try done; try (by apply nodes_insert). by apply map_Forall_insert_2. }
  assert (Hqi : queued i k ≡ₚ id :: queued i k1).
  { unfold queued. simpl. rewrite lookup_insert_eq, Ea, Hreq. done. }
  assert (Hqj : forall j, j <> i -> queued j k1 = queued j k).
  { intros j Hj. unfold queued. simpl. by rewrite lookup_insert_ne. }
  destruct (ready_written k k1 i id Hk Hs1 eq_refl eq_refl eq_refl eq_refl Hqi Hqj) as (Hr & op & Hop).
  pose proof (resume_send_ok now id ec op _ k1 Hs1 Hop Hr k1 eq_refl) as Hres.
  unfold st_bind. destruct (resume_send now id ec k1) as [[[]| | | |] k2]; try done.
  destruct Hres as (new & Hres & _). apply resumed_kernel_ok in Hres.
  pose proof (keeps_ok _ any (keeps_writer i) _ Hres) as Hwr.
  by destruct (interface_writer i k2) as [[]].
Qed.

Lemma keeps_runner_read now i avpkt :
  peer_event (ERead i avpkt now) -> keeps (runner_read now i avpkt) any.
Proof.
  intros Hp. apply keeps_with_if. intros a [] k0. destruct (reading a) as [|n]; [apply keeps_if_drop; by apply keeps_ret|].
  apply set_if_step; [by split|done|]. apply keeps_seq; [|apply keeps_runner].
  destruct avpkt as [pkt|].
  - apply keeps_seq; [|apply keeps_post; [by constructor|done..]].
    intros k1 k [Hs Hf]. by rewrite wake_pre_nil.
  - apply keeps_with_if. intros a' [] k1.
    apply (set_if_step i a' _ k1 (st_ret tt)); [by split|done|by apply keeps_ret].
Qed.

Lemma insert_interface_nodes name nd k :
  static_ok k -> is_Some (ifs k !! node_if nd) ->
  static_ok (set_table (insert_interface name nd (table k)) k).
Proof.
  intros [] Hnd. split; simpl; try done; [by apply insert_interface_ok|].
  unfold insert_interface. case_match; [done|]. simpl. by apply map_Forall_insert_2.
Qed.

(** Code that asks for names keeps the interfaces. *)
Lemma add_interface_ok i k :
  kernel_ok k -> is_Some (ifs k !! i) ->
  match add_interface i k with (Ret _, k') => kernel_ok k' | (OutOfFuel, _) => False | _ => True end.
Proof.
  intros Hk Hi. unfold add_interface, st_bind, ask_ifname, st_lift, read_k. cbn [fst snd].
  destruct (remote_address i); [|done]. cbn [deref st_modify io_post].
  eapply kernel_ok_frame; [exact Hk| |].
  - pose proof (insert_interface_nodes (get_ifname i (S (names_asked k)))
      {| node_id := next_node k; node_if := i |} k (proj1 Hk) Hi) as [].
    split; simpl; try done. apply Forall_app. split; [done|]. by repeat constructor.
  - split_and!; try done.
    + unfold held. simpl. by rewrite omap_app, app_nil_r.
    + intros j. unfold queued. simpl. by rewrite omap_app, app_nil_r.
Qed.

Lemma keeps_add_route target gw name m : keeps (kernel_add_route target gw name m) any.
Proof.
  intros k0 k [Hs Hf]. unfold kernel_add_route, st_bind, read_k, st_modify, st_ret.
  destruct (add_route target gw name m (table k)) as [[b t]| | | |] eqn:E; try done.
  - split; [|done]. split; [|by eapply frame_trans].
    pose proof (add_route_ok _ _ _ _ _ _ _ (ok_table k Hs) E) as Ht.
    assert (Ha : m_avifs t = m_avifs (table k)).
    { unfold add_route in E. inv_bind. repeat case_match; by simplify_eq. }
    destruct Hs. split; simpl; try done. by rewrite Ha.
  - exfalso. revert E. unfold add_route, cassert. repeat (case_match; simpl); done.
Qed.

Lemma new_op_ids k : ids_ok k -> (next_op k ∉ held k) /\ sends k !! next_op k = None.
Proof.
  intros (_ & Hid & Hlt). split.
  - intros Hin. apply Hid in Hin as [_ ?]. lia.
  - destruct (sends k !! next_op k) eqn:E; [|done]. specialize (Hlt (next_op k)). rewrite E in Hlt.
    assert (next_op k < next_op k)%nat by (apply Hlt; eauto). lia.
Qed.

Lemma async_sendto_ok target data k :
  kernel_ok k -> kernel_ok (async_sendto target data k).2.
Proof.
  intros (Hs & Hw & Hids). pose proof (new_op_ids k Hids) as [Hnew Hnone].
  destruct Hids as (Hnd & Hid & Hlt). set (k' := (async_sendto target data k).2).
  assert (Hh : held k' ≡ₚ next_op k :: held k).
  { unfold held. simpl. rewrite omap_app. simpl. rewrite <-Permutation_middle. by rewrite app_nil_r. }
  assert (Hq : forall i, queued i k' = queued i k).
  { intros i. unfold queued. simpl. by rewrite omap_app, app_nil_r. }
  split_and!.
  - destruct Hs. split; simpl; try done; try (by apply nodes_insert). apply Forall_app. split; [done|]. by repeat constructor.
  - destruct Hw. split; try done; intros i; rewrite Hq; auto.
  - split_and!.
    + rewrite Hh. by constructor.
    + intros id Hin. rewrite Hh in Hin. simpl. apply elem_of_cons in Hin as [->|Hin]; [split; [done|lia]|]. destruct (Hid id Hin). split; [done|lia].
    + simpl. intros id Hin. specialize (Hlt id Hin). lia.
Qed.

Lemma async_recvfrom_ok k : kernel_ok k -> kernel_ok (async_recvfrom k).2.
Proof.
  intros (Hs & Hw & Hnd & Hid & Hlt). set (k' := (async_recvfrom k).2).
  assert (Hh : held k' = held k) by (unfold held; simpl; by rewrite omap_app, app_nil_r).
  assert (Hq : forall i, queued i k' = queued i k).
  { intros i. unfold queued. simpl. by rewrite omap_app, app_nil_r. }
  split_and!.
  - destruct Hs. split; simpl; try done; try (by apply nodes_insert). apply Forall_app. split; [done|]. by repeat constructor.
  - destruct Hw. split; try done; intros i; rewrite Hq; auto.
  - unfold ids_ok. rewrite Hh. simpl. split_and!; [done| |].
    + intros id Hin. destruct (Hid id Hin). split; [done|lia].
    + intros id Hin. specialize (Hlt id Hin). lia.
Qed.

Lemma construct_ok i k :
  kernel_ok k -> ifs k !! i = None -> kernel_ok (set_ifs (<[i := construct]> (ifs k)) k).
Proof.
  intros Hk E. eapply kernel_ok_frame; [done|..].
  - destruct (proj1 Hk). split; simpl; try done; try (by apply nodes_insert). apply map_Forall_insert_2; [|done].
    split; simpl; [apply empty_queue_ok|constructor..].
  - split_and!; try done. intros j. unfold queued. simpl.
    destruct (decide (j = i)) as [->|Hj]; [by rewrite lookup_insert_eq, E|by rewrite lookup_insert_ne].
Qed.

Lemma step_ok e : peer_event e -> triple kernel_ok (step e) (fun _ => kernel_ok) (fun _ => True).
Proof.
  intros He. assert (Hkeep : forall A (m : ST kernel A),
    keeps m any -> triple kernel_ok (let* _ := m in st_ret tt) (fun _ => kernel_ok) (fun _ => True)).
  { intros A m Hm. eapply hoare_conseq; [apply (keeps_ok _ any)|done..].
    eapply keeps_bind; [done|]. intros a _. by apply keeps_ret. }
  destruct e as [i|i|target gw name m|target data| | |n now|i avpkt now|i n ec now|ec now|ec now];
    cbn [step].
  - apply hoare_modify. intros k Hk. destruct (ifs k !! i) eqn:E; [done|]. by apply construct_ok.
  - intros k Hk. destruct (ifs k !! i) eqn:E; [|done].
    pose proof (add_interface_ok i k Hk (ex_intro _ _ E)).
    unfold st_bind. by destruct (add_interface i k) as [[]].
  - apply Hkeep, keeps_add_route.
  - intros k Hk. by apply (async_sendto_ok target data).
  - intros k Hk. by apply async_recvfrom_ok.
  - apply hoare_modify. intros k Hk. by apply with_timers_ok.
  - intros k Hk. destruct (tasks k !! n) as [t|] eqn:E; [|done].
    pose proof (run_task_ok now n t k Hk E). by destruct (run_task _ _ _) as [[]].
  - eapply hoare_conseq; [by apply (keeps_ok _ any), keeps_runner_read|done..].
  - apply writer_wrote_ok.
  - intros k Hk. destruct (timer1_armed k); [|done]. by apply timer1_ok, with_timers_ok.
  - intros k Hk. destruct (timer2_armed k); [|done]. by apply timer2_ok, with_timers_ok.
Qed.

Lemma init_ok : kernel_ok init_kernel.
Proof.
  split_and!; [split|split|split_and!]; simpl; try done.
  - apply empty_rtable_ok.
  - apply empty_queue_ok.
  - constructor.
  - by intros w ?%elem_of_nil.
  - intros i. constructor.
  - by intros i id ?%elem_of_nil.
  - by intros i id _ (op & ? & _).
  - constructor.
  - by intros id ?%elem_of_nil.
  - by intros id [? ?].
Qed.

Lemma run_events_ok es :
  Forall peer_event es -> triple kernel_ok (run_events es) (fun _ => kernel_ok) (fun _ => True).
Proof.
  induction 1 as [|e es He _ IH]; cbn [run_events]; [by apply hoare_ret|].
  eapply hoare_bind; [by apply step_ok|]. intros ?. apply IH.
Qed.
End invariant.

Section reachable.
Context `{Build} `{OpenSSL} `{BoostRegex} `{StdSort} `{!AvifImpl H0} `{!StdSortLaws H2}.

(** With nothing assumed of the peers. *)
Lemma peer_event_all e : peer_event e.
Proof. by destruct e as [| | | | | | |? [] ?| | |]. Qed.

Lemma reach_ok es k u : run_events es init_kernel = (Ret u, k) -> kernel_ok k.
Proof.
  intros E. pose proof (run_events_ok es (Forall_true _ _ peer_event_all) _ init_ok) as Hk.
  by rewrite E in Hk.
Qed.

Lemma step_kernel_ok e k u k' : kernel_ok k -> step e k = (Ret u, k') -> kernel_ok k'.
Proof.
  intros Hk E. pose proof (step_ok e (peer_event_all e) k Hk) as Hs. by rewrite E in Hs.
Qed.

(** C6: every state the kernel reaches, by any interleaving of API calls,
    reads, writes, timer ticks and posted tasks, is well-formed: the routing
    table is sorted and names known interfaces, every stored address has keys
    sorted by expiry, values and handlers never wait together in a queue, and
    every suspended send is held in one place that agrees with its stage. *)
Theorem kernel_invariant es k u :
  run_events es init_kernel = (Ret u, k) ->
  rtable_ok (table k) /\ keystore_ok (trusted_pubkey k) /\ queue_ok (m_recv_buffer k) /\
  (forall i a, ifs k !! i = Some a -> queue_ok (write_queue a)) /\
  preprocess_list k = [] /\ sends_ok (fun _ => True) (postprocess_list k) k.
Proof.
  intros E. destruct (reach_ok _ _ _ E) as ([] & Hw & _). split_and!; try done.
  intros i a Ha. by apply (ok_ifs0 i a).
Qed.

(** C23: no loop of the kernel runs forever, the loops over the waiters included,
    although the handlers they call append to the list they walk, and every
    event is handled within the fuel of the model, provided that neither an
    interface nor a packet that is read -- by its public key or by its
    certificate -- brings a key with an 11-byte modulus (with one, encryption
    does loop forever). *)
Theorem kernel_terminates es :
  (forall i r, get_rsa_key i = Some r -> RSA_size r <> RSA_PKCS1_PADDING_SIZE) ->
  Forall (peer_event (PeerKeys0 := fun r => RSA_size r <> RSA_PKCS1_PADDING_SIZE)) es ->
  (run_events es init_kernel).1 <> OutOfFuel.
Proof.
  intros Hmine Hes E. pose proof (run_events_ok es Hes _ init_ok) as Hk.
  destruct (run_events es init_kernel) as [o k]. simpl in E. rewrite E in Hk.
  destruct Hk as [(r & Hr & Ht)|(i & r & Hr & Ht)]; [done|by apply (Hmine i r)].
Qed.

(** C7: a send's handler is called at most once, never while the send is
    suspended; and a suspended send is never lost: waiting for a key it is in
    the list of waiters exactly once and in no queue, waiting for its packet it
    is exactly once in the queue of its interface and nowhere else. *)
Theorem sends_complete_once es k u :
  run_events es init_kernel = (Ret u, k) ->
  NoDup (omap send_done (log k)) /\ NoDup (w_op <$> postprocess_list k) /\
  (forall i, NoDup (queued i k)) /\
  forall id op, sends k !! id = Some op ->
    (id ∉ omap send_done (log k)) /\
    match s_stage op with
    | WaitKey _ => id ∈ (w_op <$> postprocess_list k) /\ forall i, id ∉ queued i k
    | WaitWrite => (id ∉ (w_op <$> postprocess_list k)) /\
        forall i, id ∈ queued i k <-> i = node_if (s_interface op)
    end.
Proof.
  intros E. destruct (reach_ok _ _ _ E) as (_ & [H1' H2' H3' H4' H5' H6'] & Hnd & Hid & _).
  split_and!; [by apply NoDup_app in Hnd as (_ & _ & ?)|done..|]. intros id op Hop. split.
  { intros Hin. destruct (Hid id) as [? _]; [|congruence]. unfold held. apply elem_of_app. by right. }
  destruct (s_stage op) as [r|] eqn:Est; split.
  - by eapply H3'.
  - intros i Hin. destruct (H5' i id Hin) as (_ & op' & Hop' & Hst' & _). congruence.
  - intros (w & -> & Hw)%list_elem_of_fmap. destruct (H2' w Hw) as (_ & op' & r & Hop' & Hst' & _).
    congruence.
  - intros i. split.
    + intros Hin. destruct (H5' i id Hin) as (_ & op' & Hop' & _ & Hif). congruence.
    + intros ->. apply H6'; [done|]. by exists op.
Qed.

(** No packet is queued or written with an exhausted ttl: each one in a
    write queue or in the hands of a writer has a ttl of at least 1. *)
Theorem queued_ttl_positive es k u i a :
  run_events es init_kernel = (Ret u, k) -> ifs k !! i = Some a ->
  Forall request_ok (m_list (write_queue a) ++ writing a).
Proof.
  intros E Ha. destruct (reach_ok _ _ _ E) as (Hs & _).
  destruct (ok_ifs k Hs i a Ha). by apply Forall_app.
Qed.
End reachable.
