(* ===== verification/Flow.v ===== *)
(** * Flow: packets through an interface, and sends coming to an end

    What [interface_writer] (avkernel.cpp) promises: the packets given to an
    interface with one writer leave it in the order they were given, and an
    interface that is not shutting down always has a writer to take them, so a
    send that was queued does not stay queued once the io_service is idle. *)

From S2P Require Import Prelude StdSort OpenSSL RsaChunk Regex Address CoroQueue Routing KeyStore Avif Kernel Effects Mailbox Hoare KernelInv.

Ltac flow_simpl := cbn [fst snd write_queue set_write_queue writing quitting m_handlers m_list
  set_handlers set_list set_waiters pop_task mbind list_bind app omap list_omap length failed].

Section flow.
Context `{Build} `{OpenSSL} `{BoostRegex} `{StdSort} `{!AvifImpl H0}.

(** ** The view of one interface *)

(** A writer coroutine that has not started, or that a posted completion of
    [async_pop] will resume. *)
Definition writer_task (i : nat) (t : task) : option unit :=
  match t with
  | TWriter j | TWriterPop j _ _ => if decide (j = i) then Some tt else None
  | _ => None
  end.
Definition carried (i : nat) (t : task) : option write_request :=
  match t with
  | TWriterPop j ec v => if failed ec then None else if decide (j = i) then Some v else None
  | _ => None
  end.

(** The writer coroutines of interface [i], and the packets given to it that
    were not written yet, the next one to be written first. *)
Definition writers (i : nat) (k : kernel) : nat :=
  match ifs k !! i with
  | Some a => length (m_handlers (write_queue a)) + length (writing a) | None => 0
  end + length (omap (writer_task i) (tasks k)).
Definition pending (i : nat) (k : kernel) : list write_request :=
  match ifs k !! i with
  | Some a => writing a ++ omap (carried i) (tasks k) ++ m_list (write_queue a)
  | None => omap (carried i) (tasks k)
  end.

Definition is_quitting (i : nat) (k : kernel) : Prop :=
  exists a, ifs k !! i = Some a /\ quitting a = true.

(** [busy] is the interface whose writer is running, if any. *)
Section busy.
Variable busy : option nat.

Definition attended (i : nat) (k : kernel) : Prop :=
  is_quitting i k \/ (0 < writers i k)%nat \/ busy = Some i.

(** Completions with an error come only after the interface started quitting. *)
Definition flow_task (k : kernel) (t : task) : Prop :=
  match t with TWriterPop i ec _ => failed ec = true -> is_quitting i k | _ => True end.

Record flow_ok (k : kernel) : Prop := {
  fl_live : map_Forall (fun _ a => all_live (write_queue a)) (ifs k);
  fl_tasks : Forall (flow_task k) (tasks k);
  fl_table i : in_table i k -> attended i k;
  fl_sends id op : sends k !! id = Some op -> attended (node_if (s_interface op)) k
}.

(** Steps that only add packets at the end. *)
Record flows (k k' : kernel) : Prop := {
  fs_ok : flow_ok k -> flow_ok k';
  fs_pending i : exists new, pending i k' = pending i k ++ new;
  fs_writers i : writers i k' = writers i k;
  fs_quitting i : is_quitting i k -> is_quitting i k'
}.

#[export] Instance flows_order : PreOrder flows.
Proof.
  split.
  - intros k. split; try done. intros i. exists []. by rewrite app_nil_r.
  - intros k1 k2 k3 [O1 P1 W1 Q1] [O2 P2 W2 Q2]. split; [auto| |intros i; congruence|auto].
    intros i. destruct (P1 i) as [n1 E1], (P2 i) as [n2 E2]. exists (n1 ++ n2).
    by rewrite E2, E1, app_assoc.
Qed.

Lemma flows_attended i k k' : flows k k' -> attended i k -> attended i k'.
Proof. intros [_ _ W Q] [Hq|Hw]; [left; auto|right; by rewrite W]. Qed.

(** Steps that leave the interfaces and their writers alone. *)
Definition no_writer (t : task) : Prop :=
  match t with TWriter _ | TWriterPop _ _ _ => False | _ => True end.

Lemma no_writer_view ts i :
  Forall no_writer ts -> omap (writer_task i) ts = [] /\ omap (carried i) ts = [].
Proof.
  induction 1 as [|t ts Ht _ [E1 E2]]; [done|]. destruct t; try done; split; simpl; done.
Qed.

Lemma flows_same ts k k' :
  ifs k' = ifs k -> tasks k' = tasks k ++ ts -> Forall no_writer ts ->
  (forall i, in_table i k' -> in_table i k) ->
  (flow_ok k -> forall id op, sends k' !! id = Some op -> attended (node_if (s_interface op)) k) ->
  flows k k'.
Proof.
  intros Hi Ht Hts Htab Hs.
  assert (Hv : forall i, omap (writer_task i) (tasks k') = omap (writer_task i) (tasks k) /\
                         omap (carried i) (tasks k') = omap (carried i) (tasks k)).
  { intros i. destruct (no_writer_view ts i Hts) as [E1 E2]. by rewrite Ht, !omap_app, E1, E2, !app_nil_r. }
  assert (Hw : forall i, writers i k' = writers i k)
    by (intros i; unfold writers; by rewrite Hi, (proj1 (Hv i))).
  assert (Hq : forall i, is_quitting i k' <-> is_quitting i k) by (intros i; unfold is_quitting; by rewrite Hi).
  assert (Ha : forall i, attended i k' <-> attended i k) by (intros i; unfold attended; by rewrite Hw, Hq).
  split; [| |done|intros i; apply Hq].
  - intros Hok. pose proof (Hs Hok) as Hs'. destruct Hok as [Hl HF Hta Hse]. split.
    + by rewrite Hi.
    + rewrite Ht. apply Forall_app. split.
      * eapply Forall_impl; [exact HF|]. intros t. unfold flow_task. destruct t; try done. by rewrite Hq.
      * eapply Forall_impl; [exact Hts|]. by intros [].
    + intros i Hin. apply Ha, Hta, Htab, Hin.
    + intros id op Hop. apply Ha. by eapply Hs'.
  - intros i. exists []. unfold pending. by rewrite Hi, (proj2 (Hv i)), app_nil_r.
Qed.

(** ** One interface changes and tasks of its writers are posted *)

Definition of_interface (i : nat) (t : task) : Prop :=
  match t with
  | TWriter j | TWriterPop j _ _ => j = i
  | TRecvPop _ _ _ | TRecvfrom _ | TSendto _ _ _ | TProcess _ _ | TRunner _ => True
  end.

Definition with_if (i : nat) (a : avif_state) (ts : list task) (k : kernel) : kernel :=
  set_tasks (tasks k ++ ts) (set_ifs (<[i := a]> (ifs k)) k).

Section with_if.
Variables (i : nat) (a a' : avif_state) (ts : list task) (k : kernel).
Hypothesis Ha : ifs k !! i = Some a.
Hypothesis Hts : Forall (of_interface i) ts.

Lemma of_other j : j <> i -> omap (writer_task j) ts = [] /\ omap (carried j) ts = [].
Proof.
  intros Hj. clear Ha. induction Hts as [|t l Ht Hl IH]; [done|]. destruct (IH Hl) as [E1 E2].
  cbn [omap list_omap]. unfold of_interface in Ht.
  destruct t; simpl; subst; rewrite ?decide_False by done; try destruct (failed ec); done.
Qed.

Lemma with_if_writers j :
  writers j (with_if i a' ts k) =
    if decide (j = i)
    then (length (m_handlers (write_queue a')) + length (writing a') +
          length (omap (writer_task i) (tasks k)) + length (omap (writer_task i) ts))%nat
    else writers j k.
Proof.
  unfold writers. simpl. rewrite omap_app, length_app. destruct (decide (j = i)) as [->|Hj].
  - rewrite lookup_insert_eq. lia.
  - rewrite lookup_insert_ne by done. destruct (of_other j Hj) as [-> _]. simpl. lia.
Qed.

Lemma with_if_pending j :
  pending j (with_if i a' ts k) =
    if decide (j = i)
    then writing a' ++ omap (carried i) (tasks k) ++ omap (carried i) ts ++ m_list (write_queue a')
    else pending j k.
Proof.
  unfold pending. simpl. rewrite omap_app. destruct (decide (j = i)) as [->|Hj].
  - by rewrite lookup_insert_eq, <-!app_assoc.
  - rewrite lookup_insert_ne by done. destruct (of_other j Hj) as [_ ->]. by rewrite app_nil_r.
Qed.

Lemma with_if_quitting j :
  (quitting a = true -> quitting a' = true) -> is_quitting j k -> is_quitting j (with_if i a' ts k).
Proof.
  intros Hq (b & Hb & Hbq). unfold is_quitting. simpl. destruct (decide (j = i)) as [->|Hj].
  - rewrite lookup_insert_eq. exists a'. split; [done|]. apply Hq. congruence.
  - rewrite lookup_insert_ne by done. eauto.
Qed.

Lemma flows_if new :
  (all_live (write_queue a) -> all_live (write_queue a')) ->
  (quitting a = true -> quitting a' = true) ->
  (length (m_handlers (write_queue a')) + length (writing a') + length (omap (writer_task i) ts) =
   length (m_handlers (write_queue a)) + length (writing a))%nat ->
  writing a' = writing a ->
  omap (carried i) ts ++ m_list (write_queue a') = m_list (write_queue a) ++ new ->
  (quitting a' = true \/ Forall (flow_task k) ts) ->
  flows k (with_if i a' ts k).
Proof.
  intros Hlive Hquit Hw Hwr Hp Hf.
  assert (Ew : forall j, writers j (with_if i a' ts k) = writers j k).
  { intros j. rewrite with_if_writers. destruct (decide (j = i)) as [->|]; [|done].
    unfold writers. rewrite Ha. lia. }
  assert (Hq : forall j, is_quitting j k -> is_quitting j (with_if i a' ts k))
    by (intros j; by apply with_if_quitting).
  assert (Hat : forall j, attended j k -> attended j (with_if i a' ts k))
    by (intros j [?|?]; [left; auto|right; by rewrite Ew]).
  split; [| |done|done].
  - intros [Hl HF Hta Hse]. split; [| |intros j Hj; apply Hat, Hta, Hj|intros id op Hop; by apply Hat, (Hse id)].
    + simpl. apply map_Forall_insert_2; [|done]. by apply Hlive, (Hl i).
    + simpl. apply Forall_app. split.
      * eapply Forall_impl; [exact HF|]. intros t. unfold flow_task. destruct t; auto.
      * destruct Hf as [Hqa|HF']; [|eapply Forall_impl; [exact HF'|]; intros t; unfold flow_task; destruct t; auto].
        eapply Forall_impl; [exact Hts|]. intros t Ht. destruct t; try done. simpl in *. subst.
        intros _. exists a'. by unfold with_if; simpl; rewrite lookup_insert_eq.
  - intros j. rewrite with_if_pending. destruct (decide (j = i)) as [->|]; [|exists []; by rewrite app_nil_r].
    exists new. unfold pending. by rewrite Ha, Hwr, <-!app_assoc, Hp.
Qed.
End with_if.

Lemma pop_tasks_of i ps : Forall (of_interface i) (ps ≫= pop_task i).
Proof. induction ps as [|[? ? ?|[]] ps IH]; simpl; [constructor|by constructor]. Qed.

Lemma with_queue_inv i op k u k' :
  with_queue i op k = (Ret u, k') ->
  exists a r, ifs k !! i = Some a /\ op (write_queue a) = Ret r /\
    k' = with_if i (set_write_queue r.1 a) (r.2 ≫= pop_task i) k.
Proof.
  unfold with_queue, st_bind at 1, get_if, read_k.
  destruct (ifs k !! i) as [a|]; [|done]. cbn [deref]. unfold st_bind at 1, st_lift.
  destruct (op (write_queue a)) as [r| | | |] eqn:E; try done. intros [= _ <-]. by exists a, r.
Qed.

(** ** The queue operations *)

Lemma pop_task_writer i ec v :
  writer_task i (TWriterPop i ec v) = Some tt /\
  carried i (TWriterPop i ec v) = (if failed ec then None else Some v).
Proof. simpl. by rewrite !decide_True. Qed.

Lemma flows_push i v : effects flow_ok flows (with_queue i (push v)).
Proof.
  intros k u k' Hok (a & r & Ha & Er & ->)%with_queue_inv.
  pose proof (fl_live k Hok i a Ha) as Hl. simpl in Hl. pose proof (all_live_ok _ Hl) as Hq.
  assert (Hr : all_live r.1) by (destruct r as [q' ps]; by apply (run_plain (OPush v) _ q' ps Hl)).
  rewrite push_live in Er by done. injection Er as <-.
  destruct (pop_task_writer i ec_success v) as [Ew Ec].
  destruct (m_handlers (write_queue a)) as [|[f h] rest] eqn:Eh.
  - apply (flows_if i a _ _ k Ha (pop_tasks_of i _) [v]); flow_simpl; rewrite ?Eh; try done; try lia; by right.
  - destruct (proj1 (proj2 (proj2 Hl))) as [El|]; [|congruence].
    apply (flows_if i a _ _ k Ha (pop_tasks_of i _) [v]); flow_simpl; rewrite ?Eh, ?El, ?Ew, ?Ec;
      flow_simpl; try done; try lia; try (right; by repeat constructor).
Qed.

#[export] Instance flow_primitives : Primitives flow_ok flows attended.
Proof.
  split.
  - apply _.
  - by intros k k' [].
  - intros i k k' _. apply flows_attended.
  - intros i k Hok. apply Hok.
  - intros k k' _ [Et Ei Es Ek _ _ _]. apply (flows_same []); rewrite ?app_nil_r; try done.
    + unfold in_table. by rewrite Et.
    + rewrite Es. intros Hok. apply Hok.
  - apply flows_push.
  - intros id ec k u k' _ [= _ <-]. apply (flows_same []); simpl; rewrite ?app_nil_r; try done.
    intros Hok id' op [_ Hop]%lookup_delete_Some. by apply (fl_sends k Hok id').
  - intros id op s k u k' [Hok Hat] [= _ <-]. apply (flows_same []); simpl; rewrite ?app_nil_r; try done.
    intros _ id' op' [[<- <-]|[_ Hop]]%lookup_insert_Some; [done|]. by apply (fl_sends k Hok id').
Qed.

#[export] Instance flow_receives : Receives flow_ok flows.
Proof.
  intros v k u k' Hok. unfold push_recv, st_bind, read_k, st_modify, io_post.
  destruct (push v (m_recv_buffer k)) as [r| | | |]; try done. intros [= _ <-].
  eapply flows_same; try done; [|intros _; apply Hok].
  clear. destruct r as [q ps]. simpl. induction ps as [|[? ? ?|[]] ps IH]; simpl; [constructor|by constructor].
Qed.

Lemma flows_stable k k' : flows k k' -> flow_ok k -> flow_ok k'.
Proof. by intros []. Qed.

(** ** The writers' own steps *)

Lemma flows_cancel i k u k' :
  flow_ok k -> is_quitting i k -> with_queue i cancele k = (Ret u, k') -> flows k k'.
Proof.
  intros Hok (a0 & Ha0 & Hq0) (a & r & Ha & Er & ->)%with_queue_inv.
  assert (a0 = a) as -> by congruence.
  pose proof (fl_live k Hok i a Ha) as Hl. simpl in Hl.
  rewrite cancele_live in Er by done. injection Er as <-.
  assert (Hcnt : forall v l,
    let ts := ((fun e : nat * nat => @PostPop write_request nat Empty_set e.2 make_canceled v) <$> l)
      ≫= pop_task i in
    length (omap (writer_task i) ts) = length l /\ omap (carried i) ts = []).
  { intros v. induction l as [|x l [IH1 IH2]]; [done|].
    destruct (pop_task_writer i make_canceled v) as [Ew Ec].
    cbn [fmap list_fmap mbind list_bind pop_task app omap list_omap]. rewrite Ew, Ec.
    split; [simpl; f_equal; exact IH1|exact IH2]. }
  apply (flows_if i a _ _ k Ha (pop_tasks_of i _) []); cbn [fst snd].
  - intros (_ & Hw & _ & Hf). split_and!; simpl; [constructor|done|by right|done].
  - done.
  - rewrite (proj1 (Hcnt _ _)). simpl. lia.
  - done.
  - rewrite (proj2 (Hcnt _ _)). simpl. by rewrite app_nil_r.
  - by left.
Qed.

(** ** The coroutine that reads *)

Lemma flows_set_if i a a' k :
  ifs k !! i = Some a -> write_queue a' = write_queue a -> writing a' = writing a ->
  (quitting a = true -> quitting a' = true) -> flows k (set_ifs (<[i := a']> (ifs k)) k).
Proof.
  intros Ha Hwq Hwr Hq. pose proof (flows_if i a a' [] k Ha (Forall_nil_2 _) []) as Hf.
  unfold with_if in Hf. rewrite !app_nil_r in Hf. apply Hf; rewrite ?Hwq; try done.
  - rewrite Hwr. simpl. lia.
  - right. constructor.
Qed.

Lemma flows_if_state i (f : avif_state -> avif_state) :
  (forall a, write_queue (f a) = write_queue a) -> (forall a, writing (f a) = writing a) ->
  (forall a, quitting a = true -> quitting (f a) = true) ->
  effects flow_ok flows (let* a := get_if i in set_if i (f a)).
Proof.
  intros H1' H2' H3' k u k' _ (a & k1 & E1 & E2)%st_bind_inv. unfold get_if, read_k in E1.
  destruct (ifs k !! i) as [b|] eqn:Eb; [|done]. injection E1 as -> <-. injection E2 as _ <-.
  eapply flows_set_if; eauto.
Qed.

Lemma flows_runner_exit i k u k' :
  flow_ok k -> is_quitting i k -> runner_exit i k = (Ret u, k') -> flows k k'.
Proof.
  intros Hok Hq ([] & k1 & E1 & E2)%st_bind_inv. etransitivity; [by eapply flows_cancel|].
  apply st_bind_inv in E2 as (name & k2 & [= <- <-] & E2).
  apply st_bind_inv in E2 as (t & k3 & E3 & [= _ <-]). unfold read_k in E3. injection E3 as E3 <-.
  rewrite remove_interface_eq in E3. injection E3 as <-.
  assert (Hok1 : flow_ok k1) by (eapply fs_ok; [by eapply flows_cancel|done]).
  apply (flows_same []); simpl; rewrite ?app_nil_r; try done.
  - intros j (n & nd & Hn & Hj). simpl in Hn; apply lookup_delete_Some in Hn as [_ Hn]. by exists n, nd.
  - intros _. apply Hok1.
Qed.

Lemma flows_runner i : effects flow_ok flows (interface_runner i).
Proof.
  intros k u k' Hok (a & k1 & E1 & E2)%st_bind_inv. unfold get_if, read_k in E1.
  destruct (ifs k !! i) as [b|] eqn:Eb; [|done]. injection E1 as -> <-.
  destruct (quitting a) eqn:Eq.
  - eapply flows_runner_exit; [done|by exists a|exact E2].
  - injection E2 as _ <-. by eapply flows_set_if.
Qed.

Lemma flows_post ts : Forall no_writer ts -> effects flow_ok flows (io_post ts).
Proof. intros Hts k u k' Hok [= _ <-]. eapply flows_same; try done. intros _. apply Hok. Qed.

Lemma flows_runner_read now i avpkt : effects flow_ok flows (runner_read now i avpkt).
Proof.
  intros k u k' Hok (a & k1 & E1 & E2)%st_bind_inv. unfold get_if, read_k in E1.
  destruct (ifs k !! i) as [b|] eqn:Eb; [|done]. injection E1 as -> <-.
  destruct (reading a) as [|n]; [injection E2 as _ <-; reflexivity|].
  apply st_bind_inv in E2 as ([] & k2 & [= <-] & E2).
  assert (F1 : flows k (set_ifs (<[i := set_reading n a]> (ifs k)) k)) by by eapply flows_set_if.
  etransitivity; [exact F1|].
  eapply (effects_bind flow_ok flows flows_stable); [| |by eapply flows_stable|exact E2].
  - destruct avpkt as [pkt|].
    + apply (effects_bind _ _ flows_stable); [apply eff_wake|]. intros ?. apply flows_post. by repeat constructor.
    + by apply (flows_if_state i (set_quitting true)).
  - intros ?. apply flows_runner.
Qed.
End busy.

(** ** The writers' own steps

    [tokens] counts the running writer too.  From [k] to [k'] the packets [out]
    left each interface, from the front if it has one writer, and others may
    have been added at the end. *)
Definition tokens (b : option nat) (i : nat) (k : kernel) : nat :=
  writers i k + if decide (b = Some i) then 1 else 0.

Record turns (b b' : option nat) (out : nat -> list write_request) (k k' : kernel) : Prop := {
  tn_ok : flow_ok b' k';
  tn_attended i : attended b i k -> attended b' i k';
  tn_tokens i : (tokens b' i k' <= tokens b i k)%nat;
  tn_order i : (tokens b i k <= 1)%nat ->
    exists rest new, pending i k = out i ++ rest /\ pending i k' = rest ++ new
}.

Definition nothing (i : nat) : list write_request := [].

Lemma turns_trans b b1 b2 out k k1 k2 :
  turns b b1 out k k1 -> turns b1 b2 nothing k1 k2 -> turns b b2 out k k2.
Proof.
  intros [O1 A1 T1 R1] [O2 A2 T2 R2]. split; [done|auto|intros i; specialize (T1 i); specialize (T2 i); lia|].
  intros i Hi. destruct (R1 i Hi) as (r1 & n1 & E1 & F1).
  destruct (R2 i) as (r2 & n2 & E2 & F2); [specialize (T1 i); lia|].
  exists r1, (n1 ++ n2). split; [done|]. simpl in E2. rewrite F2, <-E2, F1. by rewrite app_assoc.
Qed.

Lemma flows_turns b k k' : flow_ok b k -> flows b k k' -> turns b b nothing k k'.
Proof.
  intros Hok Hf. split.
  - by apply (fs_ok b k k').
  - intros i. by apply flows_attended.
  - intros i. unfold tokens. by rewrite (fs_writers b k k' Hf).
  - intros i _. destruct (fs_pending b k k' Hf i) as [new E]. by exists (pending i k), new.
Qed.

(** The invariant after a step that keeps every interface attended. *)
Lemma flow_ok_map b b' k k' :
  flow_ok b k -> (forall i, attended b i k -> attended b' i k') ->
  table k' = table k -> sends k' = sends k ->
  map_Forall (fun _ a => all_live (write_queue a)) (ifs k') ->
  Forall (flow_task k') (tasks k') -> flow_ok b' k'.
Proof.
  intros Hok Hat Ht Hs Hl HF. split; [done|done| |].
  - intros i. unfold in_table. rewrite Ht. intros Hi. by apply Hat, (fl_table b k Hok).
  - intros id op. rewrite Hs. intros Hop. apply Hat. by apply (fl_sends b k Hok id).
Qed.

Section unqueue.
Variables (n : nat) (t : task) (k : kernel).
Hypothesis Ht : tasks k !! n = Some t.
Let k1 := set_tasks (delete n (tasks k)) k.

Lemma unqueue_quitting i : is_quitting i k1 <-> is_quitting i k.
Proof. done. Qed.

Lemma unqueue_tasks b : flow_ok b k -> Forall (flow_task k1) (tasks k1) /\ flow_task k t.
Proof.
  intros [_ HF _ _]. rewrite (delete_Permutation _ _ _ Ht) in HF. by apply Forall_cons in HF as [? ?].
Qed.

Lemma unqueue_writers i : (writers i k = writers i k1 + length (option_list (writer_task i t)))%nat.
Proof.
  unfold writers. simpl. rewrite (omap_delete _ _ _ _ Ht), length_app. lia.
Qed.

Lemma unqueue_pending i : carried i t = None -> pending i k1 = pending i k.
Proof. intros Hc. unfold pending. simpl. by rewrite (omap_delete_None _ _ _ _ Ht Hc). Qed.
End unqueue.

(** A new writer starts running. *)
Lemma turns_start n i k :
  tasks k !! n = Some (TWriter i) -> flow_ok None k ->
  turns None (Some i) nothing k (set_tasks (delete n (tasks k)) k).
Proof.
  intros Ht Hok. set (k1 := set_tasks _ k).
  assert (Hw : forall j, writers j k = (writers j k1 + if decide (Some i = Some j) then 1 else 0)%nat).
  { intros j. rewrite (unqueue_writers _ _ _ Ht j). simpl.
    destruct (decide (i = j)) as [->|Hj]; [by rewrite decide_True|by rewrite decide_False by congruence]. }
  assert (Hat : forall j, attended None j k -> attended (Some i) j k1).
  { intros j [Hq|[Hj|?]]; [by left| |done]. right. specialize (Hw j).
    destruct (decide (Some i = Some j)); [by right|left; lia]. }
  split.
  - eapply flow_ok_map; try done; [apply Hok|]. by apply (unqueue_tasks _ _ _ Ht None Hok).
  - done.
  - intros j. unfold tokens. specialize (Hw j). repeat case_decide; try done; lia.
  - intros j _. exists (pending j k), []. rewrite app_nil_r. split; [done|].
    by apply (unqueue_pending _ _ _ Ht).
Qed.

(** A writer whose [async_pop] failed ends. *)
Lemma turns_end n i ec v k :
  tasks k !! n = Some (TWriterPop i ec v) -> failed ec = true -> flow_ok None k ->
  turns None None nothing k (set_tasks (delete n (tasks k)) k).
Proof.
  intros Ht Hec Hok. set (k1 := set_tasks _ k).
  destruct (unqueue_tasks _ _ _ Ht None Hok) as [HF Hq]. specialize (Hq Hec).
  pose proof (unqueue_writers _ _ _ Ht) as Hw. fold k1 in Hw.
  assert (Hat : forall j, attended None j k -> attended None j k1).
  { intros j [Hqj|[Hj|?]]; [by left| |done]. destruct (decide (j = i)) as [->|Hne]; [by left|].
    right. left. specialize (Hw j). simpl in Hw. rewrite decide_False in Hw by done. simpl in Hw. lia. }
  split; [|done| |].
  - eapply flow_ok_map; try done. apply Hok.
  - intros j. unfold tokens. specialize (Hw j). lia.
  - intros j _. exists (pending j k), []. rewrite app_nil_r. split; [done|].
    apply (unqueue_pending _ _ _ Ht). simpl. by rewrite Hec.
Qed.

Lemma with_if_flow_tasks i a a' k :
  ifs k !! i = Some a -> (quitting a = true -> quitting a' = true) ->
  Forall (flow_task k) (tasks k) -> Forall (flow_task (set_ifs (<[i := a']> (ifs k)) k)) (tasks k).
Proof.
  intros Ha Hq HF. eapply Forall_impl; [exact HF|]. intros t. unfold flow_task.
  destruct t as [| | | | |j ec v|]; try done. intros Hj Hec. destruct (Hj Hec) as (b & Hb & Hbq).
  unfold is_quitting. simpl. destruct (decide (j = i)) as [->|Hne].
  - rewrite lookup_insert_eq. exists a'. split; [done|]. apply Hq. congruence.
  - rewrite lookup_insert_ne by done. eauto.
Qed.

Lemma set_writing_live i a l k b :
  ifs k !! i = Some a -> flow_ok b k ->
  map_Forall (fun _ a => all_live (write_queue a)) (<[i := set_writing l a]> (ifs k)).
Proof. intros Ha Hok. apply map_Forall_insert_2; [|apply Hok]. simpl. apply (fl_live b k Hok i a Ha). Qed.

Lemma carried_writers i (ts : list task) :
  (length (omap (carried i) ts) <= length (omap (writer_task i) ts))%nat.
Proof.
  apply length_omap_le. intros t. unfold carried, writer_task. destruct t; try by intros [? [=]].
  destruct (failed ec); [by intros [? [=]]|]. case_decide; [eauto|by intros [? [=]]].
Qed.

(** With one writer, resumed with [v], nothing is being written and no other
    packet is on its way. *)
Lemma single_carried n i ec v a k :
  tasks k !! n = Some (TWriterPop i ec v) -> failed ec = false -> ifs k !! i = Some a ->
  (writers i k <= 1)%nat ->
  writing a = [] /\ omap (carried i) (tasks k) = [v] /\ omap (carried i) (delete n (tasks k)) = [].
Proof.
  intros Ht Hec Ha Hw. pose proof (unqueue_writers _ _ _ Ht i) as Hu. simpl in Hu.
  rewrite decide_True in Hu by done. unfold writers in Hu at 2. simpl in Hu. rewrite Ha in Hu.
  pose proof (carried_writers i (delete n (tasks k))) as Hle.
  destruct (omap_delete_split (carried i) _ _ _ v Ht) as (pre & post & E1 & E2).
  { simpl. by rewrite Hec, decide_True. }
  assert (Hpp : length (pre ++ post) = 0%nat) by (rewrite <-E2; lia).
  apply nil_length_inv in Hpp. rewrite E1, E2, Hpp. apply app_eq_nil in Hpp as [-> ->].
  split_and!; [apply nil_length_inv; lia|done|done].
Qed.

(** The effect of a writer's change of what is being written. *)
Section set_writing.
Variables (i : nat) (a : avif_state) (l : list write_request) (k : kernel).
Hypothesis Ha : ifs k !! i = Some a.
Let k' := set_ifs (<[i := set_writing l a]> (ifs k)) k.

Lemma set_writing_writers j :
  (writers j k' + (if decide (i = j) then length (writing a) else 0) =
   writers j k + if decide (i = j) then length l else 0)%nat.
Proof.
  unfold writers, k'. simpl. destruct (decide (i = j)) as [<-|Hj].
  - rewrite lookup_insert_eq, Ha. simpl. lia.
  - by rewrite lookup_insert_ne.
Qed.

Lemma set_writing_quitting j : is_quitting j k -> is_quitting j k'.
Proof.
  intros (b & Hb & Hq). unfold is_quitting, k'. simpl. destruct (decide (i = j)) as [<-|Hj].
  - rewrite lookup_insert_eq. exists (set_writing l a). split; [done|]. simpl. congruence.
  - rewrite lookup_insert_ne by done. eauto.
Qed.

Lemma set_writing_ok b b' :
  (forall j, attended b j k -> attended b' j k') -> flow_ok b k -> flow_ok b' k'.
Proof.
  intros Hat Hok. eapply flow_ok_map; try done.
  - simpl. apply map_Forall_insert_2; [|apply Hok]. simpl. apply (fl_live b k Hok i a Ha).
  - refine (with_if_flow_tasks i a (set_writing l a) k Ha _ _); [done|apply Hok].
Qed.
End set_writing.

(** A writer that got a packet starts writing it. *)
Lemma turns_popped n i ec v a k :
  tasks k !! n = Some (TWriterPop i ec v) -> failed ec = false -> ifs k !! i = Some a -> flow_ok None k ->
  let k1 := set_tasks (delete n (tasks k)) k in
  turns None None nothing k (set_ifs (<[i := set_writing (writing a ++ [v]) a]> (ifs k1)) k1).
Proof.
  intros Ht Hec Ha Hok k1. pose proof (set_writing_writers i a (writing a ++ [v]) k1 Ha) as Hw.
  pose proof (set_writing_quitting i a (writing a ++ [v]) k1 Ha) as Hq.
  pose proof (set_writing_ok i a (writing a ++ [v]) k1 Ha) as Hset.
  set (k2 := set_ifs _ k1) in *. pose proof (unqueue_writers _ _ _ Ht) as Hw1. fold k1 in Hw1.
  assert (Ew : forall j, writers j k2 = writers j k).
  { intros j. specialize (Hw j). rewrite Hw1. simpl. rewrite length_app in Hw. simpl in Hw.
    destruct (decide (i = j)); simpl; lia. }
  assert (Hat : forall j, attended None j k -> attended None j k2)
    by (intros j [Hqj|Hj]; [left; by apply Hq|right; by rewrite Ew]).
  split; [|done|intros j; unfold tokens; by rewrite Ew|].
  - eapply flow_ok_map; try done.
    + simpl. apply map_Forall_insert_2; [|apply Hok]. simpl. apply (fl_live None k Hok i a Ha).
    + refine (with_if_flow_tasks i a _ k1 Ha _ _); [done|]. by apply (unqueue_tasks _ _ _ Ht None Hok).
  - intros j Hj. exists (pending j k), []. rewrite app_nil_r. split; [done|].
    unfold pending, k2. simpl. destruct (decide (i = j)) as [<-|Hne].
    + rewrite lookup_insert_eq, Ha. unfold tokens in Hj.
      destruct (single_carried n i ec v a k Ht Hec Ha) as (-> & -> & ->); [lia|done].
    + rewrite lookup_insert_ne by done. change (ifs k1) with (ifs k).
      rewrite (omap_delete_None (carried j) _ _ _ Ht); [done|]. simpl. by rewrite Hec, decide_False.
Qed.

(** A write ends: its packet has left the interface. *)
Lemma turns_written n i v a k :
  ifs k !! i = Some a -> writing a !! n = Some v -> flow_ok None k ->
  turns None (Some i) (fun j => if decide (j = i) then [v] else []) k
    (set_ifs (<[i := set_writing (delete n (writing a)) a]> (ifs k)) k).
Proof.
  intros Ha Hv Hok. pose proof (set_writing_writers i a (delete n (writing a)) k Ha) as Hw.
  pose proof (set_writing_quitting i a (delete n (writing a)) k Ha) as Hq.
  pose proof (set_writing_ok i a (delete n (writing a)) k Ha None (Some i)) as Hset.
  set (k1 := set_ifs _ k) in *. pose proof (lookup_lt_Some _ _ _ Hv) as Hn.
  assert (Hlen : length (writing a) = S (length (delete n (writing a))))
    by (rewrite length_delete by (by eexists); lia).
  assert (Ew : forall j, (writers j k = writers j k1 + if decide (i = j) then 1 else 0)%nat).
  { intros j. specialize (Hw j). destruct (decide (i = j)); lia. }
  assert (Hat : forall j, attended None j k -> attended (Some i) j k1).
  { intros j [Hqj|[Hj|?]]; [left; by apply Hq| |done]. right. specialize (Ew j).
    destruct (decide (i = j)) as [->|]; [by right|left; lia]. }
  split; [by apply Hset|done| |].
  - intros j. unfold tokens. specialize (Ew j). repeat case_decide; simplify_eq; lia.
  - intros j Hj. unfold tokens in Hj. unfold pending, k1. simpl. destruct (decide (j = i)) as [->|Hne].
    + rewrite lookup_insert_eq, Ha. cbn [writing set_writing write_queue].
      unfold writers in Hj. rewrite Ha in Hj.
      assert (El : omap (carried i) (tasks k) = []).
      { pose proof (carried_writers i (tasks k)). apply nil_length_inv. lia. }
      destruct (writing a) as [|w [|]] eqn:Ew'; [done| |simpl in Hj; lia].
      destruct n; [|simpl in Hn; lia]. injection Hv as ->. rewrite El.
      exists (m_list (write_queue a)), []. by rewrite app_nil_r.
    + rewrite lookup_insert_ne by done. exists (pending j k), []. by rewrite app_nil_r.
Qed.

(** What [async_pop] does to the view of an interface. *)
Lemma writer_pop i (q : wqueue) k :
  all_live q ->
  let r := async_pop_impl i q in
  let ts := r.2 ≫= pop_task i in
  all_live r.1 /\ omap (carried i) ts ++ m_list r.1 = m_list q /\ Forall (flow_task k) ts /\
  (length (m_handlers r.1) + length (omap (writer_task i) ts) = S (length (m_handlers q)))%nat.
Proof.
  intros Hl r ts. split.
  { eapply (run_plain (OPop i) q r.1 r.2 Hl); [done|]. simpl. unfold r. by destruct (async_pop_impl i q). }
  unfold ts, r, async_pop_impl. destruct (m_list q) as [|v vs] eqn:El.
  - simpl. rewrite length_app. simpl. split_and!; [done|constructor|lia].
  - destruct (pop_task_writer i ec_success v) as [Ew Ec]. flow_simpl. rewrite Ew, Ec. flow_simpl.
    split_and!; [done|by repeat constructor|lia].
Qed.

(** The running writer at the head of its loop. *)
Lemma turns_writer i k u k' :
  flow_ok (Some i) k -> interface_writer i k = (Ret u, k') -> turns (Some i) None nothing k k'.
Proof.
  intros Hok (a & k1 & E1 & E2)%st_bind_inv. unfold get_if, read_k in E1.
  destruct (ifs k !! i) as [b|] eqn:Ea; [|done]. injection E1 as -> <-.
  destruct (quitting a) eqn:Eq.
  { injection E2 as _ <-.
    assert (Hat : forall j, attended (Some i) j k -> attended None j k).
    { intros j [?|[?|[= <-]]]; [by left|by right; left|left; by exists a]. }
    split; [by apply (flow_ok_map _ None k k Hok Hat); try done; apply Hok|done| |].
    - intros j. unfold tokens. repeat case_decide; simplify_eq; lia.
    - intros j _. exists (pending j k), []. by rewrite app_nil_r. }
  apply with_queue_inv in E2 as (a' & r & Ea' & [= <-] & ->). assert (a' = a) as -> by congruence.
  destruct (writer_pop i (write_queue a) k (fl_live _ k Hok i a Ea)) as (Hl & Hp & HF & Hc).
  set (q := async_pop_impl i (write_queue a)) in *. set (ts := q.2 ≫= pop_task i) in *.
  pose proof (pop_tasks_of i q.2) as Hof. fold ts in Hof.
  pose proof (with_if_writers i (set_write_queue q.1 a) ts k Hof) as Hw.
  pose proof (with_if_pending i (set_write_queue q.1 a) ts k Hof) as Hpe.
  pose proof (with_if_quitting i a (set_write_queue q.1 a) ts k Ea) as Hq.
  set (k2 := with_if i _ ts k) in *.
  assert (Ew : forall j, writers j k2 = (writers j k + if decide (i = j) then 1 else 0)%nat).
  { intros j. rewrite Hw. destruct (decide (j = i)) as [->|]; [|rewrite decide_False by done; lia].
    rewrite decide_True by done. unfold writers. rewrite Ea. simpl. lia. }
  assert (Hat : forall j, attended (Some i) j k -> attended None j k2).
  { intros j [Hqj|[Hj|[= <-]]]; [left; by apply Hq|right; left; rewrite Ew; lia|].
    right. left. rewrite Ew, decide_True by done. lia. }
  split; [|done| |].
  - eapply flow_ok_map; try done.
    + simpl. apply map_Forall_insert_2; [done|apply Hok].
    + simpl. apply Forall_app. split.
      * by apply (with_if_flow_tasks i a (set_write_queue q.1 a) k Ea); [|apply Hok].
      * eapply Forall_impl; [exact HF|]. intros t. unfold flow_task. destruct t; auto.
  - intros j. unfold tokens. specialize (Ew j). repeat case_decide; simplify_eq; lia.
  - intros j _. exists (pending j k), []. rewrite app_nil_r. split; [done|].
    rewrite Hpe. destruct (decide (j = i)) as [->|]; [|done]. unfold pending. rewrite Ea.
    cbn [writing write_queue set_write_queue]. by rewrite Hp.
Qed.

(** ** Events *)

(** The packet an event reports as written by interface [i]. *)
Definition written (i : nat) (e : event) (k : kernel) : list write_request :=
  match e with
  | EWrote j n _ _ =>
      if decide (i = j) then match ifs k !! j with Some a => option_list (writing a !! n) | None => [] end
      else []
  | _ => []
  end.

Definition new_writers (i : nat) (e : event) : nat :=
  match e with EAddInterface j => if decide (i = j) then 1 else 0 | _ => 0 end.

Record flow_step (e : event) (k k' : kernel) : Prop := {
  st_ok : flow_ok None k';
  st_attended i : attended None i k -> attended None i k';
  st_writers i : (writers i k' <= writers i k + new_writers i e)%nat;
  st_order i : (writers i k <= 1)%nat ->
    exists rest new, pending i k = written i e k ++ rest /\ pending i k' = rest ++ new
}.

Lemma turns_step e out k k' :
  turns None None out k k' -> (forall i, out i = written i e k) -> flow_step e k k'.
Proof.
  intros [O A T R] Hout. unfold tokens in *. split; [done|done| |].
  - intros i. specialize (T i). rewrite !decide_False in T by done. lia.
  - intros i Hi. rewrite <-Hout. apply R. rewrite decide_False by done. lia.
Qed.

Lemma flows_step e k k' :
  flow_ok None k -> flows None k k' -> (forall i, written i e k = []) -> flow_step e k k'.
Proof. intros Hok Hf Hw. by eapply turns_step; [by apply flows_turns|]. Qed.

Lemma flows_construct i k :
  ifs k !! i = None -> flows None k (set_ifs (<[i := construct]> (ifs k)) k).
Proof.
  intros Hi. set (k' := set_ifs _ k).
  assert (Hw : forall j, writers j k' = writers j k /\ pending j k' = pending j k).
  { intros j. unfold writers, pending, k'. simpl. destruct (decide (i = j)) as [<-|Hj].
    - rewrite lookup_insert_eq, Hi. simpl. by rewrite app_nil_r.
    - by rewrite lookup_insert_ne. }
  assert (Hq : forall j, is_quitting j k -> is_quitting j k').
  { intros j (b & Hb & Hq). exists b. split; [|done]. simpl. rewrite lookup_insert_ne; [done|congruence]. }
  split; [|intros j; exists []; rewrite app_nil_r; apply Hw|intros j; apply Hw|done].
  intros Hok. apply (flow_ok_map None None k); try done.
  - intros j [?|?]; [left; auto|right; by rewrite (proj1 (Hw j))].
  - simpl. apply map_Forall_insert_2; [apply empty_all_live|apply Hok].
  - simpl. eapply Forall_impl; [apply Hok|]. intros t. unfold flow_task. destruct t; auto.
Qed.

Lemma insert_interface_lookup name n (x nd : node) (t : rtable node) :
  m_avifs (insert_interface name nd t) !! n = Some x -> x = nd \/ m_avifs t !! n = Some x.
Proof.
  unfold insert_interface. destruct (m_avifs t !! name); [by right|]. simpl.
  intros [[_ <-]|[_ ?]]%lookup_insert_Some; [by left|by right].
Qed.

Lemma step_add_interface i k b k' :
  flow_ok None k -> is_Some (ifs k !! i) -> add_interface i k = (Ret b, k') ->
  flow_step (EAddInterface i) k k'.
Proof.
  intros Hok [a Ha]. unfold add_interface, st_bind, ask_ifname, st_lift, read_k. cbn [fst snd].
  destruct (remote_address i); [|done]. cbn [deref st_modify io_post].
  set (name := get_ifname i (S (names_asked k))).
  set (t := insert_interface name {| node_id := next_node k; node_if := i |} (table k)).
  intros [= _ <-]. match goal with |- flow_step _ _ ?x => set (k' := x) end.
  assert (Ew : forall j, writers j k' = (writers j k + new_writers j (EAddInterface i))%nat).
  { intros j. unfold writers. simpl. rewrite omap_app, length_app. simpl.
    destruct (decide (i = j)) as [->|Hj]; [rewrite decide_True by done|rewrite decide_False by done]; simpl; lia. }
  assert (Ep : forall j, pending j k' = pending j k).
  { intros j. unfold pending. simpl. by rewrite omap_app, app_nil_r. }
  assert (Hat : forall j, attended None j k -> attended None j k').
  { intros j [?|[?|?]]; [by left|right; left; rewrite Ew; lia|done]. }
  split; [|done|intros j; by rewrite Ew|].
  - destruct Hok as [Hl HF Hta Hse]. split; simpl; [done| | |intros id op Hop; by apply Hat, (Hse id)].
    + apply Forall_app. split; [exact HF|by repeat constructor].
    + intros j (n & nd & Hn & Hj). apply insert_interface_lookup in Hn as [->|Hn].
      * simpl in Hj. subst j. right. left. rewrite Ew. simpl. rewrite decide_True by done. lia.
      * apply Hat, Hta. by exists n, nd.
  - intros j _. exists (pending j k), []. by rewrite Ep, app_nil_r.
Qed.

Lemma unqueue_flows n t k :
  tasks k !! n = Some t -> no_writer t -> flow_ok None k -> flows None k (set_tasks (delete n (tasks k)) k).
Proof.
  intros Ht Hno Hok. set (k1 := set_tasks (delete n (tasks k)) k).
  assert (Hv : forall i, writers i k1 = writers i k /\ pending i k1 = pending i k).
  { intros i. pose proof (unqueue_writers _ _ _ Ht i) as Hw. fold k1 in Hw. split.
    - destruct t; simpl in Hw; try done; lia.
    - apply (unqueue_pending _ _ _ Ht). by destruct t. }
  split; [|intros i; exists []; rewrite app_nil_r; apply Hv|intros i; apply Hv|done].
  intros _. eapply flow_ok_map; try done; [|apply Hok|by apply (unqueue_tasks _ _ _ Ht None Hok)].
  intros i [?|?]; [by left|right; by rewrite (proj1 (Hv i))].
Qed.

Lemma step_run_task now n t k u k' :
  flow_ok None k -> tasks k !! n = Some t ->
  run_task now t (set_tasks (delete n (tasks k)) k) = (Ret u, k') -> flow_step (ERun n now) k k'.
Proof.
  intros Hok Ht E.
  assert (Hrest : forall m : ST kernel unit, no_writer t -> effects (flow_ok None) (flows None) m ->
    m (set_tasks (delete n (tasks k)) k) = (Ret u, k') -> flow_step (ERun n now) k k').
  { intros m Hno Hm Em. pose proof (unqueue_flows n t k Ht Hno Hok) as Hf.
    apply flows_step; [done| |done]. etransitivity; [exact Hf|]. eapply Hm; [|exact Em].
    by apply (fs_ok None k _ Hf). }
  destruct t as [pkt i|i|i|id target data|id|i ec v|id ec v]; simpl in E.
  - eapply Hrest; [done|apply eff_process|exact E].
  - eapply Hrest; [done|apply flows_runner|exact E].
  - pose proof (turns_start n i k Ht Hok) as T1. apply (turns_step _ nothing); [|done].
    eapply turns_trans; [exact T1|]. eapply turns_writer; [apply T1|exact E].
  - eapply Hrest; [done|apply eff_sendto_op|exact E].
  - eapply (Hrest (async_recvfrom_op id)); [done| |exact E]. intros k1 u1 k2 Hok1 [= _ <-].
    eapply flows_same; [reflexivity|reflexivity| |done|intros _; apply Hok1].
    unfold async_pop_impl. destruct (m_list (m_recv_buffer k1)); by repeat constructor.
  - unfold writer_popped in E. destruct (failed ec) eqn:Ec.
    + injection E as _ <-. apply (turns_step _ nothing); [|done]. by eapply turns_end.
    + apply st_bind_inv in E as (a & k1 & E1 & E2). unfold get_if, read_k in E1.
      destruct (ifs _ !! i) as [b|] eqn:Ea; [|done]. injection E1 as -> <-. injection E2 as _ <-.
      apply (turns_step _ nothing); [|done]. by eapply turns_popped.
  - eapply (Hrest (recv_popped id ec v)); [done| |exact E]. intros k1 u1 k2 Hok1 [= _ <-].
    apply (flows_same None []); simpl; rewrite ?app_nil_r; try done. intros _. apply Hok1.
Qed.

Lemma step_wrote now i n ec k u k' :
  flow_ok None k -> writer_wrote now i n ec k = (Ret u, k') -> flow_step (EWrote i n ec now) k k'.
Proof.
  intros Hok (a & k1 & E1 & E2)%st_bind_inv. unfold get_if, read_k in E1.
  destruct (ifs k !! i) as [b|] eqn:Ea; [|done]. injection E1 as -> <-.
  destruct (writing a !! n) as [[pkt handler]|] eqn:Ew.
  2: { injection E2 as _ <-. apply flows_step; [done|reflexivity|]. intros j. simpl.
       destruct (decide (j = i)) as [->|]; [|done]. by rewrite Ea, Ew. }
  apply st_bind_inv in E2 as ([] & k2 & [= <-] & E2). apply st_bind_inv in E2 as ([] & k3 & E3 & E4).
  pose proof (turns_written n i _ a k Ea Ew Hok) as T1. set (k2 := set_ifs _ k) in *.
  assert (F : flows (Some i) k2 k3).
  { destruct handler as [id|]; [eapply eff_resume_send; [apply T1|exact E3]|injection E3 as <-; reflexivity]. }
  pose proof (flows_turns (Some i) _ _ (tn_ok _ _ _ _ _ T1) F) as T2.
  pose proof (turns_writer i k3 u k' (tn_ok _ _ _ _ _ T2) E4) as T3.
  eapply turns_step; [exact (turns_trans _ _ _ _ _ _ _ (turns_trans _ _ _ _ _ _ _ T1 T2) T3)|].
  intros j. simpl. repeat case_decide; try done. subst. by rewrite Ea, Ew.
Qed.

Lemma flows_timer_set q t1 t2 k : flows None k (with_timers q t1 t2 k).
Proof. apply (flows_same None []); simpl; rewrite ?app_nil_r; try done. intros Hok. apply Hok. Qed.

Lemma step_flow e k u k' : flow_ok None k -> step e k = (Ret u, k') -> flow_step e k k'.
Proof.
  intros Hok E.
  destruct e as [i|i|target gw name m|target data| | |n now|i avpkt now|i n ec now|ec now|ec now];
    cbn [step] in E.
  - injection E as _ <-. apply flows_step; try done.
    destruct (ifs k !! i) eqn:Ei; [reflexivity|by apply flows_construct].
  - destruct (ifs k !! i) as [a|] eqn:Ei.
    + apply st_bind_inv in E as (b & k1 & E1 & [= _ <-]). by eapply step_add_interface.
    + injection E as _ <-. by apply flows_step.
  - apply st_bind_inv in E as (b & k1 & E1 & [= _ <-]). apply flows_step; try done.
    apply st_bind_inv in E1 as (r & k2 & E1 & E2). unfold read_k in E1. injection E1 as E1 <-.
    injection E2 as _ <-. apply (flows_same None []); simpl; rewrite ?app_nil_r; try done.
    + assert (Ht : m_avifs r.2 = m_avifs (table k))
        by (unfold add_route in E1; inv_bind; repeat case_match; by simplify_eq).
      intros i (x & nd & Hx & Hi). simpl in Hx. rewrite Ht in Hx. by exists x, nd.
    + intros _. apply Hok.
  - injection E as _ <-. apply flows_step; try done.
    apply (flows_same None [TSendto (next_op k) target data]); try done; [by repeat constructor|].
    intros _. apply Hok.
  - injection E as _ <-. apply flows_step; try done.
    apply (flows_same None [TRecvfrom (next_op k)]); try done; [by repeat constructor|].
    intros _. apply Hok.
  - injection E as _ <-. apply flows_step; try done. apply flows_timer_set.
  - destruct (tasks k !! n) as [t|] eqn:Et; [by eapply step_run_task|].
    injection E as _ <-. by apply flows_step.
  - apply flows_step; try done. by eapply flows_runner_read.
  - by eapply step_wrote.
  - destruct (timer1_armed k); [|injection E as _ <-; by apply flows_step].
    apply flows_step; try done. etransitivity; [|eapply eff_timer1; [|exact E]]; [apply flows_timer_set|].
    by apply (fs_ok None k), Hok; apply flows_timer_set.
  - destruct (timer2_armed k); [|injection E as _ <-; by apply flows_step].
    apply flows_step; try done. etransitivity; [|eapply eff_timer2; [|exact E]]; [apply flows_timer_set|].
    by apply (fs_ok None k), Hok; apply flows_timer_set.
Qed.

(** ** Runs *)

Lemma init_flow_ok : flow_ok None init_kernel.
Proof. split; [done|constructor| |done]. by intros i (n & nd & ? & _). Qed.

(** What interface [i] wrote during a run, and how often it was added. *)
Fixpoint written_by (i : nat) (es : list event) (k : kernel) : list write_request :=
  match es with
  | [] => []
  | e :: es => written i e k ++
      match step e k with (Ret _, k1) => written_by i es k1 | _ => [] end
  end.
Definition times_added (i : nat) (es : list event) : nat := list_sum (new_writers i <$> es).

Lemma run_flow es k u k' :
  flow_ok None k -> run_events es k = (Ret u, k') ->
  flow_ok None k' /\ (forall i, (writers i k' <= writers i k + times_added i es)%nat) /\
  forall i, (writers i k + times_added i es <= 1)%nat ->
    exists new, written_by i es k ++ pending i k' = pending i k ++ new.
Proof.
  revert k. induction es as [|e es IH]; intros k Hok; cbn [run_events written_by].
  { intros [= _ <-]. split_and!; [done|intros i; unfold times_added; simpl; lia|].
    intros i _. exists []. by rewrite app_nil_r. }
  intros ([] & k1 & E1 & E2)%st_bind_inv. rewrite E1.
  destruct (step_flow e k _ k1 Hok E1) as [Hok1 _ Hw Ho].
  destruct (IH k1 Hok1 E2) as (Hok2 & Hw2 & Ho2).
  assert (Ht : forall i, times_added i (e :: es) = (new_writers i e + times_added i es)%nat) by done.
  split_and!; [done| |].
  - intros i. specialize (Hw i). specialize (Hw2 i). rewrite Ht. lia.
  - intros i Hi. rewrite Ht in Hi. specialize (Hw i). destruct (Ho i) as (rest & new & -> & Er); [lia|].
    destruct (Ho2 i) as [new2 E]; [lia|]. exists (new ++ new2).
    by rewrite <-!app_assoc, E, Er, <-!app_assoc.
Qed.

(** C22: packets do not overtake each other: of an interface that was added once,
    whatever waits at some point -- queued, handed to the writer, or being
    written -- is what the interface writes from then on, in that order, before
    anything given to it later, each packet once; what was not written yet is
    what still waits. *)
Theorem writes_in_order es es' k k' u u' i :
  run_events es init_kernel = (Ret u, k) -> run_events es' k = (Ret u', k') ->
  (times_added i (es ++ es') <= 1)%nat ->
  exists new, written_by i es' k ++ pending i k' = pending i k ++ new.
Proof.
  intros E E' Hi. destruct (run_flow es _ u k init_flow_ok E) as (Hok & Hw & _).
  destruct (run_flow es' k u' k' Hok E') as (_ & _ & Ho). apply Ho.
  specialize (Hw i). unfold times_added in *. rewrite fmap_app, list_sum_app in Hi.
  change (writers i init_kernel) with 0%nat in Hw. lia.
Qed.

Section settle.
Context `{!StdSortLaws H2}.

(** Nothing is left to run: no task is posted and no packet is being written. *)
Definition idle (k : kernel) : Prop :=
  tasks k = [] /\ map_Forall (fun _ a => writing a = []) (ifs k).

(** Every interface that can be routed to has written all it was given, unless
    it is shutting down, and a suspended send waits for a key: a waiter in the
    list, that an arriving key or the timer resumes, is its own. *)
Definition settled (k : kernel) : Prop :=
  (forall i, in_table i k -> is_quitting i k \/ pending i k = []) /\
  forall id op, sends k !! id = Some op ->
    is_quitting (node_if (s_interface op)) k \/
    exists r w, s_stage op = WaitKey r /\ w ∈ postprocess_list k /\ w_op w = id /\
      pred_target w = s_target op.

Lemma idle_settled k : kernel_ok k -> flow_ok None k -> idle k -> settled k.
Proof.
  intros (_ & [_ Hso Hco _ _ Hwq] & _) Hok [Ht Hw].
  assert (Hempty : forall i, attended None i k -> is_quitting i k \/ pending i k = [] /\ queued i k = []).
  { intros i [Hq|[Hpos|?]]; [by left| |done]. right. unfold writers, pending, queued, requests in *.
    rewrite Ht in *. simpl in *. destruct (ifs k !! i) as [a|] eqn:Ea; [|by simpl in Hpos].
    pose proof (Hw i a Ea) as Hwr. simpl in Hwr. rewrite Hwr in *. simpl in *.
    pose proof (fl_live None k Hok i a Ea) as (_ & _ & [El|Eh] & _); simpl in *.
    - by rewrite El.
    - rewrite Eh in Hpos. simpl in Hpos. lia. }
  split.
  - intros i Hi. destruct (Hempty i) as [|[]]; [by apply (fl_table None k Hok)|by left|by right].
  - intros id op Hop. destruct (Hempty _ (fl_sends None k Hok id op Hop)) as [|[_ Hnil]]; [by left|right].
    destruct (s_stage op) as [r|] eqn:Est.
    + pose proof (Hco id op r I Hop Est) as Hin. apply list_elem_of_fmap in Hin as (w & -> & Hin).
      exists r, w. split_and!; try done. destruct (Hso w Hin) as [_ (op' & r' & Hop' & _ & Htg)]. congruence.
    + exfalso. pose proof (Hwq (node_if (s_interface op)) id I) as Hin. rewrite Hnil in Hin.
      eapply not_elem_of_nil, Hin. by exists op.
Qed.

Lemma run_settled es k u : run_events es init_kernel = (Ret u, k) -> idle k -> settled k.
Proof.
  intros E. apply idle_settled; [by eapply reach_ok|].
  by apply (run_flow es _ u k init_flow_ok E).
Qed.
End settle.
End flow.
