(* ===== verification/Prices.v ===== *)
(** * Prices: how much work the kernel can make of what it is given

    An amortised analysis of avkernel.cpp.  Everything the kernel holds -- a
    queued packet, a suspended send, a posted task -- has a price; the
    [potential] of a state is the sum.  Every operation costs at most a fixed
    amount, and each step of the io_service is paid for by what it consumes. *)

From S2P Require Import Prelude StdSort OpenSSL RsaChunk Regex Address CoroQueue Routing KeyStore Avif Kernel Effects Hoare KernelInv Flow.

#[local] Open Scope nat_scope.

(** ** Prices *)

Class Prices := {
  p_run : nat;                   (* one task of the io_service *)
  p_handler : nat;               (* a writer waiting for a packet *)
  p_ask : nat;                   (* a question for a key *)
  p_data : nat;                  (* a message that is sent *)
  p_recv : nat;                  (* a message that is received *)
  p_item : avPacket -> nat;      (* a packet in a write queue *)
  p_writing : avPacket -> nat;   (* a packet that is being written *)
  p_wrote : avPacket -> nat;     (* the end of its write *)
  p_process : avPacket -> nat    (* a packet that was read *)
}.

Definition key_packet (protocol : string) (pkt : avPacket) : Prop :=
  upperlayerpotocol pkt = protocol /\ time_to_live pkt = 64%Z.

(** What is consumed pays for what is made of it. *)
Class PricesLaws `{Prices} := {
  run_handler : p_run <= p_handler;
  run_recv : p_run <= p_recv;
  item_pays pkt : p_run + p_writing pkt <= p_item pkt + p_handler;
  writing_pays pkt : p_wrote pkt + p_handler <= p_writing pkt;
  ask_pays pkt : key_packet "pkask" pkt -> p_item pkt <= p_ask;
  data_pays pkt : key_packet "avim" pkt -> p_item pkt <= p_data;
  process_run pkt : p_run <= p_process pkt;
  process_forward pkt : (1 < time_to_live pkt)%Z ->
    p_run + p_item (set_time_to_live pkt (time_to_live pkt - 1)) <= p_process pkt;
  process_pkask pkt reply : upperlayerpotocol pkt = "pkask"%string -> key_packet "pkreply" reply ->
    p_run + p_item reply <= p_process pkt;
  process_avim pkt : upperlayerpotocol pkt = "avim"%string -> p_run + p_recv <= p_process pkt
}.

Section prices.
Context `{Build} `{OpenSSL} `{BoostRegex} `{StdSort} `{!AvifImpl H0}.
Context `{HP : Prices} `{!PricesLaws}.

Definition stage_price (s : stage) : nat :=
  match s with WaitKey i => Z.to_nat (2 - i) * p_ask + p_data | WaitWrite => 0 end.
Definition p_stage (op : send_op) : nat := stage_price (s_stage op).
Definition p_send : nat := 3 * p_ask + p_data.
Definition p_pop (ec : error_code) (v : write_request) : nat :=
  p_handler + if failed ec then 0 else p_item v.1.
Definition p_task (t : task) : nat :=
  match t with
  | TProcess pkt _ => p_process pkt
  | TRunner _ | TRecvfrom _ => p_run
  | TWriter _ => p_run + p_handler
  | TSendto _ _ _ => p_run + p_send
  | TWriterPop _ ec v => p_pop ec v
  | TRecvPop _ _ _ => p_recv
  end.
Definition p_queue (q : wqueue) : nat :=
  sum_list_with (fun v : write_request => p_item v.1) (m_list q) + length (m_handlers q) * p_handler.
Definition p_if (a : avif_state) : nat :=
  p_queue (write_queue a) + sum_list_with (fun v : write_request => p_writing v.1) (writing a).

(** All but the sends, which a step may look at one by one. *)
Definition held_price (k : kernel) : nat :=
  map_sum p_if (ifs k) + sum_list_with p_task (tasks k) + length (m_list (m_recv_buffer k)) * p_recv.
Definition potential (k : kernel) : nat := held_price k + map_sum p_stage (sends k).

(** The rounds of asking a suspended send has before it, and the one it is in. *)
Definition stage_rank (s : stage) : nat :=
  match s with WaitKey i => S (Z.to_nat (2 - i)) | WaitWrite => 0 end.
Definition rank (op : send_op) : nat := stage_rank (s_stage op).

(** Queues in which no pop was given up on; no send in a round before the first. *)
Record lively (k : kernel) : Prop := {
  li_ifs : map_Forall (fun _ a => all_live (write_queue a)) (ifs k);
  li_recv : all_live (m_recv_buffer k);
  li_stage id op i : sends k !! id = Some op -> s_stage op = WaitKey i -> (0 <= i)%Z
}.

Lemma lively_same k k' :
  lively k -> ifs k' = ifs k -> m_recv_buffer k' = m_recv_buffer k -> sends k' = sends k -> lively k'.
Proof. intros [Hi Hr Hs] Ei Er Es. split; [by rewrite Ei|by rewrite Er|by rewrite Es]. Qed.

(** ** Code that adds at most [n], and leaves the sends alone *)

Record added (n : nat) (k k' : kernel) : Prop := {
  ad_sends : sends k' = sends k;
  ad_lively : lively k';
  ad_price : held_price k' <= held_price k + n;
  ad_waiters : postprocess_list k `prefix_of` postprocess_list k'
}.
Definition adds_most {A} (n : nat) (m : ST kernel A) : Prop := effects lively (added n) m.

Lemma adds_bind {A B} n1 n2 (m : ST kernel A) (f : A -> ST kernel B) :
  adds_most n1 m -> (forall a, adds_most n2 (f a)) -> adds_most (n1 + n2) (st_bind m f).
Proof.
  intros Hm Hf k b k' Hk (a & k1 & E1 & E2)%st_bind_inv.
  destruct (Hm k a k1 Hk E1) as [S1 L1 P1 W1]. destruct (Hf a k1 b k' L1 E2) as [S2 L2 P2 W2].
  split; [congruence|done|lia|by etransitivity].
Qed.

Lemma adds_weaken {A} n n' (m : ST kernel A) : adds_most n m -> n <= n' -> adds_most n' m.
Proof. intros Hm Hn k a k' Hk E. destruct (Hm k a k' Hk E). split; [done..|lia|done]. Qed.

Lemma adds_still {A} (m : ST kernel A) : (forall k, (m k).2 = k) -> adds_most 0 m.
Proof.
  intros Hm k a k' Hk E. specialize (Hm k). rewrite E in Hm. simpl in Hm. subst.
  split; [done..|lia|done].
Qed.

Lemma adds_read {A B} n (m : ST kernel A) (f : A -> ST kernel B) :
  (forall k, (m k).2 = k) -> (forall a, adds_most n (f a)) -> adds_most n (st_bind m f).
Proof. intros Hm Hf. apply (adds_bind 0 n); [by apply adds_still|done]. Qed.

Lemma adds_modify (g : kernel -> kernel) :
  (forall k, ifs (g k) = ifs k /\ tasks (g k) = tasks k /\ m_recv_buffer (g k) = m_recv_buffer k /\
             sends (g k) = sends k /\ postprocess_list k `prefix_of` postprocess_list (g k)) ->
  adds_most 0 (st_modify g).
Proof.
  intros Hg k a k' Hk [= _ <-]. destruct (Hg k) as (Ei & Et & Er & Es & Ep).
  split; [done|by eapply lively_same| |done]. unfold held_price. rewrite Ei, Et, Er. lia.
Qed.

Lemma adds_post ts : adds_most (sum_list_with p_task ts) (io_post ts).
Proof.
  intros k u k' Hk [= _ <-]. split; [done|by eapply lively_same| |done].
  unfold held_price. simpl. rewrite sum_list_with_app. lia.
Qed.

Lemma lively_if i a k :
  lively k -> all_live (write_queue a) -> lively (set_ifs (<[i := a]> (ifs k)) k).
Proof. intros [Hi Hr Hs] Ha. split; [by apply map_Forall_insert_2|done|exact Hs]. Qed.

(** An interface, its queue changed by an operation that posted [ps]. *)
Lemma adds_queue n i (op : wqueue -> outcome (wqueue * list (@posted write_request nat Empty_set))) :
  (forall q r, all_live q -> op q = Ret r ->
     all_live r.1 /\ p_queue r.1 + sum_list_with p_task (r.2 ≫= pop_task i) <= p_queue q + n) ->
  adds_most n (with_queue i op).
Proof.
  intros Hop k u k' Hk (a & r & Ha & Er & ->)%with_queue_inv.
  destruct (Hop _ _ (li_ifs k Hk i a Ha) Er) as [Hl Hp]. split; [done| | |done].
  - eapply lively_same; [by apply (lively_if i (set_write_queue r.1 a))|done..].
  - unfold held_price. simpl. rewrite sum_list_with_app, map_sum_insert, (map_sum_delete _ _ _ _ Ha).
    unfold p_if. simpl. lia.
Qed.

Lemma p_pop_canceled v : p_pop make_canceled v = p_handler.
Proof. unfold p_pop. simpl. lia. Qed.

Lemma adds_write i pkt handler : adds_most (p_item pkt) (async_interface_write_packet i pkt handler).
Proof.
  apply adds_queue. intros q r Hq Er. split.
  { destruct r as [q' ps]. by apply (run_plain (OPush (pkt, handler)) _ _ ps Hq). }
  rewrite push_live in Er by done. injection Er as <-. unfold p_queue.
  destruct (m_handlers q) as [|[f h] rest] eqn:Eh; simpl.
  - rewrite sum_list_with_app, Eh. simpl. lia.
  - unfold p_pop. simpl. lia.
Qed.

Lemma adds_cancel i : adds_most 0 (with_queue i cancele).
Proof.
  apply adds_queue. intros q r Hq Er. rewrite cancele_live in Er by done. injection Er as <-. split.
  - destruct Hq as (_ & Hw & _ & Hf). split_and!; simpl; [constructor|done|by right|done].
  - unfold p_queue. cbn [fst snd m_list m_handlers set_handlers]. generalize (@inhabitant write_request _).
    induction (m_handlers q) as [|e hs IH]; intros v; [simpl; lia|].
    specialize (IH v). cbn [fmap list_fmap mbind list_bind pop_task app sum_list_with p_task length] in *.
    rewrite p_pop_canceled. lia.
Qed.

Lemma adds_take i : adds_most p_handler (with_queue i (fun q => Ret (async_pop_impl i q))).
Proof.
  apply adds_queue. intros q r Hq [= <-]. split.
  { eapply (run_plain (OPop i) q _ (async_pop_impl i q).2 Hq); [done|]. simpl. by destruct (async_pop_impl i q). }
  unfold async_pop_impl, p_queue. destruct (m_list q) as [|v vs] eqn:El; simpl.
  - rewrite length_app, El. simpl. lia.
  - unfold p_pop. simpl. lia.
Qed.

Lemma adds_recv v : adds_most p_recv (push_recv v).
Proof.
  intros k u k' Hk E. unfold push_recv, st_bind, read_k, st_modify, io_post in E.
  destruct (push v (m_recv_buffer k)) as [[q ps]| | | |] eqn:Ep; try done. injection E as _ <-.
  pose proof (proj1 (run_plain (OPush v) _ _ _ (li_recv k Hk) I Ep)) as Hl.
  rewrite push_live in Ep by apply Hk. split; [done|by split; [apply Hk| |apply Hk]| |done].
  unfold held_price. simpl. rewrite sum_list_with_app.
  destruct (m_handlers (m_recv_buffer k)) as [|[f h] rest]; injection Ep as <- <-; simpl; [|lia].
  rewrite length_app. simpl. lia.
Qed.

Lemma adds_deref {A B} n (o : option A) (f : A -> ST kernel B) :
  (forall a, adds_most n (f a)) -> adds_most n (st_bind (st_lift (deref o)) f).
Proof. by apply adds_read. Qed.

(** ** The functions of the kernel *)

Tactic Notation "adds_reads" integer(n) := do n (apply adds_read; [done|intros ?]).

Lemma adds_pkask i target : adds_most p_ask (async_send_agmp_pkask i target).
Proof. unfold async_send_agmp_pkask. adds_reads 2. eapply adds_weaken; [apply adds_write|by apply ask_pays]. Qed.

Lemma adds_ifname i : adds_most 0 (ask_ifname i).
Proof. intros k name k' Hk [= _ <-]. split; [done|by eapply lively_same| |done].
  unfold held_price. simpl. lia. Qed.

(** What becomes of the send [id] that runs: it ends or is suspended again, in
    a stage of rank [r] at most. *)
Record handled (id r : nat) (k k' : kernel) : Prop := {
  ha_others id' : id' <> id -> sends k' !! id' = sends k !! id';
  ha_rank op : sends k' !! id = Some op -> rank op <= r;
  ha_known : is_Some (sends k' !! id) \/ id ∈ omap send_done (log k');
  ha_waiters : postprocess_list k `prefix_of` postprocess_list k'
}.

(** The price of the rest, [n], and the price of the new stage. *)
Record settled_for (id n r : nat) (k k' : kernel) : Prop := {
  se_lively : lively k';
  se_price : potential k' <= held_price k + map_sum p_stage (delete id (sends k)) + n;
  se_handled : handled id r k k'
}.
Definition settles (id n r : nat) (m : ST kernel unit) : Prop := effects lively (settled_for id n r) m.

Lemma settles_bind {A} id n1 n2 r (m : ST kernel A) f :
  adds_most n1 m -> (forall a, settles id n2 r (f a)) -> settles id (n1 + n2) r (st_bind m f).
Proof.
  intros Hm Hf k u k' Hk (a & k1 & E1 & E2)%st_bind_inv.
  destruct (Hm k a k1 Hk E1) as [S1 L1 P1 W1]. destruct (Hf a k1 u k' L1 E2) as [L2 P2 [O R N W2]].
  rewrite S1 in P2, O. split; [done|lia|]. split; [done..|by etransitivity].
Qed.

Lemma settles_read {A} id n r (m : ST kernel A) f :
  (forall k, (m k).2 = k) -> (forall a, settles id n r (f a)) -> settles id n r (st_bind m f).
Proof. intros Hm Hf. apply (settles_bind id 0 n); [by apply adds_still|done]. Qed.

Lemma settles_weaken id n n' r r' m : settles id n r m -> n <= n' -> r <= r' -> settles id n' r' m.
Proof.
  intros Hm Hn Hr k u k' Hk E. destruct (Hm k u k' Hk E) as [L P [O R N W]]. split; [done|lia|].
  split; [done| |done..]. intros op Hop. specialize (R op Hop). lia.
Qed.

Lemma settles_finish id ec r : settles id 0 r (finish_send id ec).
Proof.
  intros k u k' Hk [= _ <-]. split.
  - destruct Hk as [Hi Hr Hs]. split; [done..|]. simpl. intros id' op i [_ Hop]%lookup_delete_Some. by eapply Hs.
  - unfold potential, held_price. simpl. lia.
  - split; simpl; [intros id' Hne; by rewrite lookup_delete_ne| | |done].
    + intros op. by rewrite lookup_delete_eq.
    + right. rewrite omap_app. apply elem_of_app. right. by apply list_elem_of_here.
Qed.

Lemma settles_suspend id op s :
  (forall i, s = WaitKey i -> (0 <= i)%Z) -> settles id (stage_price s) (stage_rank s) (suspend_send id op s).
Proof.
  intros Hs k u k' [Hi Hr Hst] [= _ <-]. split.
  - split; [done..|]. simpl. intros id' op' i [[_ <-]|[_ Hop]]%lookup_insert_Some; [apply Hs|by eapply Hst].
  - unfold potential, held_price. simpl. rewrite map_sum_insert. unfold p_stage at 1. simpl. lia.
  - split; simpl; [intros id' Hne; by rewrite lookup_insert_ne| | |done].
    + intros op'. rewrite lookup_insert_eq. by intros [= <-].
    + left. rewrite lookup_insert_eq. eauto.
Qed.

Tactic Notation "settles_reads" integer(n) := do n (apply settles_read; [done|intros ?]).

Lemma settles_ask now id op i :
  (0 <= i)%Z -> settles id (Z.to_nat (3 - i) * p_ask + p_data) (Z.to_nat (3 - i)) (ask_round now id op i).
Proof.
  intros H0i. unfold ask_round. destruct (Z.ltb_spec i 3) as [Hi|_].
  2: eapply settles_weaken; [apply settles_finish|apply Nat.le_0_l|done].
  settles_reads 1. assert (E : Z.to_nat (3 - i) = S (Z.to_nat (2 - i))) by lia. rewrite E. eapply settles_weaken.
  - eapply settles_bind; [apply adds_pkask|intros _].
    eapply (settles_bind id 0); [apply adds_modify|intros _; apply settles_suspend; by intros ? [= <-]].
    intros k. split_and!; try done. by eexists.
  - unfold stage_price. lia.
  - done.
Qed.

Lemma settles_packet id op key r : settles id p_data r (send_packet id op key).
Proof.
  unfold send_packet. settles_reads 6. eapply settles_weaken.
  - eapply settles_bind; [apply adds_write|intros _]. by apply settles_suspend.
  - rewrite Nat.add_0_r. by apply data_pays.
  - apply Nat.le_0_l.
Qed.

(** ** Code that adds at most [n], the sends included *)

(** No send has come up, except perhaps [x], and none has fallen back. *)
Definition ages (x : option nat) (k k' : kernel) : Prop := forall id op', x <> Some id ->
  sends k' !! id = Some op' -> exists op, sends k !! id = Some op /\ rank op' <= rank op.

Lemma ages_same x k k' : sends k' = sends k -> ages x k k'.
Proof. intros Es id op' _. rewrite Es. eauto. Qed.

Lemma ages_trans x k k1 k2 : ages x k k1 -> ages x k1 k2 -> ages x k k2.
Proof.
  intros A1 A2 id op2 Hx H2'. destruct (A2 id op2 Hx H2') as (op1 & H1' & R2).
  destruct (A1 id op1 Hx H1') as (op & Hop & R1). exists op. split; [done|lia].
Qed.

Lemma handled_ages id r k k' : handled id r k k' -> ages (Some id) k k'.
Proof. intros [O _ _ _] id' op' Hx Hop. rewrite O in Hop by congruence. eauto. Qed.

Record pays (n : nat) (k k' : kernel) : Prop := {
  pa_lively : lively k';
  pa_ages : ages None k k';
  pa_price : potential k' <= potential k + n
}.
Definition costs {A} (n : nat) (m : ST kernel A) : Prop := effects lively (pays n) m.

Lemma costs_adds {A} n (m : ST kernel A) : adds_most n m -> costs n m.
Proof.
  intros Hm k a k' Hk E. destruct (Hm k a k' Hk E) as [Es L P _]. split; [done|by apply ages_same|].
  unfold potential. rewrite Es. lia.
Qed.

Lemma pays_refl n k : lively k -> pays n k k.
Proof. intros Hk. split; [done|by apply ages_same|lia]. Qed.

Lemma pays_trans n1 n2 n k k1 k2 : pays n1 k k1 -> pays n2 k1 k2 -> n1 + n2 <= n -> pays n k k2.
Proof. intros [_ A1 P1] [L2 A2 P2] Hn. split; [done|by eapply ages_trans|lia]. Qed.

Lemma costs_bind {A B} n1 n2 (m : ST kernel A) (f : A -> ST kernel B) :
  costs n1 m -> (forall a, costs n2 (f a)) -> costs (n1 + n2) (st_bind m f).
Proof.
  intros Hm Hf k b k' Hk (a & k1 & E1 & E2)%st_bind_inv.
  pose proof (Hm k a k1 Hk E1) as P1. eapply pays_trans; [exact P1| |done]. by eapply Hf; [apply P1|].
Qed.

Lemma costs_read {A B} n (m : ST kernel A) (f : A -> ST kernel B) :
  (forall k, (m k).2 = k) -> (forall a, costs n (f a)) -> costs n (st_bind m f).
Proof. intros Hm Hf. apply (costs_bind 0 n); [by apply costs_adds, adds_still|done]. Qed.

Lemma costs_weaken {A} n n' (m : ST kernel A) : costs n m -> n <= n' -> costs n' m.
Proof. intros Hm Hn k a k' Hk E. destruct (Hm k a k' Hk E). split; [done..|lia]. Qed.

Lemma costs_modify (g : kernel -> kernel) :
  (forall k, ifs (g k) = ifs k /\ tasks (g k) = tasks k /\ m_recv_buffer (g k) = m_recv_buffer k /\
             sends (g k) = sends k) -> costs 0 (st_modify g).
Proof.
  intros Hg k a k' Hk [= _ <-]. destruct (Hg k) as (Ei & Et & Er & Es). split; [by eapply lively_same|by apply ages_same|].
  unfold potential, held_price. rewrite Ei, Et, Er, Es. lia.
Qed.

(** A send that is resumed: the price of its stage is enough, and it gets on. *)
Lemma resume_settles now id ec k u k' op :
  lively k -> sends k !! id = Some op -> resume_send now id ec k = (Ret u, k') ->
  settled_for id (p_stage op) (Nat.pred (rank op)) k k'.
Proof.
  intros Hk Eop E. unfold resume_send, st_bind at 1, read_k in E. rewrite Eop in E. cbn [deref] in E.
  assert (Hs : settles id (p_stage op) (Nat.pred (rank op)) (match s_stage op with
    | WaitKey i => let* target_pubkey := kernel_find_key (s_target op) in
        match target_pubkey with Some key => send_packet id op key | None => ask_round now id op (i + 1) end
    | WaitWrite => finish_send id ec end)); [|by apply (Hs k u k')].
  pose proof (li_stage k Hk id op) as H0i. unfold p_stage, rank.
  destruct (s_stage op) as [i|]; [|apply settles_finish]. specialize (H0i i Eop eq_refl).
  apply settles_read; [done|]. cbn [stage_price stage_rank Nat.pred]. intros [key|].
  - eapply settles_weaken; [apply (settles_packet _ _ _ 0)|apply Nat.le_add_l|apply Nat.le_0_l].
  - replace (2 - i)%Z with (3 - (i + 1))%Z by lia. apply settles_ask. lia.
Qed.

Lemma costs_resume now id ec : costs 0 (resume_send now id ec).
Proof.
  intros k u k' Hk E. destruct (sends k !! id) as [op|] eqn:Eop.
  - destruct (resume_settles now id ec k u k' op Hk Eop E) as [L P [O Hr _ _]]. split; [done| |].
    + intros id' op' _ Hop'. destruct (decide (id' = id)) as [->|Hne]; [|rewrite O in Hop' by done; eauto].
      exists op. split; [done|]. specialize (Hr op' Hop'). lia.
    + unfold potential in *. rewrite (map_sum_delete p_stage _ _ _ Eop). lia.
  - unfold resume_send, st_bind, read_k in E. by rewrite Eop in E.
Qed.

Lemma costs_still {A} (m : ST kernel A) : (forall k, (m k).2 = k) -> costs 0 m.
Proof. intros Hm. by apply costs_adds, adds_still. Qed.

Lemma costs_wake_loop fuel now l test ec it : costs 0 (wake_loop fuel now l test ec it).
Proof.
  revert it. induction fuel as [|fuel IH]; intros it; cbn [wake_loop]; [by apply costs_still|].
  apply costs_read; [done|]. intros k. destruct (waiters l k !! it) as [w|]; [|by apply costs_still].
  apply costs_read; [done|]. intros [|]; [|apply IH].
  apply (costs_bind 0 0); [apply costs_resume|intros _]. apply (costs_bind 0 0); [|intros _; apply IH].
  apply costs_modify. by destruct l.
Qed.

Lemma costs_wake now l test ec : costs 0 (wake now l test ec).
Proof. unfold wake. apply costs_read; [done|]. intros k. apply costs_wake_loop. Qed.

(** ** Received packets *)

Lemma adds_pkreply i target n :
  (forall reply, key_packet "pkreply" reply -> p_item reply <= n) ->
  adds_most n (async_send_agmp_pkreply i target).
Proof.
  intros Hn. unfold async_send_agmp_pkreply. adds_reads 3. eapply adds_weaken; [apply adds_write|by apply Hn].
Qed.

Lemma adds_keys address key until : adds_most 0 (kernel_add_key address key until).
Proof. by apply adds_modify. Qed.

Definition p_made (pkt : avPacket) : nat := p_process pkt - p_run.

Lemma made_le pkt n : p_run + n <= p_process pkt -> n <= p_made pkt.
Proof. unfold p_made. lia. Qed.

Lemma adds_to_me now pkt i : adds_most (p_made pkt) (process_recived_packet_to_me now pkt i).
Proof.
  unfold process_recived_packet_to_me.
  destruct (String.eqb_spec (upperlayerpotocol pkt) "pkask") as [Hask|_].
  { apply adds_pkreply. intros reply Hr. by apply made_le, process_pkask. }
  destruct (String.eqb (upperlayerpotocol pkt) "pkreply").
  { adds_reads 3. eapply adds_weaken; [apply adds_keys|apply Nat.le_0_l]. }
  apply adds_read.
  { destruct (payload pkt); [|done]. intros k. unfold st_bind, st_lift.
    destruct (RSA_public_decrypt _ _); try done. by destruct (deref (get_rsa_key i)). }
  intros data. destruct (String.eqb_spec (upperlayerpotocol pkt) "avim") as [Hav|_].
  - eapply adds_weaken; [apply adds_recv|by apply made_le, process_avim].
  - eapply adds_weaken; [by apply adds_still|apply Nat.le_0_l].
Qed.

Lemma adds_forward pkt : adds_most (p_made pkt) (forward_packet pkt).
Proof.
  unfold forward_packet. assert (H0' : forall n, adds_most n (st_ret (S := kernel) tt)).
  { intros n. eapply adds_weaken; [by apply adds_still|apply Nat.le_0_l]. }
  destruct (Z.leb_spec (time_to_live pkt) 1) as [_|Ht]; [apply H0'|].
  apply adds_read.
  { intros k. unfold kernel_select_route, st_bind, read_k. by destruct (select_route _ _). }
  intros [nd|]; [|apply H0']. apply (adds_bind 0); [apply adds_ifname|intros _].
  eapply adds_weaken; [apply adds_write|]. by apply made_le, process_forward.
Qed.

Lemma adds_learn now pkt : adds_most 0 (learn_key now pkt).
Proof.
  unfold learn_key. apply adds_read; [done|]. intros [key|]; [by apply adds_still|].
  destruct (publickey pkt); [apply adds_keys|by apply adds_still].
Qed.

Lemma costs_process now pkt i : costs (p_made pkt) (process_recived_packet now pkt i).
Proof.
  intros k u k' Hk E. unfold process_recived_packet, scope_exit in E.
  destruct (st_bind (learn_key now pkt) _ k) as [[b|e| | |] k1] eqn:E1; try done.
  - apply st_bind_inv in E as (x & k2 & E2 & [= _ <-]).
    assert (Hb : adds_most (p_made pkt) (learn_key now pkt ;;- let* me := is_to_me (dest pkt) in
      if me then process_recived_packet_to_me now pkt i else forward_packet pkt)).
    { apply (adds_bind 0); [apply adds_learn|intros _]. apply adds_read; [done|].
      intros [|]; [apply adds_to_me|apply adds_forward]. }
    pose proof (costs_adds _ _ Hb k b k1 Hk E1) as P1.
    pose proof (costs_wake now Post (pred pkt) ec_success k1 x k2 (pa_lively _ _ _ P1) E2) as P2.
    eapply pays_trans; [exact P1|exact P2|lia].
  - by apply st_bind_inv in E as (x & k2 & E2 & [=]).
Qed.

(** ** The coroutines of an interface *)

Lemma pays_if n i a a' k :
  lively k -> ifs k !! i = Some a -> write_queue a' = write_queue a -> p_if a' <= p_if a + n ->
  pays n k (set_ifs (<[i := a']> (ifs k)) k).
Proof.
  intros Hk Ha Eq Hp. split.
  - apply lively_if; [done|]. rewrite Eq. apply (li_ifs k Hk i a Ha).
  - by apply ages_same.
  - unfold potential, held_price. simpl. rewrite map_sum_insert, (map_sum_delete _ _ _ _ Ha). lia.
Qed.

Lemma costs_if {A} n i (f : avif_state -> ST kernel A) :
  (forall a k b k', lively k -> ifs k !! i = Some a -> f a k = (Ret b, k') -> pays n k k') ->
  costs n (let* a := get_if i in f a).
Proof.
  intros Hf k b k' Hk (a & k1 & E1 & E2)%st_bind_inv. unfold get_if, read_k in E1.
  destruct (ifs k !! i) as [a0|] eqn:Ea; [|done]. injection E1 as -> <-. by eapply Hf.
Qed.

Lemma costs_writer i : costs p_handler (interface_writer i).
Proof.
  apply costs_if. intros a k b k' Hk _. destruct (quitting a).
  - intros [= _ <-]. by apply pays_refl.
  - intros E. by eapply (costs_adds _ _ (adds_take i)).
Qed.

Lemma costs_runner i : costs 0 (interface_runner i).
Proof.
  apply costs_if. intros a k b k' Hk Ha. destruct (quitting a).
  - revert Hk. assert (Hc : costs 0 (runner_exit i)); [|intros Hk; by apply Hc].
    apply (costs_bind 0 0); [apply costs_adds, adds_cancel|intros _].
    apply (costs_bind 0 0); [apply costs_adds, adds_ifname|intros name].
    apply costs_read; [done|intros t]. by apply costs_adds, adds_modify.
  - intros [= _ <-]. eapply pays_if; [done|done|done|]. unfold p_if. simpl. lia.
Qed.

Lemma costs_popped i ec v :
  costs (if failed ec then 0 else p_writing v.1) (writer_popped i ec v).
Proof.
  unfold writer_popped. destruct (failed ec); [by apply costs_still|].
  apply costs_if. intros a k b k' Hk Ha [= _ <-]. eapply pays_if; [done|done|done|].
  unfold p_if. simpl. rewrite sum_list_with_app. simpl. lia.
Qed.

Definition p_read (avpkt : option avPacket) : nat := match avpkt with Some pkt => p_process pkt | None => 0 end.

Lemma costs_runner_read now i avpkt : costs (p_read avpkt) (runner_read now i avpkt).
Proof.
  apply costs_if. intros a k b k' Hk Ha. destruct (reading a) as [|n].
  { intros [= _ <-]. by apply pays_refl. }
  intros ([] & k1 & [= <-] & E)%st_bind_inv.
  assert (P1 : pays 0 k (set_ifs (<[i := set_reading n a]> (ifs k)) k))
    by (eapply pays_if; [done|done|done|]; unfold p_if; simpl; lia).
  assert (Hc : costs (p_read avpkt) ((match avpkt with
    | Some pkt => wake now Pre (pred pkt) ec_success ;;- io_post [TProcess pkt i]
    | None => let* a := get_if i in set_if i (set_quitting true a) end) ;;- interface_runner i)).
  { rewrite <-(Nat.add_0_r (p_read avpkt)). apply costs_bind; [|intros _; apply costs_runner].
    destruct avpkt as [pkt|].
    - apply (costs_bind 0); [apply costs_wake|intros _]. apply costs_adds.
      eapply adds_weaken; [apply adds_post|]. change (p_process pkt + 0 <= p_process pkt). lia.
    - apply costs_if. intros a' k2 ? k3 Hk2 Ha' [= _ <-]. eapply pays_if; [done|done|done|].
      unfold p_if. simpl. lia. }
  eapply pays_trans; [exact P1|exact (Hc _ _ _ (pa_lively _ _ _ P1) E)|done].
Qed.

(** ** Events: what comes from outside pays [charge], a step of the io_service
    uses up [spent] of what is there *)
Definition charge (e : event) : nat :=
  match e with
  | EAddInterface _ => p_run + (p_run + p_handler)
  | ESendto _ _ => p_run + p_send
  | ERecvfrom => p_run
  | ERead _ avpkt _ => p_read avpkt
  | _ => 0
  end.
Definition spent (e : event) (k : kernel) : nat :=
  match e with
  | ERun n _ => if decide (n < length (tasks k)) then p_run else 0
  | EWrote i n _ _ =>
      match ifs k !! i with
      | Some a => match writing a !! n with Some v => p_wrote v.1 | None => 0 end
      | None => 0
      end
  | _ => 0
  end.

Lemma pays_unqueue n t k :
  lively k -> tasks k !! n = Some t ->
  let k1 := set_tasks (delete n (tasks k)) k in
  lively k1 /\ potential k = potential k1 + p_task t.
Proof.
  intros Hk Ht. split; [by eapply lively_same|]. unfold potential, held_price. simpl.
  rewrite (delete_Permutation _ _ _ Ht) at 1. simpl. lia.
Qed.

Lemma costs_recvfrom id : costs 0 (async_recvfrom_op id).
Proof.
  intros k u k' Hk [= _ <-].
  pose proof (proj1 (run_plain (OPop id) (m_recv_buffer k) (async_pop_impl id (m_recv_buffer k)).1
    (async_pop_impl id (m_recv_buffer k)).2 (li_recv k Hk) I ltac:(simpl; by destruct (async_pop_impl _ _)))) as Hl.
  split; [by split; [apply Hk| |apply Hk]|by apply ages_same|]. unfold potential, held_price. simpl. rewrite sum_list_with_app.
  unfold async_pop_impl. destruct (m_list (m_recv_buffer k)) as [|v vs] eqn:E; simpl; rewrite ?E; simpl; lia.
Qed.

Lemma settles_sendto now id target data : settles id p_send 3 (async_sendto_op now id target data).
Proof.
  unfold async_sendto_op, p_send. apply settles_read.
  { intros k. unfold kernel_select_route, st_bind, read_k. by destruct (select_route _ _). }
  intros [nd|]; [|eapply settles_weaken; [apply settles_finish|apply Nat.le_0_l|done]].
  apply settles_read; [done|]. intros [key|].
  - eapply settles_weaken; [apply settles_packet|lia|done].
  - by apply settles_ask.
Qed.

(** What an event does: [spent] is used up, and only a send that starts is new. *)
Record moves (x : option nat) (n m : nat) (k k' : kernel) : Prop := {
  mo_lively : lively k';
  mo_ages : ages x k k';
  mo_price : potential k' + n <= potential k + m
}.

Lemma run_task_pays now t :
  exists n, n + p_run <= p_task t /\ effects lively (moves (sendto_id t) 0 n) (run_task now t).
Proof.
  assert (Hc : forall n, n + p_run <= p_task t -> costs n (run_task now t) ->
    exists n, n + p_run <= p_task t /\ effects lively (moves (sendto_id t) 0 n) (run_task now t)).
  { intros n Hn Hm. exists n. split; [done|]. intros k u k' Hk E. destruct (Hm k u k' Hk E) as [L A P].
    split; [done| |lia]. intros id op' _. by apply A. }
  pose proof run_handler. pose proof run_recv.
  destruct t as [pkt i|i|i|id target data|id|i ec v|id ec v].
  - apply (Hc (p_made pkt)); [|apply costs_process]. pose proof (process_run pkt). simpl. unfold p_made. lia.
  - apply (Hc 0); [simpl; lia|apply costs_runner].
  - apply (Hc p_handler); [simpl; lia|apply costs_writer].
  - exists p_send. split; [simpl; lia|]. intros k u k' Hk E.
    destruct (settles_sendto now id target data k u k' Hk E) as [L P Hh].
    split; [done|by eapply handled_ages|]. pose proof (map_sum_delete_le p_stage (sends k) id).
    unfold potential in *. lia.
  - apply (Hc 0); [simpl; lia|apply costs_recvfrom].
  - apply (Hc (if failed ec then 0 else p_writing v.1)); [|apply costs_popped].
    simpl. unfold p_pop. pose proof (item_pays v.1). destruct (failed ec); lia.
  - apply (Hc 0); [simpl; lia|]. by apply costs_adds, adds_modify.
Qed.

Lemma wrote_pays now i n ec k u k' :
  lively k -> writer_wrote now i n ec k = (Ret u, k') ->
  moves None (spent (EWrote i n ec now) k) 0 k k'.
Proof.
  intros Hk (a & k1 & E1 & E2)%st_bind_inv. unfold get_if, read_k in E1. cbn [spent].
  destruct (ifs k !! i) as [b|] eqn:Ea; [|done]. injection E1 as -> <-.
  destruct (writing a !! n) as [[pkt handler]|] eqn:Ew;
    [|injection E2 as _ <-; split; [done|by apply ages_same|lia]].
  apply st_bind_inv in E2 as ([] & k2 & [= <-] & E2).
  set (a' := set_writing (delete n (writing a)) a) in *.
  assert (Hp : p_if a = p_if a' + p_writing pkt).
  { unfold p_if, a'. simpl. rewrite (delete_Permutation _ _ _ Ew) at 1. simpl. lia. }
  assert (L1 : lively (set_ifs (<[i := a']> (ifs k)) k))
    by (eapply (pays_if 0); [done|done|done|lia]).
  assert (P1 : potential (set_ifs (<[i := a']> (ifs k)) k) + p_writing pkt = potential k).
  { unfold potential, held_price. simpl. rewrite map_sum_insert, (map_sum_delete _ _ _ _ Ea). lia. }
  assert (Hc : costs (0 + p_handler) (match handler with Some id => resume_send now id ec | None => st_ret tt end ;;-
    interface_writer i)).
  { apply costs_bind; [|intros _; apply costs_writer].
    destruct handler; [apply costs_resume|by apply costs_still]. }
  destruct (Hc _ _ _ L1 E2) as [L2 A2 P2]. pose proof (writing_pays pkt). split; [done| |simpl; lia].
  eapply ages_trans; [by apply ages_same|exact A2].
Qed.

Lemma costs_void {A} n (m : ST kernel A) : costs n m -> costs n (let* _ := m in st_ret tt).
Proof.
  intros Hm. rewrite <-(Nat.add_0_r n). apply costs_bind; [done|intros ?; by apply costs_still].
Qed.

Lemma costs_add_interface i : costs (p_run + (p_run + p_handler)) (add_interface i).
Proof.
  apply costs_adds. unfold add_interface. apply (adds_bind 0); [apply adds_ifname|intros _].
  apply adds_read; [done|intros _]. apply (adds_bind 0); [apply adds_ifname|intros name].
  apply (adds_bind 0); [by apply adds_modify|intros _].
  rewrite <-(Nat.add_0_r (p_run + _)). apply adds_bind; [|intros _; apply (adds_bind 0);
    [apply adds_ifname|intros ?; by apply adds_still]].
  eapply adds_weaken; [apply adds_post|]. simpl. lia.
Qed.

Lemma costs_new_op (f : nat -> task) n :
  (forall id, p_task (f id) = n) -> costs n (let* id := new_op in io_post [f id] ;;- st_ret id).
Proof.
  intros Hn. apply costs_adds, (adds_bind 0).
  - intros k1 id k2 Hk [= _ <-]. split; [done|by eapply lively_same| |done]. unfold held_price. simpl. lia.
  - intros id. rewrite <-(Nat.add_0_r n). apply adds_bind; [|intros _; by apply adds_still].
    eapply adds_weaken; [apply adds_post|]. simpl. rewrite Hn. lia.
Qed.

Lemma costs_add_route target gw name m : costs 0 (kernel_add_route target gw name m).
Proof.
  apply costs_read; [done|intros r]. apply (costs_bind 0 0); [by apply costs_adds, adds_modify|].
  intros _. by apply costs_still.
Qed.

Definition starts_send (e : event) (k : kernel) : option nat :=
  match e with ERun n _ => tasks k !! n ≫= sendto_id | _ => None end.

Lemma step_pays e k u k' :
  lively k -> step e k = (Ret u, k') -> moves (starts_send e k) (spent e k) (charge e) k k'.
Proof.
  intros Hk E.
  assert (Hcost : forall m : ST kernel unit, costs (charge e) m -> spent e k = 0 -> m k = (Ret u, k') ->
    moves (starts_send e k) (spent e k) (charge e) k k').
  { intros m Hm -> Em. destruct (Hm _ _ _ Hk Em) as [L A P]. split; [done| |lia]. intros id op' _. by apply A. }
  assert (Hsame : (Ret tt, k) = (Ret u, k') -> spent e k = 0 ->
    moves (starts_send e k) (spent e k) (charge e) k k').
  { intros [= _ <-] ->. split; [done|by apply ages_same|lia]. }
  destruct u, e as [i|i|target gw name m|target data| | |n now|i avpkt now|i n ec now|ec now|ec now];
    cbn [step] in E.
  - injection E as <-. destruct (ifs k !! i) eqn:Ei; [by apply Hsame|]. split.
    + apply lively_if; [done|apply empty_all_live].
    + by apply ages_same.
    + unfold potential, held_price. simpl. rewrite map_sum_insert, delete_id by done.
      unfold p_if, p_queue. simpl. lia.
  - destruct (ifs k !! i); [|by apply Hsame].
    eapply Hcost; [|done|exact E]. apply costs_void, costs_add_interface.
  - eapply Hcost; [|done|exact E]. apply costs_void, costs_add_route.
  - eapply Hcost; [|done|exact E]. by apply costs_void, (costs_new_op (fun id => TSendto id target data)).
  - eapply Hcost; [|done|exact E]. by apply costs_void, (costs_new_op TRecvfrom).
  - eapply Hcost; [|done|exact E]. by apply costs_adds, adds_modify.
  - destruct (tasks k !! n) as [t|] eqn:Et.
    + destruct (pays_unqueue n t k Hk Et) as [L1 P1]. destruct (run_task_pays now t) as (c & Hc & Hm).
      destruct (Hm _ _ _ L1 E) as [L2 A2 P2]. cbn [starts_send spent charge]. rewrite Et.
      apply lookup_lt_Some in Et. rewrite decide_True by done. split; [done|exact A2|lia].
    + apply Hsame; [done|]. simpl. apply lookup_ge_None in Et. by rewrite decide_False by lia.
  - by eapply Hcost; [apply costs_runner_read| |].
  - by eapply wrote_pays.
  - destruct (timer1_armed k); [|by apply Hsame].
    eapply (Hcost (st_modify (fun k => with_timers (m_quitting k) false (timer2_armed k) k) ;;- timer1_tick now ec));
      [|done|exact E]. apply (costs_bind 0 0); [by apply costs_adds, adds_modify|intros _].
    apply (costs_bind 0 0); [apply costs_adds, adds_modify; intros k1; by destruct (m_quitting k1)|intros _].
    apply (costs_bind 0 0); [|intros _]; apply costs_wake.
  - destruct (timer2_armed k); [|by apply Hsame].
    eapply (Hcost (st_modify (fun k => with_timers (m_quitting k) (timer1_armed k) false k) ;;- timer2_tick now ec));
      [|done|exact E]. apply (costs_bind 0 0); [by apply costs_adds, adds_modify|intros _].
    apply (costs_bind 0 0); [apply costs_adds, adds_modify; intros k1; by destruct (m_quitting k1)|intros _].
    apply costs_read; [done|intros ks]. by apply costs_adds, adds_modify.
Qed.

(** ** Runs *)

Fixpoint spent_by (es : list event) (k : kernel) : nat :=
  match es with
  | [] => 0
  | e :: es => spent e k + match step e k with (Ret _, k1) => spent_by es k1 | _ => 0 end
  end.
Definition charges (es : list event) : nat := sum_list_with charge es.

Lemma run_pays es k u k' :
  lively k -> run_events es k = (Ret u, k') ->
  lively k' /\ potential k' + spent_by es k <= potential k + charges es.
Proof.
  revert k. induction es as [|e es IH]; intros k Hk; cbn [run_events spent_by].
  { intros [= _ <-]. split; [done|]. unfold charges. simpl. lia. }
  intros ([] & k1 & E1 & E2)%st_bind_inv. rewrite E1.
  destruct (step_pays e k _ k1 Hk E1) as [L1 _ P1]. destruct (IH k1 L1 E2) as [L2 P2]. split; [done|].
  unfold charges in *. simpl. lia.
Qed.

Lemma init_lively : lively init_kernel.
Proof. split; [done|apply empty_all_live|done]. Qed.

Lemma init_pays es u k :
  run_events es init_kernel = (Ret u, k) ->
  lively k /\ potential k + spent_by es init_kernel <= charges es.
Proof.
  intros E. destruct (run_pays es _ u k init_lively E) as [L P]. split; [done|].
  assert (E0 : potential init_kernel = 0).
  { unfold potential, held_price. simpl. by rewrite !map_sum_empty. }
  lia.
Qed.
End prices.

(** ** Packets: nothing is multiplied *)

Section packets.
Context `{Build} `{OpenSSL} `{BoostRegex} `{StdSort} `{!AvifImpl H0}.

#[local] Instance packet_prices : Prices :=
  {| p_run := 0; p_handler := 0; p_ask := 1; p_data := 1; p_recv := 0; p_item _ := 1;
     p_writing _ := 1; p_wrote _ := 1; p_process _ := 1 |}.
#[local] Instance packet_laws : PricesLaws.
Proof. split; simpl; lia. Qed.

Definition packet_written (e : event) (k : kernel) : nat :=
  match e with
  | EWrote i n _ _ =>
      match ifs k !! i with Some a => length (option_list (writing a !! n)) | None => 0 end
  | _ => 0
  end.
Fixpoint packets_written (es : list event) (k : kernel) : nat :=
  match es with
  | [] => 0
  | e :: es => packet_written e k +
      match step e k with (Ret _, k1) => packets_written es k1 | _ => 0 end
  end.
Definition packets_queued (k : kernel) : nat :=
  map_sum (fun a => length (m_list (write_queue a)) + length (writing a)) (ifs k).

Definition is_read (e : event) : nat := match e with ERead _ (Some _) _ => 1 | _ => 0 end.
Definition is_sendto (e : event) : nat := match e with ESendto _ _ => 1 | _ => 0 end.
Definition is_recvfrom (e : event) : nat := match e with ERecvfrom => 1 | _ => 0 end.
Definition is_add (e : event) : nat := match e with EAddInterface _ => 1 | _ => 0 end.
Definition count (f : event -> nat) (es : list event) : nat := sum_list_with f es.

Lemma packets_spent es k : spent_by es k = packets_written es k.
Proof.
  revert k. induction es as [|e es IH]; intros k; cbn [spent_by packets_written]; [done|]. f_equal.
  - destruct e; simpl; try done; [by destruct (decide _)|].
    destruct (ifs k !! i) as [a|]; [|done]. by destruct (writing a !! n).
  - destruct (step e k) as [[] k1]; done.
Qed.

(** No packet storm comes from a node: whatever happens, the packets it
    has written and those it has queued are no more than those it read and
    four for every message it was asked to send (three questions for the key,
    and the message). *)
Theorem packets_not_multiplied es k u :
  run_events es init_kernel = (Ret u, k) ->
  packets_written es init_kernel + packets_queued k <= count is_read es + 4 * count is_sendto es.
Proof.
  intros E. destruct (init_pays es u k E) as [_ P]. rewrite packets_spent in P.
  assert (Hq : packets_queued k <= potential k).
  { unfold packets_queued, potential, held_price. apply Nat.le_trans with (map_sum p_if (ifs k)); [|lia].
    apply map_sum_le. intros a. unfold p_if, p_queue. simpl.
    rewrite !sum_list_with_const. lia. }
  assert (Hc : charges es <= count is_read es + 4 * count is_sendto es); [|lia].
  clear. unfold charges, count. induction es as [|e es IH]; [simpl; lia|]. simpl.
  destruct e as [| | | | | | |? []| | |]; simpl; lia.
Qed.
End packets.

(** ** Work: the io_service comes to an end *)

Section work.
Context `{Build} `{OpenSSL} `{BoostRegex} `{StdSort} `{!AvifImpl H0}.

#[local] Instance work_prices : Prices :=
  {| p_run := 1; p_handler := 1; p_ask := 2; p_data := 2; p_recv := 1; p_item _ := 2;
     p_writing _ := 2; p_wrote _ := 1; p_process _ := 3 |}.
#[local] Instance work_laws : PricesLaws.
Proof. split; simpl; lia. Qed.

(** What the io_service may do next: run a task, or complete a write. *)
Definition enabled (e : event) (k : kernel) : Prop :=
  match e with
  | ERun n _ => n < length (tasks k)
  | EWrote i n _ _ => exists a, ifs k !! i = Some a /\ n < length (writing a)
  | _ => False
  end.

#[export] Instance idle_dec k : Decision (idle k).
Proof.
  unfold idle. apply and_dec; [|apply map_Forall_dec; intros i a; destruct (writing a); by (left + right)].
  destruct (tasks k); by (left + right).
Defined.

(** The io_service runs, [sched] choosing, until there is nothing left to do;
    [None] if that takes more than [n] steps. *)
Fixpoint run_until_idle (n : nat) (sched : kernel -> event) (k : kernel) : option (outcome unit * kernel) :=
  if decide (idle k) then Some (Ret tt, k) else
  match n with
  | 0 => None
  | S n =>
      match step (sched k) k with
      | (Ret _, k1) => run_until_idle n sched k1
      | r => Some r
      end
  end.

Lemma enabled_spent e k : enabled e k -> spent e k = 1 /\ charge e = 0.
Proof.
  destruct e as [i|i|target gw name m|target data| | |n now|i avpkt now|i n ec now|ec now|ec now]; try done; simpl.
  - intros Hn. by rewrite decide_True.
  - intros (a & -> & Hn). apply lookup_lt_is_Some in Hn as [v ->]. done.
Qed.

Context `{!StdSortLaws H2}.

Lemma runs_until_idle sched n es k u :
  (forall k, ~ idle k -> enabled (sched k) k) ->
  run_events es init_kernel = (Ret u, k) -> potential k < n ->
  exists o k', run_until_idle n sched k = Some (o, k') /\ (o = Ret tt -> idle k' /\ settled k').
Proof.
  intros Hs. revert es k u. induction n as [|n IH]; intros es k u E Hp; [lia|]. cbn [run_until_idle].
  destruct (decide (idle k)) as [Hi|Hi].
  { exists (Ret tt), k. split; [done|]. intros _. split; [done|]. by eapply run_settled. }
  destruct (init_pays es u k E) as [L _]. destruct (enabled_spent _ _ (Hs k Hi)) as [Hsp Hch].
  destruct (step (sched k) k) as [[[]|e| | |] k1] eqn:Es; try by eexists _, k1.
  destruct (step_pays _ _ _ _ L Es) as [_ _ P]. apply (IH (es ++ [sched k]) k1 tt); [|lia].
  rewrite run_events_app. unfold st_bind. rewrite E. cbn [run_events]. unfold st_bind. by rewrite Es.
Qed.

(** C18: the node comes to rest and leaves nothing lying about: whatever came
    from outside, and in whatever order the io_service then runs its tasks and
    the writes complete, it stops after at most a fixed number of steps for
    each interface added (3), send (9), receive (1) and packet read (3); unless
    some handler failed, every packet has then been written and every suspended
    send waits for a key -- or for an interface that is shutting down. *)
Theorem kernel_comes_to_rest es k u sched :
  run_events es init_kernel = (Ret u, k) ->
  (forall k, ~ idle k -> enabled (sched k) k) ->
  exists o k',
    run_until_idle (1 + 3 * count is_add es + 9 * count is_sendto es + count is_recvfrom es +
      3 * count is_read es) sched k = Some (o, k') /\
    (o = Ret tt -> idle k' /\ settled k').
Proof.
  intros E Hs. eapply runs_until_idle; [done|exact E|]. destruct (init_pays es u k E) as [_ P].
  assert (Hc : charges es <= 3 * count is_add es + 9 * count is_sendto es + count is_recvfrom es +
    3 * count is_read es); [|lia].
  clear. unfold charges, count. induction es as [|e es IH]; [simpl; lia|]. simpl.
  destruct e as [| | | | | | |? []| | |]; simpl; lia.
Qed.
End work.
