(* ===== verification/Progress.v ===== *)
(** * Progress: every send comes to an end

    The timer of avkernel.cpp drives the sends that wait for a key: each tick
    that finds their deadlines passed takes them a round further, whatever else
    happens in between, and after three such ticks none is left waiting. *)

From S2P Require Import Prelude StdSort OpenSSL RsaChunk Regex Address CoroQueue Routing KeyStore Avif Kernel Effects Mailbox Hoare KernelInv Flow Prices.

#[local] Open Scope nat_scope.

Section progress.
Context `{Build} `{OpenSSL} `{BoostRegex} `{StdSort} `{!AvifImpl H0}.
#[local] Existing Instances work_prices work_laws.

(** ** A send is never forgotten *)

(** Its coroutine runs, is suspended, or has called its handler. *)
Definition started (id : nat) (k : kernel) : Prop :=
  is_Some (sends k !! id) \/ id ∈ omap send_done (log k).
Definition known (id : nat) (k : kernel) : Prop := id ∈ omap sendto_id (tasks k) \/ started id k.

Definition remembers (k k' : kernel) : Prop :=
  omap sendto_id (tasks k') = omap sendto_id (tasks k) /\ forall id, started id k -> started id k'.

#[export] Instance remembers_order : PreOrder remembers.
Proof.
  split; [by intros k; split|]. intros k1 k2 k3 [E1 H1'] [E2 H2']. split; [congruence|auto].
Qed.

Lemma remembers_same k k' :
  omap sendto_id (tasks k') = omap sendto_id (tasks k) -> sends k' = sends k -> log k' = log k ->
  remembers k k'.
Proof. intros Et Es El. split; [done|]. intros id. unfold started. by rewrite Es, El. Qed.

Definition anything {A} (_ : A) : Prop := True.

#[export] Instance remembers_coroutines : Coroutines anything remembers.
Proof.
  intros k k' _ [(ts & Et & Hts) Es _ El _]. apply remembers_same; [|done..].
  rewrite Et, omap_app. replace (omap sendto_id ts) with (@nil nat); [by rewrite app_nil_r|].
  clear Et. induction Hts as [|t ts Ht _ IH]; [done|]. by destruct t.
Qed.

Lemma started_done id id' ec k :
  started id k -> started id (add_log (SendDone id' ec) (set_sends (delete id' (sends k)) k)).
Proof.
  unfold started. simpl. rewrite omap_app, elem_of_app. intros [Hs|Hl]; [|by right; left].
  destruct (decide (id' = id)) as [->|]; [right; right; by apply list_elem_of_here|].
  left. by rewrite lookup_delete_ne.
Qed.

#[export] Instance remembers_primitives : Primitives anything remembers (fun _ => anything).
Proof.
  split; try done.
  - apply _.
  - intros k k' _ []. apply remembers_same; congruence.
  - intros i v. apply eff_queue.
  - intros id ec k u k' _ [= _ <-]. split; [done|]. intros id'. apply started_done.
  - intros id op s k u k' _ [= _ <-]. split; [done|]. intros id' [Hs|Hl]; [left; simpl|by right].
    destruct (decide (id = id')) as [->|]; [rewrite lookup_insert_eq; eauto|by rewrite lookup_insert_ne].
Qed.

#[export] Instance remembers_receives : Receives anything remembers.
Proof.
  intros v k u k' _. unfold push_recv, st_bind, read_k, st_modify, io_post.
  destruct (push v (m_recv_buffer k)) as [r| | | |]; try done. intros [= _ <-].
  apply remembers_same; [|done..]. simpl. rewrite omap_app.
  replace (omap sendto_id (r.2 ≫= recv_task)) with (@nil nat); [by rewrite app_nil_r|].
  clear. destruct r as [q ps]. simpl. induction ps as [|[? ? ?|[]] ps IH]; simpl; done.
Qed.

Lemma run_task_remembers now t : effects anything remembers (run_task now t).
Proof.
  destruct t as [pkt i|i|i|id target data|id|i ec v|id ec v]; try by apply eff_worker.
  - apply eff_sendto_op.
  - intros k u k' _ [= _ <-]. apply remembers_same; [|done..]. simpl. rewrite omap_app.
    unfold async_pop_impl. destruct (m_list (m_recv_buffer k)); simpl; by rewrite app_nil_r.
  - intros k u k' _ [= _ <-]. split; [done|]. intros id'. unfold started. simpl.
    rewrite omap_app, elem_of_app. tauto.
Qed.

Lemma outside_remembers e k u k' : outside e -> step e k = (Ret u, k') -> remembers k k'.
Proof. intros Ho. by apply (eff_outside (J := anything) (R := remembers) e Ho k u k'). Qed.

Lemma step_started id e k u k' : step e k = (Ret u, k') -> started id k -> started id k'.
Proof.
  intros E Hid. assert (Hout : outside e -> started id k') by (intros Ho; by apply (outside_remembers e k u k')).
  destruct e; try by apply Hout.
  - by injection E as _ <-.
  - by injection E as _ <-.
  - cbn [step] in E. destruct (tasks k !! n) as [t|] eqn:Et; [|by injection E as _ <-].
    by apply (run_task_remembers now t _ u k' I E).
Qed.

Lemma step_known id e k u k' : lively k -> step e k = (Ret u, k') -> known id k -> known id k'.
Proof.
  intros Hl E [Hin|Hs]; [|right; by eapply step_started].
  assert (Hsame : omap sendto_id (tasks k') = omap sendto_id (tasks k) -> known id k')
    by (intros Et; left; by rewrite Et).
  assert (Hout : outside e -> known id k') by (intros Ho; by apply Hsame, (outside_remembers e k u k')).
  destruct e; try by apply Hout.
  - injection E as _ <-. left. simpl. rewrite omap_app, elem_of_app. by left.
  - injection E as _ <-. left. simpl. rewrite omap_app, elem_of_app. by left.
  - cbn [step] in E. destruct (tasks k !! n) as [t|] eqn:Et; [|injection E as _ <-; by left].
    set (k1 := set_tasks (delete n (tasks k)) k) in *. rewrite (omap_delete _ _ _ _ Et) in Hin.
    apply elem_of_app in Hin as [Hin|Hin].
    + destruct t as [| | |id' target data| | |]; try by apply elem_of_nil in Hin.
      apply list_elem_of_singleton in Hin as ->. right.
      apply (settles_sendto now id' target data k1 u k'); [by eapply lively_same|exact E].
    + left. destruct (run_task_remembers now t k1 u k' I E) as [Et' _]. by rewrite Et'.
Qed.

Lemma run_started id es k u k' : run_events es k = (Ret u, k') -> started id k -> started id k'.
Proof.
  revert k. induction es as [|e es IH]; intros k; cbn [run_events]; [by intros [= _ <-]|].
  intros ([] & k1 & E1 & E2)%st_bind_inv Hs. eapply IH; [exact E2|]. by eapply step_started.
Qed.

(** The operation numbers of the sends that were asked for. *)
Definition sends_now (n : nat) (e : event) : list nat := match e with ESendto _ _ => [n] | _ => [] end.
Fixpoint sent (n : nat) (es : list event) : list nat :=
  match es with [] => [] | e :: es => sends_now n e ++ sent (n + new_ops e) es end.

Lemma step_sent e k u k' id : step e k = (Ret u, k') -> id ∈ sends_now (next_op k) e -> known id k'.
Proof.
  destruct e; try by intros _ ?%elem_of_nil. intros [= _ <-] ->%list_elem_of_singleton.
  left. simpl. rewrite omap_app, elem_of_app. right. by apply list_elem_of_here.
Qed.

Lemma run_known id es k u k' :
  lively k -> recv_ok k -> run_events es k = (Ret u, k') ->
  known id k \/ id ∈ sent (next_op k) es -> known id k'.
Proof.
  revert k. induction es as [|e es IH]; intros k Hl Hr; cbn [run_events sent].
  { intros [= _ <-] [?|?%elem_of_nil]; done. }
  intros ([] & k1 & E1 & E2)%st_bind_inv Hid. destruct (step_pays e k _ k1 Hl E1) as [Hl1 _ _].
  destruct (step_simulated e k _ k1 Hr E1) as (Hr1 & Hn & _). apply (IH k1 Hl1 Hr1 E2). rewrite Hn.
  destruct Hid as [Hid|[Hid|Hid]%elem_of_app]; [left; by eapply (step_known id e k)|left; by eapply (step_sent e k)|by right].
Qed.

(** ** A tick of the timer *)

Lemma resume_ages now id ec k u k' :
  lively k -> resume_send now id ec k = (Ret u, k') ->
  lively k' /\ ages None k k' /\ postprocess_list k `prefix_of` postprocess_list k' /\
  forall op op', sends k !! id = Some op -> sends k' !! id = Some op' -> rank op' <= Nat.pred (rank op).
Proof.
  intros Hk E. destruct (costs_resume now id ec k u k' Hk E) as [L A _]. split_and!; [done..| |].
  - destruct (sends k !! id) as [op|] eqn:Eop.
    + destruct (resume_settles now id ec k u k' op Hk Eop E) as [_ _ []]. done.
    + unfold resume_send, st_bind, read_k in E. by rewrite Eop in E.
  - intros op op' Hop Hop'. destruct (resume_settles now id ec k u k' op Hk Hop E) as [_ _ [_ Hr _ _]]. auto.
Qed.

(** The loop takes every send whose waiter is overdue a round further. *)
Lemma wake_overdue now ec rem : forall fuel k u k' new,
  lively k -> postprocess_list k = rem ++ new -> Forall (fun w => (deadline w < now)%Z) rem ->
  wake_loop fuel now Post (expired now) ec 0 k = (Ret u, k') ->
  ages None k k' /\ forall id op op', id ∈ (w_op <$> rem) ->
    sends k !! id = Some op -> sends k' !! id = Some op' -> rank op' <= Nat.pred (rank op).
Proof.
  induction rem as [|w rem IH]; intros fuel k u k' new Hl Hp Hd E.
  { split; [|by intros id op op' ?%elem_of_nil].
    by apply (costs_wake_loop fuel now Post (expired now) ec 0 k u k' Hl E). }
  apply Forall_cons in Hd as [Hw Hd]. destruct fuel as [|fuel]; [done|]. cbn [wake_loop] in E.
  unfold st_bind at 1, st_get in E. cbn [waiters] in E. rewrite Hp in E. cbn [app lookup list_lookup] in E.
  apply st_bind_inv in E as (b & k0 & [= <- <-] & E). rewrite (proj2 (Z.ltb_lt _ _) Hw) in E.
  apply st_bind_inv in E as ([] & k1 & E1 & E2). apply st_bind_inv in E2 as ([] & k2 & [= <-] & E2).
  destruct (resume_ages _ _ _ _ _ _ Hl E1) as (L1 & A1 & [new' Hp1] & R1). rewrite Hp in Hp1.
  set (k2 := set_post _ k1) in *.
  destruct (IH fuel k2 u k' (new ++ new')) as [A2 R2]; [by eapply lively_same| |done|done|].
  { unfold k2. simpl. rewrite Hp1. simpl. by rewrite <-app_assoc. }
  change (sends k2) with (sends k1) in R2. split.
  { eapply ages_trans; [exact A1|]. eapply ages_trans; [by apply (ages_same None k1 k2)|exact A2]. }
  intros id op op' Hid Hop Hop'. destruct (A2 id op' ltac:(done) Hop') as (op1 & Hop1 & Hr2).
  change (sends k2) with (sends k1) in Hop1. apply elem_of_cons in Hid as [->|Hid].
  - specialize (R1 op op1 Hop Hop1). lia.
  - destruct (A1 id op1 ltac:(done) Hop1) as (op0 & Hop0 & Hr1). assert (op0 = op) as -> by congruence.
    specialize (R2 id op1 op' Hid Hop1 Hop'). lia.
Qed.

(** A tick that finds every deadline passed. *)
Definition overdue (t : Z) (k : kernel) : Prop := Forall (fun w => (deadline w < t)%Z) (postprocess_list k).
Definition full_tick (e : event) (k : kernel) : nat :=
  match e with
  | ETimer1 _ t => if decide (timer1_armed k = true /\ overdue t k) then 1 else 0
  | _ => 0
  end.
Fixpoint full_ticks (es : list event) (k : kernel) : nat :=
  match es with
  | [] => 0
  | e :: es => full_tick e k + match step e k with (Ret _, k1) => full_ticks es k1 | _ => 0 end
  end.

Lemma tick_ranks ec t k u k' id op op' :
  kernel_ok k -> lively k -> timer1_armed k = true -> overdue t k ->
  step (ETimer1 ec t) k = (Ret u, k') -> sends k !! id = Some op -> sends k' !! id = Some op' ->
  rank op' <= Nat.pred (rank op).
Proof.
  intros Hk Hl Harm Hover E Hop Hop'. cbn [step] in E. rewrite Harm in E.
  apply st_bind_inv in E as ([] & k1 & E1 & E). apply st_bind_inv in E as ([] & k2 & E2 & E3).
  injection E1 as <-. set (k1 := if m_quitting _ then _ else _) in *.
  assert (Hs1 : sends k1 = sends k) by (unfold k1; by destruct (m_quitting _)).
  assert (Hp1 : postprocess_list k1 = postprocess_list k) by (unfold k1; by destruct (m_quitting _)).
  assert (Hl1 : lively k1) by (unfold k1; destruct (m_quitting _); by eapply lively_same).
  destruct (costs_wake t Post (expired t) timed_out k1 tt k2 Hl1 E2) as [Hl2 _ _].
  destruct (costs_wake t Pre (expired t) timed_out k2 u k' Hl2 E3) as [_ A3 _].
  destruct (A3 id op' ltac:(done) Hop') as (op2 & Hop2 & Hr). apply st_bind_inv in E2 as (k0 & k0' & [= <- <-] & E2).
  destruct (wake_overdue t timed_out (postprocess_list k) _ k1 tt k2 [] Hl1
    ltac:(by rewrite app_nil_r) Hover E2) as [A2 R2].
  destruct (A2 id op2 ltac:(done) Hop2) as (op1 & Hop1 & Hr1). rewrite Hs1 in Hop1.
  assert (op1 = op) as -> by congruence. rewrite Hs1 in R2.
  destruct (s_stage op) as [i|] eqn:Est; [|unfold rank in Hr1 at 2; rewrite Est in Hr1; simpl in Hr1; lia].
  destruct Hk as (_ & [_ _ Hco _ _ _] & _). specialize (R2 id op op2 (Hco id op i I Hop Est) Hop Hop2). lia.
Qed.

(** ** Runs *)

Context `{!StdSortLaws H2}.

Lemma not_starting id e k : kernel_ok k -> started id k -> starts_send e k <> Some id.
Proof.
  intros (_ & _ & Hnd & Hid & _) Hs. destruct e; try done. simpl.
  destruct (tasks k !! n) as [t|] eqn:Et; [|done]. cbn [mbind option_bind]. intros Ht.
  assert (Hin : id ∈ omap sendto_id (tasks k)).
  { apply list_elem_of_omap. exists t. split; [|done]. by eapply list_elem_of_lookup_2. }
  unfold held in *. apply NoDup_app in Hnd as (_ & Hdis & _). destruct Hs as [[op Hop]|Hlog].
  - destruct (Hid id) as [Hnone _]; [apply elem_of_app; by left|]. congruence.
  - by eapply Hdis.
Qed.

Lemma step_ranks id e k u k' op' :
  kernel_ok k -> lively k -> started id k -> step e k = (Ret u, k') -> sends k' !! id = Some op' ->
  exists op, sends k !! id = Some op /\ rank op' <= rank op - full_tick e k.
Proof.
  intros Hk Hl Hs E Hop'. destruct (step_pays e k u k' Hl E) as [_ A _].
  destruct (A id op' (not_starting id e k Hk Hs) Hop') as (op & Hop & Hr). exists op. split; [done|].
  destruct e; simpl; try lia. case_decide as Ht; [|lia]. destruct Ht as [Harm Hover].
  pose proof (tick_ranks _ _ _ _ _ _ _ _ Hk Hl Harm Hover E Hop Hop'). lia.
Qed.

Lemma run_ranks id es k u k' op' :
  kernel_ok k -> lively k -> started id k -> run_events es k = (Ret u, k') -> sends k' !! id = Some op' ->
  exists op, sends k !! id = Some op /\ rank op' <= rank op - full_ticks es k.
Proof.
  revert k. induction es as [|e es IH]; intros k Hk Hl Hs; cbn [run_events full_ticks].
  { intros [= _ <-] Hop'. exists op'. split; [done|lia]. }
  intros ([] & k1 & E1 & E2)%st_bind_inv Hop'. rewrite E1.
  destruct (IH k1) as (op1 & Hop1 & Hr1); [by eapply step_kernel_ok|by apply (step_pays e k tt k1)
    |by eapply step_started|done|done|].
  destruct (step_ranks id e k tt k1 op1 Hk Hl Hs E1 Hop1) as (op & Hop & Hr). exists op. split; [done|lia].
Qed.

(** A send whose coroutine has started ends. *)
Lemma started_ends es es' k k' u u' id :
  run_events es init_kernel = (Ret u, k) -> run_events es' k = (Ret u', k') -> started id k ->
  3 <= full_ticks es' k -> idle k' ->
  id ∈ omap send_done (log k') \/
  exists op, sends k' !! id = Some op /\ is_quitting (node_if (s_interface op)) k'.
Proof.
  intros E E' Hs Hticks Hidle. pose proof (reach_ok _ _ _ E) as Hk.
  destruct (init_pays es u k E) as [Hl _].
  assert (Hs' : started id k') by by eapply run_started.
  assert (E2 : run_events (es ++ es') init_kernel = (Ret u', k'))
    by (rewrite run_events_app; unfold st_bind; by rewrite E).
  destruct Hs' as [[op' Hop']|]; [right|by left]. exists op'. split; [done|].
  destruct (proj2 (run_settled _ _ _ E2 Hidle) id op' Hop') as [|(r & w & Est & _)]; [done|].
  destruct (run_ranks id es' k u' k' op' Hk Hl Hs E' Hop') as (op & Hop & Hr). exfalso.
  assert (rank op <= 3).
  { unfold rank. pose proof (li_stage k Hl id op) as Hst. destruct (s_stage op) as [i|]; [|simpl; lia].
    specialize (Hst i Hop eq_refl). simpl. lia. }
  assert (0 < rank op') by (unfold rank; rewrite Est; simpl; lia). lia.
Qed.

(** C8: every send comes to an end: once its coroutine has started, whatever
    else happens -- other sends, packets, interfaces that come and go, in any
    order --, after three ticks of the timer that find the deadlines of the
    waiting sends passed, and once nothing is left to run, its handler has been
    called, unless its interface is shutting down. *)
Theorem sends_come_to_an_end es es' k k' u u' id :
  run_events es init_kernel = (Ret u, k) -> run_events es' k = (Ret u', k') ->
  id ∈ sent 0 es -> id ∉ omap sendto_id (tasks k) ->
  3 <= full_ticks es' k -> idle k' ->
  id ∈ omap send_done (log k') \/
  exists op, sends k' !! id = Some op /\ is_quitting (node_if (s_interface op)) k'.
Proof.
  intros E E' Hid Hstart. apply (started_ends es es' k k' u u' id E E').
  destruct (run_known id es init_kernel u k) as [|]; try done; [apply init_lively|apply init_recv_ok|by right].
Qed.
End progress.
