(* ===== verification/Unrouted.v ===== *)
(** * Unrouted: a kernel that is never given a route

    avkernel.cpp between the construction of the kernel and the first
    [add_route].  Whatever else happens, no send gets further than the first
    lines of [async_sendto_op]: each ends with network_unreachable, and none ever
    has a packet in a queue. *)

From S2P Require Import Prelude StdSort OpenSSL RsaChunk Regex Address CoroQueue Routing KeyStore Avif Kernel Effects Mailbox Hoare KernelInv Flow Prices Progress.

Section unrouted.
Context `{Build} `{OpenSSL} `{BoostRegex} `{StdSort} `{!AvifImpl H0}.

(** No route, no send that is suspended, none that ended otherwise. *)
Record unrouted (k : kernel) : Prop := {
  ur_routes : m_routes (table k) = [];
  ur_sends : sends k = ∅;
  ur_post : postprocess_list k = [];
  ur_pre : preprocess_list k = [];
  ur_log id ec : SendDone id ec ∈ log k -> ec = network_unreachable
}.

Lemma init_unrouted : unrouted init_kernel.
Proof. split; try done. by intros id ec ?%elem_of_nil. Qed.

Lemma unrouted_same k k' :
  m_routes (table k') = m_routes (table k) -> sends k' = sends k -> postprocess_list k' = postprocess_list k ->
  preprocess_list k' = preprocess_list k -> log k' = log k -> unrouted k -> unrouted k'.
Proof. intros Et Es Ep Ee El []. split; [congruence..|]. by rewrite El. Qed.

(** The code that keeps it so, by the rules of Effects. *)
Definition keeps_unrouted (k k' : kernel) : Prop := unrouted k -> unrouted k'.

Lemma keeps_same k k' :
  m_routes (table k') = m_routes (table k) -> sends k' = sends k -> postprocess_list k' = postprocess_list k ->
  preprocess_list k' = preprocess_list k -> log k' = log k -> keeps_unrouted k k'.
Proof. exact (unrouted_same k k'). Qed.

#[local] Instance keeps_unrouted_order : PreOrder keeps_unrouted.
Proof. split; [by intros k Hk|]. intros k1 k2 k3 H12 H23 Hk. by apply H23, H12. Qed.

Lemma keeps_unrouted_stable k k' : keeps_unrouted k k' -> unrouted k -> unrouted k'.
Proof. intros HR. exact HR. Qed.

Abbreviation unaided := (effects unrouted keeps_unrouted).

Lemma unaided_modify g : (forall k, unrouted k -> unrouted (g k)) -> unaided (st_modify g).
Proof. intros Hg. apply effects_modify. intros k _. exact (Hg k). Qed.

Lemma unaided_queue i op : unaided (with_queue i op).
Proof.
  intros k u k' _. unfold with_queue, st_bind at 1, get_if, read_k.
  destruct (ifs k !! i) as [a|]; [|done]. cbn [deref]. unfold st_bind at 1, st_lift.
  destruct (op (write_queue a)) as [r| | | |]; try done. intros [= _ <-]. by apply keeps_same.
Qed.

Ltac unaided_step :=
  lazymatch goal with
  | |- effects _ _ (st_bind _ _) => apply (effects_bind _ _ keeps_unrouted_stable); [|intros ?]
  | |- effects _ _ (with_queue _ _) => apply unaided_queue
  | |- effects _ _ (async_interface_write_packet _ _ _) => apply unaided_queue
  | |- effects _ _ (st_modify _) => apply unaided_modify; intros ?; by apply unrouted_same
  | |- effects _ _ (set_if _ _) => apply unaided_modify; intros ?; by apply unrouted_same
  | |- effects _ _ (io_post _) => apply unaided_modify; intros ?; by apply unrouted_same
  | |- effects _ _ (ask_ifname _) => intros k ? ? _ [= _ <-]; by apply keeps_same
  | |- effects _ _ (if ?b then _ else _) => destruct b
  | |- effects _ _ (match ?x with _ => _ end) => destruct x
  | |- effects _ ?R _ => apply (effects_still _ R); done
  end.

(** There is nobody to wake. *)
Lemma wake_no_waiters now l test ec k : waiters l k = [] -> wake now l test ec k = (Ret tt, k).
Proof.
  intros El. unfold wake, st_bind at 1, st_get at 1. rewrite El.
  cbn [length Nat.mul wake_loop]. unfold st_bind, st_get. by rewrite El.
Qed.

Lemma unaided_wake now l test ec : unaided (wake now l test ec).
Proof.
  intros k u k' Hk. rewrite wake_no_waiters by (destruct Hk; by destruct l). by intros [= _ <-].
Qed.

Lemma unaided_process now pkt i : unaided (process_recived_packet now pkt i).
Proof.
  unfold process_recived_packet. apply (effects_scope_exit _ _ keeps_unrouted_stable); [apply unaided_wake|].
  unaided_step. { unfold learn_key, kernel_add_key. repeat unaided_step. }
  unaided_step; [unaided_step|]. unaided_step.
  - unfold process_recived_packet_to_me, async_send_agmp_pkreply, kernel_add_key, push_recv. repeat unaided_step.
  - unfold forward_packet, kernel_select_route. repeat unaided_step.
Qed.

Lemma unaided_sendto_op now id target data : unaided (async_sendto_op now id target data).
Proof.
  intros k u k' Hk E Hk0. unfold async_sendto_op, st_bind, kernel_select_route, st_bind, read_k, select_route in E.
  rewrite (ur_routes k Hk) in E. injection E as _ <-. destruct Hk as [Hr Hs Hpo Hpr Hl].
  split; [done|simpl; by rewrite Hs, delete_empty|done|done|].
  intros id' ec [Hin|Hin%list_elem_of_singleton]%elem_of_app; [by apply (Hl id')|by injection Hin].
Qed.

Lemma unaided_writer i : unaided (interface_writer i).
Proof. unfold interface_writer. repeat unaided_step. Qed.

Lemma unaided_runner i : unaided (interface_runner i).
Proof.
  unfold interface_runner. unaided_step; [unaided_step|]. unaided_step; [|unaided_step].
  unfold runner_exit. unaided_step; [unaided_step|]. unaided_step; [unaided_step|].
  apply effects_reads; [done|]. intros t k u k' [Hk Ht] [= _ <-] _. revert Ht. unfold read_k. simpl.
  rewrite remove_interface_eq. intros [= <-]. destruct Hk as [Hr Hs Hpo Hpr Hl]. split; try done.
  simpl. by rewrite Hr.
Qed.

Lemma unaided_task now t : unaided (run_task now t).
Proof.
  destruct t as [pkt i|i|i|id target data|id|i ec v|id ec v]; cbn [run_task].
  - apply unaided_process.
  - apply unaided_runner.
  - apply unaided_writer.
  - apply unaided_sendto_op.
  - intros k u k' _ [= _ <-]. by apply keeps_same.
  - unfold writer_popped. repeat unaided_step.
  - apply unaided_modify. intros k [Hr Hs Hpo Hpr Hl]. split; try done.
    intros id' ec' [Hin|Hin%list_elem_of_singleton]%elem_of_app; [by apply (Hl id')|done].
Qed.

Lemma unaided_add_interface i : unaided (add_interface i).
Proof.
  unfold add_interface. repeat first [unaided_step | apply unaided_modify; intros k; apply unrouted_same; try done].
  simpl. unfold insert_interface. by case_match.
Qed.

(** A coroutine that is resumed after its packet was written is not a send's. *)
Lemma wrote_unrouted now i n ec k u k' :
  kernel_ok k -> unrouted k -> writer_wrote now i n ec k = (Ret u, k') -> unrouted k'.
Proof.
  intros (_ & [_ _ _ _ Hq _] & _) Hk. unfold writer_wrote, st_bind at 1, get_if, read_k.
  destruct (ifs k !! i) as [a|] eqn:Ea; [|done]. cbn [deref].
  destruct (writing a !! n) as [[pkt [id|]]|] eqn:Ew; [| |by intros [= _ <-]].
  - destruct (Hq i id) as (_ & op & Hop & _); [|by rewrite (ur_sends k Hk), lookup_empty in Hop].
    unfold queued. rewrite Ea. apply elem_of_app. left. apply elem_of_app. right.
    apply list_elem_of_omap. exists (pkt, Some id). split; [by eapply list_elem_of_lookup_2|done].
  - assert (Hm : unaided (set_if i (set_writing (delete n (writing a)) a) ;;- st_ret tt ;;- interface_writer i))
      by (unaided_step; [unaided_step|]; unaided_step; [unaided_step|apply unaided_writer]).
    intros E. by apply (Hm k u k' Hk E).
Qed.

(** Nobody adds a route. *)
Definition adds_no_route (e : event) : Prop := match e with EAddRoute _ _ _ _ => False | _ => True end.

Lemma step_unrouted e k u k' :
  adds_no_route e -> kernel_ok k -> unrouted k -> step e k = (Ret u, k') -> unrouted k'.
Proof.
  intros He Hok Hk E. assert (Hrun : forall A (m : ST kernel A) a k0 k1, unaided m -> unrouted k0 -> m k0 = (Ret a, k1) -> unrouted k1)
    by (intros A m a k0 k1 Hm H0' E0; by apply (Hm k0 a k1 H0' E0)).
  destruct e as [i|i|target gw name m|target data| | |n now|i avpkt now|i n ec now|ec now|ec now]; try done; cbn [step] in E.
  - injection E as _ <-. destruct (ifs k !! i); [done|]. by apply (unrouted_same k).
  - destruct (ifs k !! i); [|by injection E as _ <-]. eapply (Hrun _ _ _ k); [|done|exact E].
    unaided_step; [apply unaided_add_interface|unaided_step].
  - injection E as _ <-. by apply (unrouted_same k).
  - injection E as _ <-. by apply (unrouted_same k).
  - injection E as _ <-. by apply (unrouted_same k).
  - destruct (tasks k !! n) as [t|]; [|by injection E as _ <-].
    eapply (Hrun _ _ _ _ _ (unaided_task now t)); [|exact E]. by apply (unrouted_same k).
  - eapply (Hrun _ _ _ k); [|done|exact E]. unfold runner_read.
    repeat (unaided_step || apply unaided_wake || apply unaided_runner).
  - by eapply (wrote_unrouted now i n ec k).
  - destruct (timer1_armed k); [|by injection E as _ <-]. eapply Hrun; [| |exact E]; [|by apply (unrouted_same k)].
    unfold timer1_tick, timer1_start. repeat (unaided_step || apply unaided_wake).
    apply unaided_modify. intros k0 H0'. destruct (m_quitting k0); [done|]. by apply (unrouted_same k0).
  - destruct (timer2_armed k); [|by injection E as _ <-]. eapply Hrun; [| |exact E]; [|by apply (unrouted_same k)].
    unfold timer2_tick, timer2_start, kernel_purge. repeat unaided_step.
    apply unaided_modify. intros k0 H0'. destruct (m_quitting k0); [done|]. by apply (unrouted_same k0).
Qed.

Context `{!StdSortLaws H2}.

Lemma run_unrouted es k u k' :
  Forall adds_no_route es -> kernel_ok k -> unrouted k -> run_events es k = (Ret u, k') -> unrouted k'.
Proof.
  intros He. revert k. induction He as [|e es He _ IH]; intros k Hok Hk; cbn [run_events]; [by intros [= _ <-]|].
  intros ([] & k1 & E1 & E2)%st_bind_inv. apply (IH k1); [exact (step_kernel_ok e k tt k1 Hok E1)|exact (step_unrouted e k tt k1 He Hok Hk E1)|done].
Qed.

(** What that means for the sends: none has a packet that waits or is being
    written, and one that was asked for has not run yet or has failed. *)
Lemma unrouted_run es k u :
  Forall adds_no_route es -> run_events es init_kernel = (Ret u, k) ->
  m_routes (table k) = [] /\ (forall i, queued i k = []) /\
  (forall id ec, SendDone id ec ∈ log k -> ec = network_unreachable) /\
  forall id, known id k -> id ∈ omap sendto_id (tasks k) \/ SendDone id network_unreachable ∈ log k.
Proof.
  intros He E. pose proof (run_unrouted es _ u k He init_ok init_unrouted E) as [Hr Hs _ _ Hl].
  destruct (reach_ok es k u E) as (_ & [_ _ _ _ Hq _] & _). split_and!; [done| |done|].
  - intros i. destruct (queued i k) as [|id l] eqn:El; [done|].
    destruct (Hq i id) as (_ & op & Hop & _); [rewrite El; apply list_elem_of_here|by rewrite Hs, lookup_empty in Hop].
  - intros id [Hid|[[op Hop]|([id' ec|] & Hin & Hid)%list_elem_of_omap]]; [by left|by rewrite Hs, lookup_empty in Hop|right|done].
    injection Hid as ->. by rewrite <-(Hl id ec Hin).
Qed.
End unrouted.
