(* ===== verification/Network.v ===== *)
(** * Network: nodes wired together

    Several kernels, each with interfaces of its own, joined by links: what an
    interface writes its peer reads, or it is lost.  Nodes may fail.  Packets
    have a time to live and an answer is only made to a question, so what one
    message can set off in the whole network is bounded, whatever the routes. *)

From S2P Require Import Prelude StdSort OpenSSL RsaChunk Regex Address CoroQueue Routing KeyStore Avif Kernel Effects Hoare KernelInv Prices.

#[local] Open Scope nat_scope.

Section network.
Context `{Build} `{OpenSSL} `{BoostRegex} `{StdSort}.
(** The interfaces of each node, and where each of them leads. *)
Context (impl : nat -> AvifImpl H0) (peer : nat -> nat -> option (nat * nat)).

Record network := {
  nodes : gmap nat kernel;
  wire : list (nat * nat * avPacket)   (* on the way to an interface of a node *)
}.

Inductive net_event :=
  | NLocal (n : nat) (e : event)       (* anything but the arrival of a packet *)
  | NDeliver (j : nat) (now : Z)
  | NLose (j : nat)
  | NFail (n : nat).                   (* a node is gone *)

(** The packet that leaves interface [i] when its write ends. *)
Definition emitted (e : event) (k : kernel) : list (nat * avPacket) :=
  match e with
  | EWrote i m _ _ =>
      match ifs k !! i with
      | Some a => (fun v : write_request => (i, v.1)) <$> option_list (writing a !! m)
      | None => []
      end
  | _ => []
  end.

Definition sent_to (n : nat) (ip : nat * avPacket) : option (nat * nat * avPacket) :=
  (fun p => (p.1, p.2, ip.2)) <$> peer n ip.1.

(** An event of node [n]; a node whose handler fails is gone. *)
Definition node_step (n : nat) (e : event) (w : network) : network :=
  match nodes w !! n with
  | None => w
  | Some k =>
      {| nodes := match step (AvifImpl0 := impl n) e k with
           | (Ret _, k') => <[n := k']> (nodes w) | _ => delete n (nodes w) end;
         wire := wire w ++ omap (sent_to n) (emitted e k) |}
  end.

Definition net_step (ev : net_event) (w : network) : network :=
  match ev with
  | NLocal n (ERead _ (Some _) _) => w
  | NLocal n e => node_step n e w
  | NDeliver j now =>
      match wire w !! j with
      | Some (n, i, pkt) => node_step n (ERead i (Some pkt) now) {| nodes := nodes w; wire := delete j (wire w) |}
      | None => w
      end
  | NLose j => {| nodes := nodes w; wire := delete j (wire w) |}
  | NFail n => {| nodes := delete n (nodes w); wire := wire w |}
  end.

Fixpoint net_run (evs : list net_event) (w : network) : network :=
  match evs with [] => w | ev :: evs => net_run evs (net_step ev w) end.

(** A measure of events, added up along a run. *)
Fixpoint tally (f : net_event -> network -> nat) (evs : list net_event) (w : network) : nat :=
  match evs with [] => 0 | ev :: evs => f ev w + tally f evs (net_step ev w) end.

(** ** What a run costs *)

Section prices.
Context `{HP : Prices} `{!PricesLaws}.
Variable p_tx : nat.
(** A packet that leaves pays for its way and for its arrival. *)
Hypothesis wrote_pays_wire : forall pkt, p_tx + (p_run + p_process pkt) <= p_wrote pkt.

Definition net_potential (w : network) : nat :=
  map_sum potential (nodes w) + sum_list_with (fun m => p_run + p_process m.2) (wire w).

Definition net_ok (w : network) : Prop := map_Forall (fun _ k => lively k) (nodes w).

Definition local_spent (e : event) (k : kernel) : nat :=
  match e with
  | ERun m _ => if decide (m < length (tasks k)) then p_run else 0
  | EWrote _ _ _ _ => length (emitted e k) * p_tx
  | _ => 0
  end.

Lemma emitted_price n e k :
  local_spent e k + sum_list_with (fun m => p_run + p_process m.2) (omap (sent_to n) (emitted e k))
    <= spent e k.
Proof.
  destruct e as [| | | | | |m now| |i m ec now| |]; simpl; try lia.
  destruct (ifs k !! i) as [a|]; [|simpl; lia]. destruct (writing a !! m) as [v|]; [|simpl; lia].
  cbn [option_list fmap list_fmap length omap list_omap]. pose proof (wrote_pays_wire v.1).
  unfold sent_to. simpl. destruct (peer n i); simpl; lia.
Qed.

Lemma spent_held e k : spent e k <= potential k.
Proof.
  destruct e as [| | | | | |m now| |i m ec now| |]; simpl; try lia.
  - case_decide as Hm; [|lia]. apply lookup_lt_is_Some in Hm as [t Ht].
    unfold potential, held_price. rewrite (delete_Permutation _ _ _ Ht) at 1. simpl.
    destruct (run_task_pays (AvifImpl0 := impl 0) now t) as (c & Hc & _). lia.
  - destruct (ifs k !! i) as [a|] eqn:Ea; [|lia]. destruct (writing a !! m) as [v|] eqn:Ev; [|lia].
    unfold potential, held_price. rewrite (map_sum_delete _ _ _ _ Ea). unfold p_if.
    rewrite (delete_Permutation (writing a) _ _ Ev) at 1. simpl. pose proof (writing_pays v.1). lia.
Qed.

Lemma node_step_pays n e w k :
  net_ok w -> nodes w !! n = Some k ->
  net_ok (node_step n e w) /\
  net_potential (node_step n e w) + local_spent e k <= net_potential w + charge e.
Proof.
  intros Hok Hn. unfold node_step. rewrite Hn. pose proof (Hok n k Hn) as Hk.
  pose proof (emitted_price n e k). pose proof (spent_held e k). unfold net_potential. simpl.
  rewrite sum_list_with_app, (map_sum_delete _ (nodes w) _ _ Hn).
  destruct (step e k) as [[u|x| | |] k'] eqn:E; try (split; [by apply map_Forall_delete|simpl; lia]).
  destruct (step_pays e k u k' Hk E) as [L _ P]. split; [by apply map_Forall_insert_2|].
  rewrite map_sum_insert. lia.
Qed.

(** Events of the network. *)
Definition net_charge (ev : net_event) : nat :=
  match ev with NLocal _ (ERead _ (Some _) _) => 0 | NLocal _ e => charge e | _ => 0 end.
Definition net_spent (ev : net_event) (w : network) : nat :=
  match ev with
  | NLocal n e => match nodes w !! n with Some k => local_spent e k | None => 0 end
  | NDeliver j _ => if decide (j < length (wire w)) then p_run else 0
  | NLose _ | NFail _ => 0
  end.

Lemma wire_delete j m w :
  wire w !! j = Some m ->
  net_potential w =
    net_potential {| nodes := nodes w; wire := delete j (wire w) |} + (p_run + p_process m.2).
Proof.
  intros Hm. unfold net_potential. simpl. rewrite (delete_Permutation _ _ _ Hm) at 1. simpl. lia.
Qed.

Lemma net_step_pays ev w :
  net_ok w ->
  net_ok (net_step ev w) /\ net_potential (net_step ev w) + net_spent ev w <= net_potential w + net_charge ev.
Proof.
  intros Hok. destruct ev as [n e|j now|j|n]; cbn [net_spent].
  - assert (Hnode : net_charge (NLocal n e) = charge e ->
      net_ok (node_step n e w) /\ net_potential (node_step n e w) +
        match nodes w !! n with Some k => local_spent e k | None => 0 end <= net_potential w + charge e).
    { intros _. destruct (nodes w !! n) as [k|] eqn:Hn; [by apply node_step_pays|].
      unfold node_step. rewrite Hn. split; [done|lia]. }
    destruct e as [| | | | | | |i [pkt|] now| | |]; try by apply Hnode.
    cbn [net_step net_charge]. split; [done|]. destruct (nodes w !! n); simpl; lia.
  - cbn [net_step net_charge]. destruct (wire w !! j) as [[[n i] pkt]|] eqn:Ej.
    + pose proof (wire_delete j _ w Ej) as Hw. set (w1 := {| nodes := nodes w; wire := delete j (wire w) |}) in *.
      apply lookup_lt_Some in Ej. rewrite decide_True by done. simpl in Hw.
      destruct (nodes w !! n) as [k|] eqn:Hn.
      * destruct (node_step_pays n (ERead i (Some pkt) now) w1 k Hok Hn) as [Hok' P]. split; [done|].
        simpl in P. lia.
      * unfold node_step. change (nodes w1) with (nodes w). rewrite Hn. split; [exact Hok|lia].
    + apply lookup_ge_None in Ej. rewrite decide_False by lia. split; [done|lia].
  - cbn [net_step net_charge]. split; [exact Hok|].
    destruct (wire w !! j) as [m|] eqn:Ej; [rewrite (wire_delete j m w Ej); lia|].
    apply lookup_ge_None in Ej. unfold net_potential. simpl. rewrite delete_take_drop, take_ge, drop_ge, app_nil_r by lia. lia.
  - cbn [net_step net_charge]. split; [by apply map_Forall_delete|]. unfold net_potential. simpl.
    destruct (nodes w !! n) as [k|] eqn:Hn; [|by rewrite delete_id by done; lia].
    rewrite (map_sum_delete _ (nodes w) _ _ Hn). lia.
Qed.

Lemma net_run_pays evs w :
  net_ok w ->
  net_potential (net_run evs w) + tally net_spent evs w <= net_potential w + sum_list_with net_charge evs.
Proof.
  revert w. induction evs as [|ev evs IH]; intros w Hok; cbn [net_run tally sum_list_with]; [lia|].
  destruct (net_step_pays ev w Hok) as [Hok' P]. specialize (IH _ Hok'). lia.
Qed.
End prices.

(** ** A network that starts with [size] nodes *)

Definition init_network (size : nat) : network :=
  {| nodes := gset_to_gmap init_kernel (set_seq 0 size); wire := [] |}.

Lemma init_potential `{Prices} size : net_potential (init_network size) = 0.
Proof.
  unfold net_potential. simpl. rewrite Nat.add_0_r. unfold init_network. simpl.
  assert (Hm : forall m : gmap nat kernel, map_Forall (fun _ k => potential k = 0) m -> map_sum potential m = 0).
  { intros m. induction m as [|i k m Hi IH] using map_ind; intros Hm; [apply map_sum_empty|].
    rewrite map_sum_insert, delete_id by done. apply map_Forall_insert in Hm as [Hk Hm]; [|done].
    simpl in Hk. rewrite Hk. by apply IH. }
  apply Hm. intros n k Hk%lookup_gset_to_gmap_Some. destruct Hk as [_ <-].
  unfold potential, held_price. simpl. by rewrite !map_sum_empty.
Qed.

Lemma init_net_ok size : net_ok (init_network size).
Proof. intros n k Hk%lookup_gset_to_gmap_Some. destruct Hk as [_ <-]. apply init_lively. Qed.

(** ** What is counted *)

Definition transmitted (ev : net_event) (w : network) : nat :=
  match ev with
  | NLocal n e => match nodes w !! n with Some k => length (emitted e k) | None => 0 end
  | _ => 0
  end.
(** Tasks run, writes completed and packets delivered. *)
Definition worked (ev : net_event) (w : network) : nat :=
  match ev with
  | NLocal n (ERun m _) =>
      match nodes w !! n with Some k => if decide (m < length (tasks k)) then 1 else 0 | None => 0 end
  | NLocal _ _ => transmitted ev w
  | NDeliver j _ => if decide (j < length (wire w)) then 1 else 0
  | NLose _ | NFail _ => 0
  end.

Definition local (f : event -> nat) (ev : net_event) : nat := match ev with NLocal _ e => f e | _ => 0 end.
Definition locals (f : event -> nat) (evs : list net_event) : nat := sum_list_with (local f) evs.

Lemma tally_le f g evs w : (forall ev w, f ev w <= g ev w) -> tally f evs w <= tally g evs w.
Proof.
  intros Hfg. revert w. induction evs as [|ev evs IH]; intros w; cbn [tally]; [done|].
  specialize (Hfg ev w). specialize (IH (net_step ev w)). lia.
Qed.

(** Prices in transmissions: a packet may go as far as its time to live lets
    it, and a question may be answered. *)
Definition answer_price (n : nat) (pkt : avPacket) : nat :=
  if String.eqb (upperlayerpotocol pkt) "pkask" then n else 0.
Definition hops (pkt : avPacket) : nat := Z.to_nat (time_to_live pkt - 1).

Definition transmission_prices : Prices :=
  let process pkt := answer_price 64 pkt + hops pkt in
  {| p_run := 0; p_handler := 0; p_ask := 128; p_data := 64; p_recv := 0; p_item pkt := 1 + process pkt;
     p_writing pkt := 1 + process pkt; p_wrote pkt := 1 + process pkt; p_process := process |}.

(** Prices in steps: four for a hop. *)
Definition step_prices : Prices :=
  let process pkt := 2 + answer_price 256 pkt + 4 * hops pkt in
  {| p_run := 1; p_handler := 1; p_ask := 513; p_data := 257; p_recv := 1; p_item pkt := 3 + process pkt;
     p_writing pkt := 3 + process pkt; p_wrote pkt := 2 + process pkt; p_process := process |}.

Lemma answer_price_of n pkt protocol :
  upperlayerpotocol pkt = protocol -> answer_price n pkt = if String.eqb protocol "pkask" then n else 0.
Proof. by intros <-. Qed.

Lemma hop_spends pkt :
  (1 < time_to_live pkt)%Z -> hops pkt = S (hops (set_time_to_live pkt (time_to_live pkt - 1))).
Proof. unfold hops. simpl. lia. Qed.

Lemma hops_64 pkt : time_to_live pkt = 64%Z -> hops pkt = 63.
Proof. unfold hops. by intros ->. Qed.

Lemma transmission_laws : PricesLaws (H := transmission_prices).
Proof.
  split; cbn [p_run p_handler p_ask p_data p_recv p_item p_writing p_wrote p_process transmission_prices];
    try (intros; lia).
  - intros pkt [Hu Ht]. rewrite (answer_price_of _ _ _ Hu), (hops_64 _ Ht). simpl. lia.
  - intros pkt [Hu Ht]. rewrite (answer_price_of _ _ _ Hu), (hops_64 _ Ht). simpl. lia.
  - intros pkt Ht. rewrite (hop_spends _ Ht). change (answer_price 64 (set_time_to_live _ _)) with (answer_price 64 pkt). lia.
  - intros pkt reply Hp [Hu Ht]. rewrite (answer_price_of _ _ _ Hp), (answer_price_of _ _ _ Hu), (hops_64 _ Ht).
    simpl. lia.
Qed.

Lemma step_laws : PricesLaws (H := step_prices).
Proof.
  split; cbn [p_run p_handler p_ask p_data p_recv p_item p_writing p_wrote p_process step_prices];
    try (intros; lia).
  - intros pkt [Hu Ht]. rewrite (answer_price_of _ _ _ Hu), (hops_64 _ Ht). simpl. lia.
  - intros pkt [Hu Ht]. rewrite (answer_price_of _ _ _ Hu), (hops_64 _ Ht). simpl. lia.
  - intros pkt Ht. rewrite (hop_spends _ Ht). change (answer_price 256 (set_time_to_live _ _)) with (answer_price 256 pkt). lia.
  - intros pkt reply Hp [Hu Ht]. rewrite (answer_price_of _ _ _ Hp), (answer_price_of _ _ _ Hu), (hops_64 _ Ht).
    simpl. lia.
Qed.

(** What comes from outside, priced by kind. *)
Lemma charges_by_kind `{Prices} c1 c2 c3 evs :
  p_run + p_send <= c1 -> p_run + (p_run + p_handler) <= c2 -> p_run <= c3 ->
  sum_list_with net_charge evs <=
    c1 * locals is_sendto evs + c2 * locals is_add evs + c3 * locals is_recvfrom evs.
Proof.
  intros H1' H2' H3'. unfold locals. induction evs as [|ev evs IH]; cbn [sum_list_with]; [lia|].
  assert (Hev : net_charge ev <= c1 * local is_sendto ev + c2 * local is_add ev + c3 * local is_recvfrom ev); [|lia].
  destruct ev as [n []|j now|j|n]; simpl; try lia. destruct avpkt; simpl; lia.
Qed.

Lemma tally_priced (P : Prices) (L : PricesLaws) p_tx f size evs :
  (forall pkt, p_tx + (p_run + p_process pkt) <= p_wrote pkt) ->
  (forall ev w, f ev w <= net_spent p_tx ev w) ->
  tally f evs (init_network size) <= sum_list_with net_charge evs.
Proof.
  intros Htx Hf. pose proof (net_run_pays p_tx Htx evs (init_network size) (init_net_ok size)) as P'.
  rewrite init_potential in P'. pose proof (tally_le f (net_spent p_tx) evs (init_network size) Hf). lia.
Qed.

Lemma transmissions_bounded size evs :
  tally transmitted evs (init_network size) <= 448 * locals is_sendto evs.
Proof.
  etransitivity.
  - apply (tally_priced transmission_prices transmission_laws 1); [intros pkt; simpl; lia|].
    intros [n e|j now|j|n] w; simpl; try lia. destruct (nodes w !! n) as [k|]; [|lia]. destruct e; simpl; lia.
  - etransitivity; [by apply (charges_by_kind (H3 := transmission_prices) 448 0 0)|lia].
Qed.

(** C11: no storms in the network: however the nodes are wired and whatever their
    routes, loops included, in whatever order things happen, whatever is lost and
    whichever nodes fail, a message sets off at most 448 transmissions of
    packets -- 64 for itself and 128 for each of three questions and their
    answers -- and at most 1797 steps in all the nodes together, to which 3 come
    for every interface added and 1 for every receive: so the network falls silent. *)
Theorem network_falls_silent size evs :
  tally transmitted evs (init_network size) <= 448 * locals is_sendto evs /\
  tally worked evs (init_network size) <=
    1797 * locals is_sendto evs + 3 * locals is_add evs + locals is_recvfrom evs.
Proof.
  split.
  - apply transmissions_bounded.
  - etransitivity.
    + apply (tally_priced step_prices step_laws 1); [intros pkt; simpl; lia|].
      intros [n e|j now|j|n] w; simpl; try lia. destruct e; simpl; destruct (nodes w !! n) as [k|]; simpl; lia.
    + etransitivity; [by apply (charges_by_kind (H3 := step_prices) 1797 3 1)|].
      rewrite Nat.mul_1_l. done.
Qed.
End network.
