(* ===== verification/KernelSpec.v ===== *)
(** * KernelSpec: what the kernel does with a packet

    Equations for [process_recived_packet] on each of its branches: a packet
    for this node is delivered, answered or learned from, any other is
    forwarded or dropped.  The right-hand sides are built from the specification
    of the queues ([push_spec]) and of the key store ([add_RSA_pubkey]). *)

From S2P Require Import Prelude StdSort OpenSSL RsaChunk Regex Address CoroQueue Routing KeyStore Avif Kernel Hoare KernelInv.

Section spec.
Context `{Build} `{OpenSSL} `{BoostRegex} `{StdSort} `{!AvifImpl H0} `{!StdSortLaws H2}.

(** The state after a packet has been put in the queue of interface [i]. *)
Definition queue_packet (i : nat) (pkt : avPacket) (handler : option nat) (k : kernel) : kernel :=
  match ifs k !! i with
  | Some a =>
      let r := push_spec (pkt, handler) (write_queue a) in
      set_tasks (tasks k ++ (r.2 ≫= pop_task i)) (set_ifs (<[i := set_write_queue r.1 a]> (ifs k)) k)
  | None => k
  end.

(** The state after a message has been put in the receive queue. *)
Definition deliver (v : string * bytes) (k : kernel) : kernel :=
  let r := push_spec v (m_recv_buffer k) in
  set_tasks (tasks k ++ (r.2 ≫= recv_task)) (set_recv r.1 k).

(** The state after the source's key has been learned from the packet: only if
    none is stored. *)
Definition learned (now : Z) (pkt : avPacket) (k : kernel) : kernel :=
  let add := av_address_to_string (src pkt) in
  match trusted_pubkey k !! add, publickey pkt with
  | None, Some n => set_keys (add_RSA_pubkey add (RSA_of_n n) (now + hours 500) (trusted_pubkey k)) k
  | _, _ => k
  end.

(** No send is waiting for a key of the packet's source. *)
Definition nobody_waits (pkt : avPacket) (k : kernel) : Prop :=
  Forall (fun w => pred_target w <> av_address_to_string (src pkt)) (postprocess_list k).

Lemma write_eq i pkt handler k a :
  static_ok k -> ifs k !! i = Some a ->
  async_interface_write_packet i pkt handler k = (Ret tt, queue_packet i pkt handler k).
Proof.
  intros Hs Ha. unfold async_interface_write_packet, with_queue, st_bind, get_if, read_k, st_lift.
  rewrite Ha. cbn [deref]. rewrite push_eq by apply (ok_ifs k Hs i a Ha).
  unfold queue_packet. by rewrite Ha.
Qed.

Lemma push_recv_eq v k : static_ok k -> push_recv v k = (Ret tt, deliver v k).
Proof.
  intros Hs. unfold push_recv, st_bind, read_k. by rewrite push_eq by apply Hs.
Qed.

Lemma find_stored address (st : gmap string AVdbitem) :
  keystore_ok st ->
  (st !! address = None /\ find_RSA_pubkey address st = Ret None) \/
  exists item key, st !! address = Some item /\ find_RSA_pubkey address st = Ret (Some key).
Proof.
  intros Hst. unfold find_RSA_pubkey. destruct (st !! address) as [item|] eqn:E; [|by left].
  right. destruct (Hst address item E) as (_ & Hne & _).
  destruct (keys item) as [|k0 ks]; [done|]. eauto.
Qed.

Lemma learn_key_eq now pkt k : static_ok k -> learn_key now pkt k = (Ret tt, learned now pkt k).
Proof.
  intros Hs. unfold learn_key, st_bind, kernel_find_key, read_k, learned.
  destruct (find_stored (av_address_to_string (src pkt)) _ (ok_keys k Hs))
    as [[E1 E2]|(item & key & E1 & E2)]; rewrite E1, E2; by destruct (publickey pkt).
Qed.

Lemma learned_static now pkt k : static_ok k -> static_ok (learned now pkt k).
Proof.
  intros Hs. unfold learned. repeat case_match; try done. destruct Hs. split; simpl; try done.
  - by apply add_RSA_pubkey_ok.
  - by apply add_peer.
Qed.

Lemma learned_members now pkt k :
  table (learned now pkt k) = table k /\ ifs (learned now pkt k) = ifs k /\
  postprocess_list (learned now pkt k) = postprocess_list k /\
  m_recv_buffer (learned now pkt k) = m_recv_buffer k /\
  names_asked (learned now pkt k) = names_asked k /\
  next_node (learned now pkt k) = next_node k /\ next_op (learned now pkt k) = next_op k.
Proof. unfold learned. by repeat case_match. Qed.

Lemma wake_loop_none fuel now test ec it k :
  (forall w, w ∈ postprocess_list k -> test w k = Ret false) ->
  (it <= length (postprocess_list k) < it + fuel)%nat ->
  wake_loop fuel now Post test ec it k = (Ret tt, k).
Proof.
  intros Ht. revert it. induction fuel as [|fuel IH]; intros it Hf.
  - lia.
  - cbn [wake_loop]. unfold st_bind at 1, st_get. cbn [waiters].
    destruct (postprocess_list k !! it) as [w|] eqn:E; [|done].
    unfold st_bind, st_lift. rewrite (Ht w) by (by eapply list_elem_of_lookup_2).
    apply lookup_lt_Some in E. apply IH. lia.
Qed.

Lemma wake_nobody now pkt ec k : nobody_waits pkt k -> wake now Post (pred pkt) ec k = (Ret tt, k).
Proof.
  intros Hn. unfold wake, st_bind at 1, st_get. apply wake_loop_none; [|cbn [waiters]; lia].
  intros w Hw. unfold nobody_waits in Hn. rewrite Forall_forall in Hn. specialize (Hn w Hw).
  unfold pred. destruct (String.eqb_spec (av_address_to_string (src pkt)) (pred_target w)); congruence.
Qed.

(** The body of [process_recived_packet] once the destination is known. *)
Definition is_mine (pkt : avPacket) (k : kernel) : outcome bool :=
  is_to_me_in (dest pkt) (map_iter (m_avifs (table k))).

Lemma process_wake_eq now pkt i k b k2 k' :
  static_ok k -> is_mine pkt k = Ret b ->
  (if b then process_recived_packet_to_me now pkt i else forward_packet pkt) (learned now pkt k)
    = (Ret tt, k2) ->
  wake now Post (pred pkt) ec_success k2 = (Ret tt, k') ->
  process_recived_packet now pkt i k = (Ret tt, k').
Proof.
  intros Hs Hb E Hw. destruct (learned_members now pkt k) as (Ht & _).
  unfold process_recived_packet, scope_exit.
  rewrite (st_bind_Ret _ _ k tt (learned now pkt k)) by by apply learn_key_eq.
  rewrite (st_bind_Ret _ _ _ b (learned now pkt k)).
  2:{ unfold is_to_me, read_k. rewrite Ht. by f_equal. }
  rewrite E. unfold st_bind. by rewrite Hw.
Qed.

Lemma process_eq now pkt i k b k' :
  static_ok k -> nobody_waits pkt k -> is_mine pkt k = Ret b ->
  (if b then process_recived_packet_to_me now pkt i else forward_packet pkt) (learned now pkt k)
    = (Ret tt, k') ->
  postprocess_list k' = postprocess_list k ->
  process_recived_packet now pkt i k = (Ret tt, k').
Proof.
  intros Hs Hn Hb E Hp. eapply process_wake_eq; [done..|].
  apply wake_nobody. unfold nobody_waits. by rewrite Hp.
Qed.

Lemma delivered_eq now pkt i k n c stage1 mine data :
  static_ok k -> nobody_waits pkt k -> is_mine pkt k = Ret true ->
  upperlayerpotocol pkt = "avim" -> publickey pkt = Some n -> payload pkt = Some c ->
  RSA_public_decrypt (RSA_of_n n) c = Ret stage1 -> get_rsa_key i = Some mine ->
  RSA_private_decrypt mine stage1 = Ret data ->
  process_recived_packet now pkt i k =
    (Ret tt, deliver (av_address_to_string (src pkt), data) (learned now pkt k)).
Proof.
  intros Hs Hn Hm Hu Hpk Hpl Hd1 Hmine Hd2. eapply process_eq; [done..| |].
  - unfold process_recived_packet_to_me. rewrite Hu, Hpk, Hpl. cbn [default from_option String.eqb].
    unfold st_bind, st_lift. simpl. rewrite Hd1, Hmine. simpl. rewrite Hd2.
    apply push_recv_eq. by apply learned_static.
  - simpl. apply learned_members.
Qed.

(** C13: a packet of protocol "avim" for this node, whose payload opens with the
    public key it carries and then with the receiving interface's private key,
    ends in the receive queue as (source address, text), exactly once and
    behind what is queued; the source's key is learned if none is stored, and
    nothing else changes. *)
Theorem packet_delivered now pkt i k n c stage1 mine data :
  static_ok k -> nobody_waits pkt k -> is_mine pkt k = Ret true ->
  upperlayerpotocol pkt = "avim" -> publickey pkt = Some n -> payload pkt = Some c ->
  RSA_public_decrypt (RSA_of_n n) c = Ret stage1 -> get_rsa_key i = Some mine ->
  RSA_private_decrypt mine stage1 = Ret data ->
  process_recived_packet now pkt i k =
    (Ret tt, deliver (av_address_to_string (src pkt), data) (learned now pkt k)).
Proof. apply delivered_eq. Qed.

Lemma select_route_node address k name nd :
  static_ok k -> select_route address (table k) = Ret (Some (name, nd)) ->
  is_Some (ifs k !! node_if nd).
Proof.
  intros Hs E. destruct (select_in_spec address _ _ (routes_sorted _ (ok_table k Hs))
    (routes_known _ (ok_table k Hs))) as [[E' _]|(r & nd' & E' & _ & _ & Hl & _)];
    unfold select_route in E; rewrite E in E'; [done|]. injection E' as -> ->.
  by apply (ok_nodes k Hs (ifname r)).
Qed.

Lemma forwarded_eq now pkt i k :
  static_ok k -> nobody_waits pkt k -> is_mine pkt k = Ret false ->
  exists o, select_route (av_address_to_string (dest pkt)) (table k) = Ret o /\
  match o with
  | Some (name, nd) =>
      if time_to_live pkt <=? 1 then
        process_recived_packet now pkt i k = (Ret tt, learned now pkt k)
      else
        process_recived_packet now pkt i k = (Ret tt,
          queue_packet (node_if nd) (set_time_to_live pkt (time_to_live pkt - 1)) None
            (with_counters (S (names_asked k)) (next_node k) (next_op k) (learned now pkt k)))
  | None => process_recived_packet now pkt i k = (Ret tt, learned now pkt k)
  end.
Proof.
  intros Hs Hn Hm. destruct (select_route_total (av_address_to_string (dest pkt)) _ (ok_table k Hs))
    as [o Ho]. exists o. split; [done|].
  destruct (learned_members now pkt k) as (Ht & Hi & Hp & _ & En & Eno & Eop).
  pose proof (process_eq now pkt i k false) as Heq.
  assert (Hdrop : time_to_live pkt <= 1 \/ o = None ->
    process_recived_packet now pkt i k = (Ret tt, learned now pkt k)).
  { intros Hd. apply Heq; try done. unfold forward_packet.
    destruct (Z.leb_spec (time_to_live pkt) 1); [done|]. destruct Hd as [| ->]; [lia|].
    unfold st_bind, kernel_select_route, st_bind, read_k. cbn [dest set_time_to_live].
    by rewrite Ht, Ho. }
  destruct o as [[name nd]|]; [|by apply Hdrop; right].
  destruct (Z.leb_spec (time_to_live pkt) 1) as [|Httl]; [by apply Hdrop; left|].
  destruct (select_route_node _ _ _ _ Hs Ho) as [a Ha]. apply Heq; try done.
  - unfold forward_packet. destruct (Z.leb_spec (time_to_live pkt) 1); [lia|].
    unfold st_bind at 1, kernel_select_route, st_bind at 1, read_k. cbn [dest set_time_to_live].
    rewrite Ht, Ho. simpl. unfold st_bind, ask_ifname.
    erewrite write_eq; [|destruct (learned_static now pkt k Hs); by split|simpl; by rewrite Hi].
    by rewrite En, Eno, Eop.
  - unfold queue_packet. simpl. rewrite Hi, Ha. exact Hp.
Qed.

(** C14: a packet that is not for this node: with a ttl of at most 1, or with no
    route to its destination, it is dropped; otherwise exactly one copy is
    queued, on the interface of the best route, with its ttl one less and
    everything else as it came. *)
Theorem packet_forwarded now pkt i k :
  static_ok k -> nobody_waits pkt k -> is_mine pkt k = Ret false ->
  exists o, select_route (av_address_to_string (dest pkt)) (table k) = Ret o /\
  match o with
  | Some (name, nd) =>
      if time_to_live pkt <=? 1 then
        process_recived_packet now pkt i k = (Ret tt, learned now pkt k)
      else
        process_recived_packet now pkt i k = (Ret tt,
          queue_packet (node_if nd) (set_time_to_live pkt (time_to_live pkt - 1)) None
            (with_counters (S (names_asked k)) (next_node k) (next_op k) (learned now pkt k)))
  | None => process_recived_packet now pkt i k = (Ret tt, learned now pkt k)
  end.
Proof. apply forwarded_eq. Qed.

(** ** Key exchange *)

Definition pkreply_packet (me dst : avAddress) (cert : X509) : avPacket :=
  {| src := me; dest := dst; upperlayerpotocol := "pkreply"; payload := Some (i2d_X509 cert);
     publickey := None; time_to_live := 64 |}.

Definition pkask_packet (me dst : avAddress) : avPacket :=
  {| src := me; dest := dst; upperlayerpotocol := "pkask"; payload := None;
     publickey := None; time_to_live := 64 |}.

Lemma answered_eq `{!BoostRegexLaws H1} now pkt i k me cert :
  static_ok k -> nobody_waits pkt k -> is_mine pkt k = Ret true ->
  upperlayerpotocol pkt = "pkask" -> address_ok (src pkt) ->
  if_address i = Some me -> get_cert i = Some cert -> is_Some (ifs k !! i) ->
  process_recived_packet now pkt i k =
    (Ret tt, queue_packet i (pkreply_packet me (src pkt) cert) None (learned now pkt k)).
Proof.
  intros Hs Hn Hm Hu Hsrc Hme Hcert [a Ha].
  destruct (learned_members now pkt k) as (Ht & Hi & Hp & _).
  eapply process_eq; [done..| |].
  - unfold process_recived_packet_to_me. rewrite Hu. simpl.
    unfold async_send_agmp_pkreply, st_bind, st_lift. rewrite Hme. cbn [deref].
    rewrite (proj2 (parse_print_iff (src pkt)) Hsrc), Hcert. cbn [deref].
    by erewrite write_eq; [|by apply learned_static|by rewrite Hi].
  - unfold queue_packet. rewrite Hi, Ha. exact Hp.
Qed.

Lemma reply_to_me_eq now pkt i k crt pkey key :
  upperlayerpotocol pkt = "pkreply" ->
  d2i_X509 (default [] (payload pkt)) = Some crt -> X509_get_pubkey crt = Some pkey ->
  EVP_PKEY_get1_RSA pkey = Some key ->
  process_recived_packet_to_me now pkt i k =
    (Ret tt, set_keys (add_RSA_pubkey (av_address_to_string (src pkt)) key (now + hours 500)
                        (trusted_pubkey k)) k).
Proof.
  intros Hu Hcrt Hpk Hkey. unfold process_recived_packet_to_me. rewrite Hu.
  cbn [String.eqb Ascii.eqb Bool.eqb]. unfold st_bind, st_lift. rewrite Hcrt. cbn [deref].
  rewrite Hpk. cbn [deref]. by rewrite Hkey.
Qed.

(** A "pkask" for this node is answered with one "pkreply" on the interface
    it came by, addressed to its source, from the interface's own address, with
    the interface's certificate as its payload. *)
Theorem pkask_answered `{!BoostRegexLaws H1} now pkt i k me cert :
  static_ok k -> nobody_waits pkt k -> is_mine pkt k = Ret true ->
  upperlayerpotocol pkt = "pkask" -> address_ok (src pkt) ->
  if_address i = Some me -> get_cert i = Some cert -> is_Some (ifs k !! i) ->
  process_recived_packet now pkt i k =
    (Ret tt, queue_packet i (pkreply_packet me (src pkt) cert) None (learned now pkt k)).
Proof. by apply answered_eq. Qed.

(** C32: a "pkreply" for this node makes the key of whatever certificate it
    carries the stored key of its source address for 500 hours: no signature
    and no name in the certificate is looked at, and earlier keys stay. *)
Theorem pkreply_trusted now pkt i k crt pkey key :
  static_ok k -> nobody_waits pkt k -> is_mine pkt k = Ret true ->
  upperlayerpotocol pkt = "pkreply" ->
  d2i_X509 (default [] (payload pkt)) = Some crt -> X509_get_pubkey crt = Some pkey ->
  EVP_PKEY_get1_RSA pkey = Some key ->
  let k1 := learned now pkt k in
  process_recived_packet now pkt i k =
    (Ret tt, set_keys (add_RSA_pubkey (av_address_to_string (src pkt)) key (now + hours 500)
                        (trusted_pubkey k1)) k1).
Proof.
  intros Hs Hn Hm Hu Hcrt Hpk Hkey k1. eapply process_eq; [done..| |].
  - by eapply reply_to_me_eq.
  - simpl. apply learned_members.
Qed.

(** C34: one packet from anywhere stops the process: a "pkreply" whose payload
    is not a certificate dereferences a null pointer, and an "avim" packet with
    a payload and no public key takes the address of an element of an empty
    vector (a key without a modulus has size 0). *)
Theorem hostile_packet_ub now pkt i k b c :
  static_ok k -> is_mine pkt k = Ret true ->
  (upperlayerpotocol pkt = "pkreply" /\ d2i_X509 (default [] (payload pkt)) = None) \/
  (upperlayerpotocol pkt = "avim" /\ publickey pkt = None /\ payload pkt = Some (b :: c) /\
   zlen (b :: c) <= INT_MAX /\ RSA_size (RSA_of_n []) = 0) ->
  (process_recived_packet now pkt i k).1 = UB.
Proof.
  intros Hs Hm Hbad. destruct (learned_members now pkt k) as (Ht & _).
  unfold process_recived_packet, scope_exit.
  rewrite (st_bind_Ret _ _ k tt (learned now pkt k)) by by apply learn_key_eq.
  rewrite (st_bind_Ret _ _ _ true (learned now pkt k)).
  2:{ unfold is_to_me, read_k. rewrite Ht. by f_equal. }
  assert (E : process_recived_packet_to_me now pkt i (learned now pkt k) = (UB, learned now pkt k)).
  { unfold process_recived_packet_to_me.
    destruct Hbad as [[-> Hcrt]|(-> & -> & -> & Hl & Hsz)]; cbn [String.eqb Ascii.eqb Bool.eqb];
      unfold st_bind, st_lift.
    - by rewrite Hcrt.
    - change (RSA_of_n (default [] None)) with (RSA_of_n []).
      by rewrite (RSA_public_decrypt_empty_key _ _ _ Hsz Hl). }
  by rewrite E.
Qed.

(** ** Trust *)

(** Code that leaves the members alone except for the waiters. *)
Definition members (k0 k : kernel) : Prop :=
  table k = table k0 /\ trusted_pubkey k = trusted_pubkey k0 /\ m_recv_buffer k = m_recv_buffer k0.

Definition stays {A} (m : ST kernel A) : Prop := forall k0,
  hoare True (members k0) m (fun _ => members k0) (members k0).

Lemma stays_bind {A B} (m : ST kernel A) (f : A -> ST kernel B) :
  stays m -> (forall a, stays (f a)) -> stays (st_bind m f).
Proof. intros Hm Hf k0. eapply hoare_bind; [apply Hm|]. intros a. apply Hf. Qed.

Lemma stays_ret {A} (a : A) : stays (st_ret a).
Proof. intros k0. by apply hoare_ret. Qed.

Lemma stays_read {A} (f : kernel -> outcome A) : stays (read_k f).
Proof. intros k0 k Hk. unfold read_k. by destruct (f k). Qed.

Lemma stays_lift {A} (o : outcome A) : stays (st_lift o).
Proof. apply (stays_read (fun _ => o)). Qed.

Lemma stays_modify g : (forall k, members k (g k)) -> stays (st_modify g).
Proof.
  intros Hg k0. apply hoare_modify. intros k (?&?&?). destruct (Hg k) as (?&?&?).
  split_and!; congruence.
Qed.

Ltac stays_step :=
  first [ apply stays_ret | apply stays_lift | apply stays_read
        | apply stays_modify; intros; done
        | apply stays_bind; [|intros ?] ].

Lemma stays_write i pkt handler : stays (async_interface_write_packet i pkt handler).
Proof. unfold async_interface_write_packet, with_queue, get_if, set_if, io_post. repeat stays_step. Qed.

Lemma stays_send_packet id op key : stays (send_packet id op key).
Proof.
  unfold send_packet, deref_node, suspend_send.
  repeat first [apply stays_write | stays_step].
Qed.

Lemma stays_ask_round now id op i : stays (ask_round now id op i).
Proof.
  unfold ask_round, async_send_agmp_pkask, deref_node, async_wait_processed_packet, suspend_send,
    finish_send.
  case_match; repeat first [apply stays_write | stays_step].
Qed.

Lemma stays_resume now id ec : stays (resume_send now id ec).
Proof.
  unfold resume_send. stays_step; [stays_step|]. case_match.
  - unfold kernel_find_key. stays_step; [stays_step|].
    case_match; [apply stays_send_packet|apply stays_ask_round].
  - unfold finish_send. stays_step.
Qed.

Lemma stays_wake now l test ec : stays (wake now l test ec).
Proof.
  unfold wake. apply stays_bind; [intros k0; by apply hoare_get|]. intros k.
  generalize (S (2 * length (waiters l k))). intros fuel. generalize 0%nat as it.
  induction fuel as [|fuel IH]; intros it; cbn [wake_loop]; [apply stays_lift|].
  apply stays_bind; [intros k0; by apply hoare_get|]. intros k1. case_match; [|apply stays_ret].
  stays_step; [stays_step|]. case_match; [|apply IH].
  apply stays_bind; [apply stays_resume|]. intros ?. apply stays_bind; [|intros ?; apply IH].
  apply stays_modify. intros k2. by destruct l.
Qed.

Lemma stays_forward pkt : stays (forward_packet pkt).
Proof.
  unfold forward_packet, kernel_select_route. case_match; [stays_step|].
  apply stays_bind; [repeat stays_step|]. intros ?. case_match; [|stays_step].
  apply stays_bind; [|intros ?; apply stays_write].
  intros k0 k Hk. done.
Qed.

(** What a run that returns consists of. *)
Lemma process_inv now pkt i k u k' :
  static_ok k -> process_recived_packet now pkt i k = (Ret u, k') ->
  exists b k2, is_mine pkt k = Ret b /\
    (if b then process_recived_packet_to_me now pkt i else forward_packet pkt) (learned now pkt k)
      = (Ret tt, k2) /\
    wake now Post (pred pkt) ec_success k2 = (Ret tt, k').
Proof.
  intros Hs. unfold process_recived_packet, scope_exit.
  rewrite (st_bind_Ret _ _ k tt (learned now pkt k)) by by apply learn_key_eq.
  assert (Em : is_mine pkt (learned now pkt k) = is_mine pkt k).
  { unfold is_mine. by rewrite (proj1 (learned_members now pkt k)). }
  unfold st_bind at 1, is_to_me, read_k. change (is_to_me_in _ _) with (is_mine pkt (learned now pkt k)).
  rewrite Em. destruct (is_mine pkt k) as [b|e| | |]; try done.
  2:{ unfold st_bind. by destruct (wake _ _ _ _ _) as [[]]. }
  intros E. exists b. revert E.
  destruct ((if b then process_recived_packet_to_me now pkt i else forward_packet pkt)
    (learned now pkt k)) as [[[]|e| | |] k2]; try done;
    unfold st_bind; destruct (wake _ _ _ _ k2) as [[[]| | | |] k3] eqn:Ew; try done.
  intros [= _ <-]. by exists k2.
Qed.

Lemma members_refl k : members k k.
Proof. done. Qed.

Lemma stays_run {A} (m : ST kernel A) k a k' : stays m -> m k = (Ret a, k') -> members k k'.
Proof. intros Hm E. specialize (Hm k k (members_refl k)). by rewrite E in Hm. Qed.

Lemma to_me_keys now pkt i k u k' :
  upperlayerpotocol pkt <> "pkreply" -> process_recived_packet_to_me now pkt i k = (Ret u, k') ->
  trusted_pubkey k' = trusted_pubkey k.
Proof.
  intros Hno%String.eqb_neq. unfold process_recived_packet_to_me. rewrite Hno. case_match.
  - unfold async_send_agmp_pkreply. intros E. eapply stays_run in E as (_ & ? & _); [done|].
    repeat first [apply stays_write | stays_step].
  - intros (data & k1 & E1 & E2)%st_bind_inv.
    eapply stays_run in E1 as (_ & <- & _); [|destruct (payload pkt); repeat stays_step].
    case_match; [|by injection E2 as _ <-]. revert E2. unfold push_recv, st_bind, read_k.
    destruct (push _ _); try done. by intros [= _ <-].
Qed.

(** C24: trust on first use: whatever a packet that is no "pkreply" for this node
    contains, and whatever sends it wakes, the key store afterwards is the
    store before, with the packet's own key added only if its source had no key:
    a packet never replaces a stored key. *)
Theorem trust_on_first_use now pkt i k u k' :
  static_ok k -> is_mine pkt k = Ret false \/ upperlayerpotocol pkt <> "pkreply" ->
  process_recived_packet now pkt i k = (Ret u, k') ->
  trusted_pubkey k' = trusted_pubkey (learned now pkt k) /\
  (is_Some (trusted_pubkey k !! av_address_to_string (src pkt)) ->
   trusted_pubkey k' = trusted_pubkey k).
Proof.
  intros Hs Hno E.
  assert (Hk' : trusted_pubkey k' = trusted_pubkey (learned now pkt k)).
  { destruct (process_inv _ _ _ _ _ _ Hs E) as (b & k2 & Hb & Hbody & Hw).
    apply stays_run in Hw as (_ & -> & _); [|apply stays_wake]. destruct b.
    - destruct Hno as [?|Hno]; [congruence|]. by eapply to_me_keys.
    - apply stays_run in Hbody as (_ & -> & _); [done|apply stays_forward]. }
  split; [done|]. intros [item Hitem]. rewrite Hk'. unfold learned. by rewrite Hitem.
Qed.
End spec.
