(* ===== verification/Sendto.v ===== *)
(** * Sendto: what async_sendto does, and delivery from end to end

    The coroutine [async_sendto_op] on each of its branches; its three rounds
    of asking for the target's key, driven by the timer; and the theorem that
    joins a sender and a receiver: what is sent is what is received. *)

From S2P Require Import Prelude StdSort OpenSSL RsaChunk Regex Address CoroQueue Routing KeyStore Avif Kernel Hoare KernelInv KernelSpec.

Section sendto.
Context `{Build} `{OpenSSL} `{BoostRegex} `{StdSort} `{!AvifImpl H0} `{!StdSortLaws H2}.
Context `{!BoostRegexLaws H1}.

(** The packet of a message: the text encrypted for the target and then with
    the sender's private key, and the sender's modulus. *)
Definition data_packet (me dst : avAddress) (sealed : bytes) (key : RSA) : avPacket :=
  {| src := me; dest := dst; upperlayerpotocol := "avim"; payload := Some sealed;
     publickey := Some (RSA_n key); time_to_live := 64 |}.

Definition suspended (id : nat) (op : send_op) (s : stage) (k : kernel) : kernel :=
  (suspend_send id op s k).2.

Definition new_send (target : string) (data : bytes) (nd : node) : send_op :=
  {| s_target := target; s_data := data; s_interface := nd; s_stage := WaitKey 0 |}.

Definition completed (id : nat) (ec : error_code) (k : kernel) : kernel :=
  add_log (SendDone id ec) (set_sends (delete id (sends k)) k).

(** One round of asking: the packet, the waiter and the suspension. *)
Definition asked (now : Z) (id : nat) (op : send_op) (i : Z) (me : avAddress) (k : kernel) : kernel :=
  let k1 := queue_packet (node_if (s_interface op)) (pkask_packet me (split_address (s_target op))) None k in
  suspended id op (WaitKey i) (set_post (postprocess_list k1 ++
    [{| deadline := now + seconds 8; pred_target := s_target op; w_op := id |}]) k1).

Definition node_live (nd : node) (k : kernel) : Prop := nd ∈ (map_iter (m_avifs (table k))).*2.

#[global] Instance node_live_dec nd k : Decision (node_live nd k).
Proof. unfold node_live. apply _. Defined.

Lemma deref_node_live nd k : node_live nd k -> deref_node nd k = (Ret (node_if nd), k).
Proof. intros Hl. unfold deref_node, read_k. by rewrite bool_decide_eq_true_2. Qed.

Lemma deref_node_dead nd k : ~ node_live nd k -> deref_node nd k = (UB, k).
Proof. intros Hl. unfold deref_node, read_k. by rewrite bool_decide_eq_false_2. Qed.

Lemma select_route_live address k name nd :
  static_ok k -> select_route address (table k) = Ret (Some (name, nd)) -> node_live nd k.
Proof.
  intros Hs E. destruct (select_route_ok address _ (ok_table k Hs)) as (o & Eo & Hspec).
  rewrite E in Eo. injection Eo as <-. destruct Hspec as [Hl _]. unfold node_live.
  apply list_elem_of_fmap. exists (name, nd). split; [done|]. by apply elem_of_map_iter.
Qed.

Lemma ask_round_eq now id op i me k :
  static_ok k -> node_live (s_interface op) k -> is_Some (ifs k !! node_if (s_interface op)) ->
  if_address (node_if (s_interface op)) = Some me ->
  ask_round now id op i k =
    (Ret tt, if i <? 3 then asked now id op i me k else completed id network_unreachable k).
Proof.
  intros Hs Hl [a Ha] Hme. unfold ask_round. destruct (i <? 3); [|done].
  unfold st_bind at 1. rewrite deref_node_live by done.
  unfold async_send_agmp_pkask, st_bind, st_lift. rewrite Hme. cbn [deref].
  rewrite from_string_split. by erewrite write_eq.
Qed.

Lemma send_packet_eq id op key k me mine first second :
  static_ok k -> node_live (s_interface op) k -> is_Some (ifs k !! node_if (s_interface op)) ->
  if_address (node_if (s_interface op)) = Some me ->
  get_rsa_key (node_if (s_interface op)) = Some mine ->
  RSA_public_encrypt key (s_data op) = Ret first -> RSA_private_encrypt mine first = Ret second ->
  send_packet id op key k = (Ret tt, suspended id op WaitWrite
    (queue_packet (node_if (s_interface op))
      (data_packet me (split_address (s_target op)) second mine) (Some id) k)).
Proof.
  intros Hs Hl [a Ha] Hme Hmine H1' H2'. unfold send_packet, st_bind, st_lift. rewrite H1'.
  rewrite deref_node_live by done. rewrite Hmine. cbn [deref]. rewrite H2', from_string_split, Hme.
  cbn [deref]. by erewrite write_eq.
Qed.

Lemma sendto_route_eq now id target data k o r :
  select_route target (table k) = Ret o -> find_RSA_pubkey target (trusted_pubkey k) = Ret r ->
  async_sendto_op now id target data k =
    match o, r with
    | None, _ => (Ret tt, completed id network_unreachable k)
    | Some (_, nd), Some key => send_packet id (new_send target data nd) key k
    | Some (_, nd), None => ask_round now id (new_send target data nd) 0 k
    end.
Proof.
  intros Ho Hr. unfold async_sendto_op, st_bind, kernel_select_route, st_bind, kernel_find_key, read_k.
  rewrite Ho. destruct o as [[name nd]|]; [|done]. simpl. rewrite Hr. by destruct r.
Qed.

Lemma resume_key_eq now id ec op i k r :
  sends k !! id = Some op -> s_stage op = WaitKey i ->
  find_RSA_pubkey (s_target op) (trusted_pubkey k) = Ret r ->
  resume_send now id ec k =
    match r with Some key => send_packet id op key k | None => ask_round now id op (i + 1) k end.
Proof.
  intros Hop Hst Hr. unfold resume_send, st_bind at 1, read_k at 1. rewrite Hop. cbn [deref].
  rewrite Hst. unfold st_bind, kernel_find_key, read_k. rewrite Hr. by destruct r.
Qed.

(** C15: [async_sendto]: without a route the caller gets network_unreachable at
    once and nothing is sent; with the target's key stored one packet is queued
    on the best route's interface, encrypted with that key and with the
    interface's private key, and the send waits for it to be written; with no
    key a "pkask" for the target is queued and the send waits up to 8 seconds. *)
Theorem sendto_correct now id target data k :
  static_ok k ->
  exists o, select_route target (table k) = Ret o /\
  match o with
  | None => async_sendto_op now id target data k = (Ret tt, completed id network_unreachable k)
  | Some (_, nd) => forall me mine,
      if_address (node_if nd) = Some me -> get_rsa_key (node_if nd) = Some mine ->
      (trusted_pubkey k !! target = None /\
       async_sendto_op now id target data k =
         (Ret tt, asked now id (new_send target data nd) 0 me k)) \/
      (exists key, find_RSA_pubkey target (trusted_pubkey k) = Ret (Some key) /\
       forall first second,
         RSA_public_encrypt key data = Ret first -> RSA_private_encrypt mine first = Ret second ->
         async_sendto_op now id target data k = (Ret tt, suspended id (new_send target data nd) WaitWrite
           (queue_packet (node_if nd) (data_packet me (split_address target) second mine) (Some id) k)))
  end.
Proof.
  intros Hs. destruct (select_route_total target _ (ok_table k Hs)) as [o Ho].
  exists o. split; [done|].
  pose proof (sendto_route_eq now id target data k o) as Heq.
  destruct o as [[name nd]|].
  2:{ destruct (find_stored target _ (ok_keys k Hs)) as [[_ E]|(item & key & _ & E)]; by eapply Heq. }
  intros me mine Hme Hmine.
  pose proof (select_route_live _ _ _ _ Hs Ho) as Hl. pose proof (select_route_node _ _ _ _ Hs Ho) as Hi.
  destruct (find_stored target _ (ok_keys k Hs)) as [[E1 E2]|(item & key & E1 & E2)];
    rewrite (Heq _ Ho E2).
  - left. split; [done|]. by apply (ask_round_eq now id (new_send target data nd) 0 me k).
  - right. exists key. split; [done|]. intros first second H1' H2'.
    by apply (send_packet_eq id (new_send target data nd) key k me mine first).
Qed.

(** C16: a send resumed while it waits for a key: with the key now stored it
    sends its packet; without, it asks again in rounds 0 and 1 and completes with
    network_unreachable after round 2 -- three "pkask" packets at most.  But if
    the interface it chose was removed while it waited it uses the dangling
    pointer to it. *)
Theorem resume_correct now id ec op i me mine k :
  static_ok k -> sends k !! id = Some op -> s_stage op = WaitKey i ->
  is_Some (ifs k !! node_if (s_interface op)) ->
  if_address (node_if (s_interface op)) = Some me ->
  get_rsa_key (node_if (s_interface op)) = Some mine ->
  (trusted_pubkey k !! s_target op = None ->
   if decide (node_live (s_interface op) k) then
     resume_send now id ec k = (Ret tt,
       if i <? 2 then asked now id op (i + 1) me k else completed id network_unreachable k)
   else i < 2 -> (resume_send now id ec k).1 = UB) /\
  (forall key first second, find_RSA_pubkey (s_target op) (trusted_pubkey k) = Ret (Some key) ->
   RSA_public_encrypt key (s_data op) = Ret first -> RSA_private_encrypt mine first = Ret second ->
   if decide (node_live (s_interface op) k) then
     resume_send now id ec k = (Ret tt, suspended id op WaitWrite
       (queue_packet (node_if (s_interface op))
         (data_packet me (split_address (s_target op)) second mine) (Some id) k))
   else (resume_send now id ec k).1 = UB).
Proof.
  intros Hs Hop Hst Hi Hme Hmine. split.
  - intros Hnone. rewrite (resume_key_eq now id ec op i k None Hop Hst)
      by (unfold find_RSA_pubkey; by rewrite Hnone).
    case_decide as Hl.
    + rewrite (ask_round_eq now id op (i + 1) me k) by done.
      replace (i + 1 <? 3) with (i <? 2); [done|]. case_tests; lia.
    + intros Hi2. unfold ask_round. rewrite (proj2 (Z.ltb_lt _ _)) by lia.
      unfold st_bind. by rewrite deref_node_dead.
  - intros key first second Hkey H1' H2'. rewrite (resume_key_eq now id ec op i k _ Hop Hst Hkey).
    case_decide as Hl.
    + by eapply send_packet_eq.
    + unfold send_packet, st_bind, st_lift. by rewrite H1', deref_node_dead.
Qed.

(** ** Three rounds, driven by the timer *)

Definition armed (k : kernel) : kernel := (timer1_start k).2.

Lemma armed_members k :
  ifs (armed k) = ifs k /\ sends (armed k) = sends k /\ log (armed k) = log k /\
  trusted_pubkey (armed k) = trusted_pubkey k /\ table (armed k) = table k /\
  postprocess_list (armed k) = postprocess_list k /\ (static_ok k -> static_ok (armed k)).
Proof.
  unfold armed, timer1_start, st_modify. simpl. destruct (m_quitting k); split_and!; try done. intros []. by split.
Qed.
(** A tick when the only waiter has expired. *)
Lemma tick_one now ec k w k2 new :
  postprocess_list k = [w] -> deadline w < now ->
  resume_send now (w_op w) timed_out (armed k) = (Ret tt, k2) ->
  postprocess_list k2 = w :: new -> preprocess_list k2 = [] ->
  (new = [] \/ exists w', new = [w'] /\ now <= deadline w') ->
  timer1_tick now ec k = (Ret tt, set_post new k2).
Proof.
  intros Hp Hd Hres Hp2 Hpre Hnew. unfold timer1_tick.
  rewrite (st_bind_Ret _ _ k tt (armed k)) by done.
  assert (Hpa : postprocess_list (armed k) = [w]) by (rewrite <-Hp; apply armed_members).
  rewrite (st_bind_Ret _ _ (armed k) tt (set_post new k2)).
  - unfold wake, st_bind at 1, st_get. cbn [waiters]. simpl. rewrite Hpre. simpl.
    unfold st_bind, st_get. simpl. by rewrite Hpre.
  - unfold wake, st_bind at 1, st_get. cbn [waiters]. rewrite Hpa. cbn [length Nat.mul Nat.add].
    cbn [wake_loop]. unfold st_bind at 1, st_get. cbn [waiters]. rewrite Hpa. cbn [lookup list_lookup].
    unfold st_bind at 1, st_lift, expired. rewrite (proj2 (Z.ltb_lt _ _)) by done.
    unfold st_bind at 1. rewrite Hres. unfold st_bind at 1, st_modify. cbn [waiters set_waiters_of].
    rewrite Hp2. cbn [delete list_delete].
    destruct Hnew as [->|(w' & -> & Hw')]; cbn [wake_loop]; unfold st_bind, st_get; simpl; [done|].
    rewrite (proj2 (Z.ltb_ge _ _)) by done. done.
Qed.

(** What queueing does to the interfaces. *)
Definition queue_ifs (i : nat) (pkt : avPacket) (m : gmap nat avif_state) : gmap nat avif_state :=
  match m !! i with
  | Some a => <[i := set_write_queue (push_spec (pkt, None) (write_queue a)).1 a]> m
  | None => m
  end.

Lemma asked_members now id op i me k :
  let k' := asked now id op i me k in
  let w := {| deadline := now + seconds 8; pred_target := s_target op; w_op := id |} in
  postprocess_list k' = postprocess_list k ++ [w] /\
  ifs k' = queue_ifs (node_if (s_interface op)) (pkask_packet me (split_address (s_target op))) (ifs k) /\
  sends k' = <[id := {| s_target := s_target op; s_data := s_data op;
                        s_interface := s_interface op; s_stage := WaitKey i |}]> (sends k) /\
  log k' = log k /\ trusted_pubkey k' = trusted_pubkey k /\ table k' = table k /\
  preprocess_list k' = preprocess_list k.
Proof. unfold asked, queue_packet, queue_ifs. simpl. by destruct (ifs k !! _). Qed.

Lemma queue_packet_static i pkt handler k :
  static_ok k -> request_ok (pkt, handler) -> static_ok (queue_packet i pkt handler k).
Proof.
  intros Hs Hr. destruct (ifs k !! i) as [a|] eqn:Ea; [|unfold queue_packet; by rewrite Ea].
  apply (with_queue_run i (OPush (pkt, handler)) k _ tt Hs); [|by eapply write_eq].
  constructor; [done|constructor].
Qed.

Lemma suspended_static id op s k : static_ok k -> static_ok (suspended id op s k).
Proof. intros []. by split. Qed.

Lemma asked_static now id op i me k : static_ok k -> static_ok (asked now id op i me k).
Proof.
  intros Hs. unfold asked. set (pkt := pkask_packet _ _). apply suspended_static.
  assert (Hq : static_ok (queue_packet (node_if (s_interface op)) pkt None k))
    by (apply queue_packet_static; [done|unfold request_ok; simpl; lia]).
  destruct Hq. by split.
Qed.

(** A kernel in which the only waiter is the send [id], in round [i]. *)
Record asking (k0 : kernel) (id : nat) (op : send_op) (me : avAddress) (i : Z) (d : Z) (k : kernel) : Prop := {
  as_static : static_ok k;
  as_post : postprocess_list k = [{| deadline := d; pred_target := s_target op; w_op := id |}];
  as_op : exists op', sends k !! id = Some op' /\ s_stage op' = WaitKey i /\
    s_target op' = s_target op /\ s_interface op' = s_interface op;
  as_sends : delete id (sends k) = delete id (sends k0);
  as_log : log k = log k0;
  as_keys : trusted_pubkey k = trusted_pubkey k0;
  as_table : table k = table k0
}.


Section giving_up.
Variables (k0 : kernel) (id : nat) (op : send_op) (me : avAddress).
Let i := node_if (s_interface op).
Let ask := pkask_packet me (split_address (s_target op)).
Hypothesis Hlive : node_live (s_interface op) k0.
Hypothesis Hme : if_address i = Some me.
Hypothesis Hnokey : trusted_pubkey k0 !! s_target op = None.

Lemma asking_resume r d k now :
  asking k0 id op me r d k -> is_Some (ifs k !! i) ->
  exists op', sends k !! id = Some op' /\ s_target op' = s_target op /\
    s_interface op' = s_interface op /\
    resume_send now id timed_out (armed k) = (Ret tt,
      if r <? 2 then asked now id op' (r + 1) me (armed k)
      else completed id network_unreachable (armed k)).
Proof.
  intros [Hs Hp (op' & Hop & Hst & Htg & Hif) Hsd Hlog Hk Ht] Hi.
  destruct (armed_members k) as (Ei & Es & _ & Ek & Et & _ & Hsa).
  exists op'. split_and!; [done..|].
  rewrite (resume_key_eq now id timed_out op' r _ None).
  - rewrite (ask_round_eq now id op' (r + 1) me).
    + replace (r + 1 <? 3) with (r <? 2); [done|]. case_tests; lia.
    + by apply Hsa.
    + unfold node_live. by rewrite Et, Ht, Hif.
    + by rewrite Ei, Hif.
    + by rewrite Hif.
  - by rewrite Es.
  - done.
  - unfold find_RSA_pubkey. by rewrite Htg, Ek, Hk, Hnokey.
Qed.

Lemma asking_tick r d k now ec :
  asking k0 id op me r d k -> is_Some (ifs k !! i) -> d < now -> r < 2 ->
  exists k', timer1_tick now ec k = (Ret tt, k') /\
    asking k0 id op me (r + 1) (now + seconds 8) k' /\ ifs k' = queue_ifs i ask (ifs k).
Proof.
  intros Ha Hi Hd Hr. destruct (asking_resume r d k now Ha Hi) as (op' & Hop & Htg & Hif & Hres).
  destruct Ha as [Hs Hp _ Hsd Hlog Hk Ht].
  rewrite (proj2 (Z.ltb_lt r 2)) in Hres by done.
  destruct (armed_members k) as (Ei & Es & El & Ek & Et & Ep & Hsa).
  destruct (asked_members now id op' (r + 1) me (armed k)) as (Ap & Ai & As & Al & Ak & At & Apre).
  eexists. split.
  { eapply tick_one; [exact Hp|done|exact Hres|by rewrite Ap, Ep, Hp|..].
    - rewrite Apre. by apply Hsa.
    - right. eexists. split; [done|]. simpl. unfold seconds. lia. }
  split; [|cbn [ifs set_post with_members]; by rewrite Ai, Ei, Htg, Hif].
  split; cbn [sends log trusted_pubkey table postprocess_list set_post with_members]; rewrite ?As, ?Al, ?Ak, ?At, ?Es, ?El, ?Ek, ?Et, ?Htg; try done.
  - destruct (asked_static now id op' (r + 1) me (armed k) (Hsa Hs)). by split.
  - eexists. rewrite lookup_insert_eq. split; [done|]. done.
  - by rewrite delete_insert_eq.
Qed.

Lemma asking_end d k now ec :
  asking k0 id op me 2 d k -> is_Some (ifs k !! i) -> d < now ->
  exists k', timer1_tick now ec k = (Ret tt, k') /\ postprocess_list k' = [] /\
    sends k' = delete id (sends k0) /\ log k' = log k0 ++ [SendDone id network_unreachable] /\
    ifs k' = ifs k.
Proof.
  intros Ha Hi Hd. destruct (asking_resume 2 d k now Ha Hi) as (op' & Hop & Htg & Hif & Hres).
  destruct Ha as [Hs Hp _ Hsd Hlog Hk Ht].
  destruct (armed_members k) as (Ei & Es & El & Ek & Et & Ep & Hsa).
  eexists. split.
  { eapply tick_one; [exact Hp|done|exact Hres|simpl; by rewrite Ep, Hp|..].
    - simpl. by apply Hsa.
    - by left. }
  simpl. by rewrite Es, El, Ei, Hsd, Hlog.
Qed.
End giving_up.

Lemma queue_ifs_is_Some i pkt m j : is_Some (m !! j) -> is_Some (queue_ifs i pkt m !! j).
Proof.
  intros Hj. unfold queue_ifs. case_match; [|done].
  destruct (decide (j = i)) as [->|]; [rewrite lookup_insert_eq; eauto|by rewrite lookup_insert_ne].
Qed.

(** A send to a reachable address whose key nobody gives ends: it asks when
    it starts and at the first two timer ticks after its deadlines, and the
    third such tick completes it with network_unreachable; the three "pkask"
    packets are all it put in the queue. *)
Theorem sendto_gives_up id target data k name nd me now0 now1 now2 now3 ec1 ec2 ec3 :
  static_ok k -> postprocess_list k = [] ->
  select_route target (table k) = Ret (Some (name, nd)) -> if_address (node_if nd) = Some me ->
  trusted_pubkey k !! target = None ->
  now0 + seconds 8 < now1 -> now1 + seconds 8 < now2 -> now2 + seconds 8 < now3 ->
  exists k', (async_sendto_op now0 id target data ;;- timer1_tick now1 ec1 ;;-
              timer1_tick now2 ec2 ;;- timer1_tick now3 ec3) k = (Ret tt, k') /\
    log k' = log k ++ [SendDone id network_unreachable] /\
    sends k' = delete id (sends k) /\ postprocess_list k' = [] /\
    ifs k' = Nat.iter 3 (queue_ifs (node_if nd) (pkask_packet me (split_address target))) (ifs k).
Proof.
  intros Hs Hp Hsel Hme Hno Hn1 Hn2 Hn3.
  pose proof (select_route_live _ _ _ _ Hs Hsel) as Hl.
  pose proof (select_route_node _ _ _ _ Hs Hsel) as Hi.
  set (op := new_send target data nd).
  destruct (asked_members now0 id op 0 me k) as (Ap & Ai & As & Al & Ak & At & _).
  pose proof (asked_static now0 id op 0 me k Hs) as Hs1.
  assert (E0 := ask_round_eq now0 id op 0 me k Hs Hl Hi Hme).
  change (0 <? 3) with true in E0. cbv iota in E0. remember (asked now0 id op 0 me k) as k1 eqn:Ek1.
  assert (H1' : asking k id op me 0 (now0 + seconds 8) k1).
  { split; rewrite ?Ap, ?Hp, ?As; try done.
    - eexists. by rewrite lookup_insert_eq.
    - by rewrite delete_insert_eq. }
  assert (Hi1 : is_Some (ifs k1 !! node_if nd)) by (rewrite Ai; by apply queue_ifs_is_Some).
  destruct (asking_tick k id op me Hl Hme Hno 0 _ k1 now1 ec1 H1' Hi1 Hn1) as (k2 & E2 & H2' & Ei2); [done|].
  assert (Hi2 : is_Some (ifs k2 !! node_if nd)) by (rewrite Ei2; by apply queue_ifs_is_Some).
  destruct (asking_tick k id op me Hl Hme Hno 1 _ k2 now2 ec2 H2' Hi2 Hn2) as (k3 & E3 & H3' & Ei3); [done|].
  assert (Hi3 : is_Some (ifs k3 !! node_if nd)) by (rewrite Ei3; by apply queue_ifs_is_Some).
  destruct (asking_end k id op me Hl Hme Hno _ k3 now3 ec3 H3' Hi3 Hn3) as (k4 & E4 & Ep4 & Es4 & El4 & Ei4).
  exists k4. split_and!; try done; [|by rewrite Ei4, Ei3, Ei2, Ai].
  assert (E1 : async_sendto_op now0 id target data k = (Ret tt, k1)).
  { rewrite (sendto_route_eq now0 id target data k _ None Hsel)
      by (unfold find_RSA_pubkey; by rewrite Hno).
    exact E0. }
  unfold st_bind. by rewrite E1, E2, E3, E4.
Qed.

(** ** From end to end *)

Context `{!OpenSSLLaws H0}.

(** A text sealed for one key with another opens in the order of the receiver. *)
Lemma sealed_opens p_me s_me p_to s_to data :
  rsa_pair p_me s_me -> rsa_pair p_to s_to ->
  seal_ok s_to (zlen data) -> seal_ok s_me (sealed_len (RSA_size s_to) (zlen data)) ->
  exists first second,
    RSA_public_encrypt p_to data = Ret first /\ RSA_private_encrypt s_me first = Ret second /\
    RSA_public_decrypt (RSA_of_n (RSA_n s_me)) second = Ret first /\ RSA_private_decrypt s_to first = Ret data.
Proof.
  intros Hpme Hpto Hok1 Hok2. pose proof (rsa_pair_of_n p_me s_me Hpme) as Hpn.
  destruct (RSA_encrypt_roundtrip p_to s_to data Hpto Hok1) as (first & E1 & L1 & D1). rewrite <-L1 in Hok2.
  destruct (RSA_sign_roundtrip (RSA_of_n (RSA_n s_me)) s_me first Hpn Hok2) as (second & E2 & L2 & D2).
  by exists first, second.
Qed.

(** What is sent is what is received: if the sender has a route and the
    target's public key, the packet [async_sendto] queues, handed to a kernel to
    which its destination belongs by an interface with the matching private key,
    puts exactly (the sender's address, the text) in the receive queue. *)
Theorem end_to_end now now' id target data k name nd me s_me p_me p_to s_to j k' :
  static_ok k -> select_route target (table k) = Ret (Some (name, nd)) ->
  if_address (node_if nd) = Some me -> get_rsa_key (node_if nd) = Some s_me -> rsa_pair p_me s_me ->
  find_RSA_pubkey target (trusted_pubkey k) = Ret (Some p_to) -> rsa_pair p_to s_to ->
  seal_ok s_to (zlen data) -> seal_ok s_me (sealed_len (RSA_size s_to) (zlen data)) ->
  static_ok k' -> get_rsa_key j = Some s_to ->
  is_to_me_in (split_address target) (map_iter (m_avifs (table k'))) = Ret true ->
  Forall (fun w => pred_target w <> av_address_to_string me) (postprocess_list k') ->
  exists pkt,
    async_sendto_op now id target data k = (Ret tt, suspended id (new_send target data nd) WaitWrite
      (queue_packet (node_if nd) pkt (Some id) k)) /\
    process_recived_packet now' pkt j k' =
      (Ret tt, deliver (av_address_to_string me, data) (learned now' pkt k')).
Proof.
  intros Hs Hsel Hme Hkey Hpme Hfind Hpto Hok1 Hok2 Hs' Hj Hmine Hn.
  destruct (sealed_opens p_me s_me p_to s_to data) as (first & second & E1 & E2 & D2 & D1); [done..|].
  exists (data_packet me (split_address target) second s_me). split.
  - rewrite (sendto_route_eq now id target data k _ _ Hsel Hfind).
    eapply (send_packet_eq id (new_send target data nd)); [done|by eapply select_route_live|
      by eapply select_route_node|done..].
  - by eapply (delivered_eq now' (data_packet me (split_address target) second s_me) j k').
Qed.

(** C33: the sender of a message is not authenticated: anyone with any key pair
    can make a packet in anyone's name (here [victim]) that is delivered as
    coming from [victim], even when a different key of [victim] is stored; the
    stored keys are not consulted. *)
Theorem forged_sender_accepted now victim dst data p_a s_a p_to s_to j k item :
  rsa_pair p_a s_a -> rsa_pair p_to s_to ->
  seal_ok s_to (zlen data) -> seal_ok s_a (sealed_len (RSA_size s_to) (zlen data)) ->
  static_ok k -> get_rsa_key j = Some s_to ->
  is_to_me_in dst (map_iter (m_avifs (table k))) = Ret true ->
  Forall (fun w => pred_target w <> av_address_to_string victim) (postprocess_list k) ->
  trusted_pubkey k !! av_address_to_string victim = Some item ->
  exists first second, RSA_public_encrypt p_to data = Ret first /\
    RSA_private_encrypt s_a first = Ret second /\
    process_recived_packet now (data_packet victim dst second s_a) j k =
      (Ret tt, deliver (av_address_to_string victim, data) k).
Proof.
  intros Hpa Hpto Hok1 Hok2 Hs Hj Hmine Hn Hstored.
  destruct (sealed_opens p_a s_a p_to s_to data) as (first & second & E1 & E2 & D2 & D1); [done..|].
  exists first, second. split_and!; [done..|].
  erewrite (delivered_eq now (data_packet victim dst second s_a) j k); [|done..].
  unfold learned. simpl. by rewrite Hstored.
Qed.
End sendto.
