(* ===== verification/Wake.v ===== *)
(** * Wake: what an answer wakes

    All sends that wait for the key of one address are woken by the packet that
    brings it: [wake] with the predicate of [async_sendto_op] goes through the
    list of waiters, erasing as it goes, and each woken coroutine seals and
    queues its packet before the next is looked at. *)

From S2P Require Import Prelude StdSort OpenSSL RsaChunk Regex Address CoroQueue Routing KeyStore Avif Kernel Hoare KernelInv KernelSpec Sendto.

Section wake.
Context `{Build} `{OpenSSL} `{BoostRegex} `{StdSort} `{!AvifImpl H0} `{!StdSortLaws H2}.
Context `{!BoostRegexLaws H1}.

(** ** The loop *)

(** [hit] is the test, [f] what the coroutine of a waiter does -- it does not wait
    again --, and [J ws] holds while the waiters [ws] are still to be woken. *)
Section loop.
Variables (now : Z) (test : waiter -> kernel -> outcome bool) (ec : error_code).
Variables (hit : waiter -> bool) (f : waiter -> kernel -> kernel) (J : list waiter -> kernel -> Prop).
Hypothesis J_test : forall ws k w, J ws k -> test w k = Ret (hit w).
Hypothesis J_resume : forall w ws k, J (w :: ws) k ->
  resume_send now (w_op w) ec k = (Ret tt, f w k) /\ J ws (f w k).
Hypothesis J_post : forall ws l k, J ws k -> J ws (set_post l k).
Hypothesis f_post : forall w l k, f w (set_post l k) = set_post l (f w k).
Hypothesis f_list : forall w k, postprocess_list (f w k) = postprocess_list k.

Definition woken (ws : list waiter) (k : kernel) : kernel := foldl (fun k w => f w k) k ws.

Lemma woken_post ws l k : woken ws (set_post l k) = set_post l (woken ws k).
Proof. revert k. induction ws as [|w ws IH]; intros k; [done|]. simpl. by rewrite f_post, IH. Qed.

Lemma wake_loop_all fuel pre rest k :
  J (filter hit rest) k -> postprocess_list k = pre ++ rest -> (length rest < fuel)%nat ->
  wake_loop fuel now Post test ec (length pre) k =
    (Ret tt, set_post (pre ++ filter (fun w => negb (hit w)) rest) (woken (filter hit rest) k)).
Proof.
  revert fuel pre k. induction rest as [|w rest IH]; intros [|fuel] pre k HJ Hp Hf; simpl in Hf; try lia;
    cbn [wake_loop]; unfold st_bind at 1, st_get; cbn [waiters]; rewrite Hp.
  - rewrite app_nil_r, lookup_ge_None_2 by lia. rewrite app_nil_r in Hp. simpl. rewrite app_nil_r, <-Hp.
    by destruct k.
  - rewrite list_lookup_middle by done. unfold st_bind at 1, st_lift. rewrite (J_test _ _ w HJ).
    rewrite !filter_cons in *. destruct (hit w) eqn:Eh; simpl in *.
    + destruct (J_resume _ _ _ HJ) as [Er HJ']. unfold st_bind at 1. rewrite Er.
      unfold st_bind at 1, st_modify. cbn [waiters set_waiters_of]. rewrite f_list, Hp, delete_middle.
      rewrite IH; [|by apply J_post|done|lia]. by rewrite woken_post.
    + replace (S (length pre)) with (length (pre ++ [w])) by (rewrite length_app; simpl; lia).
      rewrite (IH fuel (pre ++ [w]) k HJ) by (by rewrite <-?app_assoc || lia). by rewrite <-app_assoc.
Qed.

Lemma wake_all k :
  J (filter hit (postprocess_list k)) k ->
  wake now Post test ec k = (Ret tt,
    set_post (filter (fun w => negb (hit w)) (postprocess_list k))
      (woken (filter hit (postprocess_list k)) k)).
Proof.
  intros HJ. unfold wake, st_bind at 1, st_get. cbn [waiters].
  apply (wake_loop_all _ [] (postprocess_list k)); [done|done|lia].
Qed.
End loop.

(** ** Sends that wait for one key *)

Variables (target : string) (key : RSA).

(** The packet a send makes of its text. *)
Definition sealed_for (op : send_op) : option avPacket :=
  match if_address (node_if (s_interface op)), get_rsa_key (node_if (s_interface op)) with
  | Some me, Some mine =>
      match RSA_public_encrypt key (s_data op) with
      | Ret first =>
          match RSA_private_encrypt mine first with
          | Ret second => Some (data_packet me (split_address (s_target op)) second mine)
          | _ => None
          end
      | _ => None
      end
  | _, _ => None
  end.

(** The send of a waiter makes and queues its packet. *)
Definition send_now (w : waiter) (k : kernel) : kernel :=
  match sends k !! w_op w with
  | Some op =>
      match sealed_for op with
      | Some pkt => suspended (w_op w) op WaitWrite (queue_packet (node_if (s_interface op)) pkt (Some (w_op w)) k)
      | None => k
      end
  | None => k
  end.

(** The sends of these waiters can go on. *)
Record can_send (ws : list waiter) (k : kernel) : Prop := {
  cs_static : static_ok k;
  cs_key : find_RSA_pubkey target (trusted_pubkey k) = Ret (Some key);
  cs_once : NoDup (w_op <$> ws);
  cs_sends w : w ∈ ws -> exists op r, sends k !! w_op w = Some op /\ s_stage op = WaitKey r /\
    s_target op = target /\ node_live (s_interface op) k /\ is_Some (sealed_for op)
}.

Lemma live_interface nd k : static_ok k -> node_live nd k -> is_Some (ifs k !! node_if nd).
Proof.
  intros Hs Hl. unfold node_live in Hl. apply list_elem_of_fmap in Hl as ([name nd'] & -> & Hin).
  apply elem_of_map_iter in Hin. by apply (ok_nodes k Hs name).
Qed.

Lemma sealed_inv op pkt :
  sealed_for op = Some pkt -> exists me mine first second,
    if_address (node_if (s_interface op)) = Some me /\ get_rsa_key (node_if (s_interface op)) = Some mine /\
    RSA_public_encrypt key (s_data op) = Ret first /\ RSA_private_encrypt mine first = Ret second /\
    pkt = data_packet me (split_address (s_target op)) second mine.
Proof.
  unfold sealed_for. intros E. destruct (if_address _) as [me|]; [|done].
  destruct (get_rsa_key _) as [mine|]; [|done]. destruct (RSA_public_encrypt _ _) as [first| | | |]; try done.
  destruct (RSA_private_encrypt mine first) as [second| | | |] eqn:E2; try done. injection E as <-.
  by exists me, mine, first, second.
Qed.

Lemma send_now_post w l k : send_now w (set_post l k) = set_post l (send_now w k).
Proof.
  unfold send_now. simpl. destruct (sends k !! w_op w) as [op|]; [|done]. destruct (sealed_for op); [|done].
  unfold queue_packet. simpl. by destruct (ifs k !! _).
Qed.

Lemma send_now_members w k :
  postprocess_list (send_now w k) = postprocess_list k /\ trusted_pubkey (send_now w k) = trusted_pubkey k /\
  table (send_now w k) = table k /\ (forall id, id <> w_op w -> sends (send_now w k) !! id = sends k !! id).
Proof.
  unfold send_now. destruct (sends k !! w_op w) as [op|]; [|done]. destruct (sealed_for op); [|done].
  unfold queue_packet. destruct (ifs k !! _); simpl; split_and!; try done; intros id Hid; by rewrite lookup_insert_ne.
Qed.

Lemma can_send_resume now w ws k :
  can_send (w :: ws) k ->
  resume_send now (w_op w) ec_success k = (Ret tt, send_now w k) /\ can_send ws (send_now w k).
Proof.
  intros [Hs Hk Hnd Hw]. destruct (Hw w ltac:(by left)) as (op & r & Hop & Hst & Htg & Hl & [pkt Hpkt]).
  destruct (sealed_inv op pkt Hpkt) as (me & mine & first & second & Hme & Hmine & E1 & E2 & Ep).
  pose proof (live_interface _ _ Hs Hl) as Hi.
  assert (Er : resume_send now (w_op w) ec_success k = (Ret tt, send_now w k)).
  { rewrite <-Htg in Hk. rewrite (resume_key_eq now _ _ op r k _ Hop Hst Hk).
    rewrite (send_packet_eq _ op key k me mine first second) by done.
    unfold send_now. by rewrite Hop, Hpkt, Ep. }
  split; [done|]. destruct (send_now_members w k) as (_ & Et & Eta & Esd). apply NoDup_cons in Hnd as [Hnin Hnd].
  split; [|by rewrite Et|done|].
  - unfold send_now. rewrite Hop, Hpkt. apply suspended_static, queue_packet_static; [done|].
    unfold request_ok. rewrite Ep. simpl. lia.
  - intros v Hv. destruct (Hw v ltac:(by right)) as (op' & r' & Hop' & Hst' & Htg' & Hl' & Hp').
    exists op', r'. rewrite Esd; [|intros E; apply Hnin; rewrite <-E; by apply list_elem_of_fmap_2].
    unfold node_live. rewrite Eta. done.
Qed.

Lemma wake_can_send now pkt k :
  av_address_to_string (src pkt) = target ->
  can_send (filter (fun w => String.eqb target (pred_target w)) (postprocess_list k)) k ->
  wake now Post (pred pkt) ec_success k = (Ret tt,
    set_post (filter (fun w => negb (String.eqb target (pred_target w))) (postprocess_list k))
      (woken send_now (filter (fun w => String.eqb target (pred_target w)) (postprocess_list k)) k)).
Proof.
  intros Htg HJ.
  apply (wake_all now (pred pkt) ec_success (fun w => String.eqb target (pred_target w)) send_now can_send); try done.
  - intros ws k' w [_ Hk _ _]. unfold pred. rewrite Htg. destruct (String.eqb_spec target (pred_target w)) as [<-|]; [|done].
    by rewrite Hk.
  - intros w ws k'. apply can_send_resume.
  - intros ws l k' [[] Hk Hnd Hw]. split; [by split|done..].
  - apply send_now_post.
  - intros w k'. apply send_now_members.
Qed.

(** After the fold every one of them waits for its packet to be written, and
    the others are as they were. *)
Lemma woken_others ws k id :
  id ∉ w_op <$> ws -> sends (woken send_now ws k) !! id = sends k !! id.
Proof.
  revert k. induction ws as [|w ws IH]; intros k Hid; [done|]. simpl.
  apply not_elem_of_cons in Hid as [Hne Hid]. rewrite IH by done. by apply send_now_members.
Qed.

Lemma woken_sends ws k id op :
  NoDup (w_op <$> ws) -> id ∈ w_op <$> ws -> sends k !! id = Some op -> is_Some (sealed_for op) ->
  sends (woken send_now ws k) !! id = Some {| s_target := s_target op; s_data := s_data op;
    s_interface := s_interface op; s_stage := WaitWrite |}.
Proof.
  intros Hnd Hin Hop Hp. revert k Hop. induction ws as [|w ws IH]; intros k Hop; [by apply elem_of_nil in Hin|].
  apply NoDup_cons in Hnd as [Hnin Hnd]. simpl. destruct (decide (id = w_op w)) as [->|Hne].
  - rewrite woken_others by done. unfold send_now. rewrite Hop. destruct Hp as [pkt ->]. simpl.
    by rewrite lookup_insert_eq.
  - apply IH; [done|by apply elem_of_cons in Hin as [|]|].
    destruct (send_now_members w k) as (_ & _ & _ & ->); done.
Qed.

(** ** The answer *)

Lemma find_fresh address until st :
  keystore_ok st -> st !! address = None ->
  find_RSA_pubkey address (add_RSA_pubkey address key until st) = Ret (Some key).
Proof.
  intros Hst E. destruct (find_after_add address key until st Hst) as [(best & Hf & Hin & _) _].
  rewrite E in Hin. apply list_elem_of_singleton in Hin as ->. done.
Qed.

Lemma add_key_static now address k :
  static_ok k -> static_ok (set_keys (add_RSA_pubkey address key (now + hours 500) (trusted_pubkey k)) k).
Proof.
  intros []. split; simpl; try done; [by apply add_RSA_pubkey_ok|by apply add_peer].
Qed.

(** The sends for [target] that wait for its key, in the order they began to. *)
Definition for_target (k : kernel) : list waiter :=
  filter (fun w => String.eqb target (pred_target w)) (postprocess_list k).
Definition for_others (k : kernel) : list waiter :=
  filter (fun w => negb (String.eqb target (pred_target w))) (postprocess_list k).

(** Every send that waits for the key still has its interface, and can be sealed. *)
Definition senders_ready (k : kernel) : Prop := forall id op r,
  sends k !! id = Some op -> s_stage op = WaitKey r -> s_target op = target ->
  node_live (s_interface op) k /\ is_Some (sealed_for op).

Lemma for_target_can_send k k1 :
  kernel_ok k -> senders_ready k -> static_ok k1 -> sends k1 = sends k -> table k1 = table k ->
  find_RSA_pubkey target (trusted_pubkey k1) = Ret (Some key) -> can_send (for_target k) k1.
Proof.
  intros (_ & [Hnd Hsound _ _ _ _] & _) Hr Hs1 Es Et Hf. split; [done|done| |].
  - eapply sublist_NoDup; [exact Hnd|]. apply fmap_sublist, sublist_filter.
  - intros w [Hw Hin]%list_elem_of_filter. apply Is_true_eq_true, String.eqb_eq in Hw.
    destruct (Hsound w Hin) as [_ (op & r & Hop & Hst & Htg)]. exists op, r. rewrite Es.
    destruct (Hr _ op r Hop Hst) as [Hl Hp]; [congruence|]. unfold node_live. rewrite Et. split_and!; congruence || done.
Qed.

Lemma answer_eq now pkt i k crt pkey :
  kernel_ok k -> is_mine pkt k = Ret true -> upperlayerpotocol pkt = "pkreply" -> publickey pkt = None ->
  av_address_to_string (src pkt) = target -> trusted_pubkey k !! target = None ->
  d2i_X509 (default [] (payload pkt)) = Some crt -> X509_get_pubkey crt = Some pkey ->
  EVP_PKEY_get1_RSA pkey = Some key -> senders_ready k ->
  process_recived_packet now pkt i k = (Ret tt, set_post (for_others k) (woken send_now (for_target k)
    (set_keys (add_RSA_pubkey target key (now + hours 500) (trusted_pubkey k)) k))).
Proof.
  intros Hk Hm Hu Hpub Htg Hno Hcrt Hpk Hkey Hr. pose proof (proj1 Hk) as Hs. set (k1 := set_keys _ k).
  assert (El : learned now pkt k = k) by (unfold learned; rewrite Hpub; by case_match).
  eapply process_wake_eq; [done|exact Hm|rewrite El; by eapply reply_to_me_eq|].
  rewrite Htg. apply (wake_can_send now pkt k1); [done|]. apply (for_target_can_send k k1); try done.
  - by apply add_key_static.
  - apply find_fresh; [apply Hs|done].
Qed.

(** C17: one answer wakes everyone: when a "pkreply" brings the key of an address
    that had none, all the sends that wait for it -- and no others -- go on, in
    the order in which they began to wait: each seals its text with that key and
    puts its packet in the queue of its interface, behind those of the sends
    before it; their waiters are gone, the others' stay in order, and each of
    them now waits for its packet to be written. *)
Theorem key_wakes_all now pkt i k crt pkey :
  kernel_ok k -> is_mine pkt k = Ret true -> upperlayerpotocol pkt = "pkreply" -> publickey pkt = None ->
  av_address_to_string (src pkt) = target -> trusted_pubkey k !! target = None ->
  d2i_X509 (default [] (payload pkt)) = Some crt -> X509_get_pubkey crt = Some pkey ->
  EVP_PKEY_get1_RSA pkey = Some key -> senders_ready k ->
  let k1 := set_keys (add_RSA_pubkey target key (now + hours 500) (trusted_pubkey k)) k in
  let k2 := set_post (for_others k) (woken send_now (for_target k) k1) in
  process_recived_packet now pkt i k = (Ret tt, k2) /\
  (forall id op r, sends k !! id = Some op -> s_stage op = WaitKey r -> s_target op = target ->
     sends k2 !! id = Some {| s_target := s_target op; s_data := s_data op;
       s_interface := s_interface op; s_stage := WaitWrite |}) /\
  (forall id op, sends k !! id = Some op -> s_target op <> target -> sends k2 !! id = Some op).
Proof.
  intros Hk Hm Hu Hpub Htg Hno Hcrt Hpk Hkey Hr k1 k2. pose proof Hk as (_ & [Hnd Hsound Hcomp _ _ _] & _).
  split; [by eapply answer_eq|split].
  - intros id op r Hop Hst Ht. unfold k2. simpl. apply woken_sends; [| |done|].
    + eapply sublist_NoDup; [exact Hnd|]. apply fmap_sublist, sublist_filter.
    + pose proof (Hcomp id op r I Hop Hst) as Hin. apply list_elem_of_fmap in Hin as (w & -> & Hin).
      apply list_elem_of_fmap_2, list_elem_of_filter. split; [|done].
      destruct (Hsound w Hin) as [_ (op' & r' & Hop' & _ & Htg')].
      apply Is_true_eq_left, String.eqb_eq. congruence.
    + by destruct (Hr id op r Hop Hst Ht).
  - intros id op Hop Ht. unfold k2. simpl. rewrite woken_others; [done|]. intros Hin.
    apply list_elem_of_fmap in Hin as (w & -> & [Hw Hin]%list_elem_of_filter).
    apply Is_true_eq_true, String.eqb_eq in Hw. destruct (Hsound w Hin) as [_ (op' & r' & Hop' & _ & Htg')].
    congruence.
Qed.
End wake.
