(* ===== verification/Relay.v ===== *)
(** * Relay: a message on its way through other nodes

    What a node forwards is what the next receives.  A packet goes through a
    chain of routers, each with a state of its own, as long as its time to live
    lasts; the message in it arrives as it was sent. *)

From S2P Require Import Prelude StdSort OpenSSL RsaChunk Regex Address CoroQueue Routing KeyStore Avif Kernel Hoare KernelInv Flow KernelSpec Sendto.

Section relay.
Context `{Build} `{O : OpenSSL} `{BoostRegex} `{StdSort} `{!StdSortLaws H1}.

(** ** What a handler puts in the queues *)

(** The packets in the queues of [k'] that were not in those of [k]. *)
Definition handed_on (k k' : kernel) : list avPacket :=
  concat ((fun i => fst <$> drop (length (pending i k)) (pending i k')) <$> (map_to_list (ifs k')).*1).

Lemma queue_packet_pending i pkt handler k j :
  static_ok k -> is_Some (ifs k !! i) ->
  pending j (queue_packet i pkt handler k) =
    if decide (j = i) then pending j k ++ [(pkt, handler)] else pending j k.
Proof.
  intros Hs [a Ha]. unfold queue_packet. rewrite Ha.
  destruct (ok_ifs k Hs i a Ha) as [[Hone _] _ _].
  etrans; [apply (with_if_pending i _ _ k); apply pop_tasks_of|].
  destruct (decide (j = i)) as [->|]; [|done]. unfold pending. rewrite Ha, <-!app_assoc. simpl. do 2 f_equal.
  unfold push_spec. destruct (m_wait_handlers (write_queue a)) as [|[] ?].
  destruct (first_live _ _) as [[h|] rest] eqn:El; simpl; [|done].
  rewrite decide_True by done. destruct Hone as [->|[Hh _]]; [done|]. by rewrite Hh in El.
Qed.

Lemma queue_packet_keys i pkt handler k : dom (ifs (queue_packet i pkt handler k)) = dom (ifs k).
Proof.
  unfold queue_packet. destruct (ifs k !! i) as [a|] eqn:Ha; [|done]. simpl. apply dom_insert_lookup_L. by eexists.
Qed.

Lemma concat_none {A B} (f : A -> list B) l : (forall y, y ∈ l -> f y = []) -> concat (f <$> l) = [].
Proof.
  induction l as [|y l IH]; intros Hf; [done|]. rewrite fmap_cons. cbn [concat].
  rewrite Hf by apply list_elem_of_here. apply IH. intros z Hz. apply Hf. by apply list_elem_of_further.
Qed.

Lemma concat_one {A B} (f : A -> list B) x l :
  NoDup l -> x ∈ l -> (forall y, y <> x -> f y = []) -> concat (f <$> l) = f x.
Proof.
  intros Hnd Hin Hf. apply list_elem_of_split in Hin as (l1 & l2 & ->).
  apply NoDup_app in Hnd as (_ & Hd & [Hx _]%NoDup_cons).
  rewrite fmap_app, concat_app, fmap_cons. cbn [concat].
  rewrite !concat_none; [by rewrite app_nil_r| |].
  - intros y Hy. apply Hf. intros ->. done.
  - intros y Hy. apply Hf. intros ->. by apply (Hd x Hy), list_elem_of_here.
Qed.

Lemma handed_on_queue i pkt k0 k :
  static_ok k -> is_Some (ifs k !! i) -> (forall j, pending j k = pending j k0) ->
  handed_on k0 (queue_packet i pkt None k) = [pkt].
Proof.
  intros Hs Hi Hp. unfold handed_on. rewrite (concat_one _ i).
  - rewrite queue_packet_pending, decide_True by done. by rewrite Hp, drop_app_length.
  - apply NoDup_fst_map_to_list.
  - apply list_elem_of_fmap. apply elem_of_dom in Hi. rewrite <-(queue_packet_keys i pkt None) in Hi.
    apply elem_of_dom in Hi as [a Ha]. exists (i, a). split; [done|]. by apply elem_of_map_to_list.
  - intros j Hj. rewrite queue_packet_pending, decide_False by done. by rewrite Hp, drop_all.
Qed.

Lemma handed_on_nothing k0 k : (forall j, pending j k = pending j k0) -> handed_on k0 k = [].
Proof.
  intros Hp. apply concat_none. intros i _. by rewrite Hp, drop_all.
Qed.

(** ** A chain of nodes *)

(** A node on the way: its interfaces, its state when the packet arrives, the
    interface by which it arrives, and the time. *)
Record hop := { h_impl : AvifImpl O; h_kernel : kernel; h_if : nat; h_now : Z }.

(** What a node sends on when it gets a packet. *)
Definition pass (h : hop) (pkt : avPacket) : outcome (list avPacket) :=
  let r := process_recived_packet (AvifImpl0 := h_impl h) (h_now h) pkt (h_if h) (h_kernel h) in
  _ ← r.1; Ret (handed_on (h_kernel h) r.2).

(** What comes out at the end of a chain; every copy of the packet goes on. *)
Fixpoint relay (hs : list hop) (pkt : avPacket) : outcome (list avPacket) :=
  match hs with
  | [] => Ret [pkt]
  | h :: hs =>
      out ← pass h pkt;
      (fix all l := match l with [] => Ret [] | p :: l => a ← relay hs p; b ← all l; Ret (a ++ b) end) out
  end.

(** A node that has a route for the packets from [s] to [d], which are not its
    own, and where no send of its own waits for the key of [s]: such a send would
    be woken by the key in the packet, and its packet would come out as well. *)
Record router (s d : avAddress) (h : hop) : Prop := {
  rt_ok : static_ok (h_kernel h);
  rt_other : is_to_me_in (AvifImpl0 := h_impl h) d (map_iter (m_avifs (table (h_kernel h)))) = Ret false;
  rt_route : exists name nd, select_route (av_address_to_string d) (table (h_kernel h)) = Ret (Some (name, nd));
  rt_idle : Forall (fun w => pred_target w <> av_address_to_string s) (postprocess_list (h_kernel h))
}.

Lemma learned_pending now pkt k j : pending j (learned now pkt k) = pending j k.
Proof. unfold learned. by repeat case_match. Qed.

Lemma pass_router s d h pkt :
  router s d h -> src pkt = s -> dest pkt = d ->
  pass h pkt = Ret (if time_to_live pkt <=? 1 then [] else [set_time_to_live pkt (time_to_live pkt - 1)]).
Proof.
  intros [Hs Hm (name & nd & Hr) Hn] <- <-. unfold pass.
  destruct (forwarded_eq (AvifImpl0 := h_impl h) (h_now h) pkt (h_if h) (h_kernel h) Hs Hn Hm) as (o & Ho & E).
  rewrite Hr in Ho. injection Ho as <-. destruct (time_to_live pkt <=? 1); rewrite E; simpl; f_equal.
  - apply handed_on_nothing. intros j. apply learned_pending.
  - pose proof (learned_static (h_now h) pkt _ Hs) as Hl. apply handed_on_queue.
    + destruct Hl. by split.
    + simpl. destruct (learned_members (h_now h) pkt (h_kernel h)) as (_ & -> & _).
      by eapply select_route_node.
    + intros j. by etrans; [|apply (learned_pending (h_now h) pkt)].
Qed.

Lemma relay_routers s d hs pkt :
  Forall (router s d) hs -> src pkt = s -> dest pkt = d -> 1 <= time_to_live pkt ->
  relay hs pkt = Ret (if Z.of_nat (length hs) <? time_to_live pkt
                      then [set_time_to_live pkt (time_to_live pkt - Z.of_nat (length hs))] else []).
Proof.
  intros Hhs. revert pkt. induction Hhs as [|h hs Hh _ IH]; intros pkt Hsrc Hdst Ht; cbn [relay length].
  - rewrite (proj2 (Z.ltb_lt _ _)) by lia. rewrite Z.sub_0_r. by destruct pkt.
  - rewrite (pass_router s d) by done. rewrite outcome_bind_Ret.
    destruct (Z.leb_spec (time_to_live pkt) 1).
    + by rewrite (proj2 (Z.ltb_ge _ _)) by lia.
    + rewrite IH by (simpl; done || lia). cbn [time_to_live set_time_to_live]. rewrite !outcome_bind_Ret, app_nil_r.
      replace (Z.of_nat (length hs) <? time_to_live pkt - 1) with (Z.of_nat (S (length hs)) <? time_to_live pkt)
        by (destruct (Z.ltb_spec (Z.of_nat (S (length hs))) (time_to_live pkt)), (Z.ltb_spec (Z.of_nat (length hs)) (time_to_live pkt - 1)); lia || done).
      destruct (_ <? _); [|done]. unfold set_time_to_live. simpl. do 3 f_equal. lia.
Qed.

(** ** From end to end *)

Context `{!AvifImpl O} `{!BoostRegexLaws H0} `{!OpenSSLLaws O}.

(** C1: what is sent is what is received, through any number of routers less
    than the time to live: if the sender has a route and the target's public
    key, the packet that [async_sendto] queues passes through at most 63 nodes
    that have a route for its destination, each of which sends on exactly one
    copy; given to the kernel to which its destination belongs, by an interface
    with the matching private key, what comes out puts exactly (the sender's
    address, the text) in the receive queue.  After 64 routers nothing comes out.
    The states of the nodes are any well-formed ones in which no send of the
    router's, or of the destination's, waits for the key of the sender (the
    packet would answer it, and the packet of that send would come out too). *)
Theorem message_relayed now id target data k name nd me s_me p_me p_to s_to hs (to : hop) :
  static_ok k -> select_route target (table k) = Ret (Some (name, nd)) ->
  if_address (node_if nd) = Some me -> get_rsa_key (node_if nd) = Some s_me -> rsa_pair p_me s_me ->
  find_RSA_pubkey target (trusted_pubkey k) = Ret (Some p_to) -> rsa_pair p_to s_to ->
  seal_ok s_to (zlen data) -> seal_ok s_me (sealed_len (RSA_size s_to) (zlen data)) ->
  Forall (router me (split_address target)) hs ->
  static_ok (h_kernel to) -> get_rsa_key (AvifImpl := h_impl to) (h_if to) = Some s_to ->
  is_to_me_in (AvifImpl0 := h_impl to) (split_address target) (map_iter (m_avifs (table (h_kernel to)))) = Ret true ->
  Forall (fun w => pred_target w <> av_address_to_string me) (postprocess_list (h_kernel to)) ->
  exists pkt,
    async_sendto_op now id target data k = (Ret tt, suspended id (new_send target data nd) WaitWrite
      (queue_packet (node_if nd) pkt (Some id) k)) /\
    ((length hs < 64)%nat -> exists pkt', relay hs pkt = Ret [pkt'] /\
       process_recived_packet (AvifImpl0 := h_impl to) (h_now to) pkt' (h_if to) (h_kernel to) =
         (Ret tt, deliver (av_address_to_string me, data) (learned (h_now to) pkt' (h_kernel to)))) /\
    ((64 <= length hs)%nat -> relay hs pkt = Ret []).
Proof.
  intros Hs Hsel Hme Hkey Hpme Hfind Hpto Hok1 Hok2 Hhs Hs' Hj Hmine Hn.
  destruct (sealed_opens p_me s_me p_to s_to data) as (first & second & E1 & E2 & D2 & D1); [done..|].
  set (pkt := data_packet me (split_address target) second s_me).
  pose proof (relay_routers _ _ hs pkt Hhs eq_refl eq_refl ltac:(done)) as Er. exists pkt. split_and!.
  - rewrite (sendto_route_eq now id target data k _ _ Hsel Hfind).
    eapply (send_packet_eq id (new_send target data nd)); [done|by eapply select_route_live|
      by eapply select_route_node|done..].
  - intros Hlen. rewrite (proj2 (Z.ltb_lt _ _)) in Er by (simpl; lia). eexists. split; [exact Er|].
    by eapply (delivered_eq (AvifImpl0 := h_impl to)).
  - intros Hlen. by rewrite (proj2 (Z.ltb_ge _ _)) in Er by (simpl; lia).
Qed.
End relay.
