(* ===== verification/Arrival.v ===== *)
(** * Arrival: a message gets where it is sent

    In a network of any nodes, with any traffic, in any order of events: a packet
    that a node on its path holds stays in somebody's hands -- in a queue, being
    written, on a wire, or about to be handled -- until its message is in the
    mailbox of its destination, as long as the nodes on the path and the links
    between them last and their routes stay. *)

From S2P Require Import Prelude StdSort OpenSSL RsaChunk Regex Address CoroQueue Routing KeyStore Avif Kernel Effects Mailbox Hoare KernelInv Flow Network KernelSpec Sendto Relay.

(** ** One node *)

Section node.
Context `{Build} `{O : OpenSSL} `{BoostRegex} `{StdSort} `{!AvifImpl O}.

(** No interface is shutting down. *)
Definition calm (k : kernel) : Prop := forall i, ~ is_quitting i k.

(** Steps that leave the table alone, take no task away and shut nothing down. *)
Record steady (k k' : kernel) : Prop := {
  sd_table : table k' = table k;
  sd_tasks : exists ts, tasks k' = tasks k ++ ts;
  sd_quitting i : is_quitting i k' -> is_quitting i k
}.

#[export] Instance steady_order : PreOrder steady.
Proof.
  split; [intros k; split; [done|exists []; by rewrite app_nil_r|done]|].
  intros k1 k2 k3 [T1 [ts1 E1] Q1] [T2 [ts2 E2] Q2]. split; [congruence| |auto].
  exists (ts1 ++ ts2). by rewrite E2, E1, app_assoc.
Qed.

Lemma steady_calm k k' : steady k k' -> calm k -> calm k'.
Proof. intros [_ _ Hq] Hc i Hi. by apply (Hc i), Hq. Qed.

Lemma steady_if i a a' ts k :
  ifs k !! i = Some a -> (quitting a' = true -> quitting a = true) -> steady k (with_if i a' ts k).
Proof.
  intros Ha Hq. split; [done|by exists ts|]. intros j (b & Hb & Hbq). simpl in Hb.
  destruct (decide (j = i)) as [->|Hj].
  - rewrite lookup_insert_eq in Hb. injection Hb as <-. exists a. auto.
  - rewrite lookup_insert_ne in Hb by done. by exists b.
Qed.

Lemma steady_same k k' :
  table k' = table k -> ifs k' = ifs k -> (exists ts, tasks k' = tasks k ++ ts) -> steady k k'.
Proof. intros Ht Hi Hts. split; [done|done|]. intros i. unfold is_quitting. by rewrite Hi. Qed.

Lemma steady_none k k' : table k' = table k -> ifs k' = ifs k -> tasks k' = tasks k -> steady k k'.
Proof. intros Ht Hi Hts. apply steady_same; [done|done|]. exists []. by rewrite app_nil_r. Qed.

Lemma steady_queue i op : effects calm steady (with_queue i op).
Proof. intros k u k' _ (a & r & Ha & _ & ->)%with_queue_inv. by eapply steady_if. Qed.

#[export] Instance steady_primitives : Primitives calm steady (fun _ _ => True).
Proof.
  split; try done.
  - apply _.
  - apply steady_calm.
  - intros k k' _ []. by apply steady_none.
  - intros i v. apply steady_queue.
  - intros id ec k u k' _ [= _ <-]. by apply steady_none.
  - intros id op s k u k' _ [= _ <-]. by apply steady_none.
Qed.

#[export] Instance steady_receives : Receives calm steady.
Proof.
  intros v k u k' _. unfold push_recv, st_bind, read_k, st_modify, io_post.
  destruct (push v (m_recv_buffer k)) as [r| | | |]; try done. intros [= _ <-].
  apply steady_same; [done|done|by eexists].
Qed.

(** An interface is read, and changed. *)
Lemma steady_with_if {A} i (f : avif_state -> ST kernel A) :
  (forall a, effects (fun k => calm k /\ ifs k !! i = Some a) steady (f a)) ->
  effects calm steady (let* a := get_if i in f a).
Proof.
  intros Hf k b k' Hc (a & k1 & E1 & E2)%st_bind_inv. unfold get_if, read_k in E1.
  destruct (ifs k !! i) as [c|] eqn:Ec; [|done]. injection E1 as -> <-. by eapply Hf.
Qed.

Lemma steady_set_if i a a' :
  (quitting a' = true -> quitting a = true) ->
  effects (fun k => calm k /\ ifs k !! i = Some a) steady (set_if i a').
Proof.
  intros Hq k u k' [_ Ha] [= _ <-]. pose proof (steady_if i a a' [] k Ha Hq) as Hs.
  unfold with_if in Hs. by rewrite app_nil_r in Hs.
Qed.

Lemma steady_writer i : effects calm steady (interface_writer i).
Proof.
  apply steady_with_if. intros a. destruct (quitting a); [by apply (effects_still _ steady)|].
  eapply effects_weaken; [apply steady_queue|]. by intros k [].
Qed.

Lemma steady_writer_popped i ec v : effects calm steady (writer_popped i ec v).
Proof.
  unfold writer_popped. destruct (failed ec); [by apply (effects_still _ steady)|].
  apply steady_with_if. intros a. by apply steady_set_if.
Qed.

Lemma steady_writer_wrote now i n ec : effects calm steady (writer_wrote now i n ec).
Proof.
  apply steady_with_if. intros a k u k' [Hc Ha]. destruct (writing a !! n) as [[pkt handler]|].
  2:{ by intros [= _ <-]. }
  intros ([] & k1 & E1 & E2)%st_bind_inv.
  assert (H1' : steady k k1)
    by (eapply (steady_set_if i a (set_writing (delete n (writing a)) a)); [done|by split|exact E1]). etransitivity; [exact H1'|].
  revert E2. apply (effects_bind calm steady steady_calm); [| |by eapply steady_calm].
  - destruct handler; [apply (eff_resume_send (G := fun _ _ => True))|by apply (effects_still _ steady)].
  - intros _. apply steady_writer.
Qed.

Lemma steady_runner i : effects calm steady (interface_runner i).
Proof.
  apply steady_with_if. intros a. destruct (quitting a) eqn:Eq; [|by apply steady_set_if].
  intros k u k' [Hc Ha]. destruct (Hc i). by exists a.
Qed.

Lemma steady_runner_read now i pkt : effects calm steady (runner_read now i (Some pkt)).
Proof.
  apply steady_with_if. intros a k u k' [Hc Ha]. destruct (reading a) as [|n]; [by intros [= _ <-]|].
  intros ([] & k1 & E1 & E2)%st_bind_inv.
  assert (H1' : steady k k1)
    by (eapply (steady_set_if i a (set_reading n a)); [done|by split|exact E1]). etransitivity; [exact H1'|].
  revert E2. apply (effects_bind calm steady steady_calm); [| |by eapply steady_calm].
  - apply (effects_bind calm steady steady_calm); [apply (eff_wake (G := fun _ _ => True))|].
    intros _ k2 v k3 _ [= _ <-]. apply steady_same; [done|done|by eexists].
  - intros _. apply steady_runner.
Qed.

Lemma steady_run_task now t : effects calm steady (run_task now t).
Proof.
  destruct t; cbn [run_task].
  - apply (eff_process (G := fun _ _ => True)).
  - apply steady_runner.
  - apply steady_writer.
  - apply (eff_sendto_op (G := fun _ _ => True)).
  - intros k u k' _ [= _ <-]. apply steady_same; [done|done|by eexists].
  - apply steady_writer_popped.
  - intros k u k' _ [= _ <-]. by apply steady_none.
Qed.

(** ** Events *)

(** Nothing is added or changed, and no interface is lost. *)
Definition benign (e : event) : Prop :=
  match e with EAddInterface _ | EAddRoute _ _ _ _ | ERead _ None _ => False | _ => True end.
(** The event takes this task away. *)
Definition runs (e : event) (t : task) (k : kernel) : Prop :=
  exists n now, e = ERun n now /\ tasks k !! n = Some t.

Lemma steady_construct i k : steady k (match ifs k !! i with Some _ => k | None => set_ifs (<[i := construct]> (ifs k)) k end).
Proof.
  destruct (ifs k !! i) as [a|] eqn:Ea; [done|].
  split; [done|exists []; by rewrite app_nil_r|]. intros j (b & Hb & Hbq). simpl in Hb.
  apply lookup_insert_Some in Hb as [[<- <-]|[_ Hb]]; [done|by exists b].
Qed.

Lemma step_steady e k u k' :
  benign e -> calm k -> step e k = (Ret u, k') ->
  table k' = table k /\ calm k' /\ forall t, t ∈ tasks k -> t ∈ tasks k' \/ runs e t k.
Proof.
  intros He Hc E.
  assert (Hall : steady k k' -> table k' = table k /\ calm k' /\ forall t, t ∈ tasks k -> t ∈ tasks k' \/ runs e t k).
  { intros Hs. split_and!; [apply Hs|by eapply steady_calm|]. intros t Ht. left.
    destruct (sd_tasks _ _ Hs) as [ts ->]. apply elem_of_app. by left. }
  destruct e as [i|i|target gw name m|target data| | |n now|i [pkt|] now|i n ec now|ec now|ec now]; try done; cbn [step] in E.
  - apply Hall. injection E as _ <-. apply steady_construct.
  - apply Hall. injection E as _ <-. apply steady_same; [done|done|by eexists].
  - apply Hall. injection E as _ <-. apply steady_same; [done|done|by eexists].
  - apply Hall. injection E as _ <-. by apply steady_none.
  - destruct (tasks k !! n) as [t0|] eqn:Et; [|apply Hall; by injection E as _ <-].
    pose proof (steady_run_task now t0 (set_tasks (delete n (tasks k)) k) u k' Hc E) as Hs.
    split_and!; [apply Hs|by apply (steady_calm _ _ Hs)|]. intros t Ht.
    rewrite (delete_Permutation _ _ _ Et) in Ht. apply elem_of_cons in Ht as [->|Ht]; [right; by exists n, now|].
    left. destruct (sd_tasks _ _ Hs) as [ts ->]. apply elem_of_app. by left.
  - apply Hall. by eapply steady_runner_read.
  - apply Hall. by eapply steady_writer_wrote.
  - apply Hall. destruct (timer1_armed k); [|by injection E as _ <-].
    etransitivity; [|eapply (eff_timer1 (G := fun _ _ => True)); [|exact E]]; [by apply steady_none|exact Hc].
  - apply Hall. destruct (timer2_armed k); [|by injection E as _ <-].
    etransitivity; [|eapply (eff_timer2 (G := fun _ _ => True)); [|exact E]]; [by apply steady_none|exact Hc].
Qed.

(** ** A node in working order *)

Context `{!StdSortLaws H1}.

Record in_order (k : kernel) : Prop := {
  io_ok : kernel_ok k;
  io_flow : flow_ok None k;
  io_recv : recv_ok k;
  io_calm : calm k
}.

Lemma reached_in_order es k u : run_events es init_kernel = (Ret u, k) -> calm k -> in_order k.
Proof.
  intros E Hc. split; [by eapply reach_ok|by eapply run_flow; [apply init_flow_ok|]| |done].
  assert (Hr : forall es k0 u k', recv_ok k0 -> run_events es k0 = (Ret u, k') -> recv_ok k').
  { clear. induction es as [|e es IH]; intros k0 u k' Hk; cbn [run_events]; [by intros [= _ <-]|].
    intros ([] & k1 & E1 & E2)%st_bind_inv. eapply IH; [|exact E2]. by eapply step_simulated. }
  eapply Hr; [apply init_recv_ok|exact E].
Qed.

(** What an event does to a packet that waits to be written, and to a node. *)
Lemma step_keeps e k u k' :
  benign e -> in_order k -> step e k = (Ret u, k') ->
  in_order k' /\ table k' = table k /\
  (forall i, (writers i k <= 1)%nat -> (writers i k' <= 1)%nat /\
     forall v, v ∈ pending i k -> v ∈ written i e k \/ v ∈ pending i k') /\
  (forall t, t ∈ tasks k -> t ∈ tasks k' \/ runs e t k) /\
  all_messages (mailbox_of k') ≡ₚ all_messages (mailbox_of k) ++ arrivals (event_labels e k).
Proof.
  intros He [Hk Hf Hr Hc] E. destruct (step_steady e k u k' He Hc E) as (Ht & Hc' & Hta).
  destruct (step_flow e k u k' Hf E) as [Hf' _ Hw Ho]. destruct (step_simulated e k u k' Hr E) as (Hr' & _ & Hm).
  split_and!; [|done| |done|by apply mailbox_run_keeps].
  { split; [|done|done|done]. by eapply step_kernel_ok. }
  intros i Hi. assert (Hn : new_writers i e = 0%nat) by by destruct e.
  split; [specialize (Hw i); lia|]. intros v Hv. destruct (Ho i Hi) as (rest & new & Ep & Ep').
  rewrite Ep in Hv. rewrite Ep'. apply elem_of_app in Hv as [Hv|Hv]; [by left|right]. apply elem_of_app. by left.
Qed.

Lemma static_unqueue n k : static_ok k -> static_ok (set_tasks (delete n (tasks k)) k).
Proof.
  intros []. split; simpl; try done. by apply Forall_delete.
Qed.

(** A packet that is handled by a router is in the queue of its route's interface. *)
Lemma process_forwards now pkt i k u k' name nd :
  static_ok k -> flow_ok None k -> is_mine pkt k = Ret false ->
  select_route (av_address_to_string (dest pkt)) (table k) = Ret (Some (name, nd)) -> 1 < time_to_live pkt ->
  process_recived_packet now pkt i k = (Ret u, k') ->
  (set_time_to_live pkt (time_to_live pkt - 1), None) ∈ pending (node_if nd) k'.
Proof.
  intros Hs Hf Hm Hr Ht E. destruct (learned_members now pkt k) as (Etab & Eifs & _).
  unfold process_recived_packet, scope_exit in E.
  rewrite (st_bind_Ret _ _ k tt (learned now pkt k)) in E by by apply learn_key_eq.
  rewrite (st_bind_Ret _ _ _ false (learned now pkt k)) in E
    by (unfold is_to_me, read_k; rewrite Etab; by f_equal).
  assert (Hfl : flow_ok None (learned now pkt k)).
  { eapply fs_ok; [|exact Hf]. eapply (eff_learn_key (J := flow_ok None) (G := attended None) now pkt k tt); [done|].
    by apply learn_key_eq. }
  destruct (forward_packet pkt (learned now pkt k)) as [o k2] eqn:Ef.
  assert (Hq : o = Ret tt /\ (set_time_to_live pkt (time_to_live pkt - 1), None) ∈ pending (node_if nd) k2).
  { revert Ef. unfold forward_packet. rewrite (proj2 (Z.leb_gt _ _)) by done.
    unfold st_bind at 1, kernel_select_route, st_bind at 1, read_k. cbn [dest set_time_to_live]. rewrite Etab, Hr. simpl.
    unfold st_bind, ask_ifname. cbn [fst snd]. destruct (select_route_node _ _ _ _ Hs Hr) as [a Ha].
    assert (Hs1 : static_ok (with_counters (S (names_asked (learned now pkt k))) (next_node (learned now pkt k))
      (next_op (learned now pkt k)) (learned now pkt k))) by (destruct (learned_static now pkt k Hs); by split).
    erewrite write_eq by (done || by simpl; rewrite Eifs). intros [= <- <-]. split; [done|].
    rewrite queue_packet_pending by (done || by simpl; rewrite Eifs; eexists).
    rewrite decide_True by done. apply elem_of_app. right. apply list_elem_of_here. }
  destruct Hq as [-> Hin]. apply st_bind_inv in E as ([] & k3 & Ew & [= _ <-]).
  assert (Hf2 : flow_ok None k2).
  { eapply fs_ok; [|exact Hfl]. by eapply (eff_forward (J := flow_ok None) (G := attended None) pkt). }
  destruct (fs_pending None k2 k3 (eff_wake (J := flow_ok None) (G := attended None) now Post _ _ k2 tt k3 Hf2 Ew)
    (node_if nd)) as [new ->]. apply elem_of_app. by left.
Qed.

(** A packet that is read will be handled. *)
Lemma read_posts now i pkt k u k' a :
  calm k -> ifs k !! i = Some a -> reading a <> 0%nat -> step (ERead i (Some pkt) now) k = (Ret u, k') ->
  TProcess pkt i ∈ tasks k'.
Proof.
  intros Hc Ha Hr E. cbn [step] in E. unfold runner_read in E.
  rewrite (st_bind_Ret _ _ k a k) in E by (unfold get_if, read_k; by rewrite Ha).
  destruct (reading a) as [|n] eqn:En; [done|].
  apply st_bind_inv in E as ([] & k1 & E1 & E).
  assert (Hc1 : calm k1).
  { eapply steady_calm; [|exact Hc]. by apply (steady_set_if i a (set_reading n a) (fun h => h) k tt k1). }
  apply st_bind_inv in E as ([] & k2 & E2 & E).
  apply st_bind_inv in E2 as ([] & k3 & Ew & [= <-]).
  assert (Hc3 : calm k3) by (eapply steady_calm; [by eapply (eff_wake (J := calm) (G := fun _ _ => True))|done]).
  destruct (sd_tasks _ _ (steady_runner i (set_tasks (tasks k3 ++ [TProcess pkt i]) k3) u k' Hc3 E)) as [ts ->].
  simpl. apply elem_of_app. left. apply elem_of_app. right. apply list_elem_of_here.
Qed.
End node.

(** ** The network *)

Section net.
Context `{Build} `{O : OpenSSL} `{BoostRegex} `{StdSort} `{!StdSortLaws H1} `{!BoostRegexLaws H0}.
Context (impl : nat -> AvifImpl O) (peer : nat -> nat -> option (nat * nat)).

(** The nodes on the path. *)
Variable on_path : nat -> Prop.

Abbreviation advance := (net_step impl peer).

(** What may happen: on the path nothing is added or lost, and a packet is read
    by a runner that waits for one; elsewhere anything. *)
Definition allowed (ev : net_event) (w : network) : Prop :=
  match ev with
  | NLocal n e => on_path n -> benign e
  | NDeliver j _ => forall n i pkt, wire w !! j = Some (n, i, pkt) -> on_path n ->
      exists k a, nodes w !! n = Some k /\ ifs k !! i = Some a /\ reading a <> 0%nat
  | NLose j => forall n i pkt, wire w !! j = Some (n, i, pkt) -> ~ on_path n
  | NFail _ => True
  end.

Fixpoint all_allowed (evs : list net_event) (w : network) : Prop :=
  match evs with [] => True | ev :: evs => allowed ev w /\ all_allowed evs (advance ev w) end.

Lemma node_step_at n m e w k :
  nodes w !! n = Some k -> is_Some (nodes (node_step impl peer m e w) !! n) ->
  exists k', nodes (node_step impl peer m e w) !! n = Some k' /\
    (k' = k \/ n = m /\ step (AvifImpl0 := impl n) e k = (Ret tt, k') /\
       wire (node_step impl peer m e w) = wire w ++ omap (sent_to peer n) (emitted e k)).
Proof.
  intros Hn. unfold node_step. destruct (decide (n = m)) as [->|Hne].
  - rewrite Hn. simpl. destruct (step e k) as [[[]| | | |] k'] eqn:E; rewrite ?lookup_delete_eq; try by intros [].
    intros _. exists k'. rewrite lookup_insert_eq. split; [done|]. by right.
  - intros _. exists k. split; [|by left]. destruct (nodes w !! m); [|done]. simpl.
    destruct (step e _) as [[]]; by rewrite ?lookup_insert_ne, ?lookup_delete_ne by done.
Qed.

Lemma node_kept ev w n k :
  allowed ev w -> on_path n -> nodes w !! n = Some k -> is_Some (nodes (advance ev w) !! n) ->
  exists k', nodes (advance ev w) !! n = Some k' /\
    (k' = k \/ exists e, benign e /\ step (AvifImpl0 := impl n) e k = (Ret tt, k') /\
       (forall x, x ∈ omap (sent_to peer n) (emitted e k) -> x ∈ wire (advance ev w)) /\
       (ev = NLocal n e \/ exists i pkt now, e = ERead i (Some pkt) now)).
Proof.
  intros Ha Hp Hn Hs. destruct ev as [m e|j now|j|m]; cbn [net_step allowed] in *.
  - assert (Hcase : is_Some (nodes (node_step impl peer m e w) !! n) ->
      exists k', nodes (node_step impl peer m e w) !! n = Some k' /\
      (k' = k \/ exists e', benign e' /\ step (AvifImpl0 := impl n) e' k = (Ret tt, k') /\
         (forall x, x ∈ omap (sent_to peer n) (emitted e' k) -> x ∈ wire (node_step impl peer m e w)) /\
         (NLocal m e = NLocal n e' \/ exists i pkt now, e' = ERead i (Some pkt) now))).
    { intros Hs'. destruct (node_step_at n m e w k Hn Hs') as (k' & Hk' & Hc). exists k'. split; [done|].
      destruct Hc as [->|(-> & E & Ew)]; [by left|right]. exists e.
      split_and!; [by apply Ha|done| |by left]. intros x Hx. rewrite Ew. apply elem_of_app. by right. }
    destruct e as [| | | | | | |i [pkt|] now| | |]; try exact (Hcase Hs). exists k. auto.
  - destruct (wire w !! j) as [[[m i] pkt]|] eqn:Ej; [|exists k; auto].
    destruct (node_step_at n m (ERead i (Some pkt) now) {| nodes := nodes w; wire := delete j (wire w) |} k Hn Hs) as (k' & Hk' & Hc). exists k'. split; [done|].
    destruct Hc as [->|(-> & E & Ew)]; [by left|right]. eexists.
    split_and!; [|exact E| |right; by eexists _, _, _]; [done|]. intros x Hx. rewrite Ew. apply elem_of_app. by right.
  - exists k. auto.
  - simpl in *. destruct (decide (n = m)) as [->|Hne]; [rewrite lookup_delete_eq in Hs; by destruct Hs|].
    exists k. rewrite lookup_delete_ne by done. auto.
Qed.

Lemma node_step_wire m e w x : x ∈ wire w -> x ∈ wire (node_step impl peer m e w).
Proof.
  intros Hx. unfold node_step. destruct (nodes w !! m); [|done]. simpl. apply elem_of_app. by left.
Qed.

Lemma delete_other {A} j (x y : A) (l : list A) : l !! j = Some y -> x ∈ l -> x = y \/ x ∈ delete j l.
Proof. intros Hj. rewrite (delete_Permutation _ _ _ Hj) at 1. apply elem_of_cons. Qed.

Lemma wire_kept ev w n i pkt :
  allowed ev w -> on_path n -> (n, i, pkt) ∈ wire w ->
  (n, i, pkt) ∈ wire (advance ev w) \/ exists j now, ev = NDeliver j now /\ wire w !! j = Some (n, i, pkt).
Proof.
  intros Ha Hp Hx. destruct ev as [m e|j now|j|m]; cbn [net_step allowed] in *; [| | |by left].
  - left. destruct e as [| | | | | | |? [?|] ?| | |]; try done; by apply node_step_wire.
  - destruct (wire w !! j) as [[[m i'] pkt']|] eqn:Ej; [|by left].
    destruct (delete_other _ _ _ _ Ej Hx) as [E|Hx']; [right; exists j, now; by rewrite Ej, <-E|left].
    by apply node_step_wire.
  - left. simpl. destruct (wire w !! j) as [[[m i'] pkt']|] eqn:Ej.
    + destruct (delete_other _ _ _ _ Ej Hx) as [[= <- <- <-]|Hx']; [|done]. by destruct (Ha _ _ _ eq_refl).
    + apply lookup_ge_None in Ej. by rewrite delete_take_drop, take_ge, drop_ge, app_nil_r by lia.
Qed.

(** ** In somebody's hands *)

Definition pending_at (n o : nat) (pkt : avPacket) (w : network) : Prop :=
  exists k h, nodes w !! n = Some k /\ (pkt, h) ∈ pending o k.
Definition arriving (n i : nat) (pkt : avPacket) (w : network) : Prop :=
  (n, i, pkt) ∈ wire w \/ exists k, nodes w !! n = Some k /\ TProcess pkt i ∈ tasks k.
Definition arrived_at (n : nat) (v : message) (w : network) : Prop :=
  exists k, nodes w !! n = Some k /\ v ∈ all_messages (mailbox_of k).

(** A node whose interface [o] leads on. *)
Definition carries (n o : nat) (w : network) : Prop :=
  exists k, nodes w !! n = Some k /\ in_order k /\ (writers o k <= 1)%nat /\ in_table o k.
(** A router that sends packets for [d] there. *)
Definition forwards (n o : nat) (d : avAddress) (w : network) : Prop :=
  exists k name nd, nodes w !! n = Some k /\ in_order k /\ (writers o k <= 1)%nat /\ in_table o k /\
    is_to_me_in (AvifImpl0 := impl n) d (map_iter (m_avifs (table k))) = Ret false /\
    select_route (av_address_to_string d) (table k) = Ret (Some (name, nd)) /\ node_if nd = o.
(** The node where packets for [d] are at home. *)
Definition home (n : nat) (d : avAddress) (w : network) : Prop :=
  exists k, nodes w !! n = Some k /\ in_order k /\
    is_to_me_in (AvifImpl0 := impl n) d (map_iter (m_avifs (table k))) = Ret true.

Section step.
Variables (ev : net_event) (w : network).
Hypothesis Hev : allowed ev w.
Variable n : nat.
Hypothesis Hp : on_path n.
Hypothesis Hn : is_Some (nodes (advance ev w) !! n).

Lemma node_lasts k :
  nodes w !! n = Some k -> in_order k ->
  exists k', nodes (advance ev w) !! n = Some k' /\ in_order k' /\ table k' = table k /\
    (forall i, (writers i k <= 1)%nat -> (writers i k' <= 1)%nat).
Proof.
  intros Hk Hok. destruct (node_kept ev w n k Hev Hp Hk Hn) as (k' & Hk' & Hc). exists k'. split; [done|].
  destruct Hc as [->|(e & He & E & _)]; [done|].
  destruct (step_keeps (AvifImpl0 := impl n) e k tt k' He Hok E) as (Hok' & Ht & Hw & _).
  split_and!; [done|done|]. intros i Hi. by apply Hw.
Qed.

Lemma in_table_same i k k' : table k' = table k -> in_table i k -> in_table i k'.
Proof. unfold in_table. by intros ->. Qed.

Lemma carries_lasts o : carries n o w -> carries n o (advance ev w).
Proof.
  intros (k & Hk & Hok & Hw & Hi). destruct (node_lasts k Hk Hok) as (k' & Hk' & Hok' & Ht & Hw').
  exists k'. split_and!; [done|done|auto|by eapply in_table_same].
Qed.

Lemma forwards_lasts o d : forwards n o d w -> forwards n o d (advance ev w).
Proof.
  intros (k & name & nd & Hk & Hok & Hw & Hi & Hm & Hr & Ho). destruct (node_lasts k Hk Hok) as (k' & Hk' & Hok' & Ht & Hw').
  exists k', name, nd. rewrite Ht. split_and!; try done; [auto|by eapply in_table_same].
Qed.

Lemma home_lasts d : home n d w -> home n d (advance ev w).
Proof.
  intros (k & Hk & Hok & Hm). destruct (node_lasts k Hk Hok) as (k' & Hk' & Hok' & Ht & _).
  exists k'. by rewrite Ht.
Qed.

(** What waits at an interface goes on waiting, or leaves for the next node. *)
Lemma pending_moves o n' i' pkt :
  carries n o w -> peer n o = Some (n', i') -> pending_at n o pkt w ->
  pending_at n o pkt (advance ev w) \/ arriving n' i' pkt (advance ev w).
Proof.
  intros (k & Hk & Hok & Hw & _) Hpeer (k0 & h & Hk0 & Hin). rewrite Hk in Hk0. injection Hk0 as <-.
  destruct (node_kept ev w n k Hev Hp Hk Hn) as (k' & Hk' & Hc).
  destruct Hc as [->|(e & He & E & Hwire & _)]; [left; by exists k, h|].
  destruct (step_keeps (AvifImpl0 := impl n) e k tt k' He Hok E) as (_ & _ & Hpend & _).
  destruct (Hpend o Hw) as [_ Hv]. destruct (Hv _ Hin) as [Hwr|Hin']; [right|left; by exists k', h].
  left. apply Hwire. apply list_elem_of_omap. exists (o, pkt). split; [|unfold sent_to; simpl; by rewrite Hpeer].
  destruct e as [| | | | | | | |j m ec now| |]; try by apply elem_of_nil in Hwr. simpl in *.
  destruct (decide (o = j)) as [<-|]; [|by apply elem_of_nil in Hwr].
  destruct (ifs k !! o) as [a|]; [|by apply elem_of_nil in Hwr]. simpl in *.
  destruct (writing a !! m) as [v|]; [|by apply elem_of_nil in Hwr]. simpl in *.
  apply list_elem_of_singleton in Hwr as <-. apply list_elem_of_here.
Qed.

(** What is about to be handled is still about to be, or is being handled. *)
Lemma arriving_moves i pkt k :
  nodes w !! n = Some k -> in_order k -> arriving n i pkt w ->
  arriving n i pkt (advance ev w) \/
  exists k' m now, nodes (advance ev w) !! n = Some k' /\ tasks k !! m = Some (TProcess pkt i) /\
    step (AvifImpl0 := impl n) (ERun m now) k = (Ret tt, k').
Proof.
  intros Hk Hok [Hwire|(k0 & Hk0 & Ht)].
  - destruct (wire_kept ev w n i pkt Hev Hp Hwire) as [Hw|(j & now & -> & Ej)]; [left; by left|left; right].
    cbn [net_step allowed] in *. rewrite Ej in *. destruct (Hev n i pkt eq_refl Hp) as (k0 & a & Hk0 & Ha & Hr).
    rewrite Hk in Hk0. injection Hk0 as <-.
    set (w1 := {| nodes := nodes w; wire := delete j (wire w) |}) in *.
    unfold node_step in *. change (nodes w1) with (nodes w) in *. rewrite Hk in *. simpl in *.
    destruct (runner_read now i (Some pkt) k) as [[[]| | | |] k'] eqn:E;
      try (rewrite lookup_delete_eq in Hn; by destruct Hn).
    exists k'. rewrite lookup_insert_eq. split; [done|].
    eapply (read_posts (AvifImpl0 := impl n) now i pkt k tt k' a); [apply Hok|exact Ha|exact Hr|exact E].
  - rewrite Hk in Hk0. injection Hk0 as <-. destruct (node_kept ev w n k Hev Hp Hk Hn) as (k' & Hk' & Hc).
    destruct Hc as [->|(e & He & E & _)]; [left; right; by exists k|].
    destruct (step_keeps (AvifImpl0 := impl n) e k tt k' He Hok E) as (_ & _ & _ & Hta & _).
    destruct (Hta _ Ht) as [Ht'|(m & now & -> & Hm)]; [left; right; by exists k'|right]. by exists k', m, now.
Qed.

Lemma router_moves o d i pkt :
  forwards n o d w -> dest pkt = d -> 1 < time_to_live pkt -> arriving n i pkt w ->
  arriving n i pkt (advance ev w) \/ pending_at n o (set_time_to_live pkt (time_to_live pkt - 1)) (advance ev w).
Proof.
  intros (k & name & nd & Hk & Hok & Hw & Hi & Hm & Hr & <-) <- Ht Ha.
  destruct (arriving_moves i pkt k Hk Hok Ha) as [?|(k' & m & now & Hk' & Hta & E)]; [by left|right].
  cbn [step] in E. rewrite Hta in E. cbn [run_task] in E. exists k', None. split; [done|].
  eapply (process_forwards (AvifImpl0 := impl n) now pkt i (set_tasks (delete m (tasks k)) k) tt k' name nd); try done.
  - apply static_unqueue, Hok.
  - eapply fs_ok; [by eapply unqueue_flows; [exact Hta|done|apply Hok]|apply Hok].
Qed.

Lemma home_moves d i pkt data :
  home n d w -> dest pkt = d -> upperlayerpotocol pkt = "avim" ->
  opened (AvifImpl0 := impl n) pkt i = Ret data -> arriving n i pkt w ->
  arriving n i pkt (advance ev w) \/ arrived_at n (av_address_to_string (src pkt), data) (advance ev w).
Proof.
  intros (k & Hk & Hok & Hm) <- Hu Ho Ha.
  destruct (arriving_moves i pkt k Hk Hok Ha) as [?|(k' & m & now & Hk' & Hta & E)]; [by left|right].
  exists k'. split; [done|].
  destruct (step_keeps (AvifImpl0 := impl n) (ERun m now) k tt k' I Hok E) as (_ & _ & _ & _ & ->).
  cbn [event_labels]. rewrite Hta. cbn [task_labels]. unfold arrives_in. rewrite Hm, Hu, Ho.
  apply elem_of_app. right. apply list_elem_of_here.
Qed.

Lemma arrived_lasts d v : home n d w -> arrived_at n v w -> arrived_at n v (advance ev w).
Proof.
  intros (k & Hk & Hok & _) (k0 & Hk0 & Hv). rewrite Hk in Hk0. injection Hk0 as <-.
  destruct (node_kept ev w n k Hev Hp Hk Hn) as (k' & Hk' & Hc). exists k'. split; [done|].
  destruct Hc as [->|(e & He & E & _)]; [done|].
  destruct (step_keeps (AvifImpl0 := impl n) e k tt k' He Hok E) as (_ & _ & _ & _ & ->).
  apply elem_of_app. by left.
Qed.
End step.

Lemma forwards_carries n o d w : forwards n o d w -> carries n o w.
Proof. intros (k & name & nd & Hk & Hok & Hw & Hi & _). by exists k. Qed.

(** ** The path *)

(** A router on the path: the node, the interface by which packets come, and the
    one by which they leave; and the destination, reached by [last_in]. *)
Abbreviation stop := (nat * nat * nat)%type.
Variables (last last_in : nat).

Fixpoint linked (n o : nat) (path : list stop) : Prop :=
  match path with
  | [] => peer n o = Some (last, last_in)
  | (n', i', o') :: path => peer n o = Some (n', i') /\ linked n' o' path
  end.

Definition decremented (pkt : avPacket) : avPacket := set_time_to_live pkt (time_to_live pkt - 1).

(** What the packet is when it arrives. *)
Fixpoint arrives_as (path : list stop) (pkt : avPacket) : avPacket :=
  match path with [] => pkt | _ :: path => arrives_as path (decremented pkt) end.

Lemma arrives_as_same path pkt :
  let pkt' := arrives_as path pkt in
  src pkt' = src pkt /\ dest pkt' = dest pkt /\ upperlayerpotocol pkt' = upperlayerpotocol pkt /\
  payload pkt' = payload pkt /\ publickey pkt' = publickey pkt.
Proof. revert pkt. induction path as [|s path IH]; intros pkt; [done|]. apply (IH (decremented pkt)). Qed.

(** The packet that node [n] writes, or what later nodes make of it, is in
    somebody's hands, or what it is sent for is done. *)
Fixpoint carried (goal : network -> Prop) (n o : nat) (path : list stop) (pkt : avPacket) (w : network) : Prop :=
  pending_at n o pkt w \/
  match path with
  | [] => arriving last last_in pkt w \/ goal w
  | (n', i', o') :: path => arriving n' i' pkt w \/ carried goal n' o' path (decremented pkt) w
  end.

Lemma carried_goal (goal : network -> Prop) n o path pkt w : goal w -> carried goal n o path pkt w.
Proof.
  intros Hg. revert n o pkt. induction path as [|[[n' i'] o'] path IH]; intros n o pkt; cbn [carried]; auto.
Qed.

Lemma carried_pending goal n o path pkt w : pending_at n o pkt w -> carried goal n o path pkt w.
Proof. intros Hp. destruct path as [|[[] ?] ?]; by left. Qed.

(** For a message: it is there. *)
Definition under_way (v : message) : nat -> nat -> list stop -> avPacket -> network -> Prop :=
  carried (arrived_at last v).

Definition stop_ok (d : avAddress) (w : network) (s : stop) : Prop := on_path s.1.1 /\ forwards s.1.1 s.2 d w.

(** One event: the packet stays in somebody's hands, if its end does its part. *)
Lemma carried_step ev w goal n o path pkt :
  allowed ev w -> (forall m, on_path m -> is_Some (nodes (advance ev w) !! m)) ->
  on_path n -> carries n o w -> Forall (stop_ok (dest pkt) w) path -> linked n o path ->
  Z.of_nat (length path) < time_to_live pkt -> (goal w -> goal (advance ev w)) ->
  (arriving last last_in (arrives_as path pkt) w ->
     arriving last last_in (arrives_as path pkt) (advance ev w) \/ goal (advance ev w)) ->
  carried goal n o path pkt w -> carried goal n o path pkt (advance ev w).
Proof.
  intros Hev Hs. revert n o pkt.
  induction path as [|[[n' i'] o'] path IH]; intros n o pkt Hp Hc Hpath Hlk Ht Hgoal Hend; cbn [linked carried arrives_as] in *.
  - intros [Hpend|[Ha|Hg]]; [|tauto..].
    destruct (pending_moves ev w Hev n Hp (Hs n Hp) o _ _ pkt Hc Hlk Hpend); tauto.
  - destruct Hlk as [Hpeer Hlk]. apply Forall_cons in Hpath as [[Hp' Hf] Hpath]. simpl in Hp', Hf, Ht.
    intros [Hpend|[Ha|Hr]].
    + destruct (pending_moves ev w Hev n Hp (Hs n Hp) o _ _ pkt Hc Hpeer Hpend); tauto.
    + destruct (router_moves ev w Hev n' Hp' (Hs _ Hp') o' _ i' pkt Hf eq_refl ltac:(lia) Ha) as [?|Hpend]; [tauto|].
      right. right. by apply carried_pending.
    + right. right. apply IH; try done; [by eapply forwards_carries|simpl; lia].
Qed.

Lemma under_way_step ev w v n o path pkt data :
  allowed ev w -> (forall m, on_path m -> is_Some (nodes (advance ev w) !! m)) ->
  on_path n -> carries n o w -> Forall (stop_ok (dest pkt) w) path -> on_path last -> home last (dest pkt) w ->
  linked n o path -> Z.of_nat (length path) < time_to_live pkt -> upperlayerpotocol pkt = "avim" ->
  opened (AvifImpl0 := impl last) pkt last_in = Ret data -> v = (av_address_to_string (src pkt), data) ->
  under_way v n o path pkt w -> under_way v n o path pkt (advance ev w).
Proof.
  intros Hev Hs Hp Hc Hpath Hl Hh Hlk Ht Hu Ho ->.
  destruct (arrives_as_same path pkt) as (Es & Ed & Eu & Ep & Ek).
  apply (carried_step ev w); try done.
  - by eapply (arrived_lasts ev w Hev last Hl (Hs _ Hl)).
  - rewrite <-Es. apply (home_moves ev w Hev last Hl (Hs _ Hl) (dest pkt)); [done|done|by rewrite Eu|].
    unfold opened in *. by rewrite Ep, Ek.
Qed.

(** ** Runs *)

Abbreviation after := (net_run impl peer).

Lemma node_gone ev w m : nodes w !! m = None -> nodes (advance ev w) !! m = None.
Proof.
  intros Hm. assert (Hs : forall n e w1, nodes w1 = nodes w -> nodes (node_step impl peer n e w1) !! m = None).
  { intros n e w1 E. unfold node_step. rewrite E. destruct (nodes w !! n) eqn:En; [|by rewrite E]. simpl.
    destruct (step e _) as [[]]; rewrite ?lookup_delete_None; auto. rewrite lookup_insert_ne; [done|congruence]. }
  destruct ev as [n e|j now|j|n]; cbn [net_step]; try done.
  - destruct e as [| | | | | | |? [?|] ?| | |]; try by apply Hs. done.
  - destruct (wire w !! j) as [[[n i] pkt]|]; [by apply Hs|done].
  - simpl. apply lookup_delete_None. auto.
Qed.

Lemma node_there evs w m : is_Some (nodes (after evs w) !! m) -> is_Some (nodes w !! m).
Proof.
  revert w. induction evs as [|ev evs IH]; intros w; cbn [net_run]; [done|]. intros [k Hk]%IH.
  destruct (nodes w !! m) eqn:E; [by eexists|]. apply (node_gone ev) in E. congruence.
Qed.

(** The packet stays in somebody's hands, and the path as it is. *)
Lemma under_way_run evs w v n o path pkt data :
  all_allowed evs w -> (forall m, on_path m -> is_Some (nodes (after evs w) !! m)) ->
  on_path n -> carries n o w -> Forall (stop_ok (dest pkt) w) path -> on_path last -> home last (dest pkt) w ->
  linked n o path -> Z.of_nat (length path) < time_to_live pkt -> upperlayerpotocol pkt = "avim" ->
  opened (AvifImpl0 := impl last) pkt last_in = Ret data -> v = (av_address_to_string (src pkt), data) ->
  under_way v n o path pkt w ->
  under_way v n o path pkt (after evs w) /\ carries n o (after evs w) /\
  Forall (stop_ok (dest pkt) (after evs w)) path.
Proof.
  intros Ha Hs Hp Hc Hpath Hl Hh Hlk Ht Hu Ho Hv. revert w Ha Hs Hc Hpath Hh.
  induction evs as [|ev evs IH]; intros w Ha Hs Hc Hpath Hh Hw; cbn [net_run all_allowed] in *; [done|].
  destruct Ha as [Hev Ha].
  assert (Hs1 : forall m, on_path m -> is_Some (nodes (advance ev w) !! m)) by (intros m Hm; by eapply node_there, Hs).
  apply IH; [done|done| | | |].
  - by apply (carries_lasts ev w Hev n Hp (Hs1 n Hp)).
  - eapply Forall_impl; [exact Hpath|]. intros [[n' i'] o'] [Hp' Hf]. split; [done|].
    by apply (forwards_lasts ev w Hev n' Hp' (Hs1 n' Hp')).
  - by apply (home_lasts ev w Hev last Hl (Hs1 last Hl)).
  - by eapply under_way_step.
Qed.

(** Nothing is left to do on the path. *)
Definition at_rest (w : network) : Prop :=
  (forall n i pkt, on_path n -> (n, i, pkt) ∉ wire w) /\ forall m k, on_path m -> nodes w !! m = Some k -> idle k.

Lemma rest_no_arriving n i pkt w : at_rest w -> on_path n -> ~ arriving n i pkt w.
Proof.
  intros [Hw Hi] Hp [Hin|(k & Hk & Ht)].
  - by apply (Hw n i pkt).
  - destruct (Hi n k Hp Hk) as [E _]. rewrite E in Ht. by apply elem_of_nil in Ht.
Qed.

Lemma rest_no_pending n o pkt w : at_rest w -> on_path n -> carries n o w -> ~ pending_at n o pkt w.
Proof.
  intros [_ Hi] Hp (k & Hk & [Hok Hf _ Hc] & _ & Hin) (k0 & h & Hk0 & Hpk). rewrite Hk in Hk0. injection Hk0 as <-.
  destruct (idle_settled k Hok Hf (Hi n k Hp Hk)) as [Hset _].
  destruct (Hset o Hin) as [Hq|E]; [by apply (Hc o)|]. rewrite E in Hpk. by apply elem_of_nil in Hpk.
Qed.

Lemma rest_carried goal n o path pkt d w :
  at_rest w -> on_path n -> on_path last -> carries n o w -> Forall (stop_ok d w) path ->
  carried goal n o path pkt w -> goal w.
Proof.
  intros Hr Hp Hl. revert n o pkt Hp. induction path as [|[[n' i'] o'] path IH]; intros n o pkt Hp Hc Hpath; cbn [carried].
  - intros [Hpend|[Ha|Hv]]; [by apply rest_no_pending in Hpend|by apply rest_no_arriving in Ha|done].
  - apply Forall_cons in Hpath as [[Hp' Hf] Hpath].
    intros [Hpend|[Ha|Hv]]; [by apply rest_no_pending in Hpend|by apply rest_no_arriving in Ha|].
    eapply IH; [exact Hp'|by eapply forwards_carries|done|exact Hv].
Qed.

(** ** From the sender on *)

Context `{!OpenSSLLaws O}.

Lemma send_pends w n m now id target data k name nd me s_me p_to first second :
  nodes w !! n = Some k -> tasks k !! m = Some (TSendto id target data) -> static_ok k ->
  select_route target (table k) = Ret (Some (name, nd)) ->
  if_address (AvifImpl := impl n) (node_if nd) = Some me -> get_rsa_key (AvifImpl := impl n) (node_if nd) = Some s_me ->
  find_RSA_pubkey target (trusted_pubkey k) = Ret (Some p_to) ->
  RSA_public_encrypt p_to data = Ret first -> RSA_private_encrypt s_me first = Ret second ->
  pending_at n (node_if nd) (data_packet me (split_address target) second s_me) (advance (NLocal n (ERun m now)) w).
Proof.
  intros Hk Ht Hs Hsel Hme Hkey Hfind E1 E2. cbn [net_step]. unfold node_step. rewrite Hk. simpl. rewrite Ht. cbn [run_task].
  set (k1 := set_tasks (delete m (tasks k)) k). assert (Hs1 : static_ok k1) by by apply static_unqueue.
  rewrite (sendto_route_eq (AvifImpl0 := impl n) now id target data k1 _ _ Hsel Hfind).
  assert (Hi : is_Some (ifs k1 !! node_if nd)) by by eapply (select_route_node target k1).
  assert (Hl : node_live (s_interface (new_send target data nd)) k1) by by eapply (select_route_live target k1).
  pose proof (send_packet_eq (AvifImpl0 := impl n) id (new_send target data nd) p_to k1 me s_me first second Hs1 Hl Hi Hme Hkey E1 E2) as ->.
  eexists _, (Some id). cbn [nodes]. rewrite lookup_insert_eq. split; [done|].
  change (pending (node_if nd) (suspended ?id ?op ?s ?q)) with (pending (node_if nd) q).
  rewrite queue_packet_pending, decide_True by done. apply elem_of_app. right. apply list_elem_of_here.
Qed.

Lemma live_in_table nd k : node_live nd k -> in_table (node_if nd) k.
Proof.
  intros Hl. apply list_elem_of_fmap in Hl as ([name nd'] & -> & Hin). apply elem_of_map_iter in Hin. by exists name, nd'.
Qed.

(** Node [n], whose address is [me], has the send of a text as its [m]-th task;
    it has a route for the target, by interface [o], and the target's key, and
    the private key to it is the destination's. *)
Definition posting (n m : nat) (target : string) (data : bytes) (o : nat) (me : avAddress) (w : network) : Prop :=
  exists k id name nd s_me p_me p_to s_to,
    nodes w !! n = Some k /\ tasks k !! m = Some (TSendto id target data) /\
    in_order k /\ (writers o k <= 1)%nat /\
    select_route target (table k) = Ret (Some (name, nd)) /\ node_if nd = o /\
    if_address (AvifImpl := impl n) o = Some me /\
    get_rsa_key (AvifImpl := impl n) o = Some s_me /\ rsa_pair p_me s_me /\
    find_RSA_pubkey target (trusted_pubkey k) = Ret (Some p_to) /\ rsa_pair p_to s_to /\
    get_rsa_key (AvifImpl := impl last) last_in = Some s_to /\
    seal_ok s_to (zlen data) /\ seal_ok s_me (sealed_len (RSA_size s_to) (zlen data)).

(** What the send comes to: a packet that the destination can open waits to be
    written. *)
Lemma posting_pends w n m now target data o me :
  posting n m target data o me w ->
  carries n o w /\ exists pkt,
    pending_at n o pkt (advance (NLocal n (ERun m now)) w) /\
    src pkt = me /\ dest pkt = split_address target /\ time_to_live pkt = 64 /\ upperlayerpotocol pkt = "avim" /\
    opened (AvifImpl0 := impl last) pkt last_in = Ret data.
Proof.
  intros (k & id & name & nd & s_me & p_me & p_to & s_to & Hk & Ht & Hok & Hw & Hsel & <- & Hme & Hkey & Hpme & Hfind & Hpto & Hlast & Hok1 & Hok2).
  pose proof (io_ok k Hok) as [Hst _].
  destruct (sealed_opens p_me s_me p_to s_to data) as (first & second & E1 & E2 & D2 & D1); [done..|].
  split; [exists k; split_and!; [done..|by eapply live_in_table, select_route_live]|].
  exists (data_packet me (split_address target) second s_me).
  split_and!; [by eapply (send_pends w n m now id target data k name nd)|done..|].
  unfold opened. simpl. by rewrite D2, outcome_bind_Ret, Hlast.
Qed.

(** A packet that waits to be written at the head of the path arrives. *)
Lemma pending_arrives evs w n o path pkt data :
  pending_at n o pkt w -> carries n o w -> on_path n -> linked n o path -> Z.of_nat (length path) < time_to_live pkt ->
  upperlayerpotocol pkt = "avim" -> opened (AvifImpl0 := impl last) pkt last_in = Ret data ->
  Forall (stop_ok (dest pkt) w) path -> on_path last -> home last (dest pkt) w ->
  all_allowed evs w -> (forall q, on_path q -> is_Some (nodes (after evs w) !! q)) -> at_rest (after evs w) ->
  arrived_at last (av_address_to_string (src pkt), data) (after evs w).
Proof.
  intros Hpend Hc Hp Hlk Ht Hu Ho Hpath Hl Hh Ha Hs Hr.
  destruct (under_way_run evs w (av_address_to_string (src pkt), data) n o path pkt data) as (Hu' & Hc' & Hpath');
    [done..|by apply carried_pending|].
  exact (rest_carried _ n o path pkt (dest pkt) (after evs w) Hr Hp Hl Hc' Hpath' Hu').
Qed.

(** The two together. *)
Lemma posting_arrives evs m now n path target data o me w :
  posting n m target data o me w -> on_path n -> linked n o path -> (length path < 64)%nat ->
  Forall (stop_ok (split_address target) w) path -> on_path last -> home last (split_address target) w ->
  let run := NLocal n (ERun m now) :: evs in
  all_allowed run w -> (forall q, on_path q -> is_Some (nodes (after run w) !! q)) -> at_rest (after run w) ->
  arrived_at last (av_address_to_string me, data) (after run w).
Proof.
  intros Hpost Hp Hlk Hlen Hpath Hl Hh run [Hev Ha] Hs Hr.
  destruct (posting_pends w n m now target data o me Hpost) as (Hc & pkt & Hpend & <- & Hd & Ht & Hu & Ho).
  assert (Hs1 : forall q, on_path q -> is_Some (nodes (advance (NLocal n (ERun m now)) w) !! q)).
  { intros q Hq. exact (node_there evs _ q (Hs q Hq)). }
  rewrite <-Hd in Hpath, Hh. eapply (pending_arrives evs _ n o path pkt data); try done.
  - by apply (carries_lasts (NLocal n (ERun m now)) w Hev n Hp (Hs1 n Hp)).
  - lia.
  - eapply Forall_impl; [exact Hpath|]. intros [[n' i'] o'] [Hp' Hf]. split; [done|].
    by apply (forwards_lasts (NLocal n (ERun m now)) w Hev n' Hp' (Hs1 n' Hp')).
  - by apply (home_lasts (NLocal n (ERun m now)) w Hev last Hl (Hs1 last Hl)).
Qed.

(** C2: a message arrives: a node runs the send of a text to an address for
    which it has a route and the key; fewer than 64 routers, each with a route
    that leads to the next, lie between it and the node of that address.
    Whatever else goes on in the network -- other messages, questions, timers,
    failures elsewhere -- and in whatever order, as long as on the path no node
    fails, no link is cut, no packet is lost and nothing is added to the tables:
    once the wires are empty and nothing is left to run on the path, the text, as
    coming from the sender's address, has been received, is on its way to a
    receiver, or waits in the receive queue of its destination. *)
Theorem message_arrives evs m now n path id target data w k name nd me s_me p_me p_to s_to :
  nodes w !! n = Some k -> tasks k !! m = Some (TSendto id target data) ->
  in_order k -> (writers (node_if nd) k <= 1)%nat ->
  select_route target (table k) = Ret (Some (name, nd)) ->
  if_address (AvifImpl := impl n) (node_if nd) = Some me ->
  get_rsa_key (AvifImpl := impl n) (node_if nd) = Some s_me -> rsa_pair p_me s_me ->
  find_RSA_pubkey target (trusted_pubkey k) = Ret (Some p_to) -> rsa_pair p_to s_to ->
  seal_ok s_to (zlen data) -> seal_ok s_me (sealed_len (RSA_size s_to) (zlen data)) ->
  on_path n -> linked n (node_if nd) path -> (length path < 64)%nat ->
  Forall (stop_ok (split_address target) w) path ->
  on_path last -> home last (split_address target) w -> get_rsa_key (AvifImpl := impl last) last_in = Some s_to ->
  let run := NLocal n (ERun m now) :: evs in
  all_allowed run w -> (forall q, on_path q -> is_Some (nodes (after run w) !! q)) -> at_rest (after run w) ->
  arrived_at last (av_address_to_string me, data) (after run w).
Proof.
  intros Hk Ht Hok Hw Hsel Hme Hkey Hpme Hfind Hpto Hok1 Hok2 Hp Hlk Hlen Hpath Hl Hh Hlast run.
  apply (posting_arrives evs m now n path target data (node_if nd) me w); try done.
  by exists k, id, name, nd, s_me, p_me, p_to, s_to.
Qed.
End net.
