(* ===== verification/Asking.v ===== *)
(** * Asking: a send that waits for a key

    What becomes of one send that has asked for the key of its target, whatever
    else the kernel does: it goes on waiting until a packet from its target leaves
    a key for it in the store, and then its own packet is in the queue of its
    interface; only a tick of the timer past its deadline takes it further
    otherwise. *)

From S2P Require Import Prelude StdSort OpenSSL RsaChunk Regex Address CoroQueue Routing KeyStore Avif Kernel Effects Mailbox Hoare KernelInv Flow KernelSpec Sendto Wake Relay Arrival.

Section asking.
Context `{Build} `{O : OpenSSL} `{BoostRegex} `{StdSort} `{!AvifImpl O} `{!StdSortLaws H1} `{!BoostRegexLaws H0}.

(** The waiter of the send. *)
Variable w0 : waiter.

Record waits (op : send_op) (k : kernel) : Prop := {
  wt_in : w0 ∈ postprocess_list k;
  wt_send : sends k !! w_op w0 = Some op
}.

Lemma waits_stage op k : kernel_ok k -> waits op k -> exists r, s_stage op = WaitKey r /\ s_target op = pred_target w0.
Proof.
  intros (_ & [_ Hw _ _ _ _] & _) [Hin Hop]. destruct (Hw w0 Hin) as (_ & op' & r & Hop' & Hst & Ht).
  exists r. rewrite Hop in Hop'. injection Hop' as <-. done.
Qed.

Lemma waits_same op k k' :
  postprocess_list k' = postprocess_list k -> sends k' = sends k -> waits op k -> waits op k'.
Proof. intros Hp Hs [Hin Hop]. split; [by rewrite Hp|by rewrite Hs]. Qed.

Lemma waits_frame op k k' : frame k k' -> waits op k -> waits op k'.
Proof. intros (Hp & Hs & _). by apply waits_same. Qed.

Lemma keeps_run {A} (m : ST kernel A) Q k a k' :
  keeps m Q -> static_ok k -> m k = (Ret a, k') -> static_ok k' /\ frame k k'.
Proof. intros Hm Hs E. specialize (Hm k k (conj Hs (frame_refl k))). rewrite E in Hm. apply Hm. Qed.

(** ** Another send runs *)

(** Nothing happens to this send. *)
Record apart (k k' : kernel) : Prop := {
  ap_send : sends k' !! w_op w0 = sends k !! w_op w0;
  ap_list : w0 ∈ postprocess_list k -> w0 ∈ postprocess_list k'
}.

#[local] Instance apart_order : PreOrder apart.
Proof. split; [done|]. intros k1 k2 k3 [E1 P1] [E2 P2]. split; [congruence|auto]. Qed.

Lemma apart_waits op k k' : apart k k' -> waits op k -> waits op k'.
Proof. intros [E P] [Hin Hop]. split; [auto|congruence]. Qed.

Abbreviation leaves m := (effects (fun _ => True) apart m).

Lemma leaves_bind {A B} (m : ST kernel A) (f : A -> ST kernel B) :
  leaves m -> (forall a, leaves (f a)) -> leaves (st_bind m f).
Proof. by apply (effects_bind (fun _ => True) apart). Qed.

Lemma leaves_still {A} (m : ST kernel A) : (forall s, (m s).2 = s) -> leaves m.
Proof. by apply (effects_still (fun _ => True) apart). Qed.

Lemma leaves_queue i op : leaves (with_queue i op).
Proof. intros k u k' _ (a & r & _ & _ & ->)%with_queue_inv. done. Qed.

Ltac leaves_step :=
  lazymatch goal with
  | |- effects _ _ (async_interface_write_packet _ _ _) => apply leaves_queue
  | |- effects _ _ (st_bind _ _) => apply leaves_bind; [|intros ?]
  | |- effects _ _ (st_modify _) =>
      intros ? ? ? _ [= _ <-]; split; simpl; [try done|by rewrite ?elem_of_app; auto]
  | |- effects _ _ (with_queue _ _) => apply leaves_queue
  | |- effects _ _ (ask_ifname _) => intros ? ? ? _ [= _ <-]; done
  | |- effects _ _ (if ?b then _ else _) => destruct b
  | |- effects _ _ (match ?x with _ => _ end) => destruct x
  | |- _ => apply leaves_still; done
  end.

Lemma leaves_ask_round now id op i : id <> w_op w0 -> leaves (ask_round now id op i).
Proof.
  intros Hne. unfold ask_round, async_send_agmp_pkask, async_wait_processed_packet, suspend_send, finish_send.
  repeat leaves_step; [by rewrite lookup_insert_ne|by rewrite lookup_delete_ne].
Qed.

Lemma leaves_send_packet id op key : id <> w_op w0 -> leaves (send_packet id op key).
Proof.
  intros Hne. unfold send_packet, suspend_send. repeat leaves_step. by rewrite lookup_insert_ne.
Qed.

Lemma leaves_sendto_op now id target data : id <> w_op w0 -> leaves (async_sendto_op now id target data).
Proof.
  intros Hne. unfold async_sendto_op, kernel_select_route, finish_send.
  repeat (leaves_step || by apply leaves_send_packet || by apply leaves_ask_round).
  all: by rewrite lookup_delete_ne.
Qed.

Lemma leaves_resume now id ec : id <> w_op w0 -> leaves (resume_send now id ec).
Proof.
  intros Hne. unfold resume_send, finish_send.
  repeat (leaves_step || by apply leaves_send_packet || by apply leaves_ask_round).
  all: by rewrite lookup_delete_ne.
Qed.

Lemma leaves_writer i : leaves (interface_writer i).
Proof. unfold interface_writer. repeat leaves_step. Qed.

Lemma leaves_runner i : leaves (interface_runner i).
Proof. unfold interface_runner, runner_exit, set_if. repeat leaves_step. Qed.

Lemma leaves_writer_popped i ec v : leaves (writer_popped i ec v).
Proof. unfold writer_popped, set_if. repeat leaves_step. Qed.

(** ** The loop over the waiters *)

Lemma other_waiter op k it w :
  kernel_ok k -> waits op k -> postprocess_list k !! it = Some w -> w <> w0 -> w_op w <> w_op w0.
Proof.
  intros (_ & [Hnd _ _ _ _ _] & _) [Hin _] Hw Hne E. apply list_elem_of_lookup_1 in Hin as [j Hj].
  assert (it = j) as ->.
  { apply (NoDup_lookup _ _ _ (w_op w0) Hnd); rewrite list_lookup_fmap; [by rewrite Hw, <-E|by rewrite Hj]. }
  congruence.
Qed.

(** A waiter is woken and erased. *)
Lemma woken_next now ec k it w k' :
  kernel_ok k -> postprocess_list k !! it = Some w -> resume_send now (w_op w) ec k = (Ret tt, k') ->
  kernel_ok (set_post (delete it (postprocess_list k')) k') /\
  exists new, delete it (postprocess_list k') = delete it (postprocess_list k) ++ new.
Proof.
  intros Hk Hw E. destruct (ready_waiter k it w Hk Hw) as (Hr & op & Hop & _).
  pose proof (resume_send_ok now (w_op w) ec op _ k (proj1 Hk) Hop Hr k eq_refl) as Hres. rewrite E in Hres.
  destruct Hres as (new & (Hs & Hp & Hws & Hids) & _).
  assert (Hdel : delete it (postprocess_list k') = delete it (postprocess_list k) ++ new).
  { pose proof (lookup_lt_Some _ _ _ Hw). rewrite Hp, !delete_take_drop, take_app_le, drop_app_le by lia.
    by rewrite app_assoc. }
  split; [|by exists new]. rewrite Hdel. by apply kernel_ok_set_post.
Qed.

(** What stays in the loop while other sends run. *)
Record in_loop (op : send_op) (k0 k : kernel) : Prop := {
  il_ok : kernel_ok k;
  il_waits : waits op k;
  il_members : members k0 k
}.

Lemma in_loop_next op k0 now ec k it w k' :
  in_loop op k0 k -> postprocess_list k !! it = Some w -> w <> w0 ->
  resume_send now (w_op w) ec k = (Ret tt, k') ->
  in_loop op k0 (set_post (delete it (postprocess_list k')) k') /\
  exists new, delete it (postprocess_list k') = delete it (postprocess_list k) ++ new.
Proof.
  intros [Hk Hw Hm] Hit Hne E. destruct (woken_next now ec k it w k' Hk Hit E) as [Hk2 [new Hnew]].
  split; [|by exists new]. pose proof (other_waiter op k it w Hk Hw Hit Hne) as Hid. destruct Hw as [Hin Hop].
  split; [done|split|].
  - simpl. rewrite Hnew. apply elem_of_app. left. rewrite (delete_Permutation _ _ _ Hit) in Hin.
    by apply elem_of_cons in Hin as [|].
  - simpl. by rewrite (ap_send _ _ (leaves_resume now (w_op w) ec Hid k tt k' I E)).
  - destruct (stays_run _ _ _ _ (stays_resume now (w_op w) ec) E) as (? & ? & ?). destruct Hm as (? & ? & ?).
    split_and!; simpl; congruence.
Qed.

(** The loop passes the send by. *)
Lemma wake_loop_waits now test ec op k0 :
  (forall k, members k0 k -> test w0 k = Ret false) ->
  forall fuel it k u k', in_loop op k0 k -> wake_loop fuel now Post test ec it k = (Ret u, k') -> in_loop op k0 k'.
Proof.
  intros Htest. induction fuel as [|fuel IH]; intros it k u k' Hk; cbn [wake_loop]; [done|].
  unfold st_bind at 1, st_get at 1. cbn [waiters]. destruct (postprocess_list k !! it) as [w|] eqn:Ew; [|by intros [= _ <-]].
  intros (b & k1 & [= Hb <-] & E)%st_bind_inv. destruct b; [|by eapply IH].
  apply st_bind_inv in E as ([] & k1 & E1 & E). apply st_bind_inv in E as ([] & k2 & [= <-] & E).
  eapply IH; [|exact E]. eapply in_loop_next; [exact Hk|exact Ew| |exact E1].
  intros ->. rewrite (Htest k) in Hb by apply Hk. done.
Qed.

(** The loop wakes the send, which finds its key. *)
Variables (key : RSA) (me : avAddress) (mine : RSA) (first second : bytes).

Definition its_packet (op : send_op) : avPacket := data_packet me (split_address (s_target op)) second mine.

Record can_seal (op : send_op) (k0 : kernel) : Prop := {
  sl_key : find_RSA_pubkey (s_target op) (trusted_pubkey k0) = Ret (Some key);
  sl_live : node_live (s_interface op) k0;
  sl_me : if_address (node_if (s_interface op)) = Some me;
  sl_mine : get_rsa_key (node_if (s_interface op)) = Some mine;
  sl_first : RSA_public_encrypt key (s_data op) = Ret first;
  sl_second : RSA_private_encrypt mine first = Ret second
}.

Lemma woken_sends_packet now ec op k0 k k' :
  in_loop op k0 k -> can_seal op k0 -> resume_send now (w_op w0) ec k = (Ret tt, k') ->
  (its_packet op, Some (w_op w0)) ∈ pending (node_if (s_interface op)) k'.
Proof.
  intros [Hk Hw (Ht & Hkeys & _)] [Hkey Hlive Hme Hmine E1 E2]. pose proof (proj1 Hk) as Hs.
  destruct (waits_stage op k Hk Hw) as (r & Hst & _). destruct Hw as [_ Hop].
  assert (Hl : node_live (s_interface op) k) by (unfold node_live in *; by rewrite Ht).
  rewrite <-Hkeys in Hkey. rewrite (resume_key_eq now _ ec op r k _ Hop Hst Hkey).
  rewrite (send_packet_eq _ op key k me mine first second) by (done || by apply live_interface).
  intros [= <-]. change (pending ?i (suspended ?id ?o ?st ?q)) with (pending i q).
  rewrite queue_packet_pending, decide_True by (done || by apply live_interface).
  apply elem_of_app. right. apply list_elem_of_here.
Qed.

Lemma wake_loop_sends now test ec op k0 :
  can_seal op k0 -> (forall k, members k0 k -> test w0 k = Ret true) ->
  forall fuel it k u k', in_loop op k0 k -> flow_ok None k -> w0 ∈ drop it (postprocess_list k) ->
  wake_loop fuel now Post test ec it k = (Ret u, k') ->
  (its_packet op, Some (w_op w0)) ∈ pending (node_if (s_interface op)) k'.
Proof.
  intros Hseal Htest. induction fuel as [|fuel IH]; intros it k u k' Hk Hf Hin; cbn [wake_loop]; [done|].
  unfold st_bind at 1, st_get at 1. cbn [waiters].
  destruct (postprocess_list k !! it) as [w|] eqn:Ew.
  2:{ apply lookup_ge_None in Ew. rewrite drop_ge in Hin by done. by apply elem_of_nil in Hin. }
  rewrite (drop_S _ _ _ Ew) in Hin. intros (b & k1 & [= Hb <-] & E)%st_bind_inv.
  destruct b.
  2:{ eapply (IH (S it)); [exact Hk|exact Hf| |exact E]. apply elem_of_cons in Hin as [<-|]; [|done].
      rewrite (Htest k) in Hb by apply Hk. done. }
  apply st_bind_inv in E as ([] & k1 & E1 & E). apply st_bind_inv in E as ([] & k2 & [= <-] & E).
  set (k2 := set_post _ k1) in E.
  assert (Hf1 : flows None k k1) by (apply (eff_resume_send (J := flow_ok None) (G := attended None) now (w_op w) ec k tt k1 Hf E1)).
  assert (Hf2 : flow_ok None k2) by (destruct (fs_ok None _ _ Hf1 Hf) as []; by split).
  destruct (decide (w = w0)) as [->|Hne].
  - pose proof (woken_sends_packet now ec op k0 k k1 Hk Hseal E1) as Hpend.
    destruct (fs_pending None _ _ (eff_wake_loop (J := flow_ok None) (G := attended None) fuel now Post test ec it k2 u k' Hf2 E)
      (node_if (s_interface op))) as [new ->].
    apply elem_of_app. left. exact Hpend.
  - destruct (in_loop_next op k0 now ec k it w k1 Hk Ew Hne E1) as [Hk2 [new Hnew]].
    eapply (IH it k2); [exact Hk2|exact Hf2| |exact E]. unfold k2. simpl. rewrite Hnew.
    apply elem_of_cons in Hin as [Hin|Hin]; [by rewrite Hin in Hne|].
    pose proof (lookup_lt_Some _ _ _ Ew).
    rewrite delete_take_drop, <-app_assoc, drop_app_ge by (rewrite length_take; lia).
    rewrite length_take, Nat.min_l, Nat.sub_diag, drop_0 by lia. apply elem_of_app. by left.
Qed.

(** ** Events *)

Lemma can_seal_members op k k' : members k k' -> can_seal op k' -> can_seal op k.
Proof.
  intros (Ht & Hk & _) [Hkey Hl]. split; try done; [by rewrite <-Hk|]. unfold node_live in *. by rewrite <-Ht.
Qed.

(** The send goes on waiting, or its packet is in the queue. *)
Lemma wake_waits now test ec op k u k' :
  kernel_ok k -> flow_ok None k -> waits op k -> wake now Post test ec k = (Ret u, k') ->
  (forall k1, members k k1 -> test w0 k1 = Ret false) \/
    can_seal op k' /\ (forall k1, members k k1 -> test w0 k1 = Ret true) ->
  waits op k' /\ (forall k1, members k k1 -> test w0 k1 = Ret false) \/
    (its_packet op, Some (w_op w0)) ∈ pending (node_if (s_interface op)) k'.
Proof.
  intros Hk Hf Hw E Htest. pose proof (stays_run _ _ _ _ (stays_wake now Post test ec) E) as Hm.
  assert (Hin : in_loop op k k) by by split.
  unfold wake, st_bind at 1, st_get at 1 in E. destruct Htest as [Htest|[Hseal Htest]].
  - left. split; [|done]. by eapply (wake_loop_waits now test ec op k Htest).
  - right. eapply (wake_loop_sends now test ec op k); [by eapply can_seal_members|done|exact Hin|done| |exact E].
    rewrite drop_0. apply Hw.
Qed.

Lemma process_waits now pkt i op k u k' :
  kernel_ok k -> flow_ok None k -> waits op k -> process_recived_packet now pkt i k = (Ret u, k') ->
  (forall key', find_RSA_pubkey (s_target op) (trusted_pubkey k') = Ret (Some key') -> can_seal op k') ->
  waits op k' /\ (av_address_to_string (src pkt) = s_target op ->
    find_RSA_pubkey (s_target op) (trusted_pubkey k') = Ret None) \/
  (its_packet op, Some (w_op w0)) ∈ pending (node_if (s_interface op)) k'.
Proof.
  intros Hk Hf Hw E Hseal. pose proof (proj1 Hk) as Hs.
  destruct (process_inv now pkt i k u k' Hs E) as (b & k2 & _ & E1 & E2).
  destruct (keeps_run _ any k tt _ (keeps_learn_key now pkt (conj (fun _ _ => I) (fun _ _ => I))) Hs (learn_key_eq now pkt k Hs)) as [Hs1 F1].
  assert (H2' : static_ok k2 /\ frame (learned now pkt k) k2 /\ flow_ok None k2).
  { pose proof (fs_ok None _ _ (eff_learn_key (J := flow_ok None) (G := attended None) now pkt k tt _ Hf (learn_key_eq now pkt k Hs)) Hf) as Hf1.
    destruct b.
    - destruct (keeps_run _ any _ _ _ (keeps_to_me now pkt i (conj (fun _ _ => I) (fun _ _ => I))) Hs1 E1) as [Hs2 F2]. split_and!; [done|done|].
      by apply (fs_ok None _ _ (eff_to_me (J := flow_ok None) (G := attended None) now pkt i _ _ _ Hf1 E1)).
    - destruct (keeps_run _ any _ _ _ (keeps_forward pkt) Hs1 E1) as [Hs2 F2]. split_and!; [done|done|].
      by apply (fs_ok None _ _ (eff_forward (J := flow_ok None) (G := attended None) pkt _ _ _ Hf1 E1)). }
  destruct H2' as (Hs2 & F2 & Hf2). pose proof (frame_trans _ _ _ F1 F2) as F.
  assert (Hk2 : kernel_ok k2) by by eapply kernel_ok_frame. apply (waits_frame _ _ _ F) in Hw.
  destruct (waits_stage op k2 Hk2 Hw) as (r & _ & Htg).
  pose proof (stays_run _ _ _ _ (stays_wake now Post (pred pkt) ec_success) E2) as (_ & Hkeys & _).
  destruct (decide (av_address_to_string (src pkt) = s_target op)) as [Hsrc|Hsrc].
  - assert (Ht : forall k1, members k2 k1 -> forall o, find_RSA_pubkey (s_target op) (trusted_pubkey k2) = Ret o ->
      pred pkt w0 k1 = Ret (bool_decide (is_Some o))).
    { intros k1 (_ & E' & _) o Ho. unfold pred. by rewrite Hsrc, <-Htg, String.eqb_refl, E', Ho. }
    destruct (find_stored (s_target op) _ (ok_keys k2 Hs2)) as [[_ Ef]|(item & key' & _ & Ef)].
    + destruct (wake_waits now (pred pkt) ec_success op k2 tt k' Hk2 Hf2 Hw E2) as [[]|]; [|left|by right].
      * left. intros k1 Hm. by rewrite (Ht k1 Hm _ Ef).
      * split; [done|]. intros _. by rewrite Hkeys.
    + destruct (wake_waits now (pred pkt) ec_success op k2 tt k' Hk2 Hf2 Hw E2) as [[_ Hno]|]; [|exfalso|by right].
      * right. split; [apply (Hseal key'); by rewrite Hkeys|]. intros k1 Hm. by rewrite (Ht k1 Hm _ Ef).
      * specialize (Hno k2 (members_refl k2)). by rewrite (Ht k2 (members_refl k2) _ Ef) in Hno.
  - destruct (wake_waits now (pred pkt) ec_success op k2 tt k' Hk2 Hf2 Hw E2) as [[]|]; [|by left|by right].
    left. intros k1 _. unfold pred. rewrite <-Htg. by rewrite (proj2 (String.eqb_neq _ _) Hsrc).
Qed.

(** No tick of the timer past the deadline. *)
Definition patient (e : event) : Prop := match e with ETimer1 _ t => t <= deadline w0 | _ => True end.

Lemma tick_waits now ec op k u k' :
  kernel_ok k -> flow_ok None k -> waits op k -> now <= deadline w0 ->
  timer1_tick now ec k = (Ret u, k') -> waits op k'.
Proof.
  intros Hk Hf Hw Hd E. apply st_bind_inv in E as ([] & k1 & E1 & E). apply st_bind_inv in E as ([] & k2 & E2 & E3).
  assert (Hk1 : kernel_ok k1 /\ flow_ok None k1 /\ waits op k1).
  { injection E1 as <-. destruct (m_quitting k); [done|]. split_and!; [by apply with_timers_ok|by destruct Hf|by destruct Hw]. }
  destruct Hk1 as (Hk1 & Hf1 & Hw1).
  assert (Hno : forall k0, members k1 k0 -> expired now w0 k0 = Ret false) by (intros k0 _; unfold expired; by rewrite (proj2 (Z.ltb_ge _ _))).
  pose proof (wake_timer_ok now timed_out k1 Hk1) as Hk2. rewrite E2 in Hk2.
  rewrite wake_pre_nil in E3 by apply Hk2. injection E3 as _ <-.
  unfold wake, st_bind at 1, st_get at 1 in E2. apply (wake_loop_waits now (expired now) timed_out op k1 Hno) in E2; [apply E2|by split].
Qed.

(** A coroutine that is resumed after a write is not the one that waits. *)
Lemma writer_wrote_waits now i n ec op k u k' :
  kernel_ok k -> waits op k -> writer_wrote now i n ec k = (Ret u, k') -> waits op k'.
Proof.
  intros Hk Hw. destruct (waits_stage op k Hk Hw) as (r & Hst & _).
  unfold writer_wrote, st_bind at 1, get_if, read_k. destruct (ifs k !! i) as [a|] eqn:Ea; [|done]. cbn [deref].
  destruct (writing a !! n) as [[pkt handler]|] eqn:Ew; [|by intros [= _ <-]].
  assert (Hh : forall id, handler = Some id -> id <> w_op w0).
  { intros id -> ->. destruct Hk as (_ & [_ _ _ _ Hq _] & _). destruct (Hq i (w_op w0)) as (_ & op' & Hop' & Hst' & _).
    - unfold queued. apply elem_of_app. left. rewrite Ea. unfold requests. apply elem_of_app. right.
      apply list_elem_of_omap. exists (pkt, Some (w_op w0)). split; [by eapply list_elem_of_lookup_2|done].
    - rewrite (wt_send op k Hw) in Hop'. injection Hop' as <-. congruence. }
  intros E. eapply apart_waits; [|exact Hw]. revert E.
  assert (Hl : leaves (set_if i (set_writing (delete n (writing a)) a) ;;-
    match handler with Some id => resume_send now id ec | None => st_ret tt end ;;- interface_writer i)).
  { apply leaves_bind; [unfold set_if; leaves_step|]. intros _. apply leaves_bind; [|intros _; apply leaves_writer].
    destruct handler as [id|]; [by apply leaves_resume, Hh|by apply leaves_still]. }
  by apply Hl.
Qed.

Lemma run_task_waits now m t op k u k' :
  in_order k -> waits op k -> tasks k !! m = Some t ->
  run_task now t (set_tasks (delete m (tasks k)) k) = (Ret u, k') ->
  (forall key', find_RSA_pubkey (s_target op) (trusted_pubkey k') = Ret (Some key') -> can_seal op k') ->
  waits op k' /\ (forall pkt i, t = TProcess pkt i -> av_address_to_string (src pkt) = s_target op ->
    find_RSA_pubkey (s_target op) (trusted_pubkey k') = Ret None) \/
  (its_packet op, Some (w_op w0)) ∈ pending (node_if (s_interface op)) k'.
Proof.
  intros [Hk Hf _ _] Hw Ht E Hseal. set (k1 := set_tasks _ k) in *.
  assert (Hw1 : waits op k1) by (by apply (waits_same op k)).
  assert (Hleave : leaves (run_task now t) -> (forall pkt i, t <> TProcess pkt i) ->
    waits op k' /\ (forall pkt i, t = TProcess pkt i -> av_address_to_string (src pkt) = s_target op ->
      find_RSA_pubkey (s_target op) (trusted_pubkey k') = Ret None)).
  { intros Hl Hno. split; [by eapply apart_waits; [apply (Hl k1 u k' I E)|]|]. intros pkt i ->. by destruct (Hno pkt i). }
  destruct t as [pkt i|i|i|id target data|id|i ec v|id ec v]; cbn [run_task] in *; [|left..].
  - destruct (process_waits now pkt i op k1 u k') as [[Hw' Hno]|]; try done; [| |left|by right].
    + by apply (run_other m (TProcess pkt i) k Hk Ht).
    + eapply fs_ok; [by eapply unqueue_flows; [exact Ht|done|]|done].
    + split; [done|]. intros pkt' i' [= -> ->]. done.
  - apply Hleave; [apply leaves_runner|done].
  - apply Hleave; [apply leaves_writer|done].
  - apply Hleave; [|done]. apply leaves_sendto_op. intros ->.
    assert (Hin : w_op w0 ∈ held k).
    { unfold held. apply elem_of_app. left. apply list_elem_of_omap. eexists. split; [by eapply list_elem_of_lookup_2|done]. }
    destruct Hk as (_ & _ & _ & Hid & _). destruct (Hid _ Hin) as [Hnone _]. rewrite (wt_send op k Hw) in Hnone. done.
  - apply Hleave; [|done]. intros k2 u2 k2' _ [= _ <-]. done.
  - apply Hleave; [apply leaves_writer_popped|done].
  - apply Hleave; [|done]. intros k2 u2 k2' _ [= _ <-]. done.
Qed.

(** One event: the send goes on waiting -- and then no packet from its target was
    handled that left a key --, or its packet is in the queue. *)
Lemma step_waits e op k u k' :
  benign e -> patient e -> in_order k -> waits op k -> step e k = (Ret u, k') ->
  (forall key', find_RSA_pubkey (s_target op) (trusted_pubkey k') = Ret (Some key') -> can_seal op k') ->
  waits op k' /\ (forall m now pkt i, e = ERun m now -> tasks k !! m = Some (TProcess pkt i) ->
    av_address_to_string (src pkt) = s_target op ->
    find_RSA_pubkey (s_target op) (trusted_pubkey k') = Ret None) \/
  (its_packet op, Some (w_op w0)) ∈ pending (node_if (s_interface op)) k'.
Proof.
  intros He Hpat Hok Hw E Hseal. pose proof Hok as [Hk Hf _ _].
  assert (Hquiet : (forall m now, e <> ERun m now) -> waits op k' ->
    waits op k' /\ (forall m now pkt i, e = ERun m now -> tasks k !! m = Some (TProcess pkt i) ->
      av_address_to_string (src pkt) = s_target op ->
      find_RSA_pubkey (s_target op) (trusted_pubkey k') = Ret None)).
  { intros Hno Hw'. split; [done|]. intros m now pkt i ->. by destruct (Hno m now). }
  destruct e as [i|i|target gw name m|target data| | |n now|i [pkt|] now|i n ec now|ec now|ec now]; try done; cbn [step] in E.
  - left. apply Hquiet; [done|]. injection E as _ <-. destruct (ifs k !! i); [done|]. by apply (waits_same op k).
  - left. apply Hquiet; [done|]. injection E as _ <-. by apply (waits_same op k).
  - left. apply Hquiet; [done|]. injection E as _ <-. by apply (waits_same op k).
  - left. apply Hquiet; [done|]. injection E as _ <-. by apply (waits_same op k).
  - destruct (tasks k !! n) as [t|] eqn:Et.
    + destruct (run_task_waits now n t op k u k' Hok Hw Et E Hseal) as [[Hw' Hno]|]; [left|by right].
      split; [done|]. intros m now' pkt i [= <- <-] Ht. rewrite Et in Ht. injection Ht as ->. by eapply Hno.
    + injection E as _ <-. left. split; [done|]. intros m now' pkt i [= <- <-]. by rewrite Et.
  - left. apply Hquiet; [done|].
    destruct (keeps_run _ any _ _ _ (keeps_runner_read now i (Some pkt) (peer_event_all _)) (proj1 Hk) E) as [_ F].
    by eapply waits_frame.
  - left. apply Hquiet; [done|]. by eapply writer_wrote_waits.
  - left. apply Hquiet; [done|]. destruct (timer1_armed k); [|by injection E as _ <-].
    eapply (tick_waits now ec op _ u k'); [by apply with_timers_ok|by destruct Hf|by destruct Hw|exact Hpat|exact E].
  - left. apply Hquiet; [done|]. destruct (timer2_armed k); [|by injection E as _ <-].
    apply st_bind_inv in E as ([] & k1 & [= <-] & (ks & k2 & [= E2 <-] & [= _ <-])%st_bind_inv).
    destruct (m_quitting _); by apply (waits_same op k).
Qed.
End asking.
