(* ===== verification/Contact.v ===== *)
(** * Contact: the first message between two nodes

    A node that has no key of its correspondent asks for it, is answered, and
    then sends: four calls of the handlers of avkernel.cpp, on two nodes, with
    anything happening on both in between.  The last puts the text in the
    receive queue of the correspondent. *)

From S2P Require Import Prelude StdSort OpenSSL RsaChunk Regex Address CoroQueue Routing KeyStore Avif Kernel Hoare KernelInv KernelSpec Sendto Wake.

Section contact.
Context `{Build} `{OpenSSL} `{BoostRegex} `{StdSort} `{!AvifImpl H0} `{!StdSortLaws H2}.
Context `{!BoostRegexLaws H1} `{!OpenSSLLaws H0}.

(** ** A send that waits for its key *)

(** The send [op], in any round, alone in waiting for this key. *)
Record waiting (id : nat) (op : send_op) (k : kernel) : Prop := {
  wt_ok : kernel_ok k;
  wt_op : exists i, sends k !! id = Some {| s_target := s_target op; s_data := s_data op;
    s_interface := s_interface op; s_stage := WaitKey i |};
  wt_live : node_live (s_interface op) k;
  wt_nokey : trusted_pubkey k !! s_target op = None;
  wt_alone : forall w, w ∈ postprocess_list k -> pred_target w = s_target op -> w_op w = id
}.

(** Its waiter, and everyone else's. *)
Lemma waiting_split id op k :
  waiting id op k -> exists pre w post, postprocess_list k = pre ++ w :: post /\ w_op w = id /\
    pred_target w = s_target op /\ forall v, v ∈ pre ++ post -> pred_target v <> s_target op.
Proof.
  intros [(_ & [Hnd Hsound Hcomp _ _ _] & _) [i Hop] _ _ Hone].
  pose proof (Hcomp id _ i I Hop eq_refl) as Hin.
  apply list_elem_of_fmap in Hin as (w & -> & Hin).
  destruct (Hsound w Hin) as [_ (op' & i' & Hop' & _ & Htg)]. rewrite Hop in Hop'. injection Hop' as <-.
  apply list_elem_of_split in Hin as (pre & post & E). exists pre, w, post. split_and!; [done..|].
  intros v Hv Hpv. rewrite E in Hone, Hnd. rewrite fmap_app, fmap_cons in Hnd.
  apply (NoDup_Permutation_proper _ _ (Permutation_sym (Permutation_middle _ _ _))) in Hnd.
  apply NoDup_cons in Hnd as [Hnin _]. apply Hnin. rewrite <-fmap_app, <-(Hone v); [by apply list_elem_of_fmap_2| |done].
  apply elem_of_app in Hv as [Hv|Hv]; apply elem_of_app; [by left|right; by right].
Qed.

(** The public key in a certificate, as its receiver takes it out. *)
Definition certifies (cert : X509) (key : RSA) : Prop := exists crt pkey,
  d2i_X509 (i2d_X509 cert) = Some crt /\ X509_get_pubkey crt = Some pkey /\
  EVP_PKEY_get1_RSA pkey = Some key.

Lemma address_roundtrip a : address_ok a -> split_address (av_address_to_string a) = a.
Proof. intros Ha%parse_print_iff. rewrite from_string_split in Ha. congruence. Qed.

(** ** The four handlers *)

Section exchange.
Variables (alice bob : avAddress) (i j : nat) (mine s_bob p_bob : RSA) (cert : X509).
Hypothesis Halice : address_ok alice.
Hypothesis Hbob : address_ok bob.
Hypothesis Hme : if_address i = Some alice.
Hypothesis Hmine : get_rsa_key i = Some mine.
Hypothesis Hyou : if_address j = Some bob.
Hypothesis Hcert : get_cert j = Some cert.
Hypothesis Hcertifies : certifies cert p_bob.

Let target := av_address_to_string bob.
Let ask := pkask_packet alice bob.
Let reply := pkreply_packet bob alice cert.

(** Packets without a public key teach nothing. *)
Lemma learned_nothing now pkt k : publickey pkt = None -> learned now pkt k = k.
Proof. intros E. unfold learned. rewrite E. by case_match. Qed.

Lemma first_ask now id data k name nd :
  static_ok k -> select_route target (table k) = Ret (Some (name, nd)) -> node_if nd = i ->
  trusted_pubkey k !! target = None ->
  exists k', async_sendto_op now id target data k = (Ret tt, k') /\
    ifs k' = queue_ifs i ask (ifs k) /\ sends k' = <[id := new_send target data nd]> (sends k).
Proof.
  intros Hs Hsel Hnd Hno. set (op := new_send target data nd).
  exists (asked now id op 0 alice k).
  destruct (asked_members now id op 0 alice k) as (_ & Ai & As & _). split_and!.
  - rewrite (sendto_route_eq now id target data k _ None Hsel)
      by (unfold find_RSA_pubkey; by rewrite Hno).
    apply (ask_round_eq now id op 0 alice k Hs); [by eapply select_route_live|
      by eapply select_route_node|by rewrite <-Hnd in Hme].
  - rewrite Ai. unfold op, ask, target. simpl. by rewrite address_roundtrip, Hnd.
  - exact As.
Qed.

Lemma first_answer now k :
  static_ok k -> nobody_waits ask k -> is_mine ask k = Ret true -> is_Some (ifs k !! j) ->
  process_recived_packet now ask j k = (Ret tt, queue_packet j reply None k).
Proof.
  intros Hs Hn Hm Hj. erewrite answered_eq by done. by rewrite learned_nothing.
Qed.

(** The reply is trusted and wakes the send, which seals its text for that key. *)
Lemma first_wake now id op k first second :
  waiting id op k -> s_target op = target -> node_if (s_interface op) = i ->
  is_mine reply k = Ret true ->
  RSA_public_encrypt p_bob (s_data op) = Ret first -> RSA_private_encrypt mine first = Ret second ->
  exists ws, process_recived_packet now reply i k = (Ret tt, set_post ws (suspended id op WaitWrite
    (queue_packet i (data_packet alice bob second mine) (Some id)
      (set_keys (add_RSA_pubkey target p_bob (now + hours 500) (trusted_pubkey k)) k)))).
Proof.
  unfold target. intros Hw Htg Hi Hm E1 E2. pose proof (waiting_split _ _ _ Hw) as (pre & w & post & Ep & Hid & Hpt & Hot).
  destruct Hw as [Hk [r Hop] Hl Hno Halone]. rewrite Htg in *.
  destruct Hcertifies as (crt & pkey & Hc1 & Hc2 & Hc3).
  assert (Hseal : forall st, sealed_for p_bob {| s_target := av_address_to_string bob; s_data := s_data op;
      s_interface := s_interface op; s_stage := st |} = Some (data_packet alice bob second mine)).
  { intros st. unfold sealed_for. simpl. by rewrite Hi, Hme, Hmine, E1, E2, address_roundtrip. }
  exists (for_others (av_address_to_string bob) k).
  rewrite (answer_eq (av_address_to_string bob) p_bob now reply i k crt pkey); try done.
  - assert (Et : for_target (av_address_to_string bob) k = [w]).
    { unfold for_target. rewrite Ep, filter_app, filter_cons_True by (by rewrite Hpt, String.eqb_refl).
      assert (Hnil : forall l, (forall v, v ∈ l -> pred_target v <> av_address_to_string bob) ->
        filter (fun w => String.eqb (av_address_to_string bob) (pred_target w)) l = []).
      { induction l as [|v l IH]; intros Hnot; [done|]. rewrite filter_cons_False.
        - apply IH. intros u Hu. apply Hnot. by right.
        - intros E%Is_true_eq_true%String.eqb_eq. by apply (Hnot v ltac:(by left)). }
      rewrite !Hnil; [done| |]; intros v Hv; apply Hot, elem_of_app; [by right|by left]. }
    rewrite Et. unfold woken, send_now. simpl. rewrite Hid, Hop, Hseal. simpl. rewrite Hi.
    unfold suspended, suspend_send. simpl. by rewrite Htg.
  - intros id' op' r' Hop' Hst' Htg'. destruct Hk as (_ & [_ Hsound Hcomp _ _ _] & _).
    pose proof (Hcomp id' _ r' I Hop' Hst') as Hin. apply list_elem_of_fmap in Hin as (v & -> & Hin).
    destruct (Hsound v Hin) as [_ (op2 & r2 & Hop2 & _ & Htg2)]. rewrite Hop2 in Hop'. injection Hop' as <-.
    rewrite (Halone v Hin) in Hop2 by congruence. rewrite Hop in Hop2. injection Hop2 as <-.
    split; [done|]. by rewrite Hseal.
Qed.
End exchange.

(** The first message between two nodes.  Alice, who has no key of bob, sends him a text: her
    send queues a question for his key; bob's node, given the question, queues
    an answer with his certificate; alice's node, given the answer while the
    send still waits, stores the key, wakes the send and queues a message; and
    bob's node, given the message, puts (alice's address, the text) in its
    receive queue.  The states [k2], [k3], [k4] in which the packets arrive are
    any states that meet the stated conditions: what else the two nodes do in
    between does not matter. *)
Theorem first_contact now1 now2 now3 now4 id data alice bob name nd j mine p_mine s_bob p_bob cert k :
  address_ok alice -> address_ok bob ->
  if_address (node_if nd) = Some alice -> get_rsa_key (node_if nd) = Some mine -> rsa_pair p_mine mine ->
  if_address j = Some bob -> get_rsa_key j = Some s_bob -> get_cert j = Some cert ->
  certifies cert p_bob -> rsa_pair p_bob s_bob ->
  seal_ok s_bob (zlen data) -> seal_ok mine (sealed_len (RSA_size s_bob) (zlen data)) ->
  static_ok k -> select_route (av_address_to_string bob) (table k) = Ret (Some (name, nd)) ->
  trusted_pubkey k !! av_address_to_string bob = None ->
  let ask := pkask_packet alice bob in
  let reply := pkreply_packet bob alice cert in
  exists sealed k',
    let message := data_packet alice bob sealed mine in
    async_sendto_op now1 id (av_address_to_string bob) data k = (Ret tt, k') /\
    ifs k' = queue_ifs (node_if nd) ask (ifs k) /\
    sends k' = <[id := new_send (av_address_to_string bob) data nd]> (sends k) /\
    (forall k2, static_ok k2 -> nobody_waits ask k2 -> is_mine ask k2 = Ret true ->
       is_Some (ifs k2 !! j) ->
       process_recived_packet now2 ask j k2 = (Ret tt, queue_packet j reply None k2)) /\
    (forall k3, waiting id (new_send (av_address_to_string bob) data nd) k3 ->
       is_mine reply k3 = Ret true ->
       exists ws, process_recived_packet now3 reply (node_if nd) k3 = (Ret tt, set_post ws
         (suspended id (new_send (av_address_to_string bob) data nd) WaitWrite
           (queue_packet (node_if nd) message (Some id)
             (set_keys (add_RSA_pubkey (av_address_to_string bob) p_bob (now3 + hours 500)
               (trusted_pubkey k3)) k3))))) /\
    (forall k4, static_ok k4 -> nobody_waits message k4 -> is_mine message k4 = Ret true ->
       process_recived_packet now4 message j k4 =
         (Ret tt, deliver (av_address_to_string alice, data) (learned now4 message k4))).
Proof.
  intros Ha Hb Hme Hmine Hpm Hyou Hs_bob Hcert Hcs Hpb Hok1 Hok2 Hs Hsel Hno.
  destruct (RSA_encrypt_roundtrip p_bob s_bob data Hpb Hok1) as (first & E1 & L1 & D1).
  rewrite <-L1 in Hok2.
  destruct (RSA_sign_roundtrip (RSA_of_n (RSA_n mine)) mine first (rsa_pair_of_n _ _ Hpm) Hok2)
    as (second & E2 & L2 & D2).
  destruct (first_ask alice bob (node_if nd) Hb Hme now1 id data k name nd Hs Hsel eq_refl Hno)
    as (k' & Ek & Eifs & Esends).
  exists second, k'. split_and!; [done..| | |].
  - intros k2 Hs2 Hn Hm Hi. by apply first_answer.
  - intros k3 Hw Hm. by eapply first_wake.
  - intros k4 Hs4 Hn Hm. by eapply delivered_eq.
Qed.
End contact.
