(* ===== verification/Inquiry.v ===== *)
(** * Inquiry: a first message gets where it is sent

    In a network of any nodes, a message to an address whose key the sender does
    not have: the question travels to the node of that address, the answer back,
    and then the message.  Asking.v says what the sender does meanwhile, Arrival.v
    what becomes of each of the three packets. *)

From S2P Require Import Prelude StdSort OpenSSL RsaChunk Regex Address CoroQueue Routing KeyStore Avif Kernel Effects Mailbox Hoare KernelInv Flow Network KernelSpec Sendto Wake Relay Contact Arrival Asking.

(** ** The two ends *)

Section node.
Context `{Build} `{O : OpenSSL} `{BoostRegex} `{StdSort} `{!AvifImpl O} `{!StdSortLaws H1} `{!BoostRegexLaws H0}.

Lemma processed_pending now pkt k2 k' i v :
  flow_ok None k2 -> wake now Post (pred pkt) ec_success k2 = (Ret tt, k') -> v ∈ pending i k2 -> v ∈ pending i k'.
Proof.
  intros Hf E Hv. destruct (fs_pending None _ _ (eff_wake (J := flow_ok None) (G := attended None) now Post _ _ k2 tt k' Hf E) i) as [new ->].
  apply elem_of_app. by left.
Qed.

(** The question is answered, on the interface it came by. *)
Lemma process_answers now pkt i k u k' me cert :
  static_ok k -> flow_ok None k -> is_mine pkt k = Ret true -> upperlayerpotocol pkt = "pkask" ->
  if_address i = Some me -> get_cert i = Some cert -> is_Some (ifs k !! i) ->
  process_recived_packet now pkt i k = (Ret u, k') ->
  (pkreply_packet me (split_address (av_address_to_string (src pkt))) cert, None) ∈ pending i k'.
Proof.
  intros Hs Hf Hm Hu Hme Hcert [a Ha] E. destruct (process_inv now pkt i k u k' Hs E) as (b & k2 & Hb & E1 & E2).
  rewrite Hm in Hb. injection Hb as <-. destruct (learned_members now pkt k) as (_ & Eifs & _).
  pose proof (learned_static now pkt k Hs) as Hsl.
  pose proof (fs_ok None _ _ (eff_learn_key (J := flow_ok None) (G := attended None) now pkt k tt _ Hf (learn_key_eq now pkt k Hs)) Hf) as Hf1.
  pose proof (fs_ok None _ _ (eff_to_me (J := flow_ok None) (G := attended None) now pkt i _ _ _ Hf1 E1) Hf1) as Hf2.
  eapply processed_pending; [exact Hf2|exact E2|]. revert E1.
  unfold process_recived_packet_to_me. rewrite Hu. cbn [String.eqb Ascii.eqb Bool.eqb].
  unfold async_send_agmp_pkreply, st_bind, st_lift. rewrite Hme. cbn [deref]. rewrite from_string_split, Hcert. cbn [deref].
  erewrite write_eq by (done || by rewrite Eifs). intros [= <-].
  rewrite queue_packet_pending, decide_True by (done || by rewrite Eifs; eexists).
  apply elem_of_app. right. apply list_elem_of_here.
Qed.

(** The answer leaves a key. *)
Lemma reply_stores now pkt i k u k' cert key :
  static_ok k -> is_mine pkt k = Ret true -> upperlayerpotocol pkt = "pkreply" ->
  payload pkt = Some (i2d_X509 cert) -> certifies cert key ->
  process_recived_packet now pkt i k = (Ret u, k') ->
  find_RSA_pubkey (av_address_to_string (src pkt)) (trusted_pubkey k') <> Ret None.
Proof.
  intros Hs Hm Hu Hp (crt & pkey & Hcrt & Hpk & Hkey) E. destruct (process_inv now pkt i k u k' Hs E) as (b & k2 & Hb & E1 & E2).
  rewrite Hm in Hb. injection Hb as <-.
  rewrite (reply_to_me_eq now pkt i _ crt pkey key) in E1 by (done || by rewrite Hp). injection E1 as <-.
  destruct (stays_run _ _ _ _ (stays_wake now Post (pred pkt) ec_success) E2) as (_ & -> & _). simpl.
  destruct (find_after_add (av_address_to_string (src pkt)) key (now + hours 500) (trusted_pubkey (learned now pkt k)))
    as [(best & -> & _) _]; [|done]. apply (ok_keys _ (learned_static now pkt k Hs)).
Qed.
End node.

(** ** The inquiry *)

Section net.
Context `{Build} `{O : OpenSSL} `{BoostRegex} `{StdSort} `{!StdSortLaws H1} `{!BoostRegexLaws H0}.
Context (impl : nat -> AvifImpl O) (peer : nat -> nat -> option (nat * nat)).
Variable on_path : nat -> Prop.

(** The sender and the interface it writes to, the routers from there to the
    destination, the interface by which packets come there; and from there back. *)
Variables (n o back_in last last_in : nat) (path back : list (nat * nat * nat)).

(** The waiter of the send, the send, the key it needs and the packet it will make;
    the addresses and the certificate of the two ends. *)
Variables (w0 : waiter) (op : send_op) (key mine : RSA) (me you : avAddress) (cert : X509).
Variables (first second : bytes).

Let target : string := s_target op.
Let msg : avPacket := its_packet me mine second op.
Let ask : avPacket := pkask_packet me (split_address target).
Let reply : avPacket := pkreply_packet you (split_address (av_address_to_string me)) cert.

Abbreviation advance := (net_step impl peer).
Abbreviation after := (net_run impl peer).

(** The message is under way, or there; the answer is, and then the message; the
    question is, and then the answer. *)
Definition there : network -> Prop :=
  under_way last last_in (av_address_to_string me, s_data op) n o path msg.
Definition answer : network -> Prop := carried n back_in there last last_in back reply.
Definition question : network -> Prop := carried last last_in answer n o path ask.
Definition still_asking (w : network) : Prop :=
  exists k, nodes w !! n = Some k /\ waits w0 op k /\ node_live (s_interface op) k.
Definition inquiry (w : network) : Prop := (still_asking w /\ question w) \/ there w.

(** The two paths and their ends. *)
Record both_ways (w : network) : Prop := {
  bw_out : carries n o w;
  bw_home : home impl last (split_address target) w;
  bw_path : Forall (stop_ok impl on_path (split_address target) w) path;
  bw_back_out : carries last last_in w;
  bw_back_home : home impl n (split_address (av_address_to_string me)) w;
  bw_back : Forall (stop_ok impl on_path (split_address (av_address_to_string me)) w) back
}.

(** At the sender no tick finds the deadline of the question passed, and no other
    key than the right one is stored for the target. *)
Definition undisturbed (ev : net_event) (w : network) : Prop :=
  (forall e, ev = NLocal n e -> patient w0 e) /\
  forall k key', nodes (advance ev w) !! n = Some k ->
    find_RSA_pubkey target (trusted_pubkey k) = Ret (Some key') -> key' = key.

Record ends_meet : Prop := {
  em_path : on_path n /\ on_path last;
  em_linked : linked peer last last_in n o path /\ linked peer n back_in last last_in back;
  em_short : (length path < 64)%nat /\ (length back < 64)%nat;
  em_if : node_if (s_interface op) = o;
  em_me : if_address (AvifImpl := impl n) o = Some me;
  em_mine : get_rsa_key (AvifImpl := impl n) o = Some mine;
  em_seal : RSA_public_encrypt key (s_data op) = Ret first /\ RSA_private_encrypt mine first = Ret second;
  em_you : if_address (AvifImpl := impl last) last_in = Some you;
  em_target : av_address_to_string you = target;
  em_cert : get_cert (AvifImpl := impl last) last_in = Some cert /\ exists key', certifies cert key';
  em_opens : opened (AvifImpl0 := impl last) msg last_in = Ret (s_data op)
}.
Hypothesis Hends : ends_meet.

Section step.
Variables (ev : net_event) (w : network).
Hypothesis Hev : allowed on_path ev w.
Hypothesis Hs : forall q, on_path q -> is_Some (nodes (advance ev w) !! q).
Hypothesis Hboth : both_ways w.
Hypothesis Hund : undisturbed ev w.

Lemma both_ways_step : both_ways (advance ev w).
Proof.
  destruct Hboth, (em_path Hends) as [Hp Hl].
  assert (Hstops : forall d l, Forall (stop_ok impl on_path d w) l -> Forall (stop_ok impl on_path d (advance ev w)) l).
  { intros d l Hall. eapply Forall_impl; [exact Hall|]. intros [[n' i'] o'] [Hp' Hf]. split; [done|].
    by apply (forwards_lasts impl peer on_path ev w Hev n' Hp' (Hs n' Hp')). }
  split; auto.
  - by apply (carries_lasts impl peer on_path ev w Hev n Hp (Hs n Hp)).
  - by apply (home_lasts impl peer on_path ev w Hev last Hl (Hs last Hl)).
  - by apply (carries_lasts impl peer on_path ev w Hev last Hl (Hs last Hl)).
  - by apply (home_lasts impl peer on_path ev w Hev n Hp (Hs n Hp)).
Qed.

Lemma there_step : there w -> there (advance ev w).
Proof.
  destruct Hboth, Hends, (em_path Hends) as [Hp Hl]. apply (under_way_step impl peer on_path last last_in ev w _ n o path msg (s_data op)); try done.
  - apply em_linked0.
  - simpl. lia.
Qed.

(** The sender's kernel, after one of its events. *)
Lemma sender_kernel k e k' :
  nodes w !! n = Some k -> nodes (advance ev w) !! n = Some k' -> in_order k -> table k' = table k ->
  waits w0 op k -> node_live (s_interface op) k -> benign e -> patient w0 e ->
  step (AvifImpl0 := impl n) e k = (Ret tt, k') ->
  (waits w0 op k' /\ node_live (s_interface op) k' /\
    forall m now pkt i, e = ERun m now -> tasks k !! m = Some (TProcess pkt i) ->
      av_address_to_string (src pkt) = target -> find_RSA_pubkey target (trusted_pubkey k') = Ret None) \/
  there (advance ev w).
Proof.
  intros Hk Hk' Hok Ht Hw Hlive He Hpat E. destruct Hends.
  assert (Hlive' : node_live (s_interface op) k') by (unfold node_live in *; by rewrite Ht).
  destruct (step_waits (AvifImpl0 := impl n) w0 key me mine first second e op k tt k' He Hpat Hok Hw E) as [[Hw' Hno]|Hpend].
  - intros key' Hkey. destruct Hund as [_ Hright]. rewrite (Hright k' key' Hk' Hkey) in Hkey.
    split; rewrite ?em_if0; try done; apply em_seal0.
  - left. split_and!; [done|done|]. intros m now pkt i. apply Hno.
  - right. apply carried_pending. exists k', (Some (w_op w0)). by rewrite <-em_if0.
Qed.

Lemma asking_step : still_asking w -> still_asking (advance ev w) \/ there (advance ev w).
Proof.
  intros (k & Hk & Hw & Hlive). destruct (em_path Hends) as [Hp _]. destruct (bw_out w Hboth) as (k0 & Hk0 & Hok & _).
  rewrite Hk in Hk0. injection Hk0 as <-.
  destruct (node_kept impl peer on_path ev w n k Hev Hp Hk (Hs n Hp)) as (k' & Hk' & Hc).
  destruct (node_lasts impl peer on_path ev w Hev n Hp (Hs n Hp) k Hk Hok) as (k'' & Hk'' & _ & Ht & _).
  rewrite Hk' in Hk''. injection Hk'' as <-. destruct Hc as [->|(e & He & E & _ & Hwhich)]; [left; by exists k|].
  assert (Hpat : patient w0 e).
  { destruct Hwhich as [->|(i & pkt & now & ->)]; [|done]. by apply (proj1 Hund). }
  destruct (sender_kernel k e k' Hk Hk' Hok Ht Hw Hlive He Hpat E) as [(Hw' & Hl' & _)|]; [left; by exists k'|by right].
Qed.

(** The answer is handled: the message goes out. *)
Lemma answer_ends i pkt :
  still_asking w -> src pkt = you -> dest pkt = split_address (av_address_to_string me) -> upperlayerpotocol pkt = "pkreply" ->
  payload pkt = Some (i2d_X509 cert) -> arriving n i pkt w ->
  arriving n i pkt (advance ev w) \/ there (advance ev w).
Proof.
  intros (k & Hk & Hw & Hlive) Hsrc Hd Hu Hpay Ha. destruct Hends, (em_path Hends) as [Hp _].
  destruct (bw_back_home w Hboth) as (k0 & Hk0 & Hok & Hm). rewrite Hk in Hk0. injection Hk0 as <-.
  destruct (arriving_moves impl peer on_path ev w Hev n Hp (Hs n Hp) i pkt k Hk Hok Ha) as [|(k' & m & now & Hk' & Ht & E)]; [by left|right].
  destruct (node_lasts impl peer on_path ev w Hev n Hp (Hs n Hp) k Hk Hok) as (k'' & Hk'' & _ & Htab & _).
  rewrite Hk' in Hk''. injection Hk'' as <-.
  destruct (sender_kernel k (ERun m now) k' Hk Hk' Hok Htab Hw Hlive I I E) as [(_ & _ & Hno)|]; [exfalso|done].
  specialize (Hno m now pkt i eq_refl Ht). rewrite Hsrc in Hno. specialize (Hno em_target0).
  destruct (em_cert0) as [_ [key' Hcert]]. cbn [step] in E. rewrite Ht in E. cbn [run_task] in E.
  apply (reply_stores (AvifImpl0 := impl n) now pkt i (set_tasks (delete m (tasks k)) k) tt k' cert key') in E; try done.
  - by rewrite Hsrc, em_target0 in E.
  - apply static_unqueue, Hok.
  - unfold is_mine. by rewrite Hd.
Qed.

(** The question is handled: the answer goes out. *)
Lemma question_ends pkt :
  src pkt = me -> dest pkt = split_address target -> upperlayerpotocol pkt = "pkask" -> arriving last last_in pkt w ->
  arriving last last_in pkt (advance ev w) \/ answer (advance ev w).
Proof.
  intros Hsrc Hd Hu Ha. destruct Hends, (em_path Hends) as [_ Hl]. destruct (bw_home w Hboth) as (k & Hk & Hok & Hm).
  destruct (arriving_moves impl peer on_path ev w Hev last Hl (Hs last Hl) last_in pkt k Hk Hok Ha) as [|(k' & m & now & Hk' & Ht & E)]; [by left|right].
  destruct (bw_back_out w Hboth) as (k0 & Hk0 & _ & _ & name & nd & Hnd & Hif). rewrite Hk in Hk0. injection Hk0 as <-.
  pose proof (io_ok k Hok) as [Hst _]. cbn [step] in E. rewrite Ht in E. cbn [run_task] in E.
  apply carried_pending. exists k', None. split; [done|].
  eapply (process_answers (AvifImpl0 := impl last) now pkt last_in _ tt k' you cert) in E; try done.
  - by rewrite Hsrc in E.
  - by apply static_unqueue.
  - eapply fs_ok; [by eapply unqueue_flows; [exact Ht|done|apply Hok]|apply Hok].
  - unfold is_mine. by rewrite Hd.
  - apply em_cert0.
  - simpl. rewrite <-Hif. by apply (ok_nodes k Hst name).
Qed.

Lemma answer_step : still_asking w -> answer w -> answer (advance ev w).
Proof.
  intros Hask. destruct Hboth, Hends, (em_path Hends) as [Hp Hl].
  destruct (arrives_as_same back reply) as (Es & Ed & Eu & Ep & _).
  apply (carried_step impl peer on_path n back_in ev w there last last_in back reply); try done.
  - apply em_linked0.
  - simpl. lia.
  - apply there_step.
  - by apply answer_ends.
Qed.

Lemma question_step : still_asking w -> question w -> question (advance ev w).
Proof.
  intros Hask. destruct Hboth, Hends, (em_path Hends) as [Hp Hl].
  destruct (arrives_as_same path ask) as (Es & Ed & Eu & _).
  apply (carried_step impl peer on_path last last_in ev w answer n o path ask); try done.
  - apply em_linked0.
  - simpl. lia.
  - by apply answer_step.
  - by apply question_ends.
Qed.

Lemma inquiry_step : inquiry w -> inquiry (advance ev w).
Proof.
  intros [[Hask Hq]|Ht]; [|right; by apply there_step].
  destruct (asking_step Hask) as [Hask'|Ht]; [left|by right]. split; [done|by apply question_step].
Qed.
End step.

(** ** Runs *)

Fixpoint all_undisturbed (evs : list net_event) (w : network) : Prop :=
  match evs with [] => True | ev :: evs => undisturbed ev w /\ all_undisturbed evs (advance ev w) end.

Lemma inquiry_run evs w :
  all_allowed impl peer on_path evs w -> (forall q, on_path q -> is_Some (nodes (after evs w) !! q)) ->
  both_ways w -> all_undisturbed evs w -> inquiry w -> inquiry (after evs w) /\ both_ways (after evs w).
Proof.
  revert w. induction evs as [|ev evs IH]; intros w Ha Hs Hb Hu Hi; cbn [net_run all_allowed all_undisturbed] in *; [done|].
  destruct Ha as [Hev Ha], Hu as [Hund Hu].
  assert (Hs1 : forall q, on_path q -> is_Some (nodes (advance ev w) !! q)) by (intros q Hq; by eapply node_there, Hs).
  apply IH; [done|done|by apply both_ways_step|done|by apply inquiry_step].
Qed.

Lemma rest_inquiry w :
  at_rest on_path w -> both_ways w -> inquiry w -> arrived_at last (av_address_to_string me, s_data op) w.
Proof.
  intros Hr [Hc _ Hpath Hbc _ Hback] Hi. destruct (em_path Hends) as [Hp Hl].
  assert (Ht : there w).
  { destruct Hi as [[_ Hq]|]; [|done].
    pose proof (rest_carried impl on_path last last_in _ n o path _ _ w Hr Hp Hl Hc Hpath Hq) as Hans.
    exact (rest_carried impl on_path n back_in _ last last_in back _ _ w Hr Hl Hp Hbc Hback Hans). }
  exact (rest_carried impl on_path last last_in _ n o path _ _ w Hr Hp Hl Hc Hpath Ht).
Qed.
End net.

Section first_message.
Context `{Build} `{O : OpenSSL} `{BoostRegex} `{StdSort} `{!StdSortLaws H1} `{!BoostRegexLaws H0} `{!OpenSSLLaws O}.
Context (impl : nat -> AvifImpl O) (peer : nat -> nat -> option (nat * nat)).

(** The waiter of a send that starts now. *)
Definition its_waiter (now : Z) (id : nat) (target : string) : waiter :=
  {| deadline := now + seconds 8; pred_target := target; w_op := id |}.

(** The send asks. *)
Lemma inquiry_starts w n m now id target data k name nd me last last_in path back_in back mine you cert second :
  nodes w !! n = Some k -> tasks k !! m = Some (TSendto id target data) -> static_ok k ->
  select_route target (table k) = Ret (Some (name, nd)) -> find_RSA_pubkey target (trusted_pubkey k) = Ret None ->
  if_address (AvifImpl := impl n) (node_if nd) = Some me ->
  inquiry n (node_if nd) back_in last last_in path back (its_waiter now id target) (new_send target data nd) mine me you cert second
    (net_step impl peer (NLocal n (ERun m now)) w).
Proof.
  intros Hk Ht Hs Hsel Hfind Hme. cbn [net_step]. unfold node_step. rewrite Hk. simpl. rewrite Ht. cbn [run_task].
  set (k1 := set_tasks (delete m (tasks k)) k). assert (Hs1 : static_ok k1) by by apply static_unqueue.
  rewrite (sendto_route_eq (AvifImpl0 := impl n) now id target data k1 _ _ Hsel Hfind).
  assert (Hi : is_Some (ifs k1 !! node_if nd)) by by eapply (select_route_node target k1).
  assert (Hl : node_live (s_interface (new_send target data nd)) k1) by by eapply (select_route_live target k1).
  rewrite (ask_round_eq (AvifImpl0 := impl n) now id (new_send target data nd) 0 me k1 Hs1 Hl Hi Hme).
  change (if 0 <? 3 then ?a else _) with a. destruct (asked_members now id (new_send target data nd) 0 me k1) as (Epost & _ & Esend & _ & _ & Etab & _).
  left. split.
  - eexists. cbn [nodes]. rewrite lookup_insert_eq. split_and!; [done| |].
    + split; [rewrite Epost; apply elem_of_app; right; apply list_elem_of_here|]. rewrite Esend. by rewrite lookup_insert_eq.
    + unfold node_live. by rewrite Etab.
  - apply carried_pending. eexists _, None. cbn [nodes]. rewrite lookup_insert_eq. split; [done|].
    unfold asked. cbv zeta. change (pending ?i (suspended ?a ?b ?c ?q)) with (pending i q). change (pending ?i (set_post ?l ?q)) with (pending i q).
    rewrite queue_packet_pending, decide_True by done. apply elem_of_app. right. apply list_elem_of_here.
Qed.

(** Node [n] is about to send: it has a route for [target] and no key, the
    destination is node [last] with [key] in its certificate, and what the one
    seals the other opens. *)
Definition asking (n m id : nat) (target : string) (data : bytes) (nd : node) (me you : avAddress) (key : RSA)
    (last last_in : nat) (w : network) : Prop :=
  exists k name p_me mine cert s_to,
    nodes w !! n = Some k /\ tasks k !! m = Some (TSendto id target data) /\
    select_route target (table k) = Ret (Some (name, nd)) /\ find_RSA_pubkey target (trusted_pubkey k) = Ret None /\
    if_address (AvifImpl := impl n) (node_if nd) = Some me /\
    get_rsa_key (AvifImpl := impl n) (node_if nd) = Some mine /\ rsa_pair p_me mine /\
    if_address (AvifImpl := impl last) last_in = Some you /\ av_address_to_string you = target /\
    get_cert (AvifImpl := impl last) last_in = Some cert /\ certifies cert key /\
    get_rsa_key (AvifImpl := impl last) last_in = Some s_to /\ rsa_pair key s_to /\
    seal_ok s_to (zlen data) /\ seal_ok mine (sealed_len (RSA_size s_to) (zlen data)).

Lemma asking_arrives on_path evs n m now last last_in back_in path back id target data nd me you key w :
  asking n m id target data nd me you key last last_in w -> on_path n -> on_path last ->
  linked peer last last_in n (node_if nd) path -> linked peer n back_in last last_in back ->
  (length path < 64)%nat -> (length back < 64)%nat ->
  let op := new_send target data nd in
  both_ways impl on_path n (node_if nd) last last_in path back op me w ->
  let run := NLocal n (ERun m now) :: evs in
  all_allowed impl peer on_path run w ->
  all_undisturbed impl peer n (its_waiter now id target) op key evs (net_step impl peer (NLocal n (ERun m now)) w) ->
  (forall q, on_path q -> is_Some (nodes (net_run impl peer run w) !! q)) -> at_rest on_path (net_run impl peer run w) ->
  arrived_at last (av_address_to_string me, data) (net_run impl peer run w).
Proof.
  intros (k & name & p_me & mine & cert & s_to & Hk & Ht & Hsel & Hfind & Hme & Hmine & Hpme & Hyou & Htarget & Hcert &
    Hcertifies & Hlast & Hpto & Hok1 & Hok2) Hp Hl Hlk Hlkb Hlen Hlenb op Hboth run [Hev Ha] Hund Hs Hr.
  destruct (sealed_opens p_me mine key s_to data) as (first & second & E1 & E2 & D2 & D1); [done..|].
  assert (Hends : ends_meet impl peer on_path n (node_if nd) back_in last last_in path back op key mine me you cert first second).
  { split; try done; [split; [done|by exists key]|]. unfold opened. simpl. by rewrite D2, outcome_bind_Ret, Hlast. }
  assert (Hs1 : forall q, on_path q -> is_Some (nodes (net_step impl peer (NLocal n (ERun m now)) w) !! q))
    by (intros q Hq; exact (node_there impl peer evs _ q (Hs q Hq))).
  assert (Hst : static_ok k).
  { destruct (bw_out _ _ _ _ _ _ _ _ _ _ _ Hboth) as (k0 & Hk0 & Hok & _). rewrite Hk in Hk0. injection Hk0 as <-. apply Hok. }
  pose proof (inquiry_starts w n m now id target data k name nd me last last_in path back_in back mine you cert second
    Hk Ht Hst Hsel Hfind Hme) as Hi.
  pose proof (both_ways_step impl peer on_path n (node_if nd) back_in last last_in path back op key mine me you cert first second
    Hends _ w Hev Hs1 Hboth) as Hboth1.
  destruct (inquiry_run impl peer on_path n (node_if nd) back_in last last_in path back (its_waiter now id target) op key mine me you
    cert first second Hends evs _ Ha Hs Hboth1 Hund Hi) as [Hi' Hb'].
  exact (rest_inquiry impl peer on_path n (node_if nd) back_in last last_in path back (its_waiter now id target) op key mine me you
    cert first second Hends _ Hr Hb' Hi').
Qed.

(** C4: a first message arrives: a node runs the send of a text to an address for
    which it has a route but no key; routers, fewer than 64 each way, lie
    between it and the node of that address, with routes that lead there, and
    back to the sender. Whatever else goes on in the network, in whatever order,
    as long as on the two paths no node fails, no link is cut, no packet is lost
    and nothing is added to the tables, no tick at the sender finds the deadline
    of the question passed, and no key but the one in the destination's
    certificate is ever stored for the address there: once the wires of the path
    are empty and nothing is left to run on it, the question was asked and
    answered, and the text, as coming from the sender's address, has been
    received, is on its way to a receiver, or waits in the receive queue of its
    destination. *)
Theorem first_message_arrives on_path evs n m now last last_in back_in path back id target data w k name nd
    me p_me mine you cert key s_to :
  nodes w !! n = Some k -> tasks k !! m = Some (TSendto id target data) ->
  select_route target (table k) = Ret (Some (name, nd)) -> find_RSA_pubkey target (trusted_pubkey k) = Ret None ->
  if_address (AvifImpl := impl n) (node_if nd) = Some me ->
  get_rsa_key (AvifImpl := impl n) (node_if nd) = Some mine -> rsa_pair p_me mine ->
  if_address (AvifImpl := impl last) last_in = Some you -> av_address_to_string you = target ->
  get_cert (AvifImpl := impl last) last_in = Some cert -> certifies cert key ->
  get_rsa_key (AvifImpl := impl last) last_in = Some s_to -> rsa_pair key s_to ->
  seal_ok s_to (zlen data) -> seal_ok mine (sealed_len (RSA_size s_to) (zlen data)) ->
  on_path n -> on_path last ->
  linked peer last last_in n (node_if nd) path -> linked peer n back_in last last_in back ->
  (length path < 64)%nat -> (length back < 64)%nat ->
  let op := new_send target data nd in
  both_ways impl on_path n (node_if nd) last last_in path back op me w ->
  let run := NLocal n (ERun m now) :: evs in
  all_allowed impl peer on_path run w ->
  all_undisturbed impl peer n (its_waiter now id target) op key run w ->
  (forall q, on_path q -> is_Some (nodes (net_run impl peer run w) !! q)) -> at_rest on_path (net_run impl peer run w) ->
  arrived_at last (av_address_to_string me, data) (net_run impl peer run w).
Proof.
  intros Hk Ht Hsel Hfind Hme Hmine Hpme Hyou Htarget Hcert Hcertifies Hlast Hpto Hok1 Hok2 Hp Hl Hlk Hlkb Hlen Hlenb
    op Hboth run Ha [_ Hund].
  apply (asking_arrives on_path evs n m now last last_in back_in path back id target data nd me you key w); try done.
  exists k, name, p_me, mine, cert, s_to. by split_and!.
Qed.
End first_message.
