(* ===== verification/KernelDemo.v ===== *)
(** * KernelDemo: concrete runs of the kernel

    Two nodes, alice (interface 0) and bob (interface 1), each with a link to a
    router; the toy cryptography and regular expressions.  The theorems about
    the kernel are applied to the states these runs reach. *)

From S2P Require Import Prelude StdSort OpenSSL RsaChunk Regex Address CoroQueue Routing KeyStore Avif Kernel Hoare KernelInv KernelSpec Sendto.

Module KernelDemo.
#[local] Existing Instances debug_build Toy.openssl Toy.laws ToyRegex.boost ToyRegex.laws
  InsertionSort.std InsertionSort.std_laws.

Definition at_av (u : string) : avAddress := {| username := u; domain := "av"; resource := None |}.
Definition alice : avAddress := at_av "alice".
Definition bob : avAddress := at_av "bob".

#[local] Instance links : AvifImpl Toy.openssl := {|
  get_ifname i _ := if Nat.eqb i 0 then "if0" else "if1";
  if_address i := Some (if Nat.eqb i 0 then alice else bob);
  remote_address _ := Some (at_av "router");
  get_rsa_key i := Some (if Nat.eqb i 0 then x01 else x02);
  get_cert i := Some (if Nat.eqb i 0 then x01 else x02)
|}.

Definition final (es : list event) : kernel := (run_events es init_kernel).2.

Lemma final_ok es : (run_events es init_kernel).1 = Ret tt -> kernel_ok (final es).
Proof.
  intros E. apply (reach_ok es _ tt). unfold final. destruct (run_events es init_kernel). simpl in *.
  by rewrite E.
Qed.

(** A node with its interface running and one route for everything. *)
Definition up (i : nat) (name : string) : list event :=
  [EConstruct i; EAddInterface i; EAddRoute ".+@.+" "" name 100; ERun 0 0; ERun 0 0].
Definition A : list event := up 0 "if0".
Definition B : list event := up 1 "if1".

Definition hello : bytes := s2b "hello, bob".

(** bob's answer to alice's question. *)
Definition bobs_key : avPacket := pkreply_packet bob alice (x02 : @X509 Toy.openssl).

(** alice sends, asks for the key, gets it, and her packet is written. *)
Definition A_sends : list event :=
  A ++ [ESendto "bob@av" hello; ERun 0 0; ERun 0 1; EWrote 0 0 ec_success 2;
        ERead 0 (Some bobs_key) 3; ERun 0 4; ERun 0 5; EWrote 0 0 ec_success 6].

Lemma A_sends_runs :
  (run_events A_sends init_kernel).1 = Ret tt /\ log (final A_sends) = [SendDone 0 ec_success].
Proof. split; vm_compute; reflexivity. Qed.

Lemma runs es : (run_events es init_kernel).1 = Ret tt -> run_events es init_kernel = (Ret tt, final es).
Proof. unfold final. destruct (run_events es init_kernel). simpl. by intros ->. Defined.

Lemma kernel_invariant_witness :
  rtable_ok (table (final A_sends)) /\ keystore_ok (trusted_pubkey (final A_sends)).
Proof.
  pose proof (kernel_invariant A_sends (final A_sends) tt (runs A_sends (proj1 A_sends_runs))) as Hk.
  split; apply Hk.
Defined.

Lemma kernel_terminates_witness : (run_events A_sends init_kernel).1 <> OutOfFuel.
Proof.
  apply kernel_terminates; [intros i r _; apply Toy.not_tiny|].
  repeat constructor; intros; apply Toy.not_tiny.
Defined.

(** While alice waits for the key. *)
Definition A_asks : list event := A ++ [ESendto "bob@av" hello; ERun 0 0].

Lemma A_asks_runs : (run_events A_asks init_kernel).1 = Ret tt.
Proof. vm_compute. reflexivity. Qed.

Lemma sends_complete_once_witness :
  NoDup (omap send_done (log (final A_asks))) /\
  exists op, sends (final A_asks) !! 0%nat = Some op /\ s_stage op = WaitKey 0 /\
    0%nat ∈ (w_op <$> postprocess_list (final A_asks)).
Proof.
  destruct (sends_complete_once A_asks (final A_asks) tt (runs A_asks A_asks_runs))
    as (Hnd & _ & _ & Hop).
  split; [exact Hnd|].
  assert (E : exists op, sends (final A_asks) !! 0%nat = Some op /\ s_stage op = WaitKey 0)
    by (eexists; split; vm_compute; reflexivity).
  destruct E as (op & E1 & E2). exists op. split_and!; [exact E1|exact E2|].
  specialize (Hop 0%nat op E1) as [_ Hop]. rewrite E2 in Hop. apply Hop.
Defined.

Lemma queued_ttl_positive_witness :
  exists a, ifs (final A_asks) !! 0%nat = Some a /\
    Forall (fun v : write_request => 1 <= time_to_live v.1) (m_list (write_queue a) ++ writing a).
Proof.
  assert (E : is_Some (ifs (final A_asks) !! 0%nat)) by (eexists; vm_compute; reflexivity).
  destruct E as [a E]. exists a. split; [exact E|].
  exact (queued_ttl_positive A_asks (final A_asks) tt 0 a (runs A_asks A_asks_runs) E).
Defined.

(** ** Packets *)

Lemma B_ok : kernel_ok (final B).
Proof. apply final_ok. vm_compute. reflexivity. Defined.

(** alice's message to bob, as it travels. *)
Definition message : avPacket :=
  data_packet alice bob
    (match RSA_public_encrypt (x02 : @RSA Toy.openssl) hello with
     | Ret c => match RSA_private_encrypt (x01 : @RSA Toy.openssl) c with Ret c => c | _ => [] end
     | _ => [] end) (x01 : @RSA Toy.openssl).

Lemma nobody_waits_nil pkt k : postprocess_list k = [] -> nobody_waits pkt k.
Proof. unfold nobody_waits. intros ->. constructor. Defined.

Lemma packet_delivered_witness :
  process_recived_packet 7 message 1 (final B) =
    (Ret tt, deliver ("alice@av", hello) (learned 7 message (final B))).
Proof.
  eapply (packet_delivered 7 message 1 (final B) [x01]).
  - apply B_ok.
  - apply nobody_waits_nil. vm_compute. reflexivity.
  - vm_compute. reflexivity.
  - reflexivity.
  - reflexivity.
  - reflexivity.
  - vm_compute. reflexivity.
  - reflexivity.
  - vm_compute. reflexivity.
Defined.

(** bob's node forwards a packet for carol. *)
Definition transit : avPacket :=
  {| src := alice; dest := at_av "carol"; upperlayerpotocol := "avim"; payload := Some [x00];
     publickey := None; time_to_live := 2 |}.

Lemma packet_forwarded_witness :
  process_recived_packet 7 transit 1 (final B) = (Ret tt,
    queue_packet 1 (set_time_to_live transit 1) None
      (with_counters (S (names_asked (final B))) (next_node (final B)) (next_op (final B))
        (learned 7 transit (final B)))).
Proof.
  destruct (packet_forwarded 7 transit 1 (final B)) as (o & Ho & Hspec).
  - apply B_ok.
  - apply nobody_waits_nil. vm_compute. reflexivity.
  - vm_compute. reflexivity.
  - assert (E : select_route (av_address_to_string (dest transit)) (table (final B)) =
      Ret (Some ("if1", {| node_id := 0; node_if := 1 |}))) by (vm_compute; reflexivity).
    rewrite E in Ho. injection Ho as <-. exact Hspec.
Defined.

Lemma pkask_answered_witness :
  process_recived_packet 7 (pkask_packet alice bob) 1 (final B) =
    (Ret tt, queue_packet 1 (pkreply_packet bob alice (x02 : @X509 Toy.openssl)) None
      (learned 7 (pkask_packet alice bob) (final B))).
Proof.
  apply (pkask_answered 7 (pkask_packet alice bob) 1 (final B) bob (x02 : @X509 Toy.openssl)).
  - apply B_ok.
  - apply nobody_waits_nil. vm_compute. reflexivity.
  - vm_compute. reflexivity.
  - reflexivity.
  - split; apply (bool_decide_unpack _); vm_compute; exact I.
  - reflexivity.
  - reflexivity.
  - eexists. vm_compute. reflexivity.
Defined.

Definition alices_key : avPacket := pkreply_packet alice bob (x01 : @X509 Toy.openssl).

Lemma pkreply_trusted_witness :
  process_recived_packet 7 alices_key 1 (final B) =
    (Ret tt, set_keys (add_RSA_pubkey "alice@av" (x01 : @RSA Toy.openssl) (7 + hours 500)
      (trusted_pubkey (learned 7 alices_key (final B)))) (learned 7 alices_key (final B))).
Proof.
  eapply (pkreply_trusted 7 alices_key 1 (final B)).
  - apply B_ok.
  - apply nobody_waits_nil. vm_compute. reflexivity.
  - vm_compute. reflexivity.
  - reflexivity.
  - reflexivity.
  - reflexivity.
  - reflexivity.
Defined.

(** A "pkreply" with no certificate in it. *)
Definition crash : avPacket :=
  {| src := alice; dest := bob; upperlayerpotocol := "pkreply"; payload := None;
     publickey := None; time_to_live := 64 |}.

(** A text without a public key. *)
Definition keyless : avPacket :=
  {| src := alice; dest := bob; upperlayerpotocol := "avim"; payload := Some [x07; x08];
     publickey := None; time_to_live := 64 |}.

Lemma hostile_packet_ub_witness :
  (process_recived_packet 7 crash 1 (final B)).1 = UB /\ (process_recived_packet 7 keyless 1 (final B)).1 = UB.
Proof.
  split.
  - apply (hostile_packet_ub 7 crash 1 (final B) x00 []).
    + apply B_ok.
    + vm_compute. reflexivity.
    + left. split; reflexivity.
  - apply (hostile_packet_ub 7 keyless 1 (final B) x07 [x08]).
    + apply B_ok.
    + vm_compute. reflexivity.
    + right. split_and!; [reflexivity|reflexivity|reflexivity|vm_compute; discriminate|reflexivity].
Defined.

Lemma trust_on_first_use_witness :
  exists k', process_recived_packet 7 message 1 (final B) = (Ret tt, k') /\
    trusted_pubkey k' = trusted_pubkey (learned 7 message (final B)).
Proof.
  assert (E : (process_recived_packet 7 message 1 (final B)).1 = Ret tt) by (vm_compute; reflexivity).
  destruct (process_recived_packet 7 message 1 (final B)) as [o k'] eqn:Ep. simpl in E. subst o.
  exists k'. split; [reflexivity|].
  refine (proj1 (trust_on_first_use 7 message 1 (final B) tt k' (proj1 B_ok) (or_intror _) Ep)).
  discriminate.
Defined.

(** ** Sends *)

Lemma A_ok : kernel_ok (final A).
Proof. apply final_ok. vm_compute. reflexivity. Defined.

Definition link : node := {| node_id := 0; node_if := 0 |}.

Lemma A_route : select_route "bob@av" (table (final A)) = Ret (Some ("if0", link)).
Proof. vm_compute. reflexivity. Qed.

Lemma sendto_correct_witness :
  async_sendto_op 0 9 "bob@av" hello (final A) =
    (Ret tt, asked 0 9 (new_send "bob@av" hello link) 0 alice (final A)).
Proof.
  destruct (sendto_correct 0 9 "bob@av" hello (final A) (proj1 A_ok)) as (o & Ho & Hspec).
  rewrite A_route in Ho. injection Ho as <-.
  destruct (Hspec alice (x01 : @RSA Toy.openssl) eq_refl eq_refl) as [[_ E]|(key & E & _)].
  - exact E.
  - vm_compute in E. discriminate E.
Defined.

Lemma resume_correct_witness :
  exists op, sends (final A_asks) !! 0%nat = Some op /\
    resume_send 8000001 0 timed_out (final A_asks) =
      (Ret tt, asked 8000001 0 op 1 alice (final A_asks)).
Proof.
  assert (E : exists op, sends (final A_asks) !! 0%nat = Some op /\ s_stage op = WaitKey 0 /\
    s_interface op = link /\ s_target op = "bob@av") by (eexists; split_and!; vm_compute; reflexivity).
  destruct E as (op & Hop & Hst & Hif & Htg). exists op. split; [exact Hop|].
  pose proof (resume_correct 8000001 0 timed_out op 0 alice (x01 : @RSA Toy.openssl) (final A_asks)) as Hr.
  rewrite Hif, Htg in Hr.
  destruct Hr as [Hr _]; [apply (final_ok A_asks A_asks_runs)|exact Hop|exact Hst| |reflexivity|reflexivity|].
  { eexists. vm_compute. reflexivity. }
  specialize (Hr ltac:(vm_compute; reflexivity)).
  rewrite decide_True in Hr by (apply (bool_decide_unpack _); vm_compute; exact I).
  exact Hr.
Defined.

Lemma sendto_gives_up_witness :
  exists k', (async_sendto_op 0 9 "bob@av" hello ;;- timer1_tick 9000000 ec_success ;;-
              timer1_tick 18000000 ec_success ;;- timer1_tick 27000000 ec_success) (final A) = (Ret tt, k') /\
    log k' = [SendDone 9 network_unreachable].
Proof.
  destruct (sendto_gives_up 9 "bob@av" hello (final A) "if0" link alice 0 9000000 18000000 27000000
    ec_success ec_success ec_success) as (k' & E & Hlog & _).
  - apply A_ok.
  - vm_compute. reflexivity.
  - exact A_route.
  - reflexivity.
  - vm_compute. reflexivity.
  - vm_compute. reflexivity.
  - vm_compute. reflexivity.
  - vm_compute. reflexivity.
  - exists k'. split; [exact E|]. rewrite Hlog. vm_compute. reflexivity.
Defined.

(** alice after she has learned bob's key. *)
Definition A_knows : list event := A ++ [ERead 0 (Some bobs_key) 3; ERun 0 4].

Lemma A_knows_ok : kernel_ok (final A_knows).
Proof. apply final_ok. vm_compute. reflexivity. Defined.

Lemma toy_seal_ok (k : @RSA Toy.openssl) n : k <> x00 -> 0 <= n <= 1000 -> seal_ok k n.
Proof.
  intros Hk Hn. unfold seal_ok, sealed_len, INT_MAX, RSA_PKCS1_PADDING_SIZE. rewrite Toy.size_16 by done.
  pose proof (Z.div_le_upper_bound (n + (16 - 11) - 1) (16 - 11) 1000 ltac:(lia) ltac:(lia)).
  split_and!; lia.
Defined.

Lemma end_to_end_witness :
  exists pkt,
    (async_sendto_op 9 1 "bob@av" hello (final A_knows)).1 = Ret tt /\
    process_recived_packet 10 pkt 1 (final B) =
      (Ret tt, deliver ("alice@av", hello) (learned 10 pkt (final B))).
Proof.
  destruct (end_to_end 9 10 1 "bob@av" hello (final A_knows) "if0" link alice
    (x01 : @RSA Toy.openssl) (x01 : @RSA Toy.openssl) (x02 : @RSA Toy.openssl) (x02 : @RSA Toy.openssl)
    1 (final B)) as (pkt & E & Hdeliver).
  - apply A_knows_ok.
  - vm_compute. reflexivity.
  - reflexivity.
  - reflexivity.
  - reflexivity.
  - vm_compute. reflexivity.
  - reflexivity.
  - apply toy_seal_ok; [discriminate|]. vm_compute. split; discriminate.
  - apply toy_seal_ok; [discriminate|]. vm_compute. split; discriminate.
  - apply B_ok.
  - reflexivity.
  - vm_compute. reflexivity.
  - assert (Ep : postprocess_list (final B) = []) by (vm_compute; reflexivity).
    rewrite Ep. constructor.
  - exists pkt. rewrite E. split; [reflexivity|exact Hdeliver].
Defined.

(** bob knows alice's key; mallory's key is x66. *)
Definition B_knows : list event := B ++ [ERead 1 (Some alices_key) 3; ERun 0 4].

Lemma B_knows_ok : kernel_ok (final B_knows).
Proof. apply final_ok. vm_compute. reflexivity. Defined.

Lemma forged_sender_accepted_witness :
  exists second,
    process_recived_packet 10 (data_packet alice bob second (x66 : @RSA Toy.openssl)) 1 (final B_knows) =
      (Ret tt, deliver ("alice@av", hello) (final B_knows)).
Proof.
  assert (E : exists item, trusted_pubkey (final B_knows) !! "alice@av" = Some item)
    by (eexists; vm_compute; reflexivity).
  destruct E as [item E].
  destruct (forged_sender_accepted 10 alice bob hello (x66 : @RSA Toy.openssl) (x66 : @RSA Toy.openssl)
    (x02 : @RSA Toy.openssl) (x02 : @RSA Toy.openssl) 1 (final B_knows) item)
    as (first & second & _ & _ & Hres).
  - reflexivity.
  - reflexivity.
  - apply toy_seal_ok; [discriminate|]. vm_compute. split; discriminate.
  - apply toy_seal_ok; [discriminate|]. vm_compute. split; discriminate.
  - apply B_knows_ok.
  - reflexivity.
  - vm_compute. reflexivity.
  - assert (Ep : postprocess_list (final B_knows) = []) by (vm_compute; reflexivity).
    rewrite Ep. constructor.
  - exact E.
  - exists second. exact Hres.
Defined.

(** The dangling pointer: alice's link dies while she waits for the key, the
    interface is removed, and the timer resumes the send. *)
Example dangling_interface :
  (run_events (A ++ [ESendto "bob@av" hello; ERun 0 0; ERead 0 None 1; ETimer1 ec_success 9000000])
    init_kernel).1 = UB.
Proof. vm_compute. reflexivity. Qed.
End KernelDemo.
