(* ===== verification/RunDemo.v ===== *)
(** * RunDemo: the theorems about runs, on concrete runs

    The nodes of KernelDemo: bob receives a message, alice asks three times for
    a key nobody gives, and the io_service runs until nothing is left. *)

From S2P Require Import Prelude StdSort OpenSSL RsaChunk Regex Address CoroQueue Routing KeyStore Avif Kernel Effects Mailbox Hoare KernelInv Flow Prices Progress Network KernelSpec Sendto Wake Relay Contact KernelDemo.

Module RunDemo.
Import KernelDemo.KernelDemo.
#[local] Existing Instances debug_build Toy.openssl Toy.laws ToyRegex.boost ToyRegex.laws
  InsertionSort.std InsertionSort.std_laws links.

(** ** Receiving *)

(** Two receives, one message: the first gets it, the second waits. *)
Definition B_receives : list event :=
  B ++ [ERecvfrom; ERecvfrom; ERun 0 5; ERun 0 6; ERead 1 (Some message) 7; ERun 0 8; ERun 0 9].

Lemma B_receives_runs : (run_events B_receives init_kernel).1 = Ret tt.
Proof. vm_compute. reflexivity. Qed.

Lemma kernel_refines_mailbox_witness :
  mailbox_run (run_labels B_receives init_kernel) empty_mailbox (mailbox_of (final B_receives)) /\
  run_labels B_receives init_kernel =
    [Ask 0%nat; Ask 1%nat; Start 0%nat; Start 1%nat; Arrive ("alice@av", hello); Complete] /\
  received (mailbox_of (final B_receives)) = [(0%nat, ("alice@av", hello))].
Proof.
  split; [|split; vm_compute; reflexivity].
  exact (proj1 (kernel_refines_mailbox B_receives (final B_receives) tt (runs B_receives B_receives_runs))).
Defined.

Lemma recvs_complete_once_witness :
  omap recv_done (log (final B_receives)) = (received (mailbox_of (final B_receives))).*1 /\
  omap recv_done (log (final B_receives)) = [0%nat].
Proof.
  pose proof (recvs_complete_once B_receives (final B_receives) tt (runs B_receives B_receives_runs)) as Hr.
  split; [apply Hr|vm_compute; reflexivity].
Defined.

(** ** The first message *)

Lemma alice_waits : waiting 0 (new_send "bob@av" hello link) (final A_asks).
Proof.
  split.
  - apply final_ok, A_asks_runs.
  - exists 0. vm_compute. reflexivity.
  - apply (bool_decide_unpack _). vm_compute. exact I.
  - vm_compute. reflexivity.
  - assert (E : w_op <$> postprocess_list (final A_asks) = [0%nat]) by (vm_compute; reflexivity).
    intros w Hw _. apply (list_elem_of_fmap_2 w_op) in Hw. rewrite E in Hw.
    by apply list_elem_of_singleton in Hw.
Defined.

Lemma first_contact_witness :
  exists sealed,
    let message := data_packet alice bob sealed (x01 : @RSA Toy.openssl) in
    process_recived_packet 1 (pkask_packet alice bob) 1 (final B) =
      (Ret tt, queue_packet 1 bobs_key None (final B)) /\
    (process_recived_packet 2 bobs_key 0 (final A_asks)).1 = Ret tt /\
    process_recived_packet 3 message 1 (final B) =
      (Ret tt, deliver ("alice@av", hello) (learned 3 message (final B))).
Proof.
  destruct (first_contact 0 1 2 3 0 hello alice bob "if0" link 1 (x01 : @RSA Toy.openssl)
    (x01 : @RSA Toy.openssl) (x02 : @RSA Toy.openssl) (x02 : @RSA Toy.openssl) (x02 : @X509 Toy.openssl)
    (final A)) as (sealed & k' & _ & _ & _ & Hask & Hreply & Hmessage).
  - split; apply (bool_decide_unpack _); vm_compute; exact I.
  - split; apply (bool_decide_unpack _); vm_compute; exact I.
  - reflexivity.
  - reflexivity.
  - reflexivity.
  - reflexivity.
  - reflexivity.
  - reflexivity.
  - eexists _, _. split_and!; reflexivity.
  - reflexivity.
  - apply toy_seal_ok; [discriminate|]. vm_compute. split; discriminate.
  - apply toy_seal_ok; [discriminate|]. vm_compute. split; discriminate.
  - apply A_ok.
  - exact A_route.
  - vm_compute. reflexivity.
  - exists sealed. split_and!.
    + apply Hask.
      * apply B_ok.
      * apply nobody_waits_nil. vm_compute. reflexivity.
      * vm_compute. reflexivity.
      * eexists. vm_compute. reflexivity.
    + destruct (Hreply (final A_asks) alice_waits) as [ws E]; [vm_compute; reflexivity|].
      change (bobs_key) with (pkreply_packet bob alice (x02 : @X509 Toy.openssl)).
      change (node_if link) with 0%nat in E. rewrite E. reflexivity.
    + apply Hmessage.
      * apply B_ok.
      * apply nobody_waits_nil. vm_compute. reflexivity.
      * vm_compute. reflexivity.
Defined.

(** ** Through routers *)

(** A node with two links and a route to the east. *)
Definition router_links : AvifImpl Toy.openssl := {|
  get_ifname i _ := if Nat.eqb i 0 then "west" else "east";
  if_address _ := Some (at_av "router");
  remote_address _ := Some (at_av "next");
  get_rsa_key _ := Some (x03 : @RSA Toy.openssl);
  get_cert _ := Some (x03 : @X509 Toy.openssl)
|}.

Definition router_starts : list event :=
  [EConstruct 0; EAddInterface 0; EConstruct 1; EAddInterface 1; EAddRoute ".+@.+" "" "east" 100;
   ERun 0 0; ERun 0 0; ERun 0 0; ERun 0 0].
Definition a_router : hop := {| h_impl := router_links;
  h_kernel := (run_events (AvifImpl0 := router_links) router_starts init_kernel).2; h_if := 0; h_now := 10 |}.
Definition bobs_node : hop := {| h_impl := links; h_kernel := final B; h_if := 1; h_now := 11 |}.

Lemma router_runs : run_events (AvifImpl0 := router_links) router_starts init_kernel = (Ret tt, h_kernel a_router).
Proof.
  unfold a_router. cbn [h_kernel].
  assert (E : (run_events (AvifImpl0 := router_links) router_starts init_kernel).1 = Ret tt) by (vm_compute; reflexivity).
  destruct (run_events _ init_kernel) as [o k]. simpl in *. by rewrite E.
Qed.

Lemma router_ok : static_ok (h_kernel a_router).
Proof. apply (reach_ok (AvifImpl0 := router_links) _ _ _ router_runs). Qed.

Lemma router_routes : router alice bob a_router.
Proof.
  split; [exact router_ok|vm_compute; reflexivity| |].
  - exists "east", {| node_id := 1; node_if := 1 |}. vm_compute. reflexivity.
  - assert (Ep : postprocess_list (h_kernel a_router) = []) by (vm_compute; reflexivity).
    rewrite Ep. constructor.
Defined.

Lemma message_relayed_witness :
  exists pkt pkt',
    (async_sendto_op 9 1 "bob@av" hello (final A_knows)).1 = Ret tt /\
    relay [a_router; a_router; a_router] pkt = Ret [pkt'] /\
    process_recived_packet 11 pkt' 1 (final B) =
      (Ret tt, deliver ("alice@av", hello) (learned 11 pkt' (final B))).
Proof.
  destruct (message_relayed 9 1 "bob@av" hello (final A_knows) "if0" link alice
    (x01 : @RSA Toy.openssl) (x01 : @RSA Toy.openssl) (x02 : @RSA Toy.openssl) (x02 : @RSA Toy.openssl)
    [a_router; a_router; a_router] bobs_node) as (pkt & E & Hfew & _).
  - apply A_knows_ok.
  - vm_compute. reflexivity.
  - reflexivity.
  - reflexivity.
  - reflexivity.
  - vm_compute. reflexivity.
  - reflexivity.
  - apply toy_seal_ok; [discriminate|]. vm_compute. split; discriminate.
  - apply toy_seal_ok; [discriminate|]. vm_compute. split; discriminate.
  - assert (Ed : split_address "bob@av" = bob) by reflexivity. rewrite Ed.
    exact (Forall_cons_2 _ _ _ router_routes (Forall_cons_2 _ _ _ router_routes
      (Forall_cons_2 _ _ _ router_routes (Forall_nil_2 _)))).
  - apply B_ok.
  - reflexivity.
  - vm_compute. reflexivity.
  - assert (Ep : postprocess_list (final B) = []) by (vm_compute; reflexivity). simpl. rewrite Ep. constructor.
  - destruct Hfew as (pkt' & Er & Hdeliver); [simpl; lia|]. exists pkt, pkt'. rewrite E.
    split_and!; [reflexivity|exact Er|exact Hdeliver].
Defined.

(** ** One answer, two sends *)

(** alice writes to bob twice and to carol once before she has a key. *)
Definition again : bytes := s2b "bob!".
Definition A_waits_twice : list event :=
  A ++ [ESendto "bob@av" hello; ESendto "carol@av" hello; ESendto "bob@av" again;
        ERun 0 0; ERun 0 0; ERun 0 0].

Lemma A_waits_twice_runs : (run_events A_waits_twice init_kernel).1 = Ret tt.
Proof. vm_compute. reflexivity. Qed.

Definition ready (target : string) (key : @RSA Toy.openssl) (e : nat * send_op) : bool :=
  bool_decide (s_interface e.2 = link) &&
  match sealed_for key e.2 with Some _ => true | None => negb (String.eqb (s_target e.2) target) end.

Lemma all_ready target key (k : kernel) :
  node_live link k -> forallb (ready target key) (map_to_list (sends k)) = true -> senders_ready target key k.
Proof.
  intros Hl Hall id op r Hop _ Ht. rewrite forallb_forall in Hall.
  specialize (Hall (id, op) (proj1 (list_elem_of_In _ _) (proj2 (elem_of_map_to_list _ _ _) Hop))).
  apply andb_prop in Hall as [Hi Hp]. apply bool_decide_eq_true in Hi. simpl in Hi, Hp. rewrite Hi. split; [done|].
  destruct (sealed_for key op); [by eexists|]. by rewrite Ht, String.eqb_refl in Hp.
Qed.

Lemma key_wakes_all_witness :
  exists k2, process_recived_packet 5 bobs_key 0 (final A_waits_twice) = (Ret tt, k2) /\
    (s_stage <$> (sends k2 !! 0%nat)) = Some WaitWrite /\ (s_stage <$> (sends k2 !! 2%nat)) = Some WaitWrite /\
    sends k2 !! 1%nat = sends (final A_waits_twice) !! 1%nat.
Proof.
  assert (E : exists op0 op1 op2 r0 r1 r2,
    sends (final A_waits_twice) !! 0%nat = Some op0 /\ s_stage op0 = WaitKey r0 /\ s_target op0 = "bob@av" /\
    sends (final A_waits_twice) !! 1%nat = Some op1 /\ s_stage op1 = WaitKey r1 /\ s_target op1 = "carol@av" /\
    sends (final A_waits_twice) !! 2%nat = Some op2 /\ s_stage op2 = WaitKey r2 /\ s_target op2 = "bob@av")
    by (eexists _, _, _, _, _, _; split_and!; vm_compute; reflexivity).
  destruct E as (op0 & op1 & op2 & r0 & r1 & r2 & E0 & S0 & T0 & E1 & S1 & T1 & E2 & S2 & T2).
  destruct (key_wakes_all "bob@av" (x02 : @RSA Toy.openssl) 5 bobs_key 0 (final A_waits_twice)
    (x02 : @X509 Toy.openssl) (x02 : @EVP_PKEY Toy.openssl)) as (Ep & Hwoken & Hothers).
  - apply final_ok, A_waits_twice_runs.
  - vm_compute. reflexivity.
  - reflexivity.
  - reflexivity.
  - vm_compute. reflexivity.
  - vm_compute. reflexivity.
  - reflexivity.
  - reflexivity.
  - reflexivity.
  - apply all_ready; [|vm_compute; reflexivity]. apply (bool_decide_unpack _). vm_compute. exact I.
  - eexists. split; [exact Ep|]. rewrite (Hwoken _ _ _ E0 S0 T0), (Hwoken _ _ _ E2 S2 T2). split_and!; [done..|].
    rewrite E1. apply (Hothers _ _ E1). rewrite T1. discriminate.
Defined.

(** ** Writing *)

Definition A_sends_more : list event := A ++ [ESendto "bob@av" hello; ERun 0 0].
Definition A_rest : list event :=
  [ERun 0 1; EWrote 0 0 ec_success 2; ERead 0 (Some bobs_key) 3; ERun 0 4; ERun 0 5; EWrote 0 0 ec_success 6].

Lemma A_rest_runs :
  run_events A_rest (final A_sends_more) = (Ret tt, (run_events A_rest (final A_sends_more)).2) /\
  (times_added 0 (A_sends_more ++ A_rest) <= 1)%nat.
Proof.
  split; [|apply (bool_decide_unpack _); vm_compute; exact I].
  assert (E : (run_events A_rest (final A_sends_more)).1 = Ret tt) by (vm_compute; reflexivity).
  destruct (run_events A_rest (final A_sends_more)). simpl in *. by rewrite E.
Qed.

Lemma writes_in_order_witness :
  (exists new, written_by 0 A_rest (final A_sends_more) ++
     pending 0 (run_events A_rest (final A_sends_more)).2 = pending 0 (final A_sends_more) ++ new) /\
  (upperlayerpotocol ∘ fst) <$> written_by 0 A_rest (final A_sends_more) = ["pkask"; "avim"] /\
  (upperlayerpotocol ∘ fst) <$> pending 0 (final A_sends_more) = ["pkask"].
Proof.
  split; [|split; vm_compute; reflexivity].
  exact (writes_in_order A_sends_more A_rest _ _ tt tt 0
    (runs A_sends_more A_asks_runs) (proj1 A_rest_runs) (proj2 A_rest_runs)).
Defined.

Lemma packets_not_multiplied_witness :
  (packets_written A_sends init_kernel + packets_queued (final A_sends) <= 1 + 4 * 1)%nat /\
  packets_written A_sends init_kernel = 2%nat.
Proof.
  split; [|vm_compute; reflexivity].
  exact (packets_not_multiplied A_sends (final A_sends) tt (runs A_sends (proj1 A_sends_runs))).
Defined.

(** ** Coming to rest *)

(** Tasks in the order they were posted, then the writes. *)
Definition first_fit (k : kernel) : event :=
  match tasks k with
  | _ :: _ => ERun 0 0
  | [] =>
      match filter (fun e : nat * avif_state => writing e.2 <> []) (map_to_list (ifs k)) with
      | (i, _) :: _ => EWrote i 0 ec_success 0
      | [] => EDestroy
      end
  end.

Lemma first_fit_enabled k : ~ idle k -> enabled (first_fit k) k.
Proof.
  intros Hi. unfold first_fit. destruct (tasks k) as [|t ts] eqn:Et; [|simpl; rewrite Et; simpl; lia].
  destruct (filter _ _) as [|[i a] l] eqn:Ef.
  - destruct Hi. split; [done|]. intros i a Ha. destruct (decide (writing a = [])) as [|Hne]; [done|].
    assert (Hin : (i, a) ∈ filter (fun e : nat * avif_state => writing e.2 <> []) (map_to_list (ifs k)))
      by (apply list_elem_of_filter; split; [done|by apply elem_of_map_to_list]).
    rewrite Ef in Hin. by apply elem_of_nil in Hin.
  - assert (Hin : (i, a) ∈ filter (fun e : nat * avif_state => writing e.2 <> []) (map_to_list (ifs k)))
      by (rewrite Ef; apply list_elem_of_here).
    apply list_elem_of_filter in Hin as [Hne Hin]. apply elem_of_map_to_list in Hin. simpl in Hne.
    exists a. split; [done|]. destruct (writing a); [done|simpl; lia].
Qed.

Lemma kernel_comes_to_rest_witness :
  exists k', run_until_idle 13 first_fit (final A_asks) = Some (Ret tt, k') /\ idle k' /\ settled k'.
Proof.
  destruct (kernel_comes_to_rest A_asks (final A_asks) tt first_fit (runs A_asks A_asks_runs)
    first_fit_enabled) as (o & k' & E & Hk).
  assert (Eo : (fst <$> run_until_idle 13 first_fit (final A_asks)) = Some (Ret tt)) by (vm_compute; reflexivity).
  change (1 + _ + _ + _ + _)%nat with 13%nat in E. rewrite E in Eo. injection Eo as ->.
  exists k'. split; [exact E|exact (Hk eq_refl)].
Defined.

(** ** Coming to an end *)

(** Nobody answers alice. *)
Definition A_waits : list event :=
  [ERun 0 1; EWrote 0 0 ec_success 2; ETimer1 ec_success 9000000; ERun 0 9000001;
   EWrote 0 0 ec_success 9000002; ETimer1 ec_success 18000000; ERun 0 18000001;
   EWrote 0 0 ec_success 18000002; ETimer1 ec_success 27000000].
Definition A_over : kernel := (run_events A_waits (final A_asks)).2.

Lemma A_waits_runs : run_events A_waits (final A_asks) = (Ret tt, A_over).
Proof.
  assert (E : (run_events A_waits (final A_asks)).1 = Ret tt) by (vm_compute; reflexivity).
  unfold A_over. destruct (run_events A_waits (final A_asks)). simpl in *. by rewrite E.
Qed.

Lemma sends_come_to_an_end_witness :
  (0%nat ∈ omap send_done (log A_over)) \/
  exists op, sends A_over !! 0%nat = Some op /\ is_quitting (node_if (s_interface op)) A_over.
Proof.
  refine (sends_come_to_an_end A_asks A_waits (final A_asks) A_over tt tt 0
    (runs A_asks A_asks_runs) A_waits_runs _ _ _ _);
    apply (bool_decide_unpack _); vm_compute; exact I.
Defined.

(** The exception: alice sends twice, and her link dies while the first message
    is being written.  The writer leaves its loop, nothing is left to do and no
    timer will help, and the second send has not ended. *)
Definition A_dies : list event :=
  A_knows ++ [ESendto "bob@av" hello; ESendto "bob@av" hello; ERun 0 5; ERun 0 6; ERun 0 7;
              ERead 0 None 8; EWrote 0 0 ec_success 9].

Example send_left_in_dead_queue :
  (run_events A_dies init_kernel).1 = Ret tt /\ log (final A_dies) = [SendDone 0 ec_success] /\
  tasks (final A_dies) = [] /\ postprocess_list (final A_dies) = [] /\
  s_stage <$> (sends (final A_dies) !! 1%nat) = Some WaitWrite /\
  (quitting <$> (ifs (final A_dies) !! 0%nat)) = Some true.
Proof. split_and!; vm_compute; reflexivity. Qed.
End RunDemo.
