(* ===== verification/ArrivalDemo.v ===== *)
(** * ArrivalDemo: a message through a network of three

    alice's node, a router and bob's node, joined by cables; the theorem about
    messages that arrive, on a run in which everything is served. *)

From S2P Require Import Prelude StdSort OpenSSL RsaChunk Regex Address CoroQueue Routing KeyStore Avif Kernel Effects Mailbox Hoare KernelInv Flow Network KernelSpec Sendto Relay Arrival KernelDemo RunDemo.

Module ArrivalDemo.
Import KernelDemo.KernelDemo RunDemo.RunDemo.
#[local] Existing Instances debug_build Toy.openssl Toy.laws ToyRegex.boost ToyRegex.laws
  InsertionSort.std InsertionSort.std_laws links.

Definition node_links (n : nat) : AvifImpl Toy.openssl := if Nat.eqb n 1 then router_links else links.
Definition cables (n i : nat) : option (nat * nat) :=
  match n, i with
  | 0, 0 => Some (1, 0) | 1, 0 => Some (0, 0) | 1, 1 => Some (2, 1) | 2, 1 => Some (1, 1) | _, _ => None
  end%nat.

(** alice, who has bob's key, was given a text for him. *)
Definition A_given : list event := A_knows ++ [ESendto "bob@av" hello].
Definition alices_node : kernel := final A_given.
Definition three : network := {|
  nodes := {[ 0%nat := alices_node; 1%nat := h_kernel a_router; 2%nat := final B ]}; wire := [] |}.

Definition all_served : list net_event :=
  [NLocal 0 (ERun 0 2); NLocal 0 (EWrote 0 0 ec_success 3); NDeliver 0 4; NLocal 1 (ERun 0 5);
   NLocal 1 (ERun 0 6); NLocal 1 (EWrote 1 0 ec_success 7); NDeliver 0 8; NLocal 2 (ERun 0 9)].
Abbreviation three_later := (net_run node_links cables (NLocal 0 (ERun 0 1) :: all_served) three).

Definition member (n : nat) : Prop := (n < 3)%nat.

(** The conditions on a run, decided. *)
Definition allowedb (ev : net_event) (w : network) : bool :=
  match ev with
  | NLocal _ (EAddInterface _) | NLocal _ (EAddRoute _ _ _ _) | NLocal _ (ERead _ None _) | NLose _ => false
  | NLocal _ _ | NFail _ => true
  | NDeliver j _ =>
      match wire w !! j with
      | Some (n, i, _) =>
          match nodes w !! n with
          | Some k => match ifs k !! i with Some a => negb (Nat.eqb (reading a) 0) | None => false end
          | None => false
          end
      | None => true
      end
  end.

Fixpoint all_allowedb (evs : list net_event) (w : network) : bool :=
  match evs with [] => true | ev :: evs => allowedb ev w && all_allowedb evs (net_step node_links cables ev w) end.

Lemma allowedb_ok evs w : all_allowedb evs w = true -> all_allowed node_links cables member evs w.
Proof.
  revert w. induction evs as [|ev evs IH]; intros w; cbn [all_allowedb all_allowed]; [done|].
  intros [Hev Hevs]%andb_prop. split; [|by apply IH].
  destruct ev as [n e|j now|j|n]; simpl in *; [by destruct e as [| | | | | | |? [?|] ?| | |]| |done|done].
  intros n i pkt E _. rewrite E in Hev. destruct (nodes w !! n) as [k|]; [|done].
  destruct (ifs k !! i) as [a|] eqn:Ea; [|done]. exists k, a. split_and!; [done|done|].
  intros E0. by rewrite E0 in Hev.
Qed.

Lemma calmb (k : kernel) :
  forallb (fun e : nat * avif_state => negb (quitting e.2)) (map_to_list (ifs k)) = true -> calm k.
Proof.
  intros Hall i (a & Ha & Hq). rewrite forallb_forall in Hall. apply elem_of_map_to_list, list_elem_of_In in Ha.
  specialize (Hall _ Ha). simpl in Hall. by rewrite Hq in Hall.
Qed.

Lemma alices_in_order : in_order alices_node.
Proof.
  apply (reached_in_order A_given alices_node tt).
  - apply runs. vm_compute. reflexivity.
  - apply calmb. vm_compute. reflexivity.
Qed.

Lemma bobs_in_order : in_order (final B).
Proof.
  apply (reached_in_order B (final B) tt).
  - apply runs. vm_compute. reflexivity.
  - apply calmb. vm_compute. reflexivity.
Qed.

Lemma routers_in_order : in_order (h_kernel a_router).
Proof.
  apply (reached_in_order (AvifImpl0 := router_links) router_starts (h_kernel a_router) tt).
  - exact router_runs.
  - apply calmb. vm_compute. reflexivity.
Qed.

Lemma router_stop : stop_ok node_links member (split_address "bob@av") three (1, 0, 1)%nat.
Proof.
  split; [vm_compute; lia|]. exists (h_kernel a_router), "east", {| node_id := 1; node_if := 1 |}.
  split_and!; [reflexivity|exact routers_in_order|vm_compute; lia| |vm_compute; reflexivity|vm_compute; reflexivity|reflexivity].
  exists "east", {| node_id := 1; node_if := 1 |}. split; [vm_compute; reflexivity|reflexivity].
Qed.

Lemma bobs_home : home node_links 2 (split_address "bob@av") three.
Proof. exists (final B). split_and!; [reflexivity|exact bobs_in_order|vm_compute; reflexivity]. Qed.

Lemma idleb (k : kernel) :
  match tasks k with [] => true | _ => false end &&
  forallb (fun e : nat * avif_state => match writing e.2 with [] => true | _ => false end) (map_to_list (ifs k)) = true ->
  idle k.
Proof.
  intros [Ht Hw]%andb_prop. split; [by destruct (tasks k)|]. intros i a Ha. rewrite forallb_forall in Hw.
  apply elem_of_map_to_list, list_elem_of_In in Ha. specialize (Hw _ Ha). simpl in Hw. by destruct (writing a).
Qed.

(** Members that are there and idle, and an empty wire. *)
Definition restsb (w : network) : bool :=
  forallb (fun q => match nodes w !! q with
      Some k => match tasks k with [] => true | _ => false end &&
        forallb (fun e : nat * avif_state => match writing e.2 with [] => true | _ => false end) (map_to_list (ifs k))
      | None => false end) [0; 1; 2]%nat && match wire w with [] => true | _ => false end.

Lemma restsb_ok w : restsb w = true -> (forall q, member q -> is_Some (nodes w !! q)) /\ at_rest member w.
Proof.
  intros [E Ew]%andb_prop. rewrite forallb_forall in E.
  assert (Hq : forall q, member q -> exists k, nodes w !! q = Some k /\ idle k).
  { intros q Hq. specialize (E q). destruct (nodes w !! q) as [k|].
    - exists k. split; [done|]. apply idleb, E. unfold member in Hq. simpl. lia.
    - discriminate E. unfold member in Hq. simpl. lia. }
  split; [intros q Hm; destruct (Hq q Hm) as (k & -> & _); by eexists|]. split.
  { intros n i pkt _. destruct (wire w); [by intros Hin%elem_of_nil|done]. }
  intros q k Hm Hk. destruct (Hq q Hm) as (k' & Hk' & Hi). congruence.
Qed.

Lemma three_at_rest :
  (forall q, member q -> is_Some (nodes three_later !! q)) /\ at_rest member three_later.
Proof. apply restsb_ok. vm_compute. reflexivity. Qed.

Lemma message_arrives_witness :
  arrived_at 2 (av_address_to_string alice, hello) three_later.
Proof.
  assert (Ht : exists id, tasks alices_node !! 0%nat = Some (TSendto id "bob@av" hello))
    by (eexists; vm_compute; reflexivity).
  destruct Ht as [id Ht].
  apply (message_arrives node_links cables member 2 1 all_served 0 1 0 [(1, 0, 1)%nat] id "bob@av" hello three
    alices_node "if0" link alice (x01 : @RSA Toy.openssl) (x01 : @RSA Toy.openssl) (x02 : @RSA Toy.openssl)
    (x02 : @RSA Toy.openssl)).
  - reflexivity.
  - exact Ht.
  - exact alices_in_order.
  - vm_compute. lia.
  - vm_compute. reflexivity.
  - reflexivity.
  - reflexivity.
  - reflexivity.
  - vm_compute. reflexivity.
  - reflexivity.
  - apply toy_seal_ok; [discriminate|]. vm_compute. split; discriminate.
  - apply toy_seal_ok; [discriminate|]. vm_compute. split; discriminate.
  - vm_compute. lia.
  - split; reflexivity.
  - simpl. lia.
  - exact (Forall_cons_2 _ _ _ router_stop (Forall_nil_2 _)).
  - vm_compute. lia.
  - exact bobs_home.
  - reflexivity.
  - apply allowedb_ok. vm_compute. reflexivity.
  - exact (proj1 three_at_rest).
  - exact (proj2 three_at_rest).
Defined.
End ArrivalDemo.
