(* ===== verification/InquiryDemo.v ===== *)
(** * InquiryDemo: a first message through a router

    The three nodes of ArrivalDemo with routes both ways: alice has a text for bob
    and no key of his. *)

From S2P Require Import Prelude StdSort OpenSSL RsaChunk Regex Address CoroQueue Routing KeyStore Avif Kernel Effects Mailbox Hoare KernelInv Flow Network KernelSpec Sendto Wake Relay Contact Arrival Asking Inquiry KernelDemo RunDemo ArrivalDemo.

Module InquiryDemo.
Import KernelDemo.KernelDemo RunDemo.RunDemo ArrivalDemo.ArrivalDemo.
#[local] Existing Instances debug_build Toy.openssl Toy.laws ToyRegex.boost ToyRegex.laws
  InsertionSort.std InsertionSort.std_laws links.

Definition A_writes : list event := A ++ [ESendto "bob@av" hello].
Definition a_writer : kernel := final A_writes.
Definition router_both : list event := router_starts ++ [EAddRoute "alice@av" "" "west" 50].
Definition the_router : kernel := (run_events (AvifImpl0 := router_links) router_both init_kernel).2.
Definition three : network := {| nodes := {[ 0%nat := a_writer; 1%nat := the_router; 2%nat := final B ]}; wire := [] |}.

(** A node writes what it was given by interface [o]; the next one reads it and
    handles it. *)
Definition hop (n o next : nat) (now : Z) : list net_event :=
  [NLocal n (ERun 0 now); NLocal n (EWrote o 0 ec_success now); NDeliver 0 now; NLocal next (ERun 0 now)].
Definition all_answered : list net_event :=
  hop 0 0 1 2 ++ hop 1 1 2 3 ++ hop 2 1 1 4 ++ hop 1 0 0 5 ++ hop 0 0 1 6 ++ hop 1 1 2 7.
Definition this_run : list net_event := NLocal 0 (ERun 0 1) :: all_answered.
Abbreviation three_later := (net_run node_links cables this_run three).

(** ** What is asked of the nodes *)

Lemma writer_in_order : in_order a_writer.
Proof. apply (reached_in_order A_writes a_writer tt); [apply runs; vm_compute; reflexivity|apply calmb; vm_compute; reflexivity]. Qed.

Lemma bob_in_order : in_order (final B).
Proof. apply (reached_in_order B (final B) tt); [apply runs; vm_compute; reflexivity|apply calmb; vm_compute; reflexivity]. Qed.

Lemma router_in_order : in_order the_router.
Proof.
  apply (reached_in_order (AvifImpl0 := router_links) router_both the_router tt); [|apply calmb; vm_compute; reflexivity].
  assert (E : (run_events (AvifImpl0 := router_links) router_both init_kernel).1 = Ret tt) by (vm_compute; reflexivity).
  unfold the_router. destruct (run_events _ init_kernel) as [u k]. simpl in *. by rewrite E.
Qed.

(** A router's stop, for a packet that goes on by interface [o]. *)
Lemma router_forwards (o : nat) (name target : string) :
  (o = 0%nat /\ name = "west" /\ target = "alice@av") \/ (o = 1%nat /\ name = "east" /\ target = "bob@av") ->
  forwards node_links 1 o (split_address target) three.
Proof.
  intros Hcase. exists the_router, name, {| node_id := o; node_if := o |}.
  destruct Hcase as [(-> & -> & ->)|(-> & -> & ->)];
    (split_and!; [reflexivity|exact router_in_order|vm_compute; lia| |vm_compute; reflexivity|vm_compute; reflexivity|reflexivity]).
  - exists "west", {| node_id := 0; node_if := 0 |}. split; [vm_compute; reflexivity|reflexivity].
  - exists "east", {| node_id := 1; node_if := 1 |}. split; [vm_compute; reflexivity|reflexivity].
Qed.

Definition the_send : send_op := new_send "bob@av" hello link.

Lemma three_both_ways : both_ways node_links member 0 0 2 1 [(1, 0, 1)%nat] [(1, 1, 0)%nat] the_send alice three.
Proof.
  split.
  - exists a_writer. split_and!; [reflexivity|exact writer_in_order|vm_compute; lia|]. exists "if0", link. split; [vm_compute; reflexivity|reflexivity].
  - exists (final B). split_and!; [reflexivity|exact bob_in_order|vm_compute; reflexivity].
  - repeat constructor. apply (router_forwards 1 "east" "bob@av"). auto.
  - exists (final B). split_and!; [reflexivity|exact bob_in_order|vm_compute; lia|].
    exists "if1", {| node_id := 0; node_if := 1 |}. split; [vm_compute; reflexivity|reflexivity].
  - exists a_writer. split_and!; [reflexivity|exact writer_in_order|vm_compute; reflexivity].
  - repeat constructor. apply (router_forwards 0 "west" "alice@av"). auto.
Qed.

(** ** What is asked of the run, decided *)

Definition w0 : waiter := its_waiter 1 0 "bob@av".

Definition undisturbedb (ev : net_event) (w : network) : bool :=
  match ev with NLocal _ (ETimer1 _ t) => t <=? deadline w0 | _ => true end &&
  match nodes (net_step node_links cables ev w) !! 0%nat with
  | Some k =>
      match find_RSA_pubkey "bob@av" (trusted_pubkey k) with
      | Ret (Some key) => bool_decide (key = (x02 : Byte.byte))
      | _ => true
      end
  | None => true
  end.

Fixpoint all_undisturbedb (evs : list net_event) (w : network) : bool :=
  match evs with [] => true | ev :: evs => undisturbedb ev w && all_undisturbedb evs (net_step node_links cables ev w) end.

Lemma undisturbedb_ok evs w :
  all_undisturbedb evs w = true -> all_undisturbed node_links cables 0 w0 the_send (x02 : @RSA Toy.openssl) evs w.
Proof.
  revert w. induction evs as [|ev evs IH]; intros w; cbn [all_undisturbedb all_undisturbed]; [done|].
  intros [[Hp Hk]%andb_prop Hevs]%andb_prop. split; [split|by apply IH].
  - intros e ->. destruct e; try done. by apply Z.leb_le.
  - intros k key' Hn Hf. rewrite Hn in Hk. change (s_target the_send) with "bob@av" in Hf. rewrite Hf in Hk. by apply bool_decide_eq_true in Hk.
Qed.

Lemma three_rests :
  (forall q, member q -> is_Some (nodes three_later !! q)) /\ at_rest member three_later.
Proof. apply restsb_ok. vm_compute. reflexivity. Qed.

Lemma first_message_arrives_witness : arrived_at 2 (av_address_to_string alice, hello) three_later.
Proof.
  apply (first_message_arrives node_links cables member all_answered 0 0 1 2 1 0 [(1, 0, 1)%nat] [(1, 1, 0)%nat] 0 "bob@av" hello
    three a_writer "if0" link alice (x01 : @RSA Toy.openssl) (x01 : @RSA Toy.openssl) bob (x02 : @X509 Toy.openssl)
    (x02 : @RSA Toy.openssl) (x02 : @RSA Toy.openssl)).
  - reflexivity.
  - vm_compute. reflexivity.
  - vm_compute. reflexivity.
  - vm_compute. reflexivity.
  - reflexivity.
  - reflexivity.
  - reflexivity.
  - reflexivity.
  - reflexivity.
  - reflexivity.
  - eexists _, _. split_and!; reflexivity.
  - reflexivity.
  - reflexivity.
  - apply toy_seal_ok; [discriminate|]. vm_compute. split; discriminate.
  - apply toy_seal_ok; [discriminate|]. vm_compute. split; discriminate.
  - vm_compute. lia.
  - vm_compute. lia.
  - split; reflexivity.
  - split; reflexivity.
  - simpl. lia.
  - simpl. lia.
  - exact three_both_ways.
  - apply allowedb_ok. vm_compute. reflexivity.
  - apply undisturbedb_ok. vm_compute. reflexivity.
  - exact (proj1 three_rests).
  - exact (proj2 three_rests).
Defined.
End InquiryDemo.
