(* ===== verification/Jackif.v ===== *)
(** * Jackif: the TCP interface to the router

    libavproto/src/avjackif.cpp: packets framed by serialization.cpp on a TCP
    stream, the login handshake, and the members the kernel asks an interface
    for.  A socket is what it will still deliver and what was written to it;
    the protobuf messages and the Diffie-Hellman and X.509 calls are
    parameters. *)

From S2P Require Import Prelude Wire Serialization OpenSSL RsaChunk Regex Address Avif StdSort CoroQueue Routing KeyStore Kernel.
From stdpp Require Import pretty.
Local Open Scope Z_scope.
Local Open Scope avim_scope.

(** ** The socket *)
Record sock := {
  inbox : bytes;    (* what arrives before the peer closes *)
  outbox : bytes;   (* what has been written *)
  broken : bool     (* writes fail *)
}.

(** [async_read] of exactly [n] bytes: what was read, and whether all of it. *)
Definition sock_read (n : Z) : ST sock (bytes * bool) := fun s =>
  let got := take (Z.to_nat n) (inbox s) in
  (Ret (got, n <=? zlen (inbox s)),
   {| inbox := drop (Z.to_nat n) (inbox s); outbox := outbox s; broken := broken s |}).

(** [async_write]: whether it succeeded. *)
Definition sock_write (b : bytes) : ST sock bool := fun s =>
  if broken s then (Ret false, s)
  else (Ret true, {| inbox := inbox s; outbox := outbox s ++ b; broken := broken s |}).

(** The same operations with a yield_context to which no error_code is bound:
    a failure is thrown. *)
Definition sock_read_throw (n : Z) : ST sock bytes :=
  let* r := sock_read n in if r.2 then st_ret r.1 else st_lift (Throw system_error).
Definition sock_write_throw (b : bytes) : ST sock unit :=
  let* ok := sock_write b in if ok then st_ret tt else st_lift (Throw system_error).

(** What server_hello and login_result tell. *)
Record server_hello := { server_av_address : string; random_pub_key : bytes }.

(** The messages avjackif.cpp builds and reads.  [as_avPacket] is the
    dynamic_cast; the casts of the handshake are C casts, of which only a
    message of the right type can be used. *)
Class AvimProto (P : Protobuf) := {
  of_avPacket : avPacket -> message;
  as_avPacket : message -> option avPacket;
  client_hello_message : bytes -> bytes -> bytes -> message;   (* g, p, public key *)
  as_server_hello : message -> option server_hello;
  login_message : bytes -> bytes -> message;                   (* certificate, signature *)
  as_login_result : message -> option bool                     (* LOGIN_SUCCEED *)
}.

Class AvimProtoLaws (P : Protobuf) (A : AvimProto P) := {
  as_of_avPacket p : as_avPacket (of_avPacket p) = Some p
}.

(** The Diffie-Hellman calls, for one generated key. *)
Class DiffieHellman := {
  DH_g : bytes;
  DH_p : bytes;
  DH_pub_key : bytes;
  DH_compute_key : bytes -> bytes   (* the shared key, of DH_size bytes *)
}.

(** The subject's common name as UTF-8; [None] when there is none. *)
Class X509Name (O : OpenSSL) := { X509_common_name : X509 -> option string }.

Section jackif.
Context `{Host} `{Build} `{P : Protobuf} `{O : OpenSSL} `{BoostRegex}.
Context `{!AvimProto P} `{DiffieHellman} `{!X509Name O}.

Record avjackif := {
  _rsa : option RSA;
  _x509 : option X509;
  m_local_addr : option avAddress;
  m_remote_addr : option avAddress;
  m_shared_key : bytes
}.

Definition new_avjackif : avjackif :=
  {| _rsa := None; _x509 := None; m_local_addr := None; m_remote_addr := None; m_shared_key := [] |}.

(** [set_pki], given two smart pointers: the local address is the certificate's
    common name.  OpenSSL is called with the certificate unchecked, and a
    certificate without a name makes the code print and copy a null pointer. *)
Definition set_pki (_key : option RSA) (cert : option X509) (j : avjackif) : outcome avjackif :=
  cert ← deref cert;
  commonname ← deref (X509_common_name cert);
  addr ← av_address_from_string commonname;
  Ret {| _rsa := _key; _x509 := Some cert; m_local_addr := Some addr;
         m_remote_addr := m_remote_addr j; m_shared_key := m_shared_key j |}.

(** [static unsigned t], as the number of earlier calls. *)
Definition jack_ifname (t : nat) : string :=
  "avjack" +:+ pretty (Z.to_N (Z.of_nat t mod 4294967296)).

(** The buffer a frame is read into: the four length bytes, then what was read
    of the rest, with zeros where nothing arrived. *)
Definition frame_buffer (l : Z) (hostl : Z) (got : bytes) : bytes :=
  mem32 l ++ got ++ replicate (Z.to_nat hostl - length got) x00.

(** [buf.resize(htonl(l) + 4); memcpy(&buf[0], &l, 4)]: the sum is a uint32_t. *)
Definition resize_ok (l : Z) : bool := 4 <=? to_uint32 (htonl l + 4).

(** [async_read_packet]: its yield_context has an error_code bound, so a failed
    read goes on; [l] is then read although nothing was stored in it. *)
Definition async_read_packet : ST sock (option avPacket) :=
  let* r := sock_read 4 in
  if negb r.2 then st_lift UB
  else
    let l := load32 r.1 in
    let hostl := htonl l in
    if negb (resize_ok l) then st_lift UB
    else
      let* body := sock_read hostl in
      let* m := st_lift (decode (frame_buffer l hostl body.1)) in
      st_ret (match m with Some m => as_avPacket m | None => None end).

(** [async_write_packet], with the caller's [ec] before and after the call: the
    write is given an error_code of its own. *)
Definition async_write_packet (pkt : avPacket) (ec : error_code) : ST sock (bool * error_code) :=
  let* b := st_lift (encode (of_avPacket pkt)) in
  let* ok := sock_write b in
  st_ret (ok, ec).

(** A frame of the handshake: the yield_context has no error_code bound, and
    [decode]'s result is cast without a check; [sel] is that cast. *)
Definition read_reply {A} (first : Z) (sel : message -> option A) : ST sock (A * Z) :=
  let* lb := sock_read_throw (Z.min 4 first) in
  if negb (zlen lb =? 4) then st_lift UB
  else
    let l := load32 lb in
    let hostl := htonl l in
    if negb (resize_ok l) then st_lift UB
    else
      let* body := sock_read_throw hostl in
      let* m := st_lift (decode (frame_buffer l hostl body)) in
      let* m := st_lift (deref m) in
      let* a := st_lift (deref (sel m)) in
      st_ret (a, hostl).

Definition async_handshake (j : avjackif) : ST sock (bool * avjackif) :=
  let* hello := st_lift (encode (client_hello_message DH_g DH_p DH_pub_key)) in
  sock_write_throw hello ;;-
  let* r := read_reply 4 as_server_hello in
  let server := r.1 in
  let* addr := st_lift (av_address_from_string (server_av_address server)) in
  let key := DH_compute_key (random_pub_key server) in
  let* rsa := st_lift (deref (_rsa j)) in
  let* singned := st_lift (RSA_private_encrypt rsa (random_pub_key server)) in
  let* cert := st_lift (deref (_x509 j)) in
  let* login := st_lift (encode (login_message (i2d_X509 cert) singned)) in
  sock_write_throw login ;;-
  (* transfer_exactly of the last frame's length, into the 4 bytes of l; a frame
     of fewer than 4 bytes has not been decoded above *)
  let* res := read_reply r.2 as_login_result in
  st_ret (res.1, {| _rsa := _rsa j; _x509 := _x509 j; m_local_addr := m_local_addr j;
                    m_remote_addr := Some addr; m_shared_key := key |}).

(** The implementation the kernel sees, for a family of interface objects. *)
Definition jack_impl (obj : nat -> avjackif) : AvifImpl O := {|
  get_ifname _ t := jack_ifname t;
  if_address i := m_local_addr (obj i);
  remote_address i := m_remote_addr (obj i);
  get_rsa_key i := _rsa (obj i);
  get_cert i := _x509 (obj i)
|}.

(** ** Reading and writing packets *)

Lemma sock_read_app n a rest s :
  inbox s = a ++ rest -> n = zlen a ->
  sock_read n s = (Ret (a, true), {| inbox := rest; outbox := outbox s; broken := broken s |}).
Proof.
  intros Hin ->. unfold sock_read, zlen. rewrite Hin, Nat2Z.id, take_app_length, drop_app_length.
  by rewrite (proj2 (Z.leb_le _ _)) by (rewrite length_app; lia).
Qed.

Lemma sock_read_throw_app n a rest s :
  inbox s = a ++ rest -> n = zlen a ->
  sock_read_throw n s = (Ret a, {| inbox := rest; outbox := outbox s; broken := broken s |}).
Proof.
  intros Hin Hn. unfold sock_read_throw. by erewrite st_bind_Ret by by eapply sock_read_app.
Qed.

(** The header of a frame that is not too long is accepted. *)
Lemma frame_header_ok (name body : bytes) :
  8 + zlen name + zlen body <= INT_MAX ->
  let l := load32 (be32 (4 + zlen name + zlen body)) in
  htonl l = 4 + zlen name + zlen body /\ resize_ok l = true.
Proof.
  intros Hl l. pose proof (zlen_nonneg name). pose proof (zlen_nonneg body). unfold INT_MAX in Hl.
  assert (Hh : htonl l = 4 + zlen name + zlen body).
  { unfold l. rewrite htonl_ntohl, ntohl_load32 by done. by rewrite be_val_be32, to_uint32_small by lia. }
  split; [done|]. unfold resize_ok. rewrite Hh, to_uint32_small by lia. apply Z.leb_le. lia.
Qed.

Lemma frame_buffer_whole name body :
  8 + zlen name + zlen body <= INT_MAX ->
  let n := 4 + zlen name + zlen body in
  frame_buffer (load32 (be32 n)) n (be32 (zlen name) ++ name ++ body) = frame name body.
Proof.
  intros Hl n. unfold frame_buffer, frame. rewrite mem32_load32 by done.
  replace (Z.to_nat n - length (be32 (zlen name) ++ name ++ body))%nat with 0%nat.
  - by rewrite app_nil_r.
  - rewrite !length_app. unfold n, zlen. simpl. lia.
Qed.

Lemma read_frame name body rest s :
  inbox s = frame name body ++ rest -> 8 + zlen name + zlen body <= INT_MAX ->
  async_read_packet s =
    (match decode (frame name body) with
     | Ret (Some m) => Ret (as_avPacket m) | Ret None => Ret None
     | Throw e => Throw e | AssertFail => AssertFail | UB => UB | OutOfFuel => OutOfFuel end,
     {| inbox := rest; outbox := outbox s; broken := broken s |}).
Proof.
  intros Hin Hl. destruct (frame_header_ok name body Hl) as [Hh Hr].
  unfold async_read_packet, frame in *. rewrite <-!app_assoc in Hin.
  erewrite st_bind_Ret by by eapply (sock_read_app 4). cbn [fst snd negb].
  rewrite Hr. cbn [negb]. rewrite Hh.
  erewrite st_bind_Ret.
  2:{ apply (sock_read_app _ (be32 (zlen name) ++ name ++ body) rest); [cbn [inbox]; by rewrite <-!app_assoc|].
      rewrite !zlen_app, be32_length. lia. }
  cbn [fst snd inbox outbox broken]. pose proof (frame_buffer_whole name body Hl) as Hb.
  cbv zeta in Hb. unfold frame in Hb. rewrite Hb. unfold st_bind, st_lift, st_ret.
  destruct (decode _) as [[m|]| | | |]; done.
Qed.

(** A message as its frame arrives. *)
Definition framed (m : message) (f : bytes) : Prop :=
  exists body, AppendToString m = Some body /\ body <> [] /\
    8 + zlen (s2b (GetTypeName m)) + zlen body <= INT_MAX /\ f = frame (s2b (GetTypeName m)) body.

(** Part of a frame, of which the length field has arrived, is completed with
    zeros: the failed read is not noticed. *)
Lemma read_cut_frame name body n s :
  inbox s = take n (frame name body) -> 8 + zlen name + zlen body <= INT_MAX ->
  (4 <= n)%nat -> (n < length (frame name body))%nat ->
  async_read_packet s =
    (match decode (take n (frame name body) ++ replicate (length (frame name body) - n) x00) with
     | Ret (Some m) => Ret (as_avPacket m) | Ret None => Ret None
     | Throw e => Throw e | AssertFail => AssertFail | UB => UB | OutOfFuel => OutOfFuel end,
     {| inbox := []; outbox := outbox s; broken := broken s |}).
Proof.
  intros Hin Hl Hn Hlen. destruct (frame_header_ok name body Hl) as [Hh Hr].
  unfold async_read_packet, frame in *. rewrite (take_app_ge (be32 _)) in Hin by (simpl; lia).
  set (rest := be32 (zlen name) ++ name ++ body) in *.
  erewrite st_bind_Ret by by eapply (sock_read_app 4). cbn [fst snd negb].
  rewrite Hr. cbn [negb]. rewrite Hh. unfold st_bind at 1, sock_read at 1. cbn [fst snd inbox outbox broken].
  set (L := 4 + zlen name + zlen body) in *.
  assert (HL : Z.to_nat L = length rest).
  { unfold rest, L, zlen. rewrite !length_app. simpl. lia. }
  assert (Hbuf : forall got, got = take (n - length (be32 L)) rest ->
    frame_buffer (load32 (be32 L)) L (take (Z.to_nat L) got) =
    take n (be32 L ++ rest) ++ replicate (length (be32 L ++ rest) - n) x00).
  { intros got ->. unfold frame_buffer. rewrite mem32_load32 by done.
    rewrite (take_ge (take _ _)) by (rewrite length_take, HL; lia).
    rewrite (take_app_ge (be32 L)) by (simpl; lia). rewrite <-app_assoc. do 2 f_equal.
    rewrite length_take, HL, length_app in *. simpl in *. f_equal. lia. }
  rewrite (Hbuf _ eq_refl), (drop_ge (take _ _)) by (rewrite length_take, HL; lia).
  unfold st_bind, st_lift, st_ret.
  destruct (decode _) as [[m|]| | | |]; done.
Qed.

(** The writes of a connection, one after the other, and its reads. *)
Fixpoint write_packets (pkts : list avPacket) (ec : error_code) : ST sock error_code :=
  match pkts with
  | [] => st_ret ec
  | pkt :: pkts => let* r := async_write_packet pkt ec in write_packets pkts r.2
  end.

Fixpoint read_packets (n : nat) : ST sock (list (option avPacket)) :=
  match n with
  | 0%nat => st_ret []
  | S n => let* p := async_read_packet in let* ps := read_packets n in st_ret (p :: ps)
  end.

Definition sendable (pkt : avPacket) (f : bytes) : Prop := framed (of_avPacket pkt) f.

Section stream.
Context `{!ProtobufLaws P} `{!AvimProtoLaws P AvimProto0}.

Lemma write_packet pkt f ec s :
  sendable pkt f -> broken s = false ->
  async_write_packet pkt ec s =
    (Ret (true, ec), {| inbox := inbox s; outbox := outbox s ++ f; broken := false |}).
Proof.
  intros (body & Hb & Hne & Hl & ->) Hbr. destruct (own_frame _ _ Hb Hne Hl) as [He _].
  unfold async_write_packet, st_bind, st_lift, sock_write. by rewrite He, Hbr.
Qed.

Lemma write_packet_broken pkt f ec s :
  sendable pkt f -> broken s = true -> async_write_packet pkt ec s = (Ret (false, ec), s).
Proof.
  intros (body & Hb & Hne & Hl & ->) Hbr. destruct (own_frame _ _ Hb Hne Hl) as [He _].
  unfold async_write_packet, st_bind, st_lift, sock_write. by rewrite He, Hbr.
Qed.

Lemma read_packet pkt f rest s :
  sendable pkt f -> inbox s = f ++ rest ->
  async_read_packet s = (Ret (Some pkt), {| inbox := rest; outbox := outbox s; broken := broken s |}).
Proof.
  intros (body & Hb & Hne & Hl & ->) Hin. destruct (own_frame _ _ Hb Hne Hl) as [_ Hd].
  rewrite (read_frame _ _ _ _ Hin Hl), Hd. by rewrite as_of_avPacket.
Qed.

Lemma write_packets_frames pkts fs ec s :
  Forall2 sendable pkts fs -> broken s = false ->
  write_packets pkts ec s =
    (Ret ec, {| inbox := inbox s; outbox := outbox s ++ concat fs; broken := false |}).
Proof.
  intros HF. revert s. induction HF as [|pkt f pkts fs Hf _ IH]; intros s Hbr; cbn [write_packets concat].
  - destruct s; simpl in *; subst. by rewrite app_nil_r.
  - erewrite st_bind_Ret by by apply write_packet. rewrite IH by done. simpl. by rewrite app_assoc.
Qed.

Lemma read_packets_frames pkts fs rest s :
  Forall2 sendable pkts fs -> inbox s = concat fs ++ rest ->
  read_packets (length pkts) s =
    (Ret (Some <$> pkts), {| inbox := rest; outbox := outbox s; broken := broken s |}).
Proof.
  intros HF. revert s. induction HF as [|pkt f pkts fs Hf _ IH]; intros s Hin; cbn [read_packets length].
  - destruct s; simpl in *; by subst.
  - simpl in Hin. rewrite <-app_assoc in Hin.
    erewrite st_bind_Ret by by eapply read_packet. by erewrite st_bind_Ret by by apply IH.
Qed.

(** Any cut of a sequence of frames is some whole frames and a part of the next. *)
Lemma cut_frames (fs : list bytes) n :
  (n < length (concat fs))%nat ->
  exists m f l, fs !! m = Some f /\ (l < length f)%nat /\
    take n (concat fs) = concat (take m fs) ++ take l f.
Proof.
  revert n. induction fs as [|f fs IH]; intros n Hn; simpl in Hn; [lia|].
  destruct (decide (n < length f)%nat) as [Hlt|Hge].
  - exists 0%nat, f, n. split_and!; [done..|]. simpl. by rewrite take_app_le by lia.
  - rewrite length_app in Hn. destruct (IH (n - length f)%nat) as (m & g & l & Hm & Hl & E); [lia|].
    exists (S m), g, l. split_and!; [done..|]. simpl. by rewrite take_app_ge, E, app_assoc by lia.
Qed.

(** C29: what one end of a connection writes the other end reads: a sequence of
    packets whose messages fit an int and do not serialise to nothing is read
    packet for packet, whatever follows; and if the connection is cut anywhere
    earlier, the packets that arrived whole are read, in order, before the part
    of the next one: that part is undefined behaviour when it is shorter than
    its length field, and else is decoded with zeros for what is missing. *)
Theorem jack_write_read pkts fs ec s s' rest n :
  Forall2 sendable pkts fs -> broken s = false -> outbox s = [] ->
  write_packets pkts ec s = (Ret ec, {| inbox := inbox s; outbox := concat fs; broken := false |}) /\
  (inbox s' = concat fs ++ rest -> read_packets (length pkts) s' =
    (Ret (Some <$> pkts), {| inbox := rest; outbox := outbox s'; broken := broken s' |})) /\
  (inbox s' = take n (concat fs) -> (n < length (concat fs))%nat ->
    exists m f l, fs !! m = Some f /\ (l < length f)%nat /\
      let s'' := {| inbox := take l f; outbox := outbox s'; broken := broken s' |} in
      read_packets m s' = (Ret (Some <$> take m pkts), s'') /\
      (async_read_packet s'').1 =
        if decide (l < 4)%nat then UB else
        match decode (take l f ++ replicate (length f - l) x00) with
        | Ret (Some m) => Ret (as_avPacket m) | Ret None => Ret None
        | Throw e => Throw e | AssertFail => AssertFail | UB => UB | OutOfFuel => OutOfFuel end).
Proof.
  intros HF Hbr Hout. split_and!.
  - rewrite (write_packets_frames _ _ _ _ HF Hbr). by rewrite Hout.
  - by apply read_packets_frames.
  - intros Hin Hn. destruct (cut_frames fs n Hn) as (m & f & l & Hm & Hl & E).
    exists m, f, l. split_and!; [done..|]. intros s''. rewrite E in Hin.
    destruct (Forall2_lookup_r _ _ _ _ _ HF Hm) as (pkt & Hp & body & Hb & Hne & Hlen & ->).
    split.
    + pose proof (read_packets_frames (take m pkts) _ _ s' (Forall2_take _ _ _ m HF) Hin) as Hr.
      rewrite length_take, Nat.min_l in Hr; [done|]. apply lookup_lt_Some in Hp. lia.
    + case_decide as H4; [|by rewrite (read_cut_frame (s2b (GetTypeName (of_avPacket pkt))) body l) by (done || lia)].
      unfold async_read_packet, st_bind at 1, sock_read at 1. cbn [fst snd s'' inbox].
      rewrite (proj2 (Z.leb_gt _ _)); [done|]. unfold zlen. rewrite length_take. lia.
Qed.
End stream.

(** A failed write is not reported: whether or not the socket takes the
    frame, the error code of the calling [interface_writer] stays what it was,
    so a send whose packet was lost is completed as successful. *)
Theorem jack_write_error_hidden pkt ec s r :
  (async_write_packet pkt ec s).1 = Ret r ->
  r.2 = ec /\ (r.1 = false <-> broken s = true).
Proof.
  unfold async_write_packet, st_bind, st_lift, sock_write, st_ret.
  destruct (encode _); try done. destruct (broken s); intros [= <-]; done.
Qed.

(** What a peer can do to the reader: closing the connection at a frame
    boundary or inside a length field makes it use an uninitialised length, and
    a length field of 2^32 - 4 or more makes it write past a buffer whose size
    wrapped around. *)
Theorem jack_read_hostile s :
  zlen (inbox s) < 4 \/ 4294967292 <= be_val (take 4 (inbox s)) ->
  (async_read_packet s).1 = UB.
Proof.
  intros Hbad. unfold async_read_packet, st_bind at 1, sock_read at 1. cbn [fst snd].
  destruct (Z.leb_spec 4 (zlen (inbox s))) as [Hlen|]; cbn [negb]; [|done].
  destruct Hbad as [|Hbig]; [lia|].
  assert (H4 : length (take 4 (inbox s)) = 4%nat) by (rewrite length_take; unfold zlen in Hlen; lia).
  change (Z.to_nat 4) with 4%nat. unfold resize_ok. rewrite htonl_ntohl, ntohl_load32 by done.
  pose proof (be_val_range _ H4) as Hr. unfold to_uint32.
  replace (be_val (take 4 (inbox s)) + 4)
    with (be_val (take 4 (inbox s)) - 4294967292 + 1 * 4294967296) by lia.
  rewrite Z.mod_add, Z.mod_small by lia.
  rewrite (proj2 (Z.leb_gt _ _)) by lia. done.
Qed.

(** ** The handshake *)

Lemma read_reply_frame {A} first (sel : message -> option A) m a body rest s `{!ProtobufLaws P} :
  AppendToString m = Some body -> body <> [] ->
  8 + zlen (s2b (GetTypeName m)) + zlen body <= INT_MAX -> 4 <= first -> sel m = Some a ->
  inbox s = frame (s2b (GetTypeName m)) body ++ rest ->
  read_reply first sel s = (Ret (a, 4 + zlen (s2b (GetTypeName m)) + zlen body),
    {| inbox := rest; outbox := outbox s; broken := broken s |}).
Proof.
  intros Hb Hne Hl Hf Ha Hin. destruct (own_frame m body Hb Hne Hl) as [_ Hd].
  set (name := s2b (GetTypeName m)) in *. destruct (frame_header_ok name body Hl) as [Hh Hr].
  unfold read_reply. rewrite Z.min_l by done. unfold frame in Hin. rewrite <-!app_assoc in Hin.
  erewrite st_bind_Ret by by eapply (sock_read_throw_app 4).
  change (zlen (be32 _) =? 4) with true. cbn [negb]. rewrite Hr. cbn [negb]. rewrite Hh.
  erewrite st_bind_Ret.
  2:{ apply (sock_read_throw_app _ (be32 (zlen name) ++ name ++ body) rest);
        [cbn [inbox]; by rewrite <-!app_assoc|rewrite !zlen_app, be32_length; lia]. }
  pose proof (frame_buffer_whole name body Hl) as Hbuf. cbv zeta in Hbuf. rewrite Hbuf.
  unfold st_bind, st_lift. rewrite Hd. cbn [deref]. rewrite Ha. done.
Qed.

Lemma sock_write_throw_ok b s :
  broken s = false ->
  sock_write_throw b s = (Ret tt, {| inbox := inbox s; outbox := outbox s ++ b; broken := false |}).
Proof. intros Hb. unfold sock_write_throw, st_bind, sock_write. by rewrite Hb. Qed.

Lemma read_reply_framed {A} first (sel : message -> option A) m a f rest s `{!ProtobufLaws P} :
  framed m f -> 4 <= first -> sel m = Some a -> inbox s = f ++ rest ->
  exists n, 4 <= n /\ read_reply first sel s =
    (Ret (a, n), {| inbox := rest; outbox := outbox s; broken := broken s |}).
Proof.
  intros (body & Hb & Hne & Hl & ->) Hf Ha Hin. eexists. split.
  2:{ by eapply read_reply_frame. }
  pose proof (zlen_nonneg (s2b (GetTypeName m))). pose proof (zlen_nonneg body). lia.
Qed.

(** C30: with a key and a certificate set, and a router that answers with a
    server_hello and a login_result, the handshake reads exactly those two
    frames, writes exactly the client_hello and the login (the certificate, and
    the server's random key signed with the private key), learns the router's
    address and the shared key, and returns the router's verdict; without a
    private key it dereferences a null pointer once the server_hello is there. *)
Theorem handshake_correct `{!ProtobufLaws P} `{!BoostRegexLaws H1} j s m1 f1 sh m2 f2 verdict rest hello :
  encode (client_hello_message DH_g DH_p DH_pub_key) = Ret hello ->
  framed m1 f1 -> as_server_hello m1 = Some sh -> framed m2 f2 -> as_login_result m2 = Some verdict ->
  broken s = false -> inbox s = f1 ++ f2 ++ rest ->
  match _rsa j, _x509 j with
  | Some key, Some cert => forall singned login,
      RSA_private_encrypt key (random_pub_key sh) = Ret singned ->
      encode (login_message (i2d_X509 cert) singned) = Ret login ->
      async_handshake j s =
        (Ret (verdict, {| _rsa := _rsa j; _x509 := _x509 j; m_local_addr := m_local_addr j;
                          m_remote_addr := Some (split_address (server_av_address sh));
                          m_shared_key := DH_compute_key (random_pub_key sh) |}),
         {| inbox := rest; outbox := outbox s ++ hello ++ login; broken := false |})
  | None, _ => (async_handshake j s).1 = UB
  | _, _ => True
  end.
Proof.
  intros Hhello Hf1 Hsh Hf2 Hres Hbr Hin.
  unfold async_handshake. rewrite (st_bind_Ret (st_lift _) _ s hello s) by (unfold st_lift; by rewrite Hhello).
  erewrite st_bind_Ret by by apply sock_write_throw_ok.
  destruct (read_reply_framed 4 as_server_hello m1 sh f1 (f2 ++ rest)
    {| inbox := inbox s; outbox := outbox s ++ hello; broken := false |}) as (n & Hn & E1); [done..|].
  erewrite st_bind_Ret by exact E1. cbn [fst snd].
  rewrite (st_bind_Ret (st_lift _) _ _ (split_address (server_av_address sh)) _)
    by (unfold st_lift; by rewrite from_string_split).
  destruct (_rsa j) as [key|]; [|done]. destruct (_x509 j) as [cert|]; [|done].
  intros singned login Hs Hlog. cbn [deref].
  rewrite (st_bind_Ret (st_lift _) _ _ key _) by done.
  rewrite (st_bind_Ret (st_lift _) _ _ singned _) by (unfold st_lift; by rewrite Hs).
  rewrite (st_bind_Ret (st_lift _) _ _ cert _) by done.
  rewrite (st_bind_Ret (st_lift _) _ _ login _) by (unfold st_lift; by rewrite Hlog).
  erewrite st_bind_Ret by by apply sock_write_throw_ok. cbn [inbox outbox broken].
  destruct (read_reply_framed n as_login_result m2 verdict f2 rest
    {| inbox := f2 ++ rest; outbox := (outbox s ++ hello) ++ login; broken := false |})
    as (n' & _ & E2); [done..|].
  erewrite st_bind_Ret by exact E2. unfold st_ret. cbn [fst snd outbox broken].
  by rewrite app_assoc.
Qed.

(** ** Interface names *)

Lemma jack_ifname_inj (n m : nat) :
  Z.of_nat n < 4294967296 -> Z.of_nat m < 4294967296 -> jack_ifname n = jack_ifname m -> n = m.
Proof.
  unfold jack_ifname. intros Hn Hm E. rewrite !Z.mod_small in E by lia.
  apply (inj (String.append "avjack")) in E. apply (inj pretty) in E. lia.
Qed.
End jackif.

(** ** Concrete runs *)
Module JackDemo.
#[local] Existing Instances x86_host release_build Toy.openssl ToyRegex.boost ToyRegex.laws.

(** A few messages, one of each kind, with a one-byte serialisation. *)
Inductive msg :=
  | MPacket (p : avPacket) | MClientHello | MServerHello (h : server_hello)
  | MLogin (cert sig : bytes) | MLoginResult (ok : bool).

Definition router : server_hello :=
  {| server_av_address := "router@avplayer.org"; random_pub_key := [x41; x42] |}.

Definition signature : bytes :=
  match RSA_private_encrypt (x01 : @RSA Toy.openssl) [x41; x42] with Ret c => c | _ => [] end.

Definition test_packet : avPacket :=
  {| src := {| username := "a"; domain := "b"; resource := None |};
     dest := {| username := "c"; domain := "d"; resource := None |};
     upperlayerpotocol := "avim"; payload := Some [x00]; publickey := None; time_to_live := 64 |}.

#[local] Instance server_hello_eq_dec : EqDecision server_hello.
Proof. solve_decision. Defined.

Definition type_name (m : msg) : string :=
  match m with
  | MPacket _ => "proto.avPacket" | MClientHello => "proto.client_hello"
  | MServerHello _ => "proto.server_hello" | MLogin _ _ => "proto.login"
  | MLoginResult _ => "proto.login_result"
  end.

Definition samples : list msg :=
  [MPacket test_packet; MClientHello; MServerHello router; MLogin [x01] signature; MLoginResult false].

Definition serialize (m : msg) : option bytes :=
  match m with
  | MPacket p => if decide (p = test_packet) then Some [x01] else None
  | MClientHello => Some [x01]
  | MServerHello h => if decide (h = router) then Some [x01] else None
  | MLogin c s => if decide (c = [x01] /\ s = signature) then Some [x01] else None
  | MLoginResult ok => Some [if ok then x01 else x02]
  end.

Definition parse (proto : msg) (b : bytes) : option msg :=
  match proto with
  | MLoginResult _ => Some (MLoginResult (bool_decide (b = [x01])))
  | m => Some m
  end.

#[local] Instance protobuf : Protobuf := {|
  message := msg; descriptor := msg; GetTypeName := type_name; AppendToString := serialize;
  FindMessageTypeByName := fun n => list_find (fun m => type_name m = n) samples ≫= fun p => Some p.2;
  GetPrototype := fun d => Some d; New := fun p => p; ParseFromArray := parse
|}.

#[local] Instance protobuf_laws : ProtobufLaws protobuf.
Proof.
  split.
  - intros [p| |h|c s|ok]; eexists _, _; split; vm_compute; reflexivity.
  - intros [p| |h|c s|ok] d proto b Hd Hp Hb; vm_compute in Hd; injection Hd as <-;
      injection Hp as <-; simpl in Hb |- *.
    + by case_decide; simplify_eq.
    + done.
    + by case_decide; simplify_eq.
    + case_decide; [|done]. by destruct_and!; simplify_eq.
    + destruct ok; simplify_eq; reflexivity.
Defined.

#[local] Instance proto : AvimProto protobuf := {|
  of_avPacket := MPacket;
  as_avPacket := fun m => match m with MPacket p => Some p | _ => None end;
  client_hello_message := fun _ _ _ => MClientHello;
  as_server_hello := fun m => match m with MServerHello h => Some h | _ => None end;
  login_message := MLogin;
  as_login_result := fun m => match m with MLoginResult ok => Some ok | _ => None end
|}.

#[local] Instance proto_laws : AvimProtoLaws protobuf proto.
Proof. split. reflexivity. Defined.

#[local] Instance dh : DiffieHellman :=
  {| DH_g := [x05]; DH_p := [x17]; DH_pub_key := [x08]; DH_compute_key := fun b => b |}.

#[local] Instance names : X509Name Toy.openssl := {| X509_common_name _ := Some "alice@av" |}.

Definition idle : sock := {| inbox := []; outbox := []; broken := false |}.

(** Two packets, the second cut inside its type name. *)
Definition test_frame : bytes := frame (s2b "proto.avPacket") [x01].

Lemma test_sendable : Forall2 sendable [test_packet; test_packet] [test_frame; test_frame].
Proof.
  repeat constructor; exists [x01]; split_and!; try done; vm_compute; discriminate.
Qed.

Lemma jack_write_read_witness :
  write_packets [test_packet; test_packet] ec_success idle =
    (Ret ec_success, {| inbox := []; outbox := test_frame ++ test_frame; broken := false |}) /\
  read_packets 2 {| inbox := test_frame ++ test_frame ++ [x00]; outbox := []; broken := false |} =
    (Ret [Some test_packet; Some test_packet], {| inbox := [x00]; outbox := []; broken := false |}) /\
  exists m f l, [test_frame; test_frame] !! m = Some f /\ (l < length f)%nat /\
    read_packets m {| inbox := take 30 (test_frame ++ test_frame); outbox := []; broken := false |} =
      (Ret (Some <$> take m [test_packet; test_packet]), {| inbox := take l f; outbox := []; broken := false |}).
Proof.
  pose proof (jack_write_read [test_packet; test_packet] [test_frame; test_frame] ec_success idle) as Hj.
  split_and!.
  - exact (proj1 (Hj idle [] 0%nat test_sendable eq_refl eq_refl)).
  - apply (fun s => proj1 (proj2 (Hj s [x00] 0%nat test_sendable eq_refl eq_refl))). reflexivity.
  - destruct (proj2 (proj2 (Hj {| inbox := take 30 (test_frame ++ test_frame); outbox := []; broken := false |}
      [] 30%nat test_sendable eq_refl eq_refl))) as (m & f & l & Hm & Hl & Hr & _).
    + reflexivity.
    + apply (bool_decide_unpack _). vm_compute. exact I.
    + exists m, f, l. split_and!; assumption.
Defined.

Lemma jack_write_error_hidden_witness :
  exists r, (async_write_packet test_packet ec_success
    {| inbox := []; outbox := []; broken := true |}).1 = Ret r /\ r.2 = ec_success /\ r.1 = false.
Proof.
  assert (E : (async_write_packet test_packet ec_success
    {| inbox := []; outbox := []; broken := true |}).1 = Ret (false, ec_success))
    by (vm_compute; reflexivity).
  exists (false, ec_success). split; [exact E|].
  destruct (jack_write_error_hidden test_packet ec_success _ _ E) as [Hec Hb].
  split; [exact Hec|]. by apply Hb.
Defined.

Lemma jack_read_hostile_witness :
  (async_read_packet idle).1 = UB /\
  (async_read_packet {| inbox := [xff; xff; xff; xfd; x00]; outbox := []; broken := false |}).1 = UB.
Proof.
  split; apply jack_read_hostile; [left; vm_compute; reflexivity|].
  right. vm_compute. discriminate.
Defined.

Definition ready_if : avjackif :=
  {| _rsa := Some (x01 : @RSA Toy.openssl); _x509 := Some (x01 : @X509 Toy.openssl);
     m_local_addr := None; m_remote_addr := None; m_shared_key := [] |}.

Definition frame_of (m : msg) (b : byte) : bytes := frame (s2b (type_name m)) [b].

Definition answering : sock :=
  {| inbox := frame_of (MServerHello router) x01 ++ frame_of (MLoginResult true) x01 ++ [];
     outbox := []; broken := false |}.

Lemma handshake_correct_witness :
  exists j' s', async_handshake ready_if answering = (Ret (true, j'), s') /\
    m_remote_addr j' = Some (split_address "router@avplayer.org") /\ inbox s' = [].
Proof.
  pose proof (handshake_correct ready_if answering
    (MServerHello router) (frame_of (MServerHello router) x01) router
    (MLoginResult true) (frame_of (MLoginResult true) x01) true []
    (frame_of MClientHello x01)) as Hh.
  cbn [_rsa _x509 ready_if] in Hh. eexists _, _. split; [eapply Hh|split; reflexivity].
  - vm_compute. reflexivity.
  - exists [x01]. split_and!; [vm_compute; reflexivity|discriminate|vm_compute; discriminate|reflexivity].
  - reflexivity.
  - exists [x01]. split_and!; [reflexivity|discriminate|vm_compute; discriminate|reflexivity].
  - reflexivity.
  - reflexivity.
  - reflexivity.
  - vm_compute. reflexivity.
  - vm_compute. reflexivity.
Defined.
End JackDemo.
