(* ===== verification/Streams.v ===== *)
(** * Streams: nodes joined by TCP connections

    The network of Network.v with the links of avjackif.cpp: an interface writes
    frames into a byte stream, its peer reads them out of it, and a connection may
    be cut after any byte.  As long as every packet written can be framed and no
    rest of a cut frame is taken for a packet ([clean_run]), a run is a run of the
    network of packets.

    A frame is written, and read, in one step.  In the code its bytes go out and
    come in one after the other; that makes no difference as long as an interface
    has one writer and one reader, which it has unless it is added twice. *)

From S2P Require Import Prelude Wire Serialization StdSort OpenSSL RsaChunk Regex Address CoroQueue Routing KeyStore Avif Kernel Effects Hoare KernelInv Prices Network KernelSpec Sendto Arrival Asking Inquiry Jackif.

#[local] Open Scope nat_scope.

Section streams.
Context `{Host} `{Build} `{P : Protobuf} `{O : OpenSSL} `{BoostRegex} `{StdSort}.
Context `{!AvimProto P}.
Context (impl : nat -> AvifImpl O) (peer : nat -> nat -> option (nat * nat)).

(** What is on its way to an interface or waits in its socket, and whether the
    connection is closed behind it. *)
Record pipe := { content : bytes; closed : bool }.

Record stream_net := { hosts : gmap nat kernel; pipes : gmap (nat * nat) pipe }.

Definition open_pipe : pipe := {| content := []; closed := false |}.
Definition pipe_to (q : nat * nat) (s : stream_net) : pipe := default open_pipe (pipes s !! q).
Definition set_pipe (q : nat * nat) (p : pipe) (s : stream_net) : stream_net :=
  {| hosts := hosts s; pipes := <[q := p]> (pipes s) |}.

(** The socket of an interface, as its writer and as its reader see it. *)
Definition writing_end (p : pipe) : sock := {| inbox := []; outbox := content p; broken := closed p |}.
Definition reading_end (p : pipe) : sock := {| inbox := content p; outbox := []; broken := closed p |}.

(** The length field and as many bytes as it says have arrived. *)
Definition whole_frame (b : bytes) : bool :=
  (4 <=? zlen b)%Z && (4 + htonl (load32 (take 4 b)) <=? zlen b)%Z.

Inductive stream_event :=
  | SLocal (n : nat) (e : event)           (* no read and no completed write *)
  | SWrite (n i m : nat) (now : Z)         (* the m-th writer of interface i writes *)
  | SRead (n i : nat) (now : Z)            (* the runner of interface i reads *)
  | SCut (q : nat * nat) (keep : nat).     (* so many bytes still arrive *)

Definition host_step (n : nat) (e : event) (s : stream_net) : stream_net :=
  match hosts s !! n with
  | None => s
  | Some k =>
      {| hosts := match step (AvifImpl0 := impl n) e k with
           | (Ret _, k') => <[n := k']> (hosts s) | _ => delete n (hosts s) end;
         pipes := pipes s |}
  end.

Definition host_fail (n : nat) (s : stream_net) : stream_net :=
  {| hosts := delete n (hosts s); pipes := pipes s |}.

(** The packet that the [m]-th writer of an interface holds. *)
Definition to_write (n i m : nat) (s : stream_net) : option avPacket :=
  k ← hosts s !! n; a ← ifs k !! i; v ← writing a !! m; Some v.1.

(** A runner is suspended in [async_read_packet]. *)
Definition is_reading (n i : nat) (s : stream_net) : bool :=
  match k ← hosts s !! n; ifs k !! i with Some a => (0 <? reading a) | None => false end.

(** The write goes to the peer's pipe, or to a router outside; the
    error code that the kernel sees is the one it had. *)
Definition stream_write (n i m : nat) (now : Z) (s : stream_net) : stream_net :=
  match to_write n i m s with
  | None => s
  | Some pkt =>
      let p := match peer n i with Some q => pipe_to q s | None => open_pipe end in
      let r := async_write_packet pkt ec_success (writing_end p) in
      match r.1 with
      | Ret (_, ec) =>
          host_step n (EWrote i m ec now)
            (match peer n i with
             | Some q => set_pipe q {| content := outbox r.2; closed := closed p |} s
             | None => s end)
      | _ => host_fail n s
      end
  end.

(** A read that can complete: the frame is there, or nothing more will come. *)
Definition stream_read (n i : nat) (now : Z) (s : stream_net) : stream_net :=
  let p := pipe_to (n, i) s in
  if is_reading n i s && (whole_frame (content p) || closed p) then
    let r := async_read_packet (reading_end p) in
    let s := set_pipe (n, i) {| content := inbox r.2; closed := closed p |} s in
    match r.1 with
    | Ret avpkt => host_step n (ERead i avpkt now) s
    | _ => host_fail n s
    end
  else s.

Definition stream_step (ev : stream_event) (s : stream_net) : stream_net :=
  match ev with
  | SLocal n (ERead _ _ _) | SLocal n (EWrote _ _ _ _) => s
  | SLocal n e => host_step n e s
  | SWrite n i m now => stream_write n i m now s
  | SRead n i now => stream_read n i now s
  | SCut q keep =>
      let p := pipe_to q s in
      set_pipe q {| content := take keep (content p); closed := true |} s
  end.

Fixpoint stream_run (evs : list stream_event) (s : stream_net) : stream_net :=
  match evs with [] => s | ev :: evs => stream_run evs (stream_step ev s) end.

Definition init_streams (size : nat) : stream_net :=
  {| hosts := gset_to_gmap init_kernel (set_seq 0 size); pipes := ∅ |}.

(** ** What is asked of a run

    A packet that is written has a message that fits an int and does not
    serialise to nothing, and the rest of a cut connection, which the reader
    completes with zeros, is no packet.  The code does not ensure the second:
    [async_read_packet] does not notice that its read failed. *)
Definition clean (ev : stream_event) (s : stream_net) : Prop :=
  match ev with
  | SWrite n i m _ => forall pkt, to_write n i m s = Some pkt -> exists f, sendable pkt f
  | SRead n i _ =>
      let p := pipe_to (n, i) s in
      whole_frame (content p) = false -> forall pkt, (async_read_packet (reading_end p)).1 <> Ret (Some pkt)
  | _ => True
  end.

Fixpoint clean_run (evs : list stream_event) (s : stream_net) : Prop :=
  match evs with [] => True | ev :: evs => clean ev s /\ clean_run evs (stream_step ev s) end.

(** The same, decided. *)
Definition sendableb (pkt : avPacket) : bool :=
  match AppendToString (of_avPacket pkt) with
  | Some body => negb (is_nil body) && (8 + zlen (s2b (GetTypeName (of_avPacket pkt))) + zlen body <=? INT_MAX)%Z
  | None => false
  end.

Definition cleanb (ev : stream_event) (s : stream_net) : bool :=
  match ev with
  | SWrite n i m _ => match to_write n i m s with Some pkt => sendableb pkt | None => true end
  | SRead n i _ =>
      let p := pipe_to (n, i) s in
      whole_frame (content p) ||
      match (async_read_packet (reading_end p)).1 with Ret (Some _) => false | _ => true end
  | _ => true
  end.

Fixpoint clean_runb (evs : list stream_event) (s : stream_net) : bool :=
  match evs with [] => true | ev :: evs => cleanb ev s && clean_runb evs (stream_step ev s) end.

Lemma cleanb_ok ev s : cleanb ev s = true -> clean ev s.
Proof.
  destruct ev as [n e|n i m now|n i now|q keep]; simpl; [done| | |done].
  - intros Hs pkt Hw. rewrite Hw in Hs. unfold sendableb in Hs.
    destruct (AppendToString (of_avPacket pkt)) as [body|] eqn:Eb; [|done].
    apply andb_true_iff in Hs as [Hne Hl%Z.leb_le]. eexists. exists body.
    split_and!; [done|by destruct body|done|done].
  - intros Hs Hw pkt E. by rewrite Hw, E in Hs.
Qed.

Lemma clean_runb_ok evs s : clean_runb evs s = true -> clean_run evs s.
Proof.
  revert s. induction evs as [|ev evs IH]; intros s; [done|]. simpl.
  intros [Hc Hcs]%andb_true_iff. split; [by apply cleanb_ok|by apply IH].
Qed.

(** Frames written, and messages the nodes were asked to send. *)
Definition frame_written (ev : stream_event) (s : stream_net) : nat :=
  match ev with SWrite n i m _ => length (option_list (to_write n i m s)) | _ => 0 end.

Fixpoint frames_written (evs : list stream_event) (s : stream_net) : nat :=
  match evs with [] => 0 | ev :: evs => frame_written ev s + frames_written evs (stream_step ev s) end.

Definition stream_locals (f : event -> nat) (evs : list stream_event) : nat :=
  sum_list_with (fun ev => match ev with SLocal _ e => f e | _ => 0 end) evs.

Definition is_lose (ev : net_event) : Prop := match ev with NLose _ => True | _ => False end.

(** ** The packets on their way to an interface *)

Definition bound_for (q : nat * nat) (m : nat * nat * avPacket) : option avPacket :=
  if decide (m.1 = q) then Some m.2 else None.
Definition to_if (q : nat * nat) (l : list (nat * nat * avPacket)) : list avPacket := omap (bound_for q) l.

Lemma to_if_split q l ps p ps' :
  to_if q l = ps ++ p :: ps' ->
  exists l1 l2, l = l1 ++ (q, p) :: l2 /\ to_if q l1 = ps /\ to_if q l2 = ps'.
Proof.
  revert ps. induction l as [|[q' p'] l IH]; intros ps E; [by destruct ps|].
  unfold to_if in E. cbn [omap list_omap] in E. unfold bound_for at 1 in E. cbn [fst snd] in E.
  destruct (decide (q' = q)) as [->|Hne].
  - destruct ps as [|x ps]; simpl in E; injection E as -> E; [by exists [], l|].
    destruct (IH ps E) as (l1 & l2 & -> & <- & <-). exists ((q, x) :: l1), l2. split_and!; try done.
    unfold to_if. cbn [omap list_omap]. unfold bound_for at 1. cbn [fst snd]. by rewrite decide_True.
  - destruct (IH ps E) as (l1 & l2 & -> & <- & <-). exists ((q', p') :: l1), l2. split_and!; try done.
    unfold to_if. cbn [omap list_omap]. unfold bound_for at 1. cbn [fst snd]. by rewrite decide_False.
Qed.

Lemma to_if_app q l l' : to_if q (l ++ l') = to_if q l ++ to_if q l'.
Proof. apply omap_app. Qed.

Lemma to_if_one q q' p : to_if q [(q', p)] = if decide (q' = q) then [p] else [].
Proof. unfold to_if. cbn [omap list_omap]. unfold bound_for. cbn [fst snd]. by case_decide. Qed.

(** Taking one packet off the wire. *)
Lemma to_if_delete q l ps p ps' :
  to_if q l = ps ++ p :: ps' -> exists j, l !! j = Some (q, p) /\ to_if q (delete j l) = ps ++ ps' /\
    forall q', q' <> q -> to_if q' (delete j l) = to_if q' l.
Proof.
  intros (l1 & l2 & -> & <- & <-)%to_if_split. exists (length l1).
  rewrite list_lookup_middle, delete_middle by done. split_and!; [done|by rewrite to_if_app|].
  intros q' Hq. rewrite !to_if_app, (to_if_app q' [(q, p)] l2 : to_if q' ((q, p) :: l2) = _), to_if_one.
  by rewrite decide_False.
Qed.

(** Nothing happens to the path but what [allowed] says. *)
Abbreviation fit := (all_allowed impl peer).

Lemma lose_to q m w :
  exists evs, Forall is_lose evs /\ (forall on_path : nat -> Prop, ~ on_path q.1 -> fit on_path evs w) /\
    nodes (net_run impl peer evs w) = nodes w /\
    to_if q (wire (net_run impl peer evs w)) = take m (to_if q (wire w)) /\
    forall q', q' <> q -> to_if q' (wire (net_run impl peer evs w)) = to_if q' (wire w).
Proof.
  remember (length (to_if q (wire w)) - m) as d eqn:Hd. revert w Hd.
  induction d as [|d IH]; intros w Hd.
  - exists []. simpl. rewrite take_ge by lia. split_and!; [constructor|done..].
  - destruct (to_if q (wire w)) as [|p ps _] eqn:E using rev_ind; [simpl in Hd; lia|].
    rewrite length_app in Hd. simpl in Hd.
    destruct (to_if_delete q (wire w) ps p [] E) as (j & Ej & Eq & Ene). rewrite app_nil_r in Eq.
    destruct (IH {| nodes := nodes w; wire := delete j (wire w) |}) as (evs & Hl & Hf & En & Et & Eo).
    { simpl. rewrite Eq. lia. }
    exists (NLose j :: evs). cbn [net_run net_step]. split_and!; [by constructor| |exact En| |].
    + intros on_path Hq. split; [|by apply Hf]. intros n i pkt E1. rewrite Ej in E1. by injection E1 as ->.
    + rewrite Et. simpl. rewrite Eq, take_app_le by lia. done.
    + intros q' Hq. rewrite Eo by done. by apply Ene.
Qed.

(** ** Pipes that carry packets *)

(** Part of a frame, when the rest was cut off. *)
Definition partial (b : bytes) : Prop :=
  b = [] \/ exists pkt f l, sendable pkt f /\ l < length f /\ b = take l f.

Definition holds (ps : list avPacket) (p : pipe) : Prop :=
  exists fs tail, content p = concat fs ++ tail /\ Forall2 sendable ps fs /\ partial tail /\
    (closed p = false -> tail = []).

Lemma partial_take n b : partial b -> partial (take n b).
Proof.
  intros [->|(pkt & f & l & Hf & Hl & ->)]; [left; apply take_nil|].
  right. exists pkt, f, (n `min` l). rewrite take_take. split_and!; [done|lia|done].
Qed.

Lemma partial_not_whole b : partial b -> whole_frame b = false.
Proof.
  intros [->|(pkt & f & l & (body & _ & _ & Hl & ->) & Hlen & ->)]; [done|].
  set (name := s2b (GetTypeName (of_avPacket pkt))) in *. unfold whole_frame.
  destruct (decide (l < 4)) as [H4|H4].
  { rewrite (proj2 (Z.leb_gt _ _)); [done|]. unfold zlen. rewrite length_take. lia. }
  apply andb_false_iff. right. apply Z.leb_gt.
  destruct (frame_header_ok name body Hl) as [Hh _].
  assert (Et : take 4 (take l (Serialization.frame name body)) = be32 (4 + zlen name + zlen body)).
  { rewrite take_take, Nat.min_l by lia. unfold Serialization.frame. by rewrite take_app_le. }
  rewrite Et, Hh. unfold zlen. rewrite length_take. unfold Serialization.frame in *.
  rewrite !length_app in *. simpl in *. lia.
Qed.

Lemma holds_open : holds [] open_pipe.
Proof. exists [], []. split_and!; [done|constructor|by left|done]. Qed.

Lemma holds_write ps p pkt f :
  holds ps p -> closed p = false -> sendable pkt f ->
  holds (ps ++ [pkt]) {| content := content p ++ f; closed := false |}.
Proof.
  intros (fs & tail & E & HF & _ & Ht) Hc Hf. rewrite (Ht Hc), app_nil_r in E.
  exists (fs ++ [f]), []. simpl. rewrite concat_app, E. simpl. rewrite !app_nil_r.
  split_and!; [done|by apply Forall2_app; [|constructor]|by left|done].
Qed.

Lemma holds_cut ps p keep :
  holds ps p -> exists m, holds (take m ps) {| content := take keep (content p); closed := true |}.
Proof.
  intros (fs & tail & E & HF & Hp & Ht). rewrite E.
  destruct (decide (keep < length (concat fs))) as [Hk|Hk].
  - destruct (cut_frames fs keep Hk) as (m & f & l & Hm & Hl & Ek). exists m.
    exists (take m fs), (take l f). simpl. rewrite take_app_le, Ek by lia.
    split_and!; [done|by apply Forall2_take| |done]. right.
    destruct (Forall2_lookup_r _ _ _ _ _ HF Hm) as (pkt & _ & Hf). by exists pkt, f, l.
  - exists (length ps). rewrite take_ge by done. exists fs, (take (keep - length (concat fs)) tail).
    simpl. rewrite take_app_ge by lia. split_and!; [done|done|by apply partial_take|done].
Qed.

Context `{!ProtobufLaws P} `{!AvimProtoLaws P AvimProto0}.

(** Reading a pipe takes its first packet, ... *)
Lemma holds_read pkt ps p :
  holds (pkt :: ps) p -> exists rest,
    async_read_packet (reading_end p) = (Ret (Some pkt), {| inbox := rest; outbox := []; broken := closed p |}) /\
    holds ps {| content := rest; closed := closed p |}.
Proof.
  intros (fs & tail & E & HF & Hp & Ht). inversion HF as [|? f ? fs' Hf HF']; subst.
  simpl in E. rewrite <-app_assoc in E. exists (concat fs' ++ tail). split.
  - by rewrite (read_packet pkt f (concat fs' ++ tail) (reading_end p) Hf).
  - by exists fs', tail.
Qed.

(** ... and without one everything that is left. *)
Lemma holds_read_rest p :
  holds [] p -> whole_frame (content p) = false /\
    inbox (async_read_packet (reading_end p)).2 = [] /\ (closed p = false -> content p = []).
Proof.
  intros (fs & tail & E & HF & Hp & Ht). apply Forall2_nil_inv_l in HF as ->. simpl in E.
  rewrite E. split_and!; [by apply partial_not_whole| |done].
  assert (Hin : inbox (reading_end p) = tail) by (simpl; by rewrite E).
  assert (Hs : length tail < 4 -> inbox (async_read_packet (reading_end p)).2 = []).
  { intros H4. unfold async_read_packet, st_bind at 1, sock_read at 1. rewrite Hin. cbn [fst snd].
    rewrite (proj2 (Z.leb_gt _ _)) by (unfold zlen; lia). simpl. rewrite ?Hin, ?E. apply drop_ge. lia. }
  destruct Hp as [->|(pkt & f & l & (body & _ & _ & Hl & ->) & Hlen & ->)]; [apply Hs; simpl; lia|].
  destruct (decide (l < 4)) as [H4|H4]; [apply Hs; rewrite length_take; lia|].
  by rewrite (read_cut_frame (s2b (GetTypeName (of_avPacket pkt))) body l) by (done || lia).
Qed.

(** ** A path that lasts *)

(** Nothing is added on the path, and no connection to one of its nodes is cut. *)
Definition path_kept (on_path : nat -> Prop) (ev : stream_event) : Prop :=
  match ev with
  | SLocal n e => on_path n -> benign e
  | SCut q _ => ~ on_path q.1
  | _ => True
  end.

Definition path_open (on_path : nat -> Prop) (s : stream_net) : Prop :=
  forall q, on_path q.1 -> closed (pipe_to q s) = false.

(** At host [n] no tick finds this waiter's deadline passed, and no other key than
    this one is stored for the target of the send, before or after the event. *)
Definition keyed (n : nat) (op : send_op) (key : RSA) (hs : gmap nat kernel) : Prop :=
  forall k key', hs !! n = Some k -> find_RSA_pubkey (s_target op) (trusted_pubkey k) = Ret (Some key') -> key' = key.
Definition watched (n : nat) (w0 : waiter) (op : send_op) (key : RSA) (ev : stream_event) (s : stream_net) : Prop :=
  (forall e, ev = SLocal n e -> patient w0 e) /\ keyed n op key (hosts s) /\ keyed n op key (hosts (stream_step ev s)).

(** ** The simulation *)

Record same (w : network) (s : stream_net) : Prop := {
  sm_nodes : nodes w = hosts s;
  sm_pipes q : holds (to_if q (wire w)) (pipe_to q s)
}.

Abbreviation run := (net_run impl peer).
Abbreviation sent := (tally impl peer transmitted).

(** What a step of the streams comes to in the network: these events, with as
    many transmissions as frames were written, and the same events of the nodes. *)
Definition simulates (ev : stream_event) (w : network) (s : stream_net) : Prop :=
  exists evs, same (run evs w) (stream_step ev s) /\ sent evs w = frame_written ev s /\
    (forall f, (forall i m ec now, f (EWrote i m ec now) = 0) -> (forall i o now, f (ERead i o now) = 0) ->
      locals f evs = stream_locals f [ev]) /\
    (forall on_path, path_kept on_path ev -> path_open on_path s -> fit on_path evs w) /\
    forall n w0 op key, watched n w0 op key ev s -> all_undisturbed impl peer n w0 op key evs w.

Lemma pipe_set_eq q p s : pipe_to q (set_pipe q p s) = p.
Proof. unfold pipe_to. simpl. by rewrite lookup_insert_eq. Qed.
Lemma pipe_set_ne q q' p s : q' <> q -> pipe_to q' (set_pipe q p s) = pipe_to q' s.
Proof. intros Hq. unfold pipe_to. simpl. by rewrite lookup_insert_ne. Qed.

Lemma host_pipes q n e s : pipe_to q (host_step n e s) = pipe_to q s.
Proof. unfold host_step. by destruct (hosts s !! n). Qed.

Lemma node_host n e w s :
  nodes w = hosts s -> nodes (node_step impl peer n e w) = hosts (host_step n e s).
Proof. intros E. unfold node_step, host_step. rewrite <-E. by destruct (nodes w !! n). Qed.

Lemma node_wire n e w :
  (forall k, nodes w !! n = Some k -> emitted e k = []) -> wire (node_step impl peer n e w) = wire w.
Proof.
  intros He. unfold node_step. destruct (nodes w !! n) as [k|]; [|done]. simpl.
  by rewrite (He k eq_refl), app_nil_r.
Qed.

Lemma sent_loses evs w : Forall is_lose evs -> sent evs w = 0.
Proof.
  intros Hl. revert w. induction Hl as [|ev evs Hev _ IH]; intros w; [done|].
  destruct ev; try done. cbn [tally transmitted]. apply IH.
Qed.

Lemma locals_loses f evs : Forall is_lose evs -> locals f evs = 0.
Proof.
  unfold locals. induction 1 as [|ev evs Hev _ IH]; [done|]. by destruct ev.
Qed.

Lemma no_event w s ev :
  same w s -> stream_step ev s = s -> frame_written ev s = 0 ->
  (forall f, (forall i m ec now, f (EWrote i m ec now) = 0) -> (forall i o now, f (ERead i o now) = 0) ->
     stream_locals f [ev] = 0) -> simulates ev w s.
Proof. intros Hs E Ew Hf. exists []. rewrite E, Ew. split_and!; [done..| |done|done]. intros f H3 H4. by rewrite Hf. Qed.

Lemma undisturbed_loses n w0 op key evs w :
  Forall is_lose evs -> keyed n op key (nodes w) -> all_undisturbed impl peer n w0 op key evs w.
Proof.
  intros Hl. revert w. induction Hl as [|ev evs Hev _ IH]; intros w Hk; [done|]. destruct ev as [|?|j|]; try done.
  split; [|by apply IH]. split; [by intros e|exact Hk].
Qed.

(** One event of a node, and losses after it. *)
Lemma undisturbed_one n w0 op key ev evs w :
  Forall is_lose evs -> keyed n op key (nodes (net_step impl peer ev w)) -> (forall e, ev = NLocal n e -> patient w0 e) ->
  all_undisturbed impl peer n w0 op key (ev :: evs) w.
Proof. intros Hl Hk He. split; [by split|by apply undisturbed_loses]. Qed.

(** An event that moves no packet. *)
Lemma simulate_local w s n e :
  same w s -> (forall k, emitted e k = []) -> (forall i o now, e <> ERead i o now) ->
  (forall i m ec now, e <> EWrote i m ec now) -> simulates (SLocal n e) w s.
Proof.
  intros [En Hp] He Hr Hw.
  assert (Es : stream_step (SLocal n e) s = host_step n e s) by 
    (destruct e; first [by destruct (Hr _ _ _ eq_refl) | by destruct (Hw _ _ _ _ eq_refl) | done]).
  assert (Et : net_step impl peer (NLocal n e) w = node_step impl peer n e w) by 
    (destruct e; first [by destruct (Hr _ _ _ eq_refl) | done]).
  exists [NLocal n e]. cbn [net_run]. rewrite Es, Et. split_and!.
  - split; [by apply node_host|]. intros q. by rewrite host_pipes, node_wire.
  - cbn [tally transmitted frame_written]. destruct (nodes w !! n) as [k|]; [by rewrite He|done].
  - intros f _ _. done.
  - intros on_path Hk _. by split.
  - intros m w0 op key (Hpat & _ & Hk). rewrite Es in Hk. apply undisturbed_one; [constructor| |].
    + by rewrite Et, (node_host n e w s En).
    + intros e' [= <- <-]. by apply Hpat.
Qed.

Lemma simulate_cut w s q keep : same w s -> simulates (SCut q keep) w s.
Proof.
  intros [En Hp]. destruct (holds_cut _ _ keep (Hp q)) as [m Hm].
  destruct (lose_to q m w) as (evs & Hl & Hfit & Enodes & Eq & Ene).
  exists evs. split_and!.
  - split; [by rewrite Enodes|]. intros q'. destruct (decide (q' = q)) as [->|Hne].
    + rewrite Eq. cbn [stream_step]. by rewrite pipe_set_eq.
    + cbn [stream_step]. by rewrite pipe_set_ne, Ene.
  - by apply sent_loses.
  - intros f _ _. by apply locals_loses.
  - intros on_path Hk _. by apply Hfit.
  - intros n w0 op key (_ & Hk & _). apply undisturbed_loses; [done|]. by rewrite En.
Qed.

(** A packet that is written: on the wire, unless nobody or nothing is there. *)
Lemma write_node n i m now w s pkt :
  same w s -> to_write n i m s = Some pkt ->
  let w' := node_step impl peer n (EWrote i m ec_success now) w in
  wire w' = wire w ++ option_list ((fun q => (q, pkt)) <$> peer n i) /\
  forall loses, Forall is_lose loses -> sent (NLocal n (EWrote i m ec_success now) :: loses) w = 1.
Proof.
  intros [En _] Hw. unfold to_write in Hw.
  destruct (hosts s !! n) as [k|] eqn:Ek; [|done]. simpl in Hw.
  destruct (ifs k !! i) as [a|] eqn:Ea; [|done]. simpl in Hw.
  destruct (writing a !! m) as [v|] eqn:Ev; [|done]. injection Hw as <-. rewrite <-En in Ek. split.
  - unfold node_step. rewrite Ek. simpl. rewrite Ea, Ev. simpl. unfold sent_to. simpl.
    destruct (peer n i) as [[]|]; done.
  - intros loses Hl. cbn [tally]. rewrite sent_loses by done. simpl. by rewrite Ek, Ea, Ev.
Qed.

Lemma nodes_loses evs w : Forall is_lose evs -> nodes (run evs w) = nodes w.
Proof.
  intros Hl. revert w. induction Hl as [|ev evs Hev _ IH]; intros w; [done|]. destruct ev; try done. cbn [net_run]. by rewrite IH.
Qed.

(** So it is enough to look at the wire and the path. *)
Lemma simulate_wrote n i m now w s pkt loses :
  let wrote := NLocal n (EWrote i m ec_success now) :: loses in
  same w s -> to_write n i m s = Some pkt -> Forall is_lose loses ->
  same (run wrote w) (stream_step (SWrite n i m now) s) ->
  (forall on_path, path_open on_path s -> fit on_path wrote w) -> simulates (SWrite n i m now) w s.
Proof.
  intros wrote Hs Hw Hl Hs' Hfit. destruct (write_node n i m now w s pkt Hs Hw) as [_ Hsent].
  exists wrote. split_and!; [done| | |by intros on_path _; apply Hfit|].
  - cbn [frame_written]. rewrite Hw. by apply Hsent.
  - intros g Hg _. unfold locals, wrote. cbn [sum_list_with local]. rewrite Hg. by apply (locals_loses g loses).
  - intros n' w0 op key (_ & _ & Hk). apply undisturbed_one; [done| |by intros e [= <- <-]].
    rewrite <-(nodes_loses loses) by done. by rewrite (sm_nodes _ _ Hs' : nodes (run loses _) = _).
Qed.

Lemma simulate_write w s n i m now :
  same w s -> clean (SWrite n i m now) s -> simulates (SWrite n i m now) w s.
Proof.
  intros Hs Hc. unfold clean in Hc. destruct (to_write n i m s) as [pkt|] eqn:Hw.
  2:{ apply no_event; try done; simpl; unfold stream_write; by rewrite Hw. }
  destruct (Hc pkt eq_refl) as [f Hf]. destruct (write_node n i m now w s pkt Hs Hw) as [Ewire _].
  pose proof Hs as [En Hp]. destruct (peer n i) as [q|] eqn:Eq; simpl in Ewire.
  2:{ apply (simulate_wrote n i m now w s pkt []); [done..| |done].
    simpl. unfold stream_write. rewrite Hw, Eq, (write_packet pkt f) by done. cbn [fst snd].
    split; [by apply node_host|]. intros q. by rewrite host_pipes, Ewire, app_nil_r. }
  assert (Hpipe : forall q', q' <> q -> to_if q' (wire w ++ [(q, pkt)]) = to_if q' (wire w)).
  { intros q' Hq. by rewrite to_if_app, to_if_one, decide_False, app_nil_r. }
  destruct (closed (pipe_to q s)) eqn:Ecl.
  - apply (simulate_wrote n i m now w s pkt [NLose (length (wire w))]); [done|done|by repeat constructor| |].
    + simpl. unfold stream_write. rewrite Hw, Eq, (write_packet_broken pkt f) by done. cbn [fst snd].
      split; [by apply node_host|]. intros q'. cbn [wire]. rewrite Ewire, delete_middle, app_nil_r, host_pipes.
      destruct (decide (q' = q)) as [->|Hne]; [|by rewrite pipe_set_ne].
      rewrite pipe_set_eq. specialize (Hp q). by destruct (pipe_to q s).
    + intros on_path Ho. split; [done|]. split; [|done]. intros n' i' pkt' E Hp'. cbn [net_step] in E.
      rewrite Ewire, list_lookup_middle in E by done. injection E as Eq'.
      specialize (Ho q). rewrite Eq' in Ho. specialize (Ho Hp'). by rewrite <-Eq', Ecl in Ho.
  - apply (simulate_wrote n i m now w s pkt []); [done..| |done].
    simpl. unfold stream_write. rewrite Hw, Eq, (write_packet pkt f) by done. cbn [fst snd outbox writing_end].
    split; [by apply node_host|]. intros q'. rewrite Ewire, host_pipes.
    destruct (decide (q' = q)) as [->|Hne]; [|by rewrite pipe_set_ne, Hpipe].
    rewrite pipe_set_eq, to_if_app, to_if_one, decide_True, Ecl by done. by apply holds_write.
Qed.

(** A read that can complete, ... *)
Definition readable (n i : nat) (s : stream_net) : bool :=
  is_reading n i s && (whole_frame (content (pipe_to (n, i) s)) || closed (pipe_to (n, i) s)).

Lemma stream_read_eq n i now s :
  readable n i s = true -> stream_step (SRead n i now) s =
    let p := pipe_to (n, i) s in let r := async_read_packet (reading_end p) in
    let s := set_pipe (n, i) {| content := inbox r.2; closed := closed p |} s in
    match r.1 with Ret avpkt => host_step n (ERead i avpkt now) s | _ => host_fail n s end.
Proof. intros Er. cbn [stream_step]. unfold stream_read. unfold readable in Er. by rewrite Er. Qed.

Lemma read_undisturbed n i now s w n' w0 op key ev :
  nodes (net_step impl peer ev w) = hosts (stream_step (SRead n i now) s) -> (forall e, ev = NLocal n' e -> patient w0 e) ->
  watched n' w0 op key (SRead n i now) s -> all_undisturbed impl peer n' w0 op key [ev] w.
Proof. intros E He (_ & _ & Hk). apply undisturbed_one; [constructor| |done]. by rewrite E. Qed.

(** ... of a connection with nothing but part of a frame, ... *)
Lemma simulate_read_rest w s n i now :
  same w s -> clean (SRead n i now) s -> readable n i s = true -> to_if (n, i) (wire w) = [] -> simulates (SRead n i now) w s.
Proof.
  intros [En Hp] Hc Er Et. pose proof (stream_read_eq n i now s Er) as Estep. cbv zeta in Estep.
  pose proof (fun n' w0 op key ev => read_undisturbed n i now s w n' w0 op key ev) as Hund.
  unfold clean in Hc. pose proof (Hp (n, i)) as Hq. rewrite Et in Hq. unfold readable in Er. set (p := pipe_to (n, i) s) in *.
  destruct (holds_read_rest p Hq) as (Hnw & Hin & Hcl). rewrite Hnw in Er. apply andb_true_iff in Er as [_ Ecl].
  specialize (Hc Hnw). simpl in Ecl. rewrite Hin, Ecl in Estep. unfold simulates. rewrite Estep in *.
  assert (Hsame : forall q, holds (to_if q (wire w)) (pipe_to q (set_pipe (n, i) {| content := []; closed := true |} s))).
  { intros q. destruct (decide (q = (n, i))) as [->|Hne]; [|by rewrite pipe_set_ne].
    rewrite pipe_set_eq, Et. exists [], []. split_and!; [done|constructor|by left|done]. }
  assert (Hfailed : nodes (net_step impl peer (NFail n) w) = delete n (hosts s)) by (simpl; by rewrite En).
  destruct ((async_read_packet (reading_end p)).1) as [[pkt|]| | | |]; [by destruct (Hc pkt)|..].
  - exists [NLocal n (ERead i None now)]. split_and!.
    + split; [by apply node_host|]. intros q. rewrite host_pipes. cbn [net_run net_step].
      rewrite node_wire by done. apply Hsame.
    + simpl. by destruct (nodes w !! n).
    + intros f _ Hf. unfold locals. cbn [sum_list_with local]. by rewrite Hf.
    + intros on_path _ Ho. split; [|done]. intros Hn. specialize (Ho (n, i) Hn). subst p. by rewrite Ecl in Ho.
    + intros n' w0 op key. apply Hund; [by apply node_host|by intros e [= <- <-]].
  - exists [NFail n]. split_and!; [by split|done..|]. intros n' w0 op key. by apply Hund.
  - exists [NFail n]. split_and!; [by split|done..|]. intros n' w0 op key. by apply Hund.
  - exists [NFail n]. split_and!; [by split|done..|]. intros n' w0 op key. by apply Hund.
  - exists [NFail n]. split_and!; [by split|done..|]. intros n' w0 op key. by apply Hund.
Qed.

(** ... and of one with a packet. *)
Lemma simulate_read_packet w s n i now pkt ps :
  same w s -> readable n i s = true -> to_if (n, i) (wire w) = pkt :: ps -> simulates (SRead n i now) w s.
Proof.
  intros [En Hp] Er Et. pose proof (stream_read_eq n i now s Er) as Estep. cbv zeta in Estep.
  pose proof (fun n' w0 op key ev => read_undisturbed n i now s w n' w0 op key ev) as Hund.
  pose proof (Hp (n, i)) as Hq. rewrite Et in Hq. destruct (holds_read pkt ps _ Hq) as (rest & Hread & Hrest).
  rewrite Hread in Estep. cbn [fst snd inbox] in Estep. unfold simulates. rewrite Estep in *.
  destruct (to_if_delete (n, i) (wire w) [] pkt ps Et) as (j & Hj & Ej & Eo). simpl in Ej.
  set (s1 := set_pipe _ _ _) in *.
  assert (En1 : nodes (net_step impl peer (NDeliver j now) w) = hosts (host_step n (ERead i (Some pkt) now) s1))
    by (cbn [net_step]; rewrite Hj; by apply node_host).
  exists [NDeliver j now]. split_and!; [| |done| |].
  - split; [exact En1|]. intros q. cbn [net_run net_step]. rewrite Hj, host_pipes, node_wire by done. cbn [wire].
    unfold s1. destruct (decide (q = (n, i))) as [->|Hne]; [by rewrite pipe_set_eq, Ej|by rewrite pipe_set_ne, Eo].
  - cbn [tally transmitted]. done.
  - intros on_path _ _. split; [|done]. intros n' i' pkt' E _. rewrite Hj in E. injection E as <- <- <-.
    rewrite En. apply andb_prop in Er as [Er _]. unfold is_reading in Er.
    destruct (hosts s !! n) as [k|]; [|done]. simpl in Er. destruct (ifs k !! i) as [a|] eqn:Ea; [|done].
    exists k, a. split_and!; [done..|]. apply Nat.ltb_lt in Er. lia.
  - intros n' w0 op key. apply Hund; [exact En1|done].
Qed.

Lemma simulate_read w s n i now :
  same w s -> clean (SRead n i now) s -> simulates (SRead n i now) w s.
Proof.
  intros Hs Hc. destruct (readable n i s) eqn:Er.
  - destruct (to_if (n, i) (wire w)) as [|pkt ps] eqn:Et; [by apply simulate_read_rest|by eapply simulate_read_packet].
  - apply no_event; try done. simpl. unfold stream_read. unfold readable in Er. by rewrite Er.
Qed.

Lemma simulate_step ev w s : same w s -> clean ev s -> simulates ev w s.
Proof.
  intros Hs Hc. destruct ev as [n e|n i m now|n i now|q keep].
  - destruct e; try (by apply simulate_local).
    + apply no_event; try done. intros f _ Hf. unfold stream_locals. simpl. by rewrite Hf.
    + apply no_event; try done. intros f Hf _. unfold stream_locals. simpl. by rewrite Hf.
  - by apply simulate_write.
  - by apply simulate_read.
  - by apply simulate_cut.
Qed.

Lemma run_app evs1 evs2 w : run (evs1 ++ evs2) w = run evs2 (run evs1 w).
Proof. revert w. induction evs1 as [|ev evs1 IH]; intros w; [done|apply IH]. Qed.

Lemma sent_app evs1 evs2 w : sent (evs1 ++ evs2) w = sent evs1 w + sent evs2 (run evs1 w).
Proof.
  revert w. induction evs1 as [|ev evs1 IH]; intros w; [done|]. cbn [app tally net_run]. rewrite IH. lia.
Qed.

Lemma fit_app on_path evs1 evs2 w : fit on_path evs1 w -> fit on_path evs2 (run evs1 w) -> fit on_path (evs1 ++ evs2) w.
Proof. revert w. induction evs1 as [|ev evs1 IH]; intros w; [done|]. intros [Hev He] H3. split; [done|by apply IH]. Qed.

Lemma undisturbed_app n w0 op key evs1 evs2 w :
  all_undisturbed impl peer n w0 op key evs1 w -> all_undisturbed impl peer n w0 op key evs2 (run evs1 w) ->
  all_undisturbed impl peer n w0 op key (evs1 ++ evs2) w.
Proof. revert w. induction evs1 as [|ev evs1 IH]; intros w; [done|]. intros [Hev He] H3. split; [done|by apply IH]. Qed.

Lemma host_closed q n e s : closed (pipe_to q (host_step n e s)) = closed (pipe_to q s).
Proof. by rewrite host_pipes. Qed.

Lemma set_pipe_closed q q' p s :
  closed p = closed (pipe_to q s) -> closed (pipe_to q' (set_pipe q p s)) = closed (pipe_to q' s).
Proof.
  intros E. destruct (decide (q' = q)) as [->|Hq]; [by rewrite pipe_set_eq|by rewrite pipe_set_ne].
Qed.

Lemma open_step on_path ev s : path_kept on_path ev -> path_open on_path s -> path_open on_path (stream_step ev s).
Proof.
  intros Hk Ho q Hq. rewrite <-(Ho q Hq). destruct ev as [n e|n i m now|n i now|q' keep]; cbn [stream_step path_kept] in *.
  - destruct e; rewrite ?host_closed; done.
  - unfold stream_write. destruct (to_write n i m s) as [pkt|]; [|done].
    destruct (async_write_packet _ _ _).1 as [[]| | | |]; try done. rewrite host_closed.
    destruct (peer n i); [by apply set_pipe_closed|done].
  - unfold stream_read. destruct (_ && _); [|done].
    destruct (async_read_packet _).1; rewrite ?host_closed; by apply set_pipe_closed.
  - rewrite pipe_set_ne; [done|]. by intros ->.
Qed.

Fixpoint all_watched (n : nat) (w0 : waiter) (op : send_op) (key : RSA) (evs : list stream_event) (s : stream_net) : Prop :=
  match evs with [] => True | ev :: evs => watched n w0 op key ev s /\ all_watched n w0 op key evs (stream_step ev s) end.

Lemma simulate_run evs w s :
  same w s -> clean_run evs s ->
  exists nevs, same (run nevs w) (stream_run evs s) /\ sent nevs w = frames_written evs s /\
    (forall f, (forall i m ec now, f (EWrote i m ec now) = 0) -> (forall i o now, f (ERead i o now) = 0) ->
      locals f nevs = stream_locals f evs) /\
    (forall on_path, Forall (path_kept on_path) evs -> path_open on_path s -> fit on_path nevs w) /\
    forall n w0 op key, all_watched n w0 op key evs s -> all_undisturbed impl peer n w0 op key nevs w.
Proof.
  revert w s. induction evs as [|ev evs IH]; intros w s Hs Hc; [by exists []|].
  destruct Hc as [Hc Hcs]. destruct (simulate_step ev w s Hs Hc) as (evs1 & Hs1 & Et1 & Hf1 & Ha1 & Hu1).
  destruct (IH _ _ Hs1 Hcs) as (evs2 & Hs2 & Et2 & Hf2 & Ha2 & Hu2). exists (evs1 ++ evs2). split_and!.
  - rewrite run_app. exact Hs2.
  - rewrite sent_app, Et1, Et2. done.
  - intros f H3 H4. unfold locals. rewrite sum_list_with_app. fold (locals f evs1). fold (locals f evs2).
    rewrite Hf1, Hf2 by done. unfold stream_locals. simpl. lia.
  - intros on_path [Hk Hks]%Forall_cons Ho. apply fit_app; [by apply Ha1|]. apply Ha2; [done|]. by apply open_step.
  - intros n w0 op key [Hw Hws]. apply undisturbed_app; [by apply Hu1|by apply Hu2].
Qed.

Lemma same_init size : same (init_network size) (init_streams size).
Proof.
  split; [done|]. intros q. unfold pipe_to. simpl. rewrite lookup_empty. apply holds_open.
Qed.

(** C12: a network of nodes joined by TCP connections is a network of packets:
    whatever the nodes do, in whatever order the streams are written and read
    and wherever connections are cut, if the run is clean -- every packet written
    has a message that serialises to at least one byte and fits an int, and no
    rest of a frame that was cut off is, completed with zeros, taken for a packet,
    which the code does not rule out -- the nodes are, at the end, in the states
    of a run of the network of packets with the same events at the nodes, as many
    transmissions as frames were written, and on the wire exactly the packets
    whose frames are in the pipes.  So the bounds for networks hold: at most 448
    frames for each message. *)
Theorem streams_refine_network size evs :
  clean_run evs (init_streams size) ->
  (exists nevs,
     nodes (run nevs (init_network size)) = hosts (stream_run evs (init_streams size)) /\
     (forall q, holds (to_if q (wire (run nevs (init_network size)))) (pipe_to q (stream_run evs (init_streams size)))) /\
     sent nevs (init_network size) = frames_written evs (init_streams size) /\
     locals is_sendto nevs = stream_locals is_sendto evs) /\
  frames_written evs (init_streams size) <= 448 * stream_locals is_sendto evs.
Proof.
  intros Hc. destruct (simulate_run evs _ _ (same_init size) Hc) as (nevs & [En Hp] & Et & Hf & _).
  pose proof (Hf is_sendto (fun _ _ _ _ => eq_refl) (fun _ _ _ => eq_refl)) as El. split; [by exists nevs|].
  rewrite <-Et, <-El. apply transmissions_bounded.
Qed.
End streams.
