(* ===== verification/Delivery.v ===== *)
(** * Delivery: a message gets where it is sent, byte by byte

    Streams.v joined with Arrival.v and Inquiry.v: what is written on the connections of a path
    reaches the mailbox at its end, when nodes are processes joined by TCP. *)

From S2P Require Import Prelude Wire Serialization StdSort OpenSSL RsaChunk Regex Address CoroQueue Routing KeyStore Avif Kernel Effects Mailbox Hoare KernelInv Flow Network KernelSpec Sendto Wake Contact Arrival Asking Inquiry Jackif Streams.

#[local] Open Scope nat_scope.

Section delivery.
Context `{Host} `{Build} `{P : Protobuf} `{O : OpenSSL} `{BoostRegex} `{StdSort}.
Context `{!AvimProto P} `{!ProtobufLaws P} `{!AvimProtoLaws P AvimProto0}.
Context `{!StdSortLaws H2} `{!BoostRegexLaws H1} `{!OpenSSLLaws O}.
Context (impl : nat -> AvifImpl O) (peer : nat -> nat -> option (nat * nat)).

(** The nodes alone: what a path consists of does not depend on the wires. *)
Definition nodes_of (s : stream_net) : network := {| nodes := hosts s; wire := [] |}.

Lemma posting_nodes last last_in n m target data o me w w' :
  nodes w = nodes w' -> posting impl last last_in n m target data o me w -> posting impl last last_in n m target data o me w'.
Proof. unfold posting. by intros ->. Qed.

Lemma stops_nodes on_path d path w w' :
  nodes w = nodes w' -> Forall (stop_ok impl on_path d w) path -> Forall (stop_ok impl on_path d w') path.
Proof. intros E Hs. eapply Forall_impl; [exact Hs|]. unfold stop_ok, forwards. by rewrite E. Qed.

Lemma home_nodes n d w w' : nodes w = nodes w' -> home impl n d w -> home impl n d w'.
Proof. unfold home. by intros ->. Qed.

Lemma asking_nodes n m id target data nd me you key last last_in w w' :
  nodes w = nodes w' -> asking impl n m id target data nd me you key last last_in w ->
  asking impl n m id target data nd me you key last last_in w'.
Proof. unfold asking. by intros ->. Qed.

Lemma both_ways_nodes on_path n o last last_in path back op me w w' :
  nodes w = nodes w' -> both_ways impl on_path n o last last_in path back op me w ->
  both_ways impl on_path n o last last_in path back op me w'.
Proof.
  intros E [Hc Hh Hp Hc' Hh' Hp']. split; try by eapply stops_nodes. all: try by eapply home_nodes.
  all: unfold carries in *; by rewrite <-E.
Qed.

(** Every node has run by itself: what is proved of a kernel that has handled any
    events holds of a kernel among others. *)
Definition all_reached (s : stream_net) : Prop :=
  forall n k, hosts s !! n = Some k -> exists es, run_events (AvifImpl0 := impl n) es init_kernel = (Ret tt, k).

Lemma reached_host n e s : all_reached s -> all_reached (host_step impl n e s).
Proof.
  intros Hr. unfold host_step. destruct (hosts s !! n) as [k|] eqn:Ek; [|done].
  intros m k' Hk. simpl in Hk. destruct (step e k) as [[[]| | | |] k1] eqn:E;
    try by apply lookup_delete_Some in Hk as [_ Hk]; apply Hr.
  apply lookup_insert_Some in Hk as [[<- <-]|[_ Hk]]; [|by apply Hr].
  destruct (Hr n k Ek) as [es He]. exists (es ++ [e]). rewrite run_events_app.
  unfold st_bind. rewrite He. cbn [run_events]. unfold st_bind. by rewrite E.
Qed.

Lemma reached_step ev s : all_reached s -> all_reached (stream_step impl peer ev s).
Proof.
  intros Hr. assert (Hp : forall q p, all_reached (set_pipe q p s)) by done.
  assert (Hfail : forall n s, all_reached s -> all_reached (host_fail n s)).
  { intros n s0 Hs0 m k Hk. simpl in Hk. apply lookup_delete_Some in Hk as [_ Hk]. by apply Hs0. }
  destruct ev as [n e|n i m now|n i now|q keep]; cbn [stream_step].
  - destruct e; solve [done|by apply reached_host].
  - unfold stream_write. destruct (to_write n i m s) as [pkt|]; [|done].
    destruct (async_write_packet _ _ _).1 as [[]| | | |]; try by apply Hfail.
    apply reached_host. by destruct (peer n i).
  - unfold stream_read. destruct (_ && _); [|done].
    destruct (async_read_packet _).1; try by apply Hfail. by apply reached_host.
  - done.
Qed.

Lemma reached_run evs s : all_reached s -> all_reached (stream_run impl peer evs s).
Proof.
  revert s. induction evs as [|ev evs IH]; intros s Hr; [done|]. by apply IH, reached_step.
Qed.

Lemma reached_streams size evs : all_reached (stream_run impl peer evs (init_streams size)).
Proof.
  apply reached_run. intros n k [_ <-]%lookup_gset_to_gmap_Some. by exists [].
Qed.

Lemma streams_in_order size evs n k :
  hosts (stream_run impl peer evs (init_streams size)) !! n = Some k -> calm k -> in_order k.
Proof. intros [es E]%reached_streams Hc. by apply (reached_in_order (AvifImpl0 := impl n) es k tt). Qed.

(** Nothing is left to do on the path, and every byte sent to it was read. *)
Record path_rests (on_path : nat -> Prop) (s : stream_net) : Prop := {
  pr_alive q : on_path q -> is_Some (hosts s !! q);
  pr_idle q k : on_path q -> hosts s !! q = Some k -> idle k;
  pr_read q : on_path q.1 -> content (pipe_to q s) = []
}.

(** Frames are not empty: where no byte is left, no packet is. *)
Lemma holds_nothing ps p : holds ps p -> content p = [] -> ps = [].
Proof.
  intros (fs & tail & E & HF & _) Ec. rewrite Ec in E. symmetry in E. apply app_eq_nil in E as [E _].
  destruct HF as [|pkt f ps fs (body & _ & _ & _ & ->)]; [done|].
  apply app_eq_nil in E as [E _]. apply (f_equal length) in E. unfold Serialization.frame in E. rewrite !length_app in E. simpl in E. lia.
Qed.

Lemma to_if_wire q pkt (l : list (nat * nat * avPacket)) : (q, pkt) ∈ l -> pkt ∈ to_if q l.
Proof. intros Hl. apply list_elem_of_omap. exists (q, pkt). split; [done|]. unfold bound_for. by rewrite decide_True. Qed.

Lemma rests on_path w s : same w s -> path_rests on_path s -> at_rest on_path w.
Proof.
  intros [En Hp] [_ Hi Hr]. split.
  - intros n i pkt Hn Hin%to_if_wire. specialize (Hp (n, i)).
    apply holds_nothing in Hp; [|by apply Hr]. rewrite Hp in Hin. by apply elem_of_nil in Hin.
  - intros m k Hm Hk. rewrite En in Hk. by apply (Hi m).
Qed.

Lemma same_run_task n m now w s :
  same w s -> same (net_step impl peer (NLocal n (ERun m now)) w) (stream_step impl peer (SLocal n (ERun m now)) s).
Proof. intros [En Hq]. split; [by apply node_host|]. intros q. simpl. by rewrite host_pipes, node_wire. Qed.

(** C3: a message arrives over TCP: nodes are processes joined by TCP
    connections, and have run in any clean way; one of them runs the send of a text to
    an address for which it has a route and the key; fewer than 64 routers, each
    with a route that leads to the next, lie between it and the node of that
    address. Whatever else the nodes do, in whatever order the streams are
    written and read, and wherever other connections are cut, as long as on the
    path no node fails, no connection is cut and nothing is added to the tables,
    and the run stays clean (at every node, before and after: each packet written
    can be framed, and no rest of a cut frame, completed with zeros, is taken for
    a packet -- see [clean]): once the path has nothing left to run and has read every byte sent to it, the
    text, as coming from the sender's address, has been received, is on its way
    to a receiver, or waits in the receive queue of its destination. *)
Theorem message_arrives_over_tcp size before evs m now n path target data o me (on_path : nat -> Prop) last last_in :
  let s := stream_run impl peer before (init_streams size) in
  let run := SLocal n (ERun m now) :: evs in
  let s' := stream_run impl peer run s in
  clean_run impl peer before (init_streams size) -> path_open on_path s ->
  posting impl last last_in n m target data o me (nodes_of s) ->
  on_path n -> linked peer last last_in n o path -> (length path < 64)%nat ->
  Forall (stop_ok impl on_path (split_address target) (nodes_of s)) path ->
  on_path last -> home impl last (split_address target) (nodes_of s) ->
  clean_run impl peer run s -> Forall (path_kept on_path) run -> path_rests on_path s' ->
  arrived_at last (av_address_to_string me, data) (nodes_of s').
Proof.
  intros s run s' Hb Ho Hpost Hp Hlk Hlen Hpath Hl Hh Hc [_ Hk]%Forall_cons Hr.
  destruct (simulate_run impl peer before _ _ (same_init size) Hb) as (nbefore & Hs & _).
  set (w := net_run impl peer nbefore (init_network size)) in *.
  pose proof (same_run_task n m now w s Hs) as Hs1.
  destruct (simulate_run impl peer evs _ _ Hs1 (proj2 Hc)) as (nevs & Hs2 & _ & _ & Hfit).
  pose proof (eq_sym (sm_nodes _ _ Hs) : nodes (nodes_of s) = nodes w) as En.
  destruct (posting_arrives impl peer on_path last last_in nevs m now n path target data o me w) as (k & Hkk & Hv);
    [by eapply posting_nodes|done|done|done|by eapply stops_nodes|done|by eapply home_nodes|..].
  - split; [done|]. apply Hfit; [done|]. by apply open_step.
  - intros q Hq. cbn [net_run]. rewrite (sm_nodes _ _ Hs2). by apply (pr_alive on_path s' Hr).
  - by apply (rests on_path _ s').
  - exists k. split; [|done]. cbn [net_run] in Hkk. by rewrite (sm_nodes _ _ Hs2) in Hkk.
Qed.

(** C5: a first message arrives over TCP: nodes are processes joined by TCP
    connections, and have run in any clean way; one of them runs the send of a text to
    an address for which it has a route and no key; fewer than 64 routers each
    way lie between it and the node of that address, with routes that lead there,
    and back. Whatever else the nodes do, in whatever order the streams are
    written and read, and wherever other connections are cut, as long as on the
    two paths no node fails, no connection is cut and nothing is added to the
    tables, no tick at the sender finds the deadline of the question passed, and
    no key but the one in the destination's certificate is stored for the address
    there, and the run stays clean (at every node, before and after: each packet
    written can be framed, and no rest of a cut frame, completed with zeros, is
    taken for a packet -- see [clean]): once the path has nothing left to run and has read every byte sent to
    it, the key was asked for and brought back, and the text, as coming from the
    sender's address, has been received, is on its way to a receiver, or waits in
    the receive queue of its destination. *)
Theorem first_message_over_tcp size before evs n m now last last_in back_in path back id target data nd me you key (on_path : nat -> Prop) :
  let s := stream_run impl peer before (init_streams size) in
  let run := SLocal n (ERun m now) :: evs in
  let s' := stream_run impl peer run s in
  let op := new_send target data nd in
  clean_run impl peer before (init_streams size) -> path_open on_path s ->
  asking impl n m id target data nd me you key last last_in (nodes_of s) ->
  on_path n -> on_path last ->
  linked peer last last_in n (node_if nd) path -> linked peer n back_in last last_in back ->
  (length path < 64)%nat -> (length back < 64)%nat ->
  both_ways impl on_path n (node_if nd) last last_in path back op me (nodes_of s) ->
  clean_run impl peer run s -> Forall (path_kept on_path) run ->
  all_watched impl peer n (its_waiter now id target) op key run s -> path_rests on_path s' ->
  arrived_at last (av_address_to_string me, data) (nodes_of s').
Proof.
  intros s run s' op Hb Ho Hask Hp Hl Hlk Hlkb Hlen Hlenb Hboth Hc [_ Hk]%Forall_cons [_ Hwatch] Hr.
  destruct (simulate_run impl peer before _ _ (same_init size) Hb) as (nbefore & Hs & _).
  set (w := net_run impl peer nbefore (init_network size)) in *.
  pose proof (same_run_task n m now w s Hs) as Hs1.
  destruct (simulate_run impl peer evs _ _ Hs1 (proj2 Hc)) as (nevs & Hs2 & _ & _ & Hfit & Hund).
  pose proof (eq_sym (sm_nodes _ _ Hs) : nodes (nodes_of s) = nodes w) as En.
  destruct (asking_arrives impl peer on_path nevs n m now last last_in back_in path back id target data nd me you key w) as (k & Hkk & Hv);
    [by eapply asking_nodes|done..|by eapply both_ways_nodes| | | | |].
  - split; [done|]. apply Hfit; [done|]. by apply open_step.
  - by apply Hund.
  - intros q Hq. cbn [net_run]. rewrite (sm_nodes _ _ Hs2). by apply (pr_alive on_path s' Hr).
  - by apply (rests on_path _ s').
  - exists k. split; [|done]. cbn [net_run] in Hkk. by rewrite (sm_nodes _ _ Hs2) in Hkk.
Qed.
End delivery.
