(* ===== verification/StreamDemo.v ===== *)
(** * StreamDemo: a message over TCP

    alice's and bob's nodes of KernelDemo, joined by one connection, with a
    serialisation of packets that works for all of them.  alice sends her first
    message: question, answer and message travel as bytes. *)

From S2P Require Import Prelude Wire Serialization StdSort OpenSSL RsaChunk Regex Address CoroQueue Routing KeyStore Avif Kernel Effects Hoare KernelInv Prices Network KernelSpec Sendto KernelDemo Jackif Streams.

(** ** Packets as bytes *)
Module ToyProto.
Fixpoint bits (p : positive) : bytes :=
  match p with xH => [x02] | xO p => x00 :: bits p | xI p => x01 :: bits p end.
Fixpoint of_bits (b : bytes) : option positive :=
  match b with
  | [x02] => Some xH
  | x00 :: b => xO <$> of_bits b
  | x01 :: b => xI <$> of_bits b
  | _ => None
  end.

Lemma of_bits_bits p : of_bits (bits p) = Some p.
Proof. induction p as [p IH|p IH|]; simpl; rewrite ?IH; done. Qed.

Definition of_address (a : avAddress) : string * string * option string :=
  (username a, domain a, resource a).
Definition to_address (t : string * string * option string) : avAddress :=
  {| username := t.1.1; domain := t.1.2; resource := t.2 |}.

Definition of_packet (p : avPacket) :=
  (of_address (src p), of_address (dest p), upperlayerpotocol p, b2s <$> payload p,
   b2s <$> publickey p, time_to_live p).
Definition to_packet (t : _) : avPacket :=
  let '(s, d, u, p, k, n) := t in
  {| src := to_address s; dest := to_address d; upperlayerpotocol := u; payload := s2b <$> p;
     publickey := s2b <$> k; time_to_live := n |}.

Lemma to_packet_of p : to_packet (of_packet p) = p.
Proof.
  destruct p as [[] [] u [pl|] [pk|] n]; unfold of_packet, to_packet; simpl; by rewrite ?s2b_b2s.
Qed.

(** The fields of a new message. *)
Definition no_packet : avPacket :=
  {| src := {| username := ""; domain := ""; resource := None |};
    dest := {| username := ""; domain := ""; resource := None |}; upperlayerpotocol := "";
    payload := None; publickey := None; time_to_live := 0 |}.

Definition serialize (p : avPacket) : bytes := bits (countable.encode (of_packet p)).
Definition parse (b : bytes) : option avPacket := p ← of_bits b; to_packet <$> countable.decode p.

Lemma countable_law `{EqDecision A} `{HC : Countable A} (x : A) :
  countable.decode (countable.encode x) = Some x.
Proof. destruct HC as [enc dec law]. apply law. Qed.

Lemma parse_serialize p : parse (serialize p) = Some p.
Proof.
  unfold parse, serialize. rewrite of_bits_bits. cbn.
  rewrite countable_law. exact (f_equal Some (to_packet_of p)).
Qed.

#[local] Instance protobuf : Protobuf := {|
  message := avPacket; descriptor := unit; GetTypeName _ := "proto.avPacket";
  AppendToString p := Some (serialize p); FindMessageTypeByName _ := Some tt;
  GetPrototype _ := Some no_packet;
  New p := p; ParseFromArray _ := parse
|}.

#[local] Instance protobuf_laws : ProtobufLaws protobuf.
Proof. split; [intros m; by eexists _, _|]. intros m d proto b _ _ [= <-]. apply parse_serialize. Defined.

#[local] Instance proto : AvimProto protobuf := {|
  of_avPacket p := p; as_avPacket p := Some p;
  client_hello_message _ _ _ := no_packet;
  as_server_hello _ := None;
  login_message _ _ := no_packet;
  as_login_result _ := None
|}.

#[local] Instance proto_laws : AvimProtoLaws protobuf proto.
Proof. split. done. Defined.
End ToyProto.

Module StreamDemo.
Import KernelDemo.KernelDemo.
#[local] Existing Instances x86_host debug_build Toy.openssl Toy.laws ToyRegex.boost ToyRegex.laws
  InsertionSort.std InsertionSort.std_laws links ToyProto.protobuf ToyProto.protobuf_laws ToyProto.proto
  ToyProto.proto_laws.

(** alice is node 0 with interface 0, bob node 1 with interface 1. *)
Definition cable (n i : nat) : option (nat * nat) :=
  match n, i with 0%nat, 0%nat => Some (1, 1)%nat | 1%nat, 1%nat => Some (0, 0)%nat | _, _ => None end.

Definition impls (_ : nat) : AvifImpl Toy.openssl := links.

Definition first_message : list stream_event :=
  (SLocal 0 <$> A) ++ (SLocal 1 <$> B) ++
  [SLocal 0 (ESendto "bob@av" hello); SLocal 0 (ERun 0 0); SLocal 0 (ERun 0 1); SWrite 0 0 0 2;
   SRead 1 1 3; SLocal 1 (ERun 0 4); SLocal 1 (ERun 0 5); SWrite 1 1 0 6;
   SRead 0 0 7; SLocal 0 (ERun 0 8); SLocal 0 (ERun 0 9); SWrite 0 0 0 10;
   SRead 1 1 11; SLocal 1 (ERun 0 12)].

Example text_arrives :
  (fun k => m_list (m_recv_buffer k)) <$> (hosts (stream_run impls cable first_message (init_streams 2)) !! 1%nat) =
    Some [("alice@av", hello)].
Proof. vm_compute. reflexivity. Qed.
Lemma first_message_clean : clean_run impls cable first_message (init_streams 2).
Proof. apply clean_runb_ok. vm_compute. reflexivity. Qed.

Lemma streams_refine_network_witness :
  (exists nevs,
     nodes (net_run impls cable nevs (init_network 2)) = hosts (stream_run impls cable first_message (init_streams 2)) /\
     tally impls cable transmitted nevs (init_network 2) = 3%nat) /\
  (frames_written impls cable first_message (init_streams 2) <= 448 * 1)%nat.
Proof.
  destruct (streams_refine_network impls cable 2 first_message first_message_clean)
    as [(nevs & En & _ & Et & _) Hb].
  split; [|exact Hb]. exists nevs. split; [exact En|]. rewrite Et. vm_compute. reflexivity.
Defined.

(** The connection is cut inside the question: bob's reader uses a length it has
    not read, or what is missing is taken for zeros. *)
Definition cut_after (keep : nat) : list stream_event :=
  take 14 first_message ++ [SCut (1, 1)%nat keep; SRead 1 1 3].

Example cut_kills_reader :
  hosts (stream_run impls cable (cut_after 3) (init_streams 2)) !! 1%nat = None /\
  is_Some (hosts (stream_run impls cable (cut_after 3) (init_streams 2)) !! 0%nat).
Proof. split; vm_compute; [reflexivity|by eexists]. Qed.
End StreamDemo.
