(* ===== verification/DeliveryDemo.v ===== *)
(** * DeliveryDemo: two messages through a router, over TCP

    alice's node, a router and bob's node of ArrivalDemo, as processes joined by
    two connections.  The theorem about first messages over TCP is applied to a
    text for bob, whose key alice has to ask for; the one about messages that
    arrive over TCP to the second of two texts. *)

From S2P Require Import Prelude Wire Serialization StdSort OpenSSL RsaChunk Regex Address CoroQueue Routing KeyStore Avif Kernel Effects Mailbox Hoare KernelInv Flow Network KernelSpec Sendto Wake Relay Contact Arrival Asking Inquiry KernelDemo RunDemo ArrivalDemo InquiryDemo Jackif Streams Delivery StreamDemo.

Module DeliveryDemo.
Import KernelDemo.KernelDemo RunDemo.RunDemo ArrivalDemo.ArrivalDemo InquiryDemo.InquiryDemo.
#[local] Existing Instances x86_host debug_build Toy.openssl Toy.laws ToyRegex.boost ToyRegex.laws
  InsertionSort.std InsertionSort.std_laws links ToyProto.protobuf ToyProto.protobuf_laws ToyProto.proto
  ToyProto.proto_laws.

(** The router forwards a packet that it reads, and writes it. *)
Definition passes (i o : nat) (now : Z) : list stream_event :=
  [SRead 1 i now; SLocal 1 (ERun 0 now); SLocal 1 (ERun 0 now); SWrite 1 o 0 now].
(** The router prefers this interface from now on. *)
Definition prefers (name : string) (metric : Z) : stream_event := SLocal 1 (EAddRoute ".+@.+" "" name metric).

(** The question goes east, the key comes west, the message goes east; alice is
    given a second text. *)
Definition before : list stream_event :=
  (SLocal 0 <$> A) ++ (SLocal 1 <$> router_starts) ++ (SLocal 2 <$> B) ++
  [SLocal 0 (ESendto "bob@av" hello); SLocal 0 (ERun 0 0); SLocal 0 (ERun 0 1); SWrite 0 0 0 2] ++
  passes 0 1 3 ++ [SRead 2 1 4; SLocal 2 (ERun 0 5); SLocal 2 (ERun 0 6); SWrite 2 1 0 7; prefers "west" 50] ++
  passes 1 0 8 ++ [SRead 0 0 9; SLocal 0 (ERun 0 10); SLocal 0 (ERun 0 11); SWrite 0 0 0 12; prefers "east" 20] ++
  passes 0 1 13 ++ [SRead 2 1 14; SLocal 2 (ERun 0 15); SLocal 0 (ESendto "bob@av" (s2b "are you there?"))].

Definition text : bytes := s2b "are you there?".
Abbreviation streams := (stream_run node_links cables).
Abbreviation now_is := (streams before (init_streams 3)).
Definition host_of (evs : list stream_event) (n : nat) : kernel := default init_kernel (hosts (streams evs (init_streams 3)) !! n).
Abbreviation host := (host_of before).

Definition served : list stream_event :=
  [SLocal 0 (ERun 0 17); SWrite 0 0 0 17] ++ passes 0 1 18 ++ [SLocal 2 ERecvfrom; SRead 2 1 19; SLocal 2 (ERun 1 20); SLocal 2 (ERun 0 21); SLocal 2 (ERun 0 22)].
Abbreviation later := (streams (SLocal 0 (ERun 0 16) :: served) now_is).

(** Every node is there, and no interface of it is quitting. *)
Definition well (s : stream_net) : bool :=
  forallb (fun n => match hosts s !! n with
    | Some k => forallb (fun e : nat * avif_state => negb (quitting e.2)) (map_to_list (ifs k))
    | None => false end) [0; 1; 2]%nat.

Lemma host_well evs n : well (streams evs (init_streams 3)) = true -> member n ->
  hosts (streams evs (init_streams 3)) !! n = Some (host_of evs n) /\ in_order (host_of evs n).
Proof.
  intros E Hn. unfold well in E. rewrite forallb_forall in E. specialize (E n). unfold host_of.
  destruct (hosts (streams evs (init_streams 3)) !! n) as [k|] eqn:Ek.
  - split; [done|]. apply (streams_in_order node_links cables 3 evs n); [done|]. apply calmb, E. unfold member in Hn. simpl. lia.
  - discriminate E. unfold member in Hn. simpl. lia.
Qed.

Lemma now_well : well now_is = true.
Proof. vm_compute. reflexivity. Qed.
Lemma host_at n : member n -> hosts now_is !! n = Some (host n).
Proof. apply host_well, now_well. Qed.
Lemma host_in_order n : member n -> in_order (host n).
Proof. intros Hn. by apply (host_well before n now_well). Qed.

Lemma members : member 0 /\ member 1 /\ member 2.
Proof. unfold member. lia. Qed.

Lemma alice_posts : posting node_links 2 1 0 0 "bob@av" text 0 alice (nodes_of now_is).
Proof.
  exists (host 0), 1%nat, "if0", link, (x01 : @RSA Toy.openssl), (x01 : @RSA Toy.openssl),
    (x02 : @RSA Toy.openssl), (x02 : @RSA Toy.openssl).
  split_and!; [apply (host_at 0), members|vm_compute; reflexivity|apply host_in_order, members|vm_compute; lia| | | | | | | | | |];
    try (vm_compute; reflexivity).
  - apply toy_seal_ok; [discriminate|]. vm_compute. split; discriminate.
  - apply toy_seal_ok; [discriminate|]. vm_compute. split; discriminate.
Qed.

Lemma router_goes_on : stop_ok node_links member (split_address "bob@av") (nodes_of now_is) (1, 0, 1)%nat.
Proof.
  split; [apply members|]. exists (host 1), "east", {| node_id := 1; node_if := 1 |}.
  split_and!; [apply (host_at 1), members|apply host_in_order, members|vm_compute; lia| |vm_compute; reflexivity|vm_compute; reflexivity|reflexivity].
  exists "east", {| node_id := 1; node_if := 1 |}. split; [vm_compute; reflexivity|reflexivity].
Qed.

Lemma bob_is_home : home node_links 2 (split_address "bob@av") (nodes_of now_is).
Proof. exists (host 2). split_and!; [apply (host_at 2), members|apply host_in_order, members|vm_compute; reflexivity]. Qed.

(** What is asked of the two states, decided. *)
Definition unclosed (s : stream_net) : bool := forallb (fun e : (nat * nat) * pipe => negb (closed e.2)) (map_to_list (pipes s)).
Definition unread (s : stream_net) : bool :=
  forallb (fun e : (nat * nat) * pipe => match content e.2 with [] => true | _ => false end) (map_to_list (pipes s)).
Definition idles (s : stream_net) : bool :=
  forallb (fun n => match hosts s !! n with Some k => match tasks k with [] => true | _ => false end &&
    forallb (fun e : nat * avif_state => match writing e.2 with [] => true | _ => false end) (map_to_list (ifs k))
    | None => false end) [0; 1; 2]%nat.

Lemma forall_pipes (test : pipe -> bool) s q :
  forallb (fun e : (nat * nat) * pipe => test e.2) (map_to_list (pipes s)) = true -> test open_pipe = true ->
  test (pipe_to q s) = true.
Proof.
  intros Ha Ho. unfold pipe_to. destruct (pipes s !! q) as [p|] eqn:E; [|done]. rewrite forallb_forall in Ha.
  apply (Ha (q, p)). by apply list_elem_of_In, elem_of_map_to_list.
Qed.

Lemma unclosed_open s : unclosed s = true -> path_open member s.
Proof. intros Hu q _. apply negb_true_iff. by apply (forall_pipes (fun p => negb (closed p)) s q). Qed.

Lemma path_restsb s : idles s = true -> unread s = true -> path_rests member s.
Proof.
  intros Hi Hu. unfold idles in Hi. rewrite forallb_forall in Hi.
  assert (Hq : forall q, member q -> exists k, hosts s !! q = Some k /\ idle k).
  { intros q Hq. specialize (Hi q). destruct (hosts s !! q) as [k|].
    - exists k. split; [done|]. apply idleb, Hi. unfold member in Hq. simpl. lia.
    - discriminate Hi. unfold member in Hq. simpl. lia. }
  split; [intros q Hm; destruct (Hq q Hm) as (k & -> & _); by eexists| |].
  - intros q k Hm Hk. destruct (Hq q Hm) as (k' & Hk' & ?). congruence.
  - intros q _. pose proof (forall_pipes (fun p => match content p with [] => true | _ => false end) s q Hu eq_refl) as E.
    simpl in E. by destruct (content (pipe_to q s)).
Qed.

Lemma served_path_kept : Forall (path_kept member) (SLocal 0 (ERun 0 16) :: served).
Proof. unfold served, passes. repeat (constructor; [done|]). constructor. Qed.

Lemma message_arrives_over_tcp_witness : arrived_at 2 (av_address_to_string alice, text) (nodes_of later).
Proof.
  apply (message_arrives_over_tcp node_links cables 3 before served 0 16 0 [(1, 0, 1)%nat] "bob@av" text 0 alice member 2 1).
  - apply clean_runb_ok. vm_compute. reflexivity.
  - apply unclosed_open. vm_compute. reflexivity.
  - exact alice_posts.
  - apply members.
  - split; reflexivity.
  - simpl. lia.
  - exact (Forall_cons_2 _ _ _ router_goes_on (Forall_nil_2 _)).
  - apply members.
  - exact bob_is_home.
  - apply clean_runb_ok. vm_compute. reflexivity.
  - exact served_path_kept.
  - apply path_restsb; vm_compute; reflexivity.
Defined.

(** ** A first message *)

(** The nodes are started, alice is given a text for bob. *)
Definition started : list stream_event :=
  (SLocal 0 <$> A_writes) ++ (SLocal 1 <$> router_both) ++ (SLocal 2 <$> B).
Abbreviation at_start := (streams started (init_streams 3)).

(** A tick of alice's timer comes while the question is on its way. *)
Definition answers : list stream_event :=
  [SLocal 0 (ERun 0 2); SWrite 0 0 0 2] ++ passes 0 1 3 ++ [SLocal 0 (ETimer1 ec_success 4)] ++
  [SRead 2 1 4; SLocal 2 (ERun 0 5); SLocal 2 (ERun 0 6); SWrite 2 1 0 7] ++ passes 1 0 8 ++
  [SRead 0 0 9; SLocal 0 (ERun 0 10); SLocal 0 (ERun 0 11); SWrite 0 0 0 12] ++ passes 0 1 13 ++ [SRead 2 1 14; SLocal 2 (ERun 0 15)].
Definition asked_run : list stream_event := SLocal 0 (ERun 0 1) :: answers.
Abbreviation at_end := (streams asked_run at_start).

Abbreviation first_host := (host_of started).
Lemma start_well : well at_start = true.
Proof. vm_compute. reflexivity. Qed.
Lemma first_host_at n : member n -> hosts at_start !! n = Some (first_host n) /\ in_order (first_host n).
Proof. apply host_well, start_well. Qed.

Definition watchedb (ev : stream_event) (s : stream_net) : bool :=
  let keyedb s := match hosts s !! 0%nat with
    | Some k => match find_RSA_pubkey "bob@av" (trusted_pubkey k) with
        | Ret (Some key) => bool_decide (key = (x02 : Byte.byte)) | _ => true end
    | None => true end in
  match ev with SLocal _ (ETimer1 _ t) => t <=? deadline w0 | _ => true end && keyedb s && keyedb (stream_step node_links cables ev s).

Fixpoint all_watchedb (evs : list stream_event) (s : stream_net) : bool :=
  match evs with [] => true | ev :: evs => watchedb ev s && all_watchedb evs (stream_step node_links cables ev s) end.

Lemma all_watchedb_ok evs s :
  all_watchedb evs s = true -> all_watched node_links cables 0 w0 the_send (x02 : @RSA Toy.openssl) evs s.
Proof.
  revert s. induction evs as [|ev evs IH]; intros s; cbn [all_watchedb all_watched]; [done|].
  intros [[[Hp Hk]%andb_prop Hk']%andb_prop Hevs]%andb_prop.
  assert (Hkeyed : forall s0, match hosts s0 !! 0%nat with
      | Some k => match find_RSA_pubkey "bob@av" (trusted_pubkey k) with
          | Ret (Some key) => bool_decide (key = (x02 : Byte.byte)) | _ => true end
      | None => true end = true -> keyed 0 the_send (x02 : @RSA Toy.openssl) (hosts s0)).
  { intros s0 E k key' Hk0 Hf. rewrite Hk0 in E. change (s_target the_send) with "bob@av" in Hf. rewrite Hf in E.
    by apply bool_decide_eq_true in E. }
  split; [split_and!|by apply IH].
  - intros e ->. destruct e; try done. by apply Z.leb_le.
  - by apply Hkeyed.
  - by apply Hkeyed.
Qed.

Lemma alice_asks : asking node_links 0 0 0 "bob@av" hello link alice bob (x02 : @RSA Toy.openssl) 2 1 (nodes_of at_start).
Proof.
  exists (first_host 0), "if0", (x01 : @RSA Toy.openssl), (x01 : @RSA Toy.openssl), (x02 : @X509 Toy.openssl), (x02 : @RSA Toy.openssl).
  split_and!; [apply (first_host_at 0), members| | | | | | | | | | | | | |]; try (vm_compute; reflexivity).
  - eexists _, _. split_and!; reflexivity.
  - apply toy_seal_ok; [discriminate|]. vm_compute. split; discriminate.
  - apply toy_seal_ok; [discriminate|]. vm_compute. split; discriminate.
Qed.

Lemma first_router_forwards (o : nat) (name target : string) :
  (o = 0%nat /\ name = "west" /\ target = "alice@av") \/ (o = 1%nat /\ name = "east" /\ target = "bob@av") ->
  stop_ok node_links member (split_address target) (nodes_of at_start) (1%nat, (1 - o)%nat, o).
Proof.
  intros Hcase. split; [apply members|]. exists (first_host 1), name, {| node_id := o; node_if := o |}.
  destruct Hcase as [(-> & -> & ->)|(-> & -> & ->)];
    (split_and!; [apply (first_host_at 1), members|apply (first_host_at 1), members|vm_compute; lia| |vm_compute; reflexivity|vm_compute; reflexivity|reflexivity]).
  - exists "west", {| node_id := 0; node_if := 0 |}. split; [vm_compute; reflexivity|reflexivity].
  - exists "east", {| node_id := 1; node_if := 1 |}. split; [vm_compute; reflexivity|reflexivity].
Qed.

(** An end of the two paths, with the interface it writes to. *)
Lemma first_end n o self :
  (n = 0%nat /\ o = 0%nat /\ self = "alice@av") \/ (n = 2%nat /\ o = 1%nat /\ self = "bob@av") ->
  carries n o (nodes_of at_start) /\ home node_links n (split_address self) (nodes_of at_start).
Proof.
  intros Hcase. assert (Hn : member n) by (unfold member; lia). destruct (first_host_at n Hn) as [Hk Hok].
  assert (E : (writers o (first_host n) <= 1)%nat /\ in_table o (first_host n) /\
    is_to_me_in (AvifImpl0 := node_links n) (split_address self) (map_iter (m_avifs (table (first_host n)))) = Ret true).
  { destruct Hcase as [(-> & -> & ->)|(-> & -> & ->)]; split_and!; try (vm_compute; reflexivity); try (vm_compute; lia).
    - exists "if0", {| node_id := 0; node_if := 0 |}. split; vm_compute; reflexivity.
    - exists "if1", {| node_id := 0; node_if := 1 |}. split; vm_compute; reflexivity. }
  destruct E as (Ew & Et & Em). split; [exact (ex_intro _ _ (conj Hk (conj Hok (conj Ew Et))))|exact (ex_intro _ _ (conj Hk (conj Hok Em)))].
Qed.

Lemma first_both_ways : both_ways node_links member 0 0 2 1 [(1, 0, 1)%nat] [(1, 1, 0)%nat] the_send alice (nodes_of at_start).
Proof.
  destruct (first_end 0 0 "alice@av") as [Hc Hh]; [auto|]. destruct (first_end 2 1 "bob@av") as [Hc' Hh']; [auto|].
  split; try done; repeat constructor; try apply members.
  - apply (first_router_forwards 1 "east" "bob@av"). auto.
  - apply (first_router_forwards 0 "west" "alice@av"). auto.
Qed.

Lemma first_message_over_tcp_witness : arrived_at 2 (av_address_to_string alice, hello) (nodes_of at_end).
Proof.
  apply (first_message_over_tcp node_links cables 3 started answers 0 0 1 2 1 0 [(1, 0, 1)%nat] [(1, 1, 0)%nat] 0 "bob@av" hello
    link alice bob (x02 : @RSA Toy.openssl) member).
  - apply clean_runb_ok. vm_compute. reflexivity.
  - apply unclosed_open. vm_compute. reflexivity.
  - exact alice_asks.
  - apply members.
  - apply members.
  - split; reflexivity.
  - split; reflexivity.
  - simpl. lia.
  - simpl. lia.
  - exact first_both_ways.
  - apply clean_runb_ok. vm_compute. reflexivity.
  - unfold answers, passes. repeat (constructor; [done|]). constructor.
  - apply all_watchedb_ok. vm_compute. reflexivity.
  - apply path_restsb; vm_compute; reflexivity.
Defined.
End DeliveryDemo.
