(* ===== verification/Login.v ===== *)
(** * Login: how the programs bring an interface up

    The sequence handshake, [add_interface], [add_route] of demo/new_im.cpp
    ([msg_login_and_send]), libavproto/src/avC_stub.cpp ([jackif_login]) and
    gui/gavim.cpp ([recvThread::run]).  It works for an interface whose name does
    not change; avjackif gives a new name at every call, and with it no program
    ever gets a route. *)

From S2P Require Import Prelude StdSort OpenSSL Regex Address CoroQueue Routing KeyStore Avif Kernel Hoare KernelInv Wire Serialization Jackif.
From Stdlib Require Import Ascii.

Section login.
Context `{Build} `{OpenSSL} `{BoostRegex} `{StdSort} `{!AvifImpl H0}.

(** [msg_login_and_send] and [jackif_login] after the handshake returned [ok]. *)
Definition login_and_route (i : nat) (ok : bool) : ST kernel unit :=
  let* me := st_lift (deref (if_address i)) in
  let me_addr := av_address_to_string me in
  if ok then
    let* added := add_interface i in
    if added then
      let* name := ask_ifname i in
      let* _ := kernel_add_route ".+@.+" me_addr name 100 in st_ret tt
    else st_ret tt
  else st_ret tt.

(** [recvThread::run] after [handshake()]: the results are ignored. *)
Definition run_login (i : nat) : ST kernel unit :=
  let* _ := add_interface i in
  let* me := st_lift (deref (if_address i)) in
  let* name := ask_ifname i in
  let* _ := kernel_add_route ".+@.+" (av_address_to_string me) name 100 in
  st_ret tt.

(** ** With a stable name *)

(** The state [add_interface] leaves. *)
Definition added (name : string) (i : nat) (k : kernel) : kernel :=
  let k1 := set_table (insert_interface name {| node_id := next_node k; node_if := i |} (table k)) k in
  with_counters (3 + names_asked k) (S (next_node k)) (next_op k)
    (set_tasks (tasks k ++ [TRunner i; TWriter i]) k1).

Lemma add_interface_eq i k :
  is_Some (remote_address i) ->
  let name := get_ifname i (1 + names_asked k) in
  add_interface i k =
    (Ret (bool_decide (is_Some (m_avifs (table (added name i k)) !! get_ifname i (2 + names_asked k)))),
     added name i k).
Proof.
  intros [r Hr] name. unfold add_interface, st_bind, ask_ifname, st_lift, read_k. cbn [fst snd].
  rewrite Hr. done.
Qed.

Lemma insert_interface_has name nd (t : rtable node) :
  is_Some (m_avifs (insert_interface name nd t) !! name).
Proof.
  unfold insert_interface. destruct (m_avifs t !! name) eqn:E; [by rewrite E|].
  simpl. rewrite lookup_insert_eq. eauto.
Qed.

Context `{!StableNames H0 AvifImpl0} `{!StdSortLaws H2} `{!BoostRegexLaws H1}.

(** For an interface whose name does not change the login sequence works:
    after a successful handshake it returns with the interface known, the one
    route ".+@.+" added to the table, and every address with a user and a
    domain routed. *)
Theorem login_routes i me k :
  rtable_ok (table k) -> if_address i = Some me -> is_Some (remote_address i) ->
  exists k' re, login_and_route i true k = (Ret tt, k') /\
    is_Some (m_avifs (table k') !! ifname_of i) /\
    m_routes (table k') ≡ₚ {| pattern := re; gateway := av_address_to_string me;
                             ifname := ifname_of i; metric := 100 |} :: m_routes (table k) /\
    forall s u v, chars_of s = (u ++ "@"%char :: v) -> u <> [] -> v <> [] ->
      exists nd, select_route s (table k') = Ret (Some nd).
Proof.
  intros Ht Hme Hrem. unfold login_and_route.
  rewrite (st_bind_Ret (st_lift _) _ k me k) by (unfold st_lift; by rewrite Hme).
  pose proof (add_interface_eq i k Hrem) as Ha. rewrite !get_ifname_stable in Ha. cbv zeta in Ha.
  set (k1 := added (ifname_of i) i k) in *.
  assert (Hhas : is_Some (m_avifs (table k1) !! ifname_of i)) by apply insert_interface_has.
  rewrite bool_decide_eq_true_2 in Ha by done.
  rewrite (st_bind_Ret _ _ _ _ _ Ha). unfold st_bind, ask_ifname, kernel_add_route, st_bind, read_k.
  rewrite get_ifname_stable. cbn [table with_counters].
  destruct (boost_regex_perl any_address_re) as (re & Hre & Hm); [set_solver|].
  rewrite show_any_address_re in Hre.
  assert (Ht1 : rtable_ok (table k1)) by (by apply insert_interface_ok).
  pose proof (add_route_eq ".+@.+" (av_address_to_string me) (ifname_of i) 100 _ re Hhas Hre) as Er.
  pose proof (add_route_ok _ _ _ _ _ _ _ Ht1 Er) as Hok. rewrite Er.
  eexists _, re. split; [done|]. split_and!; [done| |].
  - simpl. rewrite (std_sort_perm _ _ route_lt_strict). rewrite <-Permutation_cons_append. f_equiv.
    unfold k1, added. simpl. unfold insert_interface. by case_match.
  - intros s u v Hs Hu Hv.
    destruct (select_in_spec s _ _ (routes_sorted _ Hok) (routes_known _ Hok))
      as [[_ HF]|(r & nd & E & _)]; [|eauto]. exfalso.
    assert (Hmatch : regex_match s re = true) by (apply (regex_match_any s re Hre); eauto).
    cbn [m_routes] in HF. rewrite (std_sort_perm _ _ route_lt_strict) in HF.
    apply Forall_app in HF as [_ HF]. inversion HF; subst. cbn [pattern] in *. congruence.
Qed.
End login.

(** ** With avjackif *)
Section jack_login.
Context `{Build} `{OpenSSL} `{BoostRegex} `{StdSort}.
Variable obj : nat -> @avjackif H0.
#[local] Existing Instance jack_impl.
#[local] Instance impl : AvifImpl H0 := jack_impl obj.

(** Every interface is filed under a name that was asked for before. *)
Definition names_used (k : kernel) : Prop := forall name,
  is_Some (m_avifs (table k) !! name) -> exists n, (n < names_asked k)%nat /\ name = jack_ifname n.

Lemma init_names_used : names_used init_kernel.
Proof. intros name [nd Hnd]. done. Qed.

(** A name not asked for yet is not in the table. *)
Lemma fresh_name k n :
  names_used k -> (names_asked k <= n)%nat -> Z.of_nat n < 4294967296 ->
  m_avifs (table k) !! jack_ifname n = None.
Proof.
  intros Hk Hn Hlt. destruct (m_avifs (table k) !! jack_ifname n) eqn:E; [|done].
  destruct (Hk (jack_ifname n)) as (m & Hm & Em); [eauto|].
  apply jack_ifname_inj in Em; lia.
Qed.

Lemma added_names_used i k :
  names_used k -> names_used (added (jack_ifname (1 + names_asked k)) i k).
Proof.
  intros Hk name. unfold added, insert_interface. simpl.
  destruct (m_avifs (table k) !! jack_ifname (S (names_asked k))) as [nd0|] eqn:E; simpl.
  - intros Hn. destruct (Hk name Hn) as (n & Hlt & ->). exists n. split; [lia|done].
  - intros [nd [[<- _]|[_ Hn]]%lookup_insert_Some].
    + exists (S (names_asked k)). split; [lia|done].
    + destruct (Hk name) as (n & Hlt & ->); [eauto|]. exists n. split; [lia|done].
Qed.

Lemma jack_add_interface i k :
  names_used k -> Z.of_nat (names_asked k) + 3 <= 4294967296 -> is_Some (remote_address i) ->
  add_interface i k = (Ret false, added (jack_ifname (1 + names_asked k)) i k).
Proof.
  intros Hk Hn Hr. rewrite add_interface_eq by done. f_equal. f_equal.
  apply bool_decide_eq_false_2. change (get_ifname i ?n) with (jack_ifname n).
  unfold added, insert_interface. simpl.
  destruct (m_avifs (table k) !! jack_ifname (S (names_asked k))) as [nd0|] eqn:E; simpl.
  - rewrite fresh_name by (done || lia). by intros [? ?].
  - rewrite lookup_insert_ne; [rewrite fresh_name by (done || lia); by intros [? ?]|].
    intros E'. apply jack_ifname_inj in E'; lia.
Qed.

(** With avjackif [add_interface] always reports failure, because it looks
    the interface up under another name than it filed it under; so the demo and
    the C interface never add a route, and every send afterwards is
    unreachable. *)
Theorem jack_login_never_routes i k me :
  names_used k -> Z.of_nat (names_asked k) + 3 <= 4294967296 ->
  if_address i = Some me -> is_Some (remote_address i) ->
  exists k', login_and_route i true k = (Ret tt, k') /\
    names_used k' /\ m_routes (table k') = m_routes (table k) /\
    (m_routes (table k) = [] -> forall now id target data,
      async_sendto_op now id target data k' =
        (Ret tt, add_log (SendDone id network_unreachable) (set_sends (delete id (sends k')) k'))).
Proof.
  intros Hk Hn Hme Hr. eexists. split.
  { unfold login_and_route. rewrite (st_bind_Ret (st_lift _) _ k me k) by (unfold st_lift; by rewrite Hme).
    rewrite (st_bind_Ret _ _ _ _ _ (jack_add_interface i k Hk Hn Hr)). done. }
  assert (Hroutes : m_routes (table (added (jack_ifname (1 + names_asked k)) i k)) = m_routes (table k)).
  { unfold added, insert_interface. simpl. by case_match. }
  split_and!; [by apply added_names_used|done|].
  intros Hnil now id target data.
  unfold async_sendto_op, st_bind, kernel_select_route, st_bind, read_k, select_route.
  rewrite Hroutes, Hnil. done.
Qed.

(** The graphical client asks for the name once more and adds its route
    under it: a debug build stops at the assertion of [add_route], a release
    build goes on without a route. *)
Theorem jack_gui_login_fails i k me :
  names_used k -> Z.of_nat (names_asked k) + 4 <= 4294967296 ->
  if_address i = Some me -> is_Some (remote_address i) ->
  if NDEBUG then exists k', run_login i k = (Ret tt, k') /\ m_routes (table k') = m_routes (table k)
  else (run_login i k).1 = AssertFail.
Proof.
  intros Hk Hn Hme Hr.
  pose proof (jack_add_interface i k Hk ltac:(lia) Hr) as Ha.
  set (k1 := added (jack_ifname (1 + names_asked k)) i k) in *.
  assert (Hf : m_avifs (table k1) !! jack_ifname (names_asked k1) = None).
  { apply fresh_name; [by apply added_names_used|lia|]. unfold k1. simpl. lia. }
  assert (Hroutes : m_routes (table k1) = m_routes (table k)).
  { unfold k1, added, insert_interface. simpl. by case_match. }
  unfold run_login. rewrite (st_bind_Ret _ _ _ _ _ Ha).
  rewrite (st_bind_Ret (st_lift _) _ k1 me k1) by (unfold st_lift; by rewrite Hme).
  rewrite (st_bind_Ret (ask_ifname i) _ k1 (jack_ifname (names_asked k1))
    (with_counters (S (names_asked k1)) (next_node k1) (next_op k1) k1)) by done.
  unfold st_bind, kernel_add_route, st_bind, read_k, add_route, cassert. cbn [table with_counters].
  rewrite Hf. rewrite bool_decide_eq_false_2 by by intros [? ?].
  destruct NDEBUG; [|done]. eexists. split; [done|]. done.
Qed.

(** When the connection ends the runner removes the interface under a name
    nobody filed it under: the dead interface and its routes stay. *)
Theorem jack_interface_never_removed i k u k' :
  names_used k -> rtable_ok (table k) -> Z.of_nat (names_asked k) < 4294967296 ->
  runner_exit i k = (Ret u, k') -> table k' = table k.
Proof.
  intros Hk Ht Hn E. unfold runner_exit in E. inv_bind.
  assert (Hs : table s = table k /\ names_asked s = names_asked k).
  { revert Ha. unfold with_queue, st_bind, get_if, read_k, st_lift.
    destruct (deref (ifs k !! i)) as [a2| | | |]; try done.
    destruct (cancele (write_queue a2)); try done. by intros [= _ <-]. }
  destruct Hs as [Hs1 Hs2].
  unfold ask_ifname in Ha0. injection Ha0 as <- <-.
  unfold read_k in Ha1. injection Ha1 as Ha1 <-. injection E as _ <-. cbn [table set_table with_members].
  rewrite remove_interface_eq in Ha1. injection Ha1 as <-. cbn [table with_counters].
  change (get_ifname i ?n) with (jack_ifname n). rewrite Hs1, Hs2.
  assert (Hnone : m_avifs (table k) !! jack_ifname (names_asked k) = None) by (apply fresh_name; [done|lia|done]).
  rewrite delete_id by done. rewrite filter_all.
  - by destruct (table k).
  - intros. eapply Forall_impl; [exact (routes_known _ Ht)|]. intros r [nd Hnd] E.
    rewrite E in Hnd. congruence.
Qed.
End jack_login.

(** ** Concrete runs *)
Module LoginDemo.
#[local] Existing Instances debug_build Toy.openssl ToyRegex.boost ToyRegex.laws
  InsertionSort.std InsertionSort.std_laws.

Definition me : avAddress := {| username := "me"; domain := "avplayer.org"; resource := None |}.

(** An interface that is always called "eth". *)
#[local] Instance eth : AvifImpl Toy.openssl := {|
  get_ifname _ _ := "eth"; if_address _ := Some me; remote_address _ := Some me;
  get_rsa_key _ := Some (x01 : @RSA Toy.openssl); get_cert _ := Some (x01 : @X509 Toy.openssl)
|}.
#[local] Instance eth_stable : StableNames Toy.openssl eth :=
  {| ifname_of _ := "eth"; get_ifname_stable _ _ := eq_refl |}.

Lemma login_routes_witness :
  exists k', login_and_route 0 true init_kernel = (Ret tt, k') /\
    exists nd, select_route "a@b" (table k') = Ret (Some nd).
Proof.
  destruct (login_routes 0 me init_kernel) as (k' & re & E & _ & _ & Hsel).
  - apply empty_rtable_ok.
  - reflexivity.
  - eexists. reflexivity.
  - exists k'. split; [exact E|].
    apply (Hsel "a@b" ["a"%char] ["b"%char]); [reflexivity|discriminate|discriminate].
Defined.

(** The same with avjackif, logged in. *)
Definition logged_in (_ : nat) : @avjackif Toy.openssl :=
  {| _rsa := Some (x01 : @RSA Toy.openssl); _x509 := Some (x01 : @X509 Toy.openssl);
     m_local_addr := Some me; m_remote_addr := Some me; m_shared_key := [] |}.

Lemma jack_login_never_routes_witness :
  exists k', login_and_route (AvifImpl0 := jack_impl logged_in) 0 true init_kernel = (Ret tt, k') /\
    m_routes (table k') = [].
Proof.
  destruct (jack_login_never_routes logged_in 0 init_kernel me) as (k' & E & _ & Hr & _).
  - apply init_names_used.
  - vm_compute. discriminate.
  - reflexivity.
  - eexists. reflexivity.
  - exists k'. split; [exact E|exact Hr].
Defined.

Lemma jack_gui_login_fails_witness :
  (run_login (AvifImpl0 := jack_impl logged_in) 0 init_kernel).1 = AssertFail.
Proof.
  pose proof (jack_gui_login_fails logged_in 0 init_kernel me) as Hf.
  cbn [NDEBUG debug_build] in Hf. apply Hf.
  - apply init_names_used.
  - vm_compute. discriminate.
  - reflexivity.
  - eexists. reflexivity.
Defined.

(** A kernel whose only interface ends. *)
Definition one_up : kernel :=
  (run_events (AvifImpl0 := jack_impl logged_in) [EConstruct 0; EAddInterface 0] init_kernel).2.

Lemma one_up_table :
  table one_up = insert_interface "avjack1" {| node_id := 0; node_if := 0 |} empty_rtable.
Proof. vm_compute. reflexivity. Defined.

Lemma one_up_names : names_used one_up.
Proof.
  intros name [nd Hnd]. exists 1%nat.
  assert (En : names_asked one_up = 3%nat) by (vm_compute; reflexivity).
  assert (Ej : jack_ifname 1 = "avjack1") by (vm_compute; reflexivity).
  rewrite En, Ej. split; [lia|]. rewrite one_up_table in Hnd. unfold insert_interface in Hnd.
  cbn [empty_rtable m_avifs] in Hnd. rewrite lookup_empty in Hnd. cbn [m_avifs] in Hnd.
  apply lookup_insert_Some in Hnd as [[<- _]|[_ Hnd]]; [reflexivity|].
  by rewrite lookup_empty in Hnd.
Defined.

Lemma jack_interface_never_removed_witness :
  exists k', runner_exit (AvifImpl0 := jack_impl logged_in) 0 one_up = (Ret tt, k') /\
    table k' = table one_up.
Proof.
  assert (E : (runner_exit (AvifImpl0 := jack_impl logged_in) 0 one_up).1 = Ret tt)
    by (vm_compute; reflexivity).
  destruct (runner_exit (AvifImpl0 := jack_impl logged_in) 0 one_up) as [o k'] eqn:Er.
  simpl in E. subst o. exists k'. split; [reflexivity|].
  apply (jack_interface_never_removed logged_in 0 one_up tt k'); [| | |exact Er].
  - exact one_up_names.
  - rewrite one_up_table. apply insert_interface_ok, empty_rtable_ok.
  - vm_compute. reflexivity.
Defined.
End LoginDemo.
