(* ===== verification/CApi.v ===== *)
(** * CApi: the blocking calls and the C interface

    [avkernel_impl::sendto] and [recvfrom] (avkernel.cpp) and
    [avjackif::handshake] start an asynchronous operation and wait on a
    condition variable; libavproto/src/avC_stub.cpp wraps them for C.  The
    pass-phrase callback of the two clients is here too. *)

From S2P Require Import Prelude StdSort OpenSSL Regex Address CoroQueue Routing KeyStore Avif Kernel Wire Serialization Jackif Login.

(** ** Waiting for a completion

    The caller holds a mutex of its own, which the handler does not take: the
    handler may run before the caller waits.  The handler writes [ec] and
    notifies through references to the caller's frame. *)
Inductive caller := Starting | Waiting | Returned (ec : error_code).

#[export] Instance caller_eq_dec : EqDecision caller.
Proof. solve_decision. Defined.

Record wait_state := { who : caller; ec_var : error_code }.

Inductive wait_event :=
  | CallerWaits                       (* the caller reaches ready.wait(l) *)
  | HandlerRuns (ec : error_code)     (* on the thread of the io_service *)
  | Spurious.                         (* wait returns without a notification *)

(** The state after the asynchronous operation has been started. *)
Definition started : wait_state := {| who := Starting; ec_var := ec_success |}.

Definition wait_step (e : wait_event) (s : wait_state) : outcome wait_state :=
  match e, who s with
  | CallerWaits, Starting => Ret {| who := Waiting; ec_var := ec_var s |}
  | HandlerRuns ec, Starting => Ret {| who := Starting; ec_var := ec |}
  | HandlerRuns ec, Waiting => Ret {| who := Returned ec; ec_var := ec |}
  | HandlerRuns ec, Returned _ => UB  (* the frame is gone *)
  | Spurious, Waiting => Ret {| who := Returned (ec_var s); ec_var := ec_var s |}
  | _, _ => Ret s
  end.

Fixpoint wait_run (es : list wait_event) (s : wait_state) : outcome wait_state :=
  match es with
  | [] => Ret s
  | e :: es => s ← wait_step e s; wait_run es s
  end.

(** A blocking call returns the handler's error code when the handler runs
    while it waits.  When the handler runs first -- nothing prevents it -- the
    notification is lost and the call never returns, unless the wait ends
    spuriously; and when the wait ends spuriously before the handler runs, the
    call reports success too early and the handler then writes into a frame
    that no longer exists. *)
Theorem blocking_call_outcomes ec :
  wait_run [CallerWaits; HandlerRuns ec] started = Ret {| who := Returned ec; ec_var := ec |} /\
  (forall es, Forall (fun e => e = CallerWaits) es -> exists s,
     wait_run ([HandlerRuns ec; CallerWaits] ++ es) started = Ret s /\ who s = Waiting) /\
  wait_run [CallerWaits; Spurious; HandlerRuns ec] started = UB.
Proof.
  split_and!; [done| |done]. intros es Hes.
  exists {| who := Waiting; ec_var := ec |}. split; [|done]. cbn [app wait_run wait_step who started].
  rewrite !outcome_bind_Ret. induction Hes as [|e es -> _ IH]; [done|]. exact IH.
Qed.

(** ** The C functions *)

(** [connect_to_avrouter] up to [jackif_login]: the key and the certificate are
    read, but [set_pki] is not called, so the login runs on a fresh object. *)
Section connect.
Context `{Build} `{OpenSSL} `{BoostRegex} `{StdSort}.

Definition connect_login (i : nat) (ok : bool) : ST kernel unit :=
  login_and_route (AvifImpl0 := jack_impl (fun _ => new_avjackif)) i ok.

(** The C interface cannot connect: [jackif_login] first dereferences the
    interface's local address, which only [set_pki] sets and which is null. *)
Lemma connect_null_address i ok k : connect_login i ok k = (UB, k).
Proof. done. Qed.
End connect.

(** [memcpy] and [strcpy] into a buffer: undefined past its end. *)
Definition memcpy_to (buf src : bytes) : outcome bytes :=
  if decide (length src <= length buf)%nat then Ret (src ++ drop (length src) buf) else UB.
Definition strcpy_to (buf src : bytes) : outcome bytes := memcpy_to buf (c_str src ++ [x00]).

(** [av_recvfrom], given what [recvfrom] returned. *)
Definition av_recvfrom (ret : Z) (dest msg : bytes) (dest_address message : bytes) :
    outcome (Z * bytes * bytes) :=
  dest_address ← strcpy_to dest_address dest;
  message ← memcpy_to message msg;
  Ret (ret, dest_address, message).

Lemma memcpy_to_ok buf src :
  (length src <= length buf)%nat -> memcpy_to buf src = Ret (src ++ drop (length src) buf).
Proof. intros Hl. unfold memcpy_to. by rewrite decide_True. Qed.

Lemma av_recvfrom_ok ret dest msg dest_address message :
  (length (c_str dest) < length dest_address)%nat -> (length msg <= length message)%nat ->
  av_recvfrom ret dest msg dest_address message =
    Ret (ret, (c_str dest ++ [x00]) ++ drop (S (length (c_str dest))) dest_address,
         msg ++ drop (length msg) message).
Proof.
  intros Hd Hm. unfold av_recvfrom, strcpy_to.
  rewrite (memcpy_to_ok dest_address) by (rewrite length_app; simpl; lia). rewrite outcome_bind_Ret.
  rewrite memcpy_to_ok by done. rewrite outcome_bind_Ret.
  by rewrite length_app, Nat.add_comm.
Qed.

(** [av_sendto]: the std::string given to [sendto]. *)
Definition av_sendto_data (message : bytes) (len : Z) : outcome bytes :=
  if len <? 0 then Throw length_error
  else if len <=? zlen message then Ret (take (Z.to_nat len) message) else UB.

(** [av_recvfrom] does not tell the length of what it received: a message
    and a longer one that continues with what the caller's buffer already holds
    give the caller the same result. *)
Theorem av_recvfrom_no_length ret dest msg tail rest dest_address :
  (length (c_str dest) < length dest_address)%nat ->
  exists out,
    av_recvfrom ret dest msg dest_address (msg ++ tail ++ rest) = Ret out /\
    av_recvfrom ret dest (msg ++ tail) dest_address (msg ++ tail ++ rest) = Ret out.
Proof.
  intros Hd. eexists. split; rewrite av_recvfrom_ok by (rewrite ?length_app; lia); [done|].
  do 2 f_equal. rewrite drop_app_length, (app_assoc msg). by rewrite drop_app_length.
Qed.

(** [av_sendto] passes exactly the first [len] bytes on when they exist, and
    [av_recvfrom] gives them back to a caller whose buffers are large enough. *)
Theorem av_c_roundtrip ret msg rest len dest dest_address message :
  len = zlen msg -> (length (c_str dest) < length dest_address)%nat ->
  (length msg <= length message)%nat ->
  exists dest_out msg_out,
    (data ← av_sendto_data (msg ++ rest) len; av_recvfrom ret dest data dest_address message)
      = Ret (ret, dest_out, msg_out) /\
    take (length msg) msg_out = msg /\ c_str dest_out = c_str dest /\
    length msg_out = length message /\ length dest_out = length dest_address.
Proof.
  intros -> Hd Hm. unfold av_sendto_data. pose proof (zlen_nonneg msg).
  rewrite (proj2 (Z.ltb_ge _ _)) by done.
  rewrite (proj2 (Z.leb_le _ _)) by (rewrite zlen_app; pose proof (zlen_nonneg rest); lia).
  rewrite outcome_bind_Ret. unfold zlen. rewrite Nat2Z.id, take_app_length.
  rewrite av_recvfrom_ok by done. eexists _, _. split; [done|].
  split_and!.
  - apply take_app_length.
  - rewrite <-app_assoc. apply c_str_stops.
  - rewrite length_app, length_drop. lia.
  - rewrite !length_app, length_drop. simpl. lia.
Qed.

(** ** pass_cb (demo/new_im.cpp, gui/gavim.cpp) *)

(** The bytes written to the front of [buf] and the result, for the word [tmp]
    read from the terminal. *)
Definition pass_cb (size : Z) (tmp : bytes) : outcome (bytes * Z) :=
  let len := to_int32 (zlen tmp) in
  if len <=? 0 then Ret ([], 0)
  else
    let len := if size <? len then size else len in
    (* memcpy with a size_t *)
    if len <? 0 then UB else Ret (take (Z.to_nat len) tmp, len).

(** The pass-phrase callback never writes more than the [size] bytes OpenSSL
    gives it, and returns the number of bytes written: the phrase, cut to fit. *)
Theorem pass_cb_bounds size tmp :
  0 <= size -> zlen tmp <= INT_MAX ->
  exists out, pass_cb size tmp = Ret (out, zlen out) /\ zlen out <= size /\
    out = take (Z.to_nat size) tmp.
Proof.
  intros Hs Hl. unfold pass_cb. pose proof (zlen_nonneg tmp). rewrite to_int32_small by lia.
  destruct (Z.leb_spec (zlen tmp) 0).
  { exists []. rewrite (zlen_0_inv tmp) by lia. rewrite take_nil. split_and!; [done|done|done]. }
  destruct (Z.ltb_spec size (zlen tmp)).
  - rewrite (proj2 (Z.ltb_ge _ _)) by done. eexists. split_and!; [|..|done].
    + f_equal. f_equal. unfold zlen in *. rewrite length_take. lia.
    + unfold zlen in *. rewrite length_take. lia.
  - rewrite (proj2 (Z.ltb_ge _ _)) by lia. exists tmp. unfold zlen in *.
    rewrite Nat2Z.id, !take_ge by lia. done.
Qed.

(** ** Concrete runs *)
Module CApiDemo.
Lemma av_recvfrom_no_length_witness :
  av_recvfrom 0 [x61] [x01] (replicate 4 x00) [x01; x02; x03] =
  av_recvfrom 0 [x61] [x01; x02] (replicate 4 x00) [x01; x02; x03].
Proof.
  destruct (av_recvfrom_no_length 0 [x61] [x01] [x02] [x03] (replicate 4 x00)) as (out & E1 & E2).
  - vm_compute. lia.
  - exact (eq_trans E1 (eq_sym E2)).
Defined.

Lemma av_c_roundtrip_witness :
  exists d m, (data ← av_sendto_data [x01; x02; x03] 2;
               av_recvfrom 0 [x61] data (replicate 4 x00) (replicate 4 x00)) = Ret (0, d, m) /\
    take 2 m = [x01; x02].
Proof.
  destruct (av_c_roundtrip 0 [x01; x02] [x03] 2 [x61] (replicate 4 x00) (replicate 4 x00))
    as (d & m & E & Em & _).
  - reflexivity.
  - vm_compute. lia.
  - vm_compute. lia.
  - exists d, m. split; [exact E|exact Em].
Defined.

Lemma pass_cb_bounds_witness :
  exists out, pass_cb 2 [x61; x62; x63] = Ret (out, zlen out) /\ zlen out <= 2.
Proof.
  destruct (pass_cb_bounds 2 [x61; x62; x63]) as (out & E & Hl & _).
  - lia.
  - vm_compute. discriminate.
  - exists out. split; [exact E|exact Hl].
Defined.
End CApiDemo.
