(* ===== verification/Blocking.v ===== *)
(** * Blocking: the blocking calls of the kernel

    [avkernel_impl::sendto] and [recvfrom] (avkernel.cpp): a thread starts an
    operation of the kernel and waits on a condition variable, while the thread of
    the io_service handles events and calls the handler.  The waiting of CApi.v
    is joined with the kernel. *)

From S2P Require Import Prelude StdSort OpenSSL Regex Address CoroQueue Routing KeyStore Avif Kernel Effects Mailbox Hoare KernelInv Flow Prices Progress CApi.

#[local] Open Scope nat_scope.

Section blocking.
Context `{Build} `{OpenSSL} `{BoostRegex} `{StdSort} `{!AvifImpl H0}.
#[local] Existing Instances work_prices work_laws.

(** ** The two threads *)

(** The error code with which the handler of operation [id] was called; [call] is
    the event that started it. *)
Definition code_of (call : event) (id : nat) (c : completion) : option error_code :=
  match call, c with
  | ESendto _ _, SendDone i ec | ERecvfrom, RecvDone i ec _ => if decide (i = id) then Some ec else None
  | _, _ => None
  end.
Definition codes (call : event) (id : nat) (k : kernel) : list error_code := omap (code_of call id) (log k).

(** The kernel, and the frame of the caller. *)
Record blocked := { b_kernel : kernel; b_wait : wait_state }.

Inductive blocked_event :=
  | Happens (e : event)   (* on the thread of the io_service *)
  | Waits                 (* the caller reaches ready.wait(l) *)
  | WakesUp.              (* wait returns without a notification *)

(** The lambda that is given as handler runs as often as an event completes the
    operation. *)
Definition blocked_step (call : event) (id : nat) (ev : blocked_event) (s : blocked) : outcome blocked :=
  match ev with
  | Happens e =>
      let r := step e (b_kernel s) in
      _ ← r.1;
      w ← wait_run (HandlerRuns <$> drop (length (codes call id (b_kernel s))) (codes call id r.2)) (b_wait s);
      Ret {| b_kernel := r.2; b_wait := w |}
  | Waits => w ← wait_step CallerWaits (b_wait s); Ret {| b_kernel := b_kernel s; b_wait := w |}
  | WakesUp => w ← wait_step Spurious (b_wait s); Ret {| b_kernel := b_kernel s; b_wait := w |}
  end.

Fixpoint blocked_run (call : event) (id : nat) (evs : list blocked_event) (s : blocked) : outcome blocked :=
  match evs with
  | [] => Ret s
  | ev :: evs => s ← blocked_step call id ev s; blocked_run call id evs s
  end.

(** The calls, given what the two threads do afterwards: the operation is
    started, and the caller goes on to wait. *)
Definition blocking_call (call : event) (evs : list blocked_event) (k : kernel) : outcome blocked :=
  let r := step call k in
  _ ← r.1;
  blocked_run call (next_op k) evs {| b_kernel := r.2; b_wait := started |}.

Definition sendto (target : string) (data : bytes) := blocking_call (ESendto target data).
Definition recvfrom := blocking_call ERecvfrom.

Definition happened (evs : list blocked_event) : list event :=
  omap (fun ev => match ev with Happens e => Some e | _ => None end) evs.
Definition no_wake_up (evs : list blocked_event) : Prop := Forall (fun ev => ev <> WakesUp) evs.

(** ** Completions *)

(** The log of completed operations only grows. *)
Definition grows (k k' : kernel) : Prop := exists new, log k' = log k ++ new.

#[export] Instance grows_order : PreOrder grows.
Proof.
  split; [intros k; exists []; by rewrite app_nil_r|].
  intros k1 k2 k3 [n1 E1] [n2 E2]. exists (n1 ++ n2). by rewrite E2, E1, app_assoc.
Qed.

Lemma grows_same k k' : log k' = log k -> grows k k'.
Proof. intros E. exists []. by rewrite app_nil_r. Qed.

#[export] Instance grows_coroutines : Coroutines anything grows.
Proof. intros k k' _ []. by apply grows_same. Qed.

#[export] Instance grows_primitives : Primitives anything grows (fun _ => anything).
Proof.
  split; try done.
  - apply _.
  - intros k k' _ []. by apply grows_same.
  - intros i v. apply eff_queue.
  - intros id ec k u k' _ [= _ <-]. by eexists.
  - intros id op s k u k' _ [= _ <-]. by apply grows_same.
Qed.

#[export] Instance grows_receives : Receives anything grows.
Proof.
  intros v k u k' _. unfold push_recv, st_bind, read_k, st_modify, io_post.
  destruct (push v (m_recv_buffer k)) as [r| | | |]; try done. intros [= _ <-]. by apply grows_same.
Qed.

Lemma run_task_grows now t : effects anything grows (run_task now t).
Proof.
  destruct t as [pkt i|i|i|id target data|id|i ec v|id ec v]; try by apply eff_worker.
  - apply eff_sendto_op.
  - intros k u k' _ [= _ <-]. by apply grows_same.
  - intros k u k' _ [= _ <-]. by eexists.
Qed.

Lemma step_grows e k u k' : step e k = (Ret u, k') -> grows k k'.
Proof.
  intros E. assert (Hout : outside e -> grows k k').
  { intros Ho. by apply (eff_outside (J := anything) (R := grows) e Ho k u k'). }
  destruct e; try by apply Hout.
  - injection E as _ <-. by apply grows_same.
  - injection E as _ <-. by apply grows_same.
  - cbn [step] in E. destruct (tasks k !! n) as [t|]; [|by injection E as _ <-].
    by apply (run_task_grows now t (set_tasks (delete n (tasks k)) k) u k' I E).
Qed.

Lemma run_grows es k u k' : run_events es k = (Ret u, k') -> grows k k'.
Proof.
  revert k. induction es as [|e es IH]; intros k; cbn [run_events]; [by intros [= _ <-]|].
  intros ([] & k1 & E1%step_grows & E2%IH)%st_bind_inv. by etransitivity.
Qed.

Lemma grows_codes call id k k' : grows k k' -> exists new, codes call id k' = codes call id k ++ new.
Proof. intros [new E]. unfold codes. rewrite E, omap_app. by eexists. Qed.

(** An operation completes at most once. *)
Lemma omap_once {A B} (f : A -> option nat) (g : A -> option B) id l :
  (forall c, is_Some (g c) -> f c = Some id) -> NoDup (omap f l) -> length (omap g l) <= 1.
Proof.
  intros Hg. induction l as [|c l IH]; [simpl; lia|]. cbn [omap list_omap].
  destruct (g c) as [b|] eqn:Eg; [|intros Hnd; apply IH; destruct (f c); [by apply NoDup_cons in Hnd as []|done]].
  rewrite (Hg c) by (by rewrite Eg). intros [Hin _]%NoDup_cons.
  replace (omap g l) with (@nil B); [done|]. symmetry. clear IH.
  induction l as [|d l IH]; [done|]. cbn [omap list_omap] in *.
  destruct (g d) as [b'|] eqn:Ed.
  - destruct Hin. rewrite (Hg d) by (by rewrite Ed). apply list_elem_of_here.
  - apply IH. destruct (f d); [|done]. by intros Hin'; apply Hin, list_elem_of_further.
Qed.

Context `{!StdSortLaws H2}.

Lemma codes_once es k u call id :
  run_events es init_kernel = (Ret u, k) -> length (codes call id k) <= 1.
Proof.
  intros E. unfold codes. destruct call; try (replace (omap _ _) with (@nil error_code);
    [simpl; lia|by induction (log k)]).
  - destruct (reach_ok _ _ _ E) as (_ & _ & Hnd & _). apply NoDup_app in Hnd as (_ & _ & Hnd).
    apply (omap_once send_done _ id); [|done]. intros [i ec|i ec v]; simpl; [|by intros []].
    case_decide; [by subst|by intros []].
  - destruct (recvs_accounted _ _ _ E) as [Hnd _]. destruct (run_simulated _ _ _ _ init_recv_ok E) as [Hok _].
    rewrite !(assoc_L (++)) in Hnd. apply NoDup_app in Hnd as (_ & _ & Hnd). rewrite <-(recvs_logged k Hok) in Hnd.
    apply (omap_once recv_done _ id); [|done]. intros [i ec|i ec v]; simpl; [by intros []|].
    case_decide; [by subst|by intros []].
Qed.

(** A receive completes with a message, and so without an error. *)
Lemma recv_code es k u id ec :
  run_events es init_kernel = (Ret u, k) -> ec ∈ codes ERecvfrom id k -> ec = ec_success.
Proof.
  intros E. destruct (run_simulated _ _ _ _ init_recv_ok E) as [[_ _ Hd] _].
  intros (c & Hin & Hc)%list_elem_of_omap. rewrite Forall_forall in Hd. specialize (Hd c Hin).
  destruct c as [i ec'|i ec' v]; simpl in Hc; [done|]. case_decide; [|done]. injection Hc as <-. by destruct Hd.
Qed.

(** ** The caller *)

(** What becomes of the caller while the list of its handler's codes grows from
    [old] to [new]. *)
Definition becomes (w : caller) (old new : list error_code) : caller :=
  match w, old, new with Waiting, [], ec :: _ => Returned ec | _, _, _ => w end.
(** A caller that returned was woken by its handler. *)
Definition woken (w : caller) (old : list error_code) : Prop :=
  match w with Returned _ => old <> [] | _ => True end.

Lemma woken_becomes w old new more : new = old ++ more -> woken w old -> woken (becomes w old new) new.
Proof. intros ->. by destruct w, old, more. Qed.

Lemma becomes_trans w old mid new more more' :
  mid = old ++ more -> new = mid ++ more' -> becomes (becomes w old mid) mid new = becomes w old new.
Proof. intros -> ->. by destruct w, old, more, more'. Qed.

Lemma becomes_same w l : becomes w l l = w.
Proof. by destruct w, l. Qed.

Lemma handler_wakes w old more :
  woken (who w) old -> length (old ++ more) <= 1 ->
  exists w', wait_run (HandlerRuns <$> more) w = Ret w' /\ who w' = becomes (who w) old (old ++ more).
Proof.
  intros Hw Hl. rewrite length_app in Hl. destruct w as [[| |ec'] v].
  - destruct more as [|ec1 [|]]; [by eexists|by eexists|simpl in Hl; lia].
  - destruct more as [|ec1 [|]]; [|by destruct old as [|? [|]]; [eexists|simpl in Hl; lia..]|simpl in Hl; lia].
    eexists. rewrite app_nil_r. by rewrite becomes_same.
  - destruct old; [done|]. destruct more; [by eexists|simpl in Hl; lia].
Qed.

Lemma blocked_runs call id evs : forall s u k',
  no_wake_up evs -> Waits ∉ evs \/ who (b_wait s) <> Starting ->
  run_events (happened evs) (b_kernel s) = (Ret u, k') -> length (codes call id k') <= 1 ->
  woken (who (b_wait s)) (codes call id (b_kernel s)) ->
  exists s', blocked_run call id evs s = Ret s' /\ b_kernel s' = k' /\
    who (b_wait s') = becomes (who (b_wait s)) (codes call id (b_kernel s)) (codes call id k').
Proof.
  induction evs as [|ev evs IH]; intros s u k' Hev Hs; cbn [blocked_run].
  { intros [= _ <-] _ _. exists s. by rewrite becomes_same. }
  apply Forall_cons in Hev as [Hne Hev].
  assert (Hs' : Waits ∉ evs \/ who (b_wait s) <> Starting).
  { destruct Hs as [Hs|]; [left|by right]. by apply not_elem_of_cons in Hs as [_ Hs]. }
  destruct ev as [e| |]; [|clear Hne|done]; cbn [happened omap list_omap].
  - change (omap _ evs) with (happened evs). cbn [run_events].
    intros ([] & k1 & E1 & E2)%st_bind_inv Hl Hw. cbn [blocked_step]. rewrite E1. cbn [fst snd]. rewrite outcome_bind_Ret.
    destruct (grows_codes call id _ _ (step_grows _ _ _ _ E1)) as [more Em].
    destruct (grows_codes call id _ _ (run_grows _ _ _ _ E2)) as [more' Em'].
    destruct (handler_wakes (b_wait s) (codes call id (b_kernel s)) more) as (w & Ew & Hww); [done| |].
    { rewrite <-Em. rewrite Em', length_app in Hl. lia. }
    rewrite Em, drop_app_length, Ew, !outcome_bind_Ret. rewrite <-Em in Hww.
    destruct (IH {| b_kernel := k1; b_wait := w |} u k') as (s' & Es & Ek & Hwho); simpl; try done.
    + destruct Hs' as [|Hns]; [by left|right]. rewrite Hww.
      destruct (who (b_wait s)), (codes call id (b_kernel s)), (codes call id k1); done.
    + rewrite Hww. by eapply woken_becomes.
    + exists s'. split_and!; [done|done|]. rewrite Hwho. simpl. rewrite Hww. by eapply becomes_trans.
  - intros E Hl Hw. destruct Hs as [Hs|Hs]; [by apply not_elem_of_cons in Hs as [? _]|].
    assert (Estep : blocked_step call id Waits s = Ret s).
    { destruct s as [k [w v]]. simpl in *. by destruct w. }
    rewrite Estep, outcome_bind_Ret. by apply (IH s u k').
Qed.

(** The operation is new. *)
Lemma asked_below es k u k' id :
  recv_ok k -> run_events es k = (Ret u, k') ->
  next_op k <= next_op k' /\ (id ∈ asked (next_op k) es -> id < next_op k').
Proof.
  revert k. induction es as [|e es IH]; intros k Hk; cbn [run_events asked].
  { intros [= _ <-]. split; [done|]. by intros Hin%elem_of_nil. }
  intros ([] & k1 & E1 & E2)%st_bind_inv. destruct (step_simulated e k _ k1 Hk E1) as (Hk1 & En & _).
  destruct (IH k1 Hk1 E2) as [Hle Hin]. split; [lia|]. rewrite En in Hin, Hle.
  intros [Ha|Ha]%elem_of_app; [|by apply Hin]. destruct e; try by apply elem_of_nil in Ha.
  apply list_elem_of_singleton in Ha as ->. simpl in Hle. lia.
Qed.

Lemma call_fresh es k u call : run_events es init_kernel = (Ret u, k) -> codes call (next_op k) k = [].
Proof.
  intros E. destruct (codes call (next_op k) k) as [|ec l] eqn:Ec; [done|].
  assert (Hin : ec ∈ codes call (next_op k) k) by (rewrite Ec; apply list_elem_of_here). exfalso.
  apply list_elem_of_omap in Hin as (c & Hc & Hcode).
  destruct call, c; simpl in Hcode; try done; case_decide; try done; subst id.
  - destruct (reach_ok _ _ _ E) as (_ & _ & _ & Hid & _). destruct (Hid (next_op k)) as [_ Hlt]; [|lia].
    unfold held. apply elem_of_app. right. apply list_elem_of_omap. by eexists.
  - destruct (recvs_accounted _ _ _ E) as [_ Hperm]. destruct (run_simulated _ _ _ _ init_recv_ok E) as [Hok _].
    destruct (asked_below es init_kernel u k (next_op k) init_recv_ok E) as [_ Hlt]. apply Nat.lt_irrefl with (next_op k), Hlt.
    change (next_op init_kernel) with 0. rewrite <-Hperm, !elem_of_app, <-(recvs_logged k Hok). do 3 right.
    apply list_elem_of_omap. by eexists.
Qed.

Lemma blocked_run_app call id evs1 evs2 s :
  blocked_run call id (evs1 ++ evs2) s = (s ← blocked_run call id evs1 s; blocked_run call id evs2 s).
Proof.
  revert s. induction evs1 as [|ev evs1 IH]; intros s; [done|]. cbn [app blocked_run].
  destruct (blocked_step call id ev s); [|done..]. rewrite !outcome_bind_Ret. apply IH.
Qed.

Lemma run_after es es' k u k1 u' k' :
  run_events es k = (Ret u, k1) -> run_events es' k1 = (Ret u', k') -> run_events (es ++ es') k = (Ret u', k').
Proof. intros E E'. rewrite run_events_app. unfold st_bind. by rewrite E. Qed.

(** What becomes of a caller that reaches the wait when the kernel is in [k1]. *)
Lemma blocking_run call evs evs' k k1 u1 k' u' :
  Waits ∉ evs -> no_wake_up evs -> no_wake_up evs' ->
  run_events (call :: happened evs) k = (Ret u1, k1) -> run_events (happened evs') k1 = (Ret u', k') ->
  length (codes call (next_op k) k') <= 1 ->
  exists s, blocking_call call (evs ++ Waits :: evs') k = Ret s /\ b_kernel s = k' /\
    who (b_wait s) = match codes call (next_op k) k1, codes call (next_op k) k' with
      | [], ec :: _ => Returned ec
      | _, _ => Waiting
      end.
Proof.
  intros Hw Hn Hn' E1 E' Hl.
  destruct (grows_codes call (next_op k) _ _ (run_grows _ _ _ _ E')) as [more Em].
  apply st_bind_inv in E1 as ([] & k0 & E0 & E1). unfold blocking_call. rewrite E0. cbn [fst snd].
  rewrite outcome_bind_Ret, blocked_run_app.
  destruct (blocked_runs call (next_op k) evs {| b_kernel := k0; b_wait := started |} u1 k1) as (s1 & Es1 & Ek1 & Hw1);
    [done|by left|done|rewrite Em, length_app in Hl; lia|done|].
  rewrite Es1, outcome_bind_Ret. cbn [blocked_run blocked_step]. cbn [b_wait started who becomes] in Hw1.
  destruct s1 as [k2 [w v]]. cbn [b_wait b_kernel who] in *. subst w k2. cbn [wait_step who]. rewrite !outcome_bind_Ret.
  destruct (blocked_runs call (next_op k) evs' {| b_kernel := k1; b_wait := {| who := Waiting; ec_var := v |} |} u' k')
    as (s & Es & Ek & Hws); [done|by right|done|done|done|].
  exists s. split_and!; [done|done|]. rewrite Hws. simpl. by destruct (codes call (next_op k) k1), (codes call (next_op k) k').
Qed.

(** C9: a blocking call -- [sendto] or [recvfrom] -- from any state of the
    kernel, whatever its thread does before and after the caller reaches the wait,
    as long as the wait does not end by itself: the handler never finds the frame
    of the caller gone; the caller returns exactly when its operation, which is
    new, completes after the caller began to wait, and with its error code, which
    is no error for a receive; and when the handler was called before -- nothing
    prevents it -- the caller waits forever, whatever happens afterwards. *)
Theorem blocking_call_correct before call evs evs' k u k1 u1 k' u' :
  run_events before init_kernel = (Ret u, k) -> Waits ∉ evs -> no_wake_up evs -> no_wake_up evs' ->
  run_events (call :: happened evs) k = (Ret u1, k1) -> run_events (happened evs') k1 = (Ret u', k') ->
  let id := next_op k in
  codes call id k = [] /\ length (codes call id k') <= 1 /\
  (call = ERecvfrom -> forall ec, ec ∈ codes call id k' -> ec = ec_success) /\
  exists s, blocking_call call (evs ++ Waits :: evs') k = Ret s /\ b_kernel s = k' /\
    who (b_wait s) = match codes call id k1, codes call id k' with
      | [], ec :: _ => Returned ec
      | _, _ => Waiting
      end.
Proof.
  intros E Hw Hn Hn' E1 E' id.
  pose proof (codes_once _ _ _ call id (run_after _ _ _ _ _ _ _ E (run_after _ _ _ _ _ _ _ E1 E'))) as Hl.
  split_and!; [by eapply call_fresh|done| |by eapply blocking_run].
  intros -> ec. exact (recv_code _ _ _ _ ec (run_after _ _ _ _ _ _ _ E (run_after _ _ _ _ _ _ _ E1 E'))).
Qed.

Lemma step_sends target data k :
  exists k0, step (ESendto target data) k = (Ret tt, k0) /\ known (next_op k) k0.
Proof. eexists. split; [done|]. by apply (step_sent (ESendto target data) k tt _ (next_op k)), list_elem_of_here. Qed.

Lemma send_not_over target data id k : id ∉ omap send_done (log k) -> codes (ESendto target data) id k = [].
Proof.
  intros Hid. destruct (codes (ESendto target data) id k) as [|ec l] eqn:E; [done|].
  assert (Hin : ec ∈ codes (ESendto target data) id k) by (rewrite E; apply list_elem_of_here).
  apply list_elem_of_omap in Hin as (c & Hc & Hcode). destruct Hid. apply list_elem_of_omap. exists c. split; [done|].
  destruct c as [i ec'|]; simpl in *; [|done]. case_decide; [by f_equal|done].
Qed.

Lemma send_over target data id k :
  id ∈ omap send_done (log k) -> exists ec l, codes (ESendto target data) id k = ec :: l /\ SendDone id ec ∈ log k.
Proof.
  intros (c & Hc & Hid)%list_elem_of_omap. destruct c as [i ec|]; simpl in Hid; [|done]. injection Hid as ->.
  assert (Hin : ec ∈ codes (ESendto target data) id k).
  { apply list_elem_of_omap. exists (SendDone id ec). split; [done|]. simpl. by rewrite decide_True. }
  destruct (codes (ESendto target data) id k) as [|ec1 l] eqn:E; [by apply elem_of_nil in Hin|]. exists ec1, l. split; [done|].
  assert (Hin1 : ec1 ∈ codes (ESendto target data) id k) by (rewrite E; apply list_elem_of_here).
  apply list_elem_of_omap in Hin1 as ([i ec2|] & Hc1 & Hcode); simpl in Hcode; [|done].
  case_decide; [|done]. by simplify_eq.
Qed.

(** C10: a blocking [sendto] comes back: whatever happens in the kernel, a caller
    that reached the wait before its send was over has returned -- with the error
    code of its send -- after three ticks of the timer that find the deadlines of
    the waiting sends passed and once nothing is left to run, unless the interface
    its packet waits at is shutting down. *)
Theorem sendto_comes_back before target data evs evs1 evs2 k u k1 u1 k2 u2 k' u' :
  run_events before init_kernel = (Ret u, k) -> Waits ∉ evs -> no_wake_up (evs ++ evs1 ++ evs2) ->
  let id := next_op k in
  run_events (ESendto target data :: happened evs) k = (Ret u1, k1) -> id ∉ omap send_done (log k1) ->
  run_events (happened evs1) k1 = (Ret u2, k2) -> id ∉ omap sendto_id (tasks k2) ->
  run_events (happened evs2) k2 = (Ret u', k') -> 3 <= full_ticks (happened evs2) k2 -> idle k' ->
  exists s, sendto target data (evs ++ Waits :: evs1 ++ evs2) k = Ret s /\ b_kernel s = k' /\
    ((exists ec, who (b_wait s) = Returned ec /\ SendDone id ec ∈ log k') \/
     exists op, sends k' !! id = Some op /\ is_quitting (node_if (s_interface op)) k').
Proof.
  intros E Hw [Hn Hn']%Forall_app id E1 Hnot E2 Hstart E' Hticks Hidle.
  assert (Eall : run_events (before ++ (ESendto target data :: happened evs) ++ happened evs1) init_kernel = (Ret u2, k2))
    by exact (run_after _ _ _ _ _ _ _ E (run_after _ _ _ _ _ _ _ E1 E2)).
  assert (E12 : run_events (happened (evs1 ++ evs2)) k1 = (Ret u', k')).
  { unfold happened. rewrite omap_app. exact (run_after _ _ _ _ _ _ _ E2 E'). }
  destruct (blocking_run (ESendto target data) evs (evs1 ++ evs2) k k1 u1 k' u' Hw Hn Hn' E1 E12) as (s & Es & Ek & Hs).
  { apply (codes_once _ _ u' _ _ (run_after _ _ _ _ _ _ _ Eall E')). }
  exists s. split_and!; [done|done|]. rewrite Hs, send_not_over by done. fold id.
  assert (Hstarted : Progress.started id k2).
  { destruct (step_sends target data k) as (k0 & E0 & Hknown).
    assert (E3 : run_events (happened evs ++ happened evs1) k0 = (Ret u2, k2)).
    { apply run_after with (2 := E2) (u := u1). cbn [run_events] in E1. unfold st_bind in E1. by rewrite E0 in E1. }
    assert (E4 : run_events (before ++ [ESendto target data]) init_kernel = (Ret tt, k0)).
    { apply run_after with (1 := E). cbn [run_events]. unfold st_bind. by rewrite E0. }
    destruct (init_pays _ _ _ E4) as [Hl _]. destruct (run_simulated _ _ _ _ init_recv_ok E4) as [Hr _].
    by destruct (run_known id _ k0 u2 k2 Hl Hr E3) as [|]; [left|..]. }
  destruct (started_ends _ _ _ _ _ _ id Eall E' Hstarted Hticks Hidle) as [Hdone|]; [left|by right].
  destruct (send_over target data id k' Hdone) as (ec & l & -> & Hin). by exists ec.
Qed.
End blocking.
