(* ===== verification/BlockingDemo.v ===== *)
(** * BlockingDemo: blocking calls, on concrete runs

    bob waits for a message, in time and too late; alice's blocking send comes
    back although nobody answers her. *)

From S2P Require Import Prelude StdSort OpenSSL RsaChunk Regex Address CoroQueue Routing KeyStore Avif Kernel Effects Mailbox Hoare KernelInv Flow Prices Progress KernelSpec Sendto KernelDemo RunDemo CApi Blocking.

Module BlockingDemo.
Import KernelDemo.KernelDemo RunDemo.RunDemo.
#[local] Existing Instances debug_build Toy.openssl Toy.laws ToyRegex.boost ToyRegex.laws
  InsertionSort.std InsertionSort.std_laws links.

(** alice's message reaches bob. *)
Definition delivery : list blocked_event :=
  Happens <$> [ERun 0 6; ERead 1 (Some message) 7; ERun 0 8; ERun 0 9].

Lemma ran es k : (run_events es k).1 = Ret tt -> run_events es k = (Ret tt, (run_events es k).2).
Proof. destruct (run_events es k). simpl. by intros ->. Defined.

Lemma quiet (es : list event) : no_wake_up (Happens <$> es).
Proof. apply Forall_fmap, Forall_true. done. Qed.

(** bob waits before the message comes. *)
Lemma blocking_call_correct_witness :
  exists s, recvfrom ([] ++ Waits :: delivery) (final B) = Ret s /\ who (b_wait s) = Returned ec_success.
Proof.
  destruct (blocking_call_correct B ERecvfrom [] delivery (final B) tt
    (run_events [ERecvfrom] (final B)).2 tt
    (run_events (happened delivery) (run_events [ERecvfrom] (final B)).2).2 tt)
    as (_ & _ & _ & s & E & _ & Hw).
  - apply runs. vm_compute. reflexivity.
  - apply not_elem_of_nil.
  - constructor.
  - apply quiet.
  - apply ran. vm_compute. reflexivity.
  - apply ran. vm_compute. reflexivity.
  - exists s. split; [exact E|]. rewrite Hw. vm_compute. reflexivity.
Defined.

(** He is late: the message was handed to his call, and he waits forever. *)
Example bob_is_late :
  (s ← recvfrom (delivery ++ [Waits]) (final B); Ret (who (b_wait s))) = Ret Waiting.
Proof. vm_compute. reflexivity. Qed.

(** Nobody answers alice: her call returns with an error. *)
Definition asks : list blocked_event := [Happens (ERun 0 0)].
Lemma sendto_comes_back_witness :
  exists s, sendto "bob@av" hello ([] ++ Waits :: asks ++ (Happens <$> A_waits)) (final A) = Ret s /\
    who (b_wait s) = Returned network_unreachable.
Proof.
  set (k1 := (run_events [ESendto "bob@av" hello] (final A)).2).
  set (k2 := (run_events (happened asks) k1).2). set (k3 := (run_events (happened (Happens <$> A_waits)) k2).2).
  destruct (sendto_comes_back A "bob@av" hello [] asks (Happens <$> A_waits) (final A) tt k1 tt k2 tt k3 tt)
    as (s & E & _ & [(ec & Hw & Hec)|(op & Hop & _)]).
  - apply runs. vm_compute. reflexivity.
  - apply not_elem_of_nil.
  - change (no_wake_up (Happens <$> (ERun 0 0 :: A_waits))). apply quiet.
  - apply ran. vm_compute. reflexivity.
  - apply (bool_decide_unpack _). vm_compute. exact I.
  - apply ran. vm_compute. reflexivity.
  - apply (bool_decide_unpack _). vm_compute. exact I.
  - apply ran. vm_compute. reflexivity.
  - apply (bool_decide_unpack _). vm_compute. exact I.
  - apply (bool_decide_unpack _). vm_compute. exact I.
  - exists s. split; [exact E|]. rewrite Hw. f_equal.
    assert (El : log k3 = [SendDone 0 network_unreachable]) by (vm_compute; reflexivity).
    rewrite El in Hec. apply list_elem_of_singleton in Hec. by injection Hec.
  - exfalso. assert (En : sends k3 !! next_op (final A) = None) by (vm_compute; reflexivity). congruence.
Defined.
End BlockingDemo.
