(* ===== verification/CLib.v ===== *)
(** * CLib: the life of the C library

    libavproto/src/avC_stub.cpp keeps one io_service, one kernel and one thread
    in static pointers, made by [av_start] and deleted by [av_stop]; the other
    C functions go through the pointers.  Between the calls of the application
    the thread runs events of the kernel. *)

From S2P Require Import Prelude StdSort OpenSSL RsaChunk Regex Address CoroQueue Routing KeyStore Avif Kernel CApi.

(** A static pointer to an object: never set, to a live object, or dangling. *)
Inductive ptr (A : Type) := Null | Live (a : A) | Deleted.
Arguments Null {A}.
Arguments Live {A} _.
Arguments Deleted {A}.

Definition deref_ptr {A} (p : ptr A) : outcome A :=
  match p with Live a => Ret a | _ => UB end.

Section clib.
Context `{Build} `{OpenSSL} `{BoostRegex} `{StdSort} `{!AvifImpl H0}.

Record c_lib := {
  onceflag : bool;
  av_service : ptr unit;
  avkernel_intance : ptr kernel;
  avkernelthread : ptr unit
}.

Definition c_init : c_lib :=
  {| onceflag := false; av_service := Null; avkernel_intance := Null; avkernelthread := Null |}.

Definition with_kernel (p : ptr kernel) (s : c_lib) : c_lib :=
  {| onceflag := onceflag s; av_service := av_service s; avkernel_intance := p;
     avkernelthread := avkernelthread s |}.

Definition create_avkernel_instance (s : c_lib) : c_lib :=
  {| onceflag := onceflag s; av_service := Live tt; avkernel_intance := Live init_kernel;
     avkernelthread := Live tt |}.

(** [boost::call_once] *)
Definition av_start (s : c_lib) : c_lib :=
  if onceflag s then s
  else
    let s := create_avkernel_instance s in
    {| onceflag := true; av_service := av_service s; avkernel_intance := avkernel_intance s;
       avkernelthread := avkernelthread s |}.

Definition av_stop (s : c_lib) : outcome c_lib :=
  _ ← deref_ptr (av_service s);       (* stop() *)
  _ ← deref_ptr (avkernelthread s);   (* join() *)
  Ret {| onceflag := onceflag s; av_service := Deleted; avkernel_intance := Deleted;
         avkernelthread := Deleted |}.

(** What the application calls, and what the thread runs in between.
    [connect_to_avrouter] is not among the calls: whatever the state of the
    library, its login ends at a null pointer ([connect_null_address] of CApi),
    so no call follows one that gets so far. *)
Inductive c_call :=
  | CStart
  | CStop
  | CSendto (dest_address : string) (message : bytes) (len : Z)
  | CRecvfrom
  | CThread (e : event).

(** The outcome of a call of the kernel, in the state [f] of what it leaves. *)
Definition with_state {A} (f : kernel -> c_lib) (r : outcome A * kernel) : outcome c_lib :=
  match r with
  | (Ret _, k) => Ret (f k)
  | (Throw e, _) => Throw e | (AssertFail, _) => AssertFail | (UB, _) => UB | (OutOfFuel, _) => OutOfFuel
  end.

(** A call of the kernel, or an event it handles. *)
Definition on_kernel {A} (m : ST kernel A) (s : c_lib) : outcome c_lib :=
  k ← deref_ptr (avkernel_intance s); with_state (fun k => with_kernel (Live k) s) (m k).

(** [av_sendto] and [av_recvfrom] up to their wait; without a kernel there is no
    thread. *)
Definition c_step (c : c_call) (s : c_lib) : outcome c_lib :=
  match c with
  | CStart => Ret (av_start s)
  | CStop => av_stop s
  | CSendto dest message len =>
      data ← av_sendto_data message len; on_kernel (async_sendto dest data) s
  | CRecvfrom => on_kernel async_recvfrom s
  | CThread e => match avkernel_intance s with Live _ => on_kernel (step e) s | _ => Ret s end
  end.

Fixpoint c_run (cs : list c_call) (s : c_lib) : outcome c_lib :=
  match cs with [] => Ret s | c :: cs => s ← c_step c s; c_run cs s end.

(** ** What the calls come to *)

(** The call as an event of the kernel. *)
Definition c_event (c : c_call) : option event :=
  match c with
  | CStart | CStop => None
  | CSendto dest message len => Some (ESendto dest (take (Z.to_nat len) message))
  | CRecvfrom => Some ERecvfrom
  | CThread e => Some e
  end.

(** The length that is passed is no more than what is there. *)
Definition c_valid (c : c_call) : Prop :=
  match c with CSendto _ message len => 0 <= len <= zlen message | _ => True end.

Definition is_stop (c : c_call) : bool := match c with CStop => true | _ => false end.
Definition needs_kernel (c : c_call) : bool :=
  match c with CStop | CSendto _ _ _ | CRecvfrom => true | _ => false end.

Definition running (k : kernel) : c_lib :=
  {| onceflag := true; av_service := Live tt; avkernel_intance := Live k; avkernelthread := Live tt |}.
Definition stopped : c_lib :=
  {| onceflag := true; av_service := Deleted; avkernel_intance := Deleted; avkernelthread := Deleted |}.

Lemma c_run_app cs cs' s : c_run (cs ++ cs') s = (s ← c_run cs s; c_run cs' s).
Proof.
  revert s. induction cs as [|c cs IH]; intros s; [done|]. simpl.
  destruct (c_step c s); simpl; [|done..]. apply IH.
Qed.

Lemma c_step_running c k :
  c_valid c -> is_stop c = false ->
  c_step c (running k) = with_state running (run_events (option_list (c_event c)) k).
Proof.
  intros Hv Hs. destruct c as [| |dest message len| |e]; try done; cbn [c_step c_event option_list run_events step].
  - unfold av_sendto_data. destruct Hv. rewrite (proj2 (Z.ltb_ge _ _)), (proj2 (Z.leb_le _ _)) by done.
    done.
  - change (run_events _ k) with (st_bind (step e) (fun _ => st_ret tt) k).
    unfold on_kernel, st_bind. cbn [avkernel_intance running deref_ptr]. rewrite outcome_bind_Ret.
    by destruct (step e k) as [[[]| | | |] k'].
Qed.

Lemma c_run_running cs k :
  Forall c_valid cs -> Forall (fun c => is_stop c = false) cs ->
  c_run cs (running k) = with_state running (run_events (omap c_event cs) k).
Proof.
  intros Hv. revert k. induction Hv as [|c cs Hc _ IH]; intros k Hs; [done|].
  apply Forall_cons in Hs as [Hcs Hs]. simpl c_run. rewrite c_step_running by done.
  assert (E : omap c_event (c :: cs) = option_list (c_event c) ++ omap c_event cs)
    by (simpl; by destruct (c_event c)).
  rewrite E, run_events_app. unfold st_bind.
  destruct (run_events (option_list (c_event c)) k) as [[[]| | | |] k1]; try done. by apply IH.
Qed.

(** Without a kernel: before the first start, or after the stop. *)
Definition no_kernel (s : c_lib) : Prop :=
  (av_service s = Null /\ avkernel_intance s = Null) \/
  (av_service s = Deleted /\ avkernel_intance s = Deleted).

Lemma c_step_no_kernel c s :
  no_kernel s -> c_valid c -> (c = CStart -> onceflag s = true) ->
  c_step c s = if needs_kernel c then UB else Ret s.
Proof.
  intros Hn Hv Ho. destruct c as [| |dest message len| |e]; simpl.
  - unfold av_start. by rewrite Ho.
  - unfold av_stop. by destruct Hn as [[-> _]|[-> _]].
  - unfold av_sendto_data. destruct Hv. rewrite (proj2 (Z.ltb_ge _ _)), (proj2 (Z.leb_le _ _)) by done.
    unfold on_kernel. by destruct Hn as [[_ ->]|[_ ->]].
  - unfold on_kernel. by destruct Hn as [[_ ->]|[_ ->]].
  - by destruct Hn as [[_ ->]|[_ ->]].
Qed.

Lemma c_run_no_kernel cs s :
  no_kernel s -> Forall c_valid cs -> (CStart ∈ cs -> onceflag s = true) ->
  c_run cs s = if existsb needs_kernel cs then UB else Ret s.
Proof.
  intros Hn Hv Ho. induction Hv as [|c cs Hc _ IH]; [done|]. simpl.
  rewrite c_step_no_kernel by (done || (intros ->; apply Ho; by left)).
  destruct (needs_kernel c); [done|]. apply IH. intros Hin. apply Ho. by right.
Qed.

(** C37: the C library can be used once.  Before the first [av_start] every
    other call goes through a null pointer.  From then to [av_stop] the calls
    are those of a kernel just constructed, whatever its thread runs in between.
    After [av_stop] another [av_start] does nothing, and [av_stop],
    [av_sendto] and [av_recvfrom] use deleted objects. *)
Theorem c_library_used_once before during after :
  Forall c_valid (before ++ during ++ after) -> CStart ∉ before -> Forall (fun c => is_stop c = false) during ->
  c_run before c_init = (if existsb needs_kernel before then UB else Ret c_init) /\
  c_run (CStart :: during) c_init = with_state running (run_events (omap c_event during) init_kernel) /\
  (forall k, run_events (omap c_event during) init_kernel = (Ret tt, k) ->
     c_run (CStart :: during ++ CStop :: after) c_init =
       if existsb needs_kernel after then UB else Ret stopped).
Proof.
  rewrite !Forall_app. intros (Hb & Hd & Ha) Hno Hs. split_and!.
  - apply c_run_no_kernel; [by left|done|done].
  - by apply (c_run_running during init_kernel).
  - intros k E. change (CStart :: during ++ CStop :: after) with ((CStart :: during) ++ CStop :: after).
    rewrite c_run_app. pose proof (c_run_running during init_kernel Hd Hs) as Er. rewrite E in Er.
    change (c_run (CStart :: during) c_init) with (c_run during (running init_kernel)). rewrite Er.
    simpl with_state. rewrite outcome_bind_Ret. change (c_run (CStop :: after) (running k)) with (c_run after stopped).
    apply c_run_no_kernel; [by right|done|done].
Qed.
End clib.

(** ** A concrete run *)
Module CLibDemo.
#[local] Existing Instances debug_build Toy.openssl ToyRegex.boost InsertionSort.std.

#[local] Instance no_links : AvifImpl Toy.openssl := {|
  get_ifname _ _ := "if0"; if_address _ := None; remote_address _ := None;
  get_rsa_key _ := None; get_cert _ := None
|}.

(** Started, a message given, its coroutine run, stopped, and started again. *)
Definition usage : list c_call := [CSendto "bob@av" [x01; x02; x03] 2; CThread (ERun 0 0)].

Lemma c_library_used_once_witness :
  c_run [CStop] c_init = UB /\
  c_run (CStart :: usage ++ [CStop; CStart]) c_init = Ret stopped /\
  c_run (CStart :: usage ++ [CStop; CStart; CRecvfrom]) c_init = UB.
Proof.
  assert (Hv : Forall c_valid ([CStop] ++ usage ++ [CStart; CRecvfrom])).
  { repeat constructor; vm_compute; discriminate. }
  assert (Hv' : Forall c_valid ([CStop] ++ usage ++ [CStart])).
  { repeat constructor; vm_compute; discriminate. }
  assert (Hno : CStart ∉ [CStop]) by (intros Hin; apply list_elem_of_singleton in Hin; discriminate).
  assert (Hs : Forall (fun c => is_stop c = false) usage) by (repeat constructor).
  assert (E : run_events (omap c_event usage) init_kernel =
    (Ret tt, (run_events (omap c_event usage) init_kernel).2)).
  { vm_compute. reflexivity. }
  destruct (c_library_used_once [CStop] usage [CStart; CRecvfrom] Hv Hno Hs) as (H1 & _ & H3).
  destruct (c_library_used_once [CStop] usage [CStart] Hv' Hno Hs) as (_ & _ & H3').
  split_and!; [exact H1|exact (H3' _ E)|exact (H3 _ E)].
Defined.
End CLibDemo.
