(* ===== verification/Programs.v ===== *)
(** * Programs: the demo

    demo/new_im.cpp from [main] to the test message: the options, the key and the
    certificate, the coroutines it spawns, cut at their yields, the thread that
    sends, and what the io_service runs in between.  Reading PEM files, splitting
    the command line, resolving names and connecting are parameters; output to
    the terminal is left out.  gui/gavim.cpp reads its keys and receives with the
    same code. *)

From S2P Require Import Prelude Wire Serialization OpenSSL RsaChunk Regex Address StdSort CoroQueue Routing KeyStore Avif Kernel Effects Mailbox Hoare KernelInv Flow Prices Progress Unrouted Jackif Login CApi.

(** What OpenSSL finds in a file; [None] for a null pointer.  The pass phrase
    is what the callback stored. *)
Class PemFiles (O : OpenSSL) := {
  BIO_new_file : string -> bool;
  PEM_read_bio_RSAPrivateKey : string -> bytes -> option RSA;
  PEM_read_bio_X509 : string -> option X509
}.

(** What Boost.Program_options finds on a command line; it throws for one it
    cannot parse. *)
Record variables_map := {
  vm_help : bool; vm_key : option string; vm_cert : option string; vm_to : option string
}.
Class ProgramOptions := { parse_command_line : list string -> outcome variables_map }.

(** OpenSSL's buffer for the phrase. *)
Definition PEM_BUFSIZE : Z := 1024.

Section programs.
Context `{Host} `{Build} `{P : Protobuf} `{O : OpenSSL} `{BoostRegex} `{StdSort}.
Context `{!AvimProto P} `{DiffieHellman} `{!X509Name O} `{!PemFiles O} `{ProgramOptions}.

(** The key and the certificate, for what was typed; [None]: [exit(1)]. *)
Definition load_pki (key cert : string) (tmp : bytes) : outcome (option (option RSA * option X509)) :=
  if BIO_new_file key then
    r ← pass_cb PEM_BUFSIZE tmp;
    let rsa_key := PEM_read_bio_RSAPrivateKey key r.1 in
    if BIO_new_file cert then Ret (Some (rsa_key, PEM_read_bio_X509 cert)) else Ret None
  else Ret None.

(** ** demo/new_im.cpp *)

(** The static objects: [avcore] and [avinterface], and the connection. *)
Record client := { core : kernel; avinterface : option avjackif; conn : sock }.

Definition with_core (k : kernel) (c : client) : client :=
  {| core := k; avinterface := avinterface c; conn := conn c |}.

(** A call on [avcore] whose interfaces are the object [j]. *)
Definition on_core {A} (m : ST kernel A) : ST client A := fun c =>
  let r := m (core c) in (r.1, with_core r.2 c).

(** [avinterface->async_handshake(yield_context)] *)
Definition client_handshake (j : avjackif) : ST client (bool * avjackif) := fun c =>
  let r := async_handshake j (conn c) in
  (r.1, {| core := core c;
           avinterface := match r.1 with Ret (_, j') => Some j' | _ => avinterface c end; conn := r.2 |}).

Definition test_message (to : string) : bytes :=
  s2b ("test, me are sending a test message to " +:+ to +:+ " stupid!").

(** [msg_login_and_send] to its yield in [async_handshake]: for whom the message is. *)
Definition msg_login_and_send (to : string) : ST client string :=
  let* j := (fun c => (deref (avinterface c), c)) in
  let* me := st_lift (deref (m_local_addr j)) in
  let me_addr := av_address_to_string me in
  st_ret (if String.eqb to "" then me_addr else to).

(** From there to the thread that it starts; its interface is number 0. *)
Definition handshake_and_login : ST client unit :=
  let* j := (fun c => (deref (avinterface c), c)) in
  let* r := client_handshake j in
  let impl := jack_impl (fun _ => r.2) in
  (if r.1 then on_core (step (AvifImpl0 := impl) (EConstruct 0)) else st_ret tt) ;;-
  on_core (login_and_route (AvifImpl0 := impl) 0 r.1).

(** The thread: its call of [sendto], to the wait; the number of the send. *)
Definition sendto_thread (to : string) : ST client nat := on_core (async_sendto to (test_message to)).

(** [real_main] once resolving and connecting returned; a failure is thrown out
    of the io_service. *)
Definition real_main (connected : bool) (rsa_key : option RSA) (x509_cert : option X509) : ST client unit :=
  if connected then
    let* j := st_lift (set_pki rsa_key x509_cert new_avjackif) in
    st_modify (fun c => {| core := core c; avinterface := Some j; conn := conn c |})
  else st_lift (Throw system_error).

(** [msg_reader], and [recvThread::recv_msg]: one turn of the loop, resumed with
    what its receive completed with.  An error is thrown by the yield_context. *)
Definition msg_reader_start : ST kernel nat := async_recvfrom.
Definition msg_reader (c : completion) : ST kernel (option (string * bytes) * nat) :=
  match c with
  | RecvDone _ ec (Some v) =>
      if failed ec then st_lift (Throw system_error)
      else let* id := async_recvfrom in st_ret (Some v, id)
  | _ => st_lift (Throw system_error)
  end.

(** How far the demo has come with its message: where [real_main] is suspended,
    or [msg_login_and_send], which it spawns, or what has become of the thread
    that [msg_login_and_send] starts. *)
Inductive place :=
  | Connecting (rsa_key : option RSA) (x509_cert : option X509) (to : string)
  | Spawned (to : string)
  | Handshaking (to : string)
  | Started (to : string)
  | Sent (to : string) (id : nat).

Definition addressee (p : place) : string :=
  match p with Connecting _ _ to | Spawned to | Handshaking to | Started to | Sent to _ => to end.

(** [main] after its options: the exit code when it does not start, otherwise
    where it stands when the io_service waits for the first time; the reader
    starts when [real_main] first yields. *)
Definition demo_main (key cert : string) (tmp : bytes) (to : string) : ST client (Z + place) :=
  let* pki := st_lift (load_pki key cert tmp) in
  match pki with
  | None => st_ret (inl 1)
  | Some (rsa_key, x509_cert) =>
      let* _ := on_core msg_reader_start in
      st_ret (inr (Connecting rsa_key x509_cert to))
  end.

(** [main]: the options with their defaults; asking for help is an exit code of 1. *)
Definition main (argv : list string) (tmp : bytes) : ST client (Z + place) :=
  let* vm := st_lift (parse_command_line argv) in
  if vm_help vm then st_ret (inl 1)
  else demo_main (default "avim.key" (vm_key vm)) (default "avim.cert" (vm_cert vm)) tmp (default "" (vm_to vm)).

(** What the io_service does with the kernel, and the reader, which receives
    again and again: no other member is called than those below. *)
Definition io_serves (e : event) : bool :=
  match e with
  | ERecvfrom | ERun _ _ | ERead _ _ _ | EWrote _ _ _ _ | ETimer1 _ _ | ETimer2 _ _ => true
  | _ => false
  end.

Inductive demo_event :=
  | Io (e : event)
  | Next (connected : bool).   (* the coroutine, or the thread, goes on *)

Definition demo_next (connected : bool) (p : place) : ST client place :=
  match p with
  | Connecting rsa_key x509_cert to => real_main connected rsa_key x509_cert ;;- st_ret (Spawned to)
  | Spawned to => let* to := msg_login_and_send to in st_ret (Handshaking to)
  | Handshaking to => handshake_and_login ;;- st_ret (Started to)
  | Started to => let* id := sendto_thread to in st_ret (Sent to id)
  | Sent to id => st_ret p
  end.

Definition demo_step (ev : demo_event) (p : place) : ST client place :=
  match ev with
  | Io e =>
      if io_serves e then
        (fun c => on_core (step (AvifImpl0 := jack_impl (fun _ => default new_avjackif (avinterface c))) e) c) ;;-
        st_ret p
      else st_ret p
  | Next connected => demo_next connected p
  end.

Fixpoint demo_run (evs : list demo_event) (p : place) : ST client place :=
  match evs with
  | [] => st_ret p
  | ev :: evs => let* p := demo_step ev p in demo_run evs p
  end.

Lemma step_construct_core i (k : kernel) (impl : AvifImpl O) :
  ifs k !! i = None -> step (EConstruct i) k = (Ret tt, set_ifs (<[i := construct]> (ifs k)) k).
Proof. intros Hi. cbn [step]. unfold st_modify. by rewrite Hi. Qed.

(** ** Before the login *)

(** Nothing but the reader is in the kernel. *)
Definition reading_task (t : task) : Prop :=
  match t with TRecvfrom _ | TRecvPop _ _ _ => True | _ => False end.

Record unborn (k : kernel) : Prop := {
  ub_ifs : ifs k = ∅;
  ub_table : table k = empty_rtable;
  ub_names : names_asked k = 0%nat;
  ub_post : postprocess_list k = [];
  ub_pre : preprocess_list k = [];
  ub_tasks : Forall reading_task (tasks k)
}.

Lemma recv_tasks_reading (ps : list (@posted (string * bytes) nat Empty_set)) : Forall reading_task (ps ≫= recv_task).
Proof. induction ps as [|[? ? ?|[]] ps IH]; simpl; [constructor|by constructor]. Qed.

(** So it does not matter what interfaces would answer. *)
Lemma unborn_step (impl1 impl2 : AvifImpl O) e k u k' :
  unborn k -> io_serves e = true -> step (AvifImpl0 := impl1) e k = (Ret u, k') ->
  step (AvifImpl0 := impl2) e k = (Ret u, k') /\ unborn k'.
Proof.
  intros Hk He E. pose proof Hk as [Hi Ht Hn Hpo Hpr Hts].
  destruct e as [i|i|target gw name m|target data| | |n now|i avpkt now|i n ec now|ec now|ec now]; try done; cbn [step] in *.
  - split; [done|]. injection E as _ <-. split; try done. simpl. apply Forall_app. split; [done|by repeat constructor].
  - destruct (tasks k !! n) as [t|] eqn:Et; [|injection E as <- <-; by split].
    pose proof (Forall_lookup_1 _ _ _ _ Hts Et) as Hr. pose proof (Forall_delete _ _ n Hts) as Hd.
    destruct t as [| | | |id| |id ec v]; try done; (split; [done|]); injection E as _ <-; split; try done.
    simpl. apply Forall_app. split; [done|apply recv_tasks_reading].
  - unfold runner_read, st_bind at 1, get_if, read_k in E. by rewrite Hi, lookup_empty in E.
  - unfold writer_wrote, st_bind at 1, get_if, read_k in E. by rewrite Hi, lookup_empty in E.
  - destruct (timer1_armed k); [|injection E as <- <-; by split].
    unfold timer1_tick, timer1_start, st_bind, st_modify in *.
    destruct (m_quitting _); rewrite !wake_no_waiters in * by done; split; try done; by injection E as _ <-.
  - split; [exact E|]. destruct (timer2_armed k); [|by injection E as _ <-].
    apply st_bind_inv in E as ([] & k1 & [= <-] & (ks & k2 & [= E2 <-] & [= _ <-])%st_bind_inv).
    by destruct (m_quitting _).
Qed.

(** The login is two events of the kernel at most, and adds no route. *)
Definition login_events (ok : bool) : list event := if ok then [EConstruct 0; EAddInterface 0] else [].

Lemma login_is_events j me (ok : bool) k :
  unborn k -> m_local_addr j = Some me -> is_Some (m_remote_addr j) ->
  let impl := jack_impl (fun _ => j) in
  exists k', ((if ok then step (AvifImpl0 := impl) (EConstruct 0) else st_ret tt) ;;-
      login_and_route (AvifImpl0 := impl) 0 ok) k = (Ret tt, k') /\
    run_events (AvifImpl0 := impl) (login_events ok) k = (Ret tt, k').
Proof.
  intros [Hi Ht Hn _ _ _] Hme Hr impl. unfold login_and_route.
  destruct ok; [|eexists; split; [|done]; unfold st_bind, st_lift, st_ret; simpl; by rewrite Hme].
  set (k1 := set_ifs (<[0%nat := construct]> ∅) k).
  assert (Ec : step (AvifImpl0 := impl) (EConstruct 0) k = (Ret tt, k1))
    by (rewrite step_construct_core; by rewrite Hi).
  assert (Ha : add_interface 0 k1 = (Ret false, added (jack_ifname (1 + names_asked k1)) 0 k1)).
  { apply (jack_add_interface (fun _ => j)); [|unfold k1; simpl; rewrite Hn; done|done].
    intros name. unfold k1. simpl. rewrite Ht. intros [nd Hnd]. done. }
  eexists. split.
  - rewrite (st_bind_Ret _ _ _ _ _ Ec).
    rewrite (st_bind_Ret (st_lift _) _ k1 me k1) by (unfold st_lift; simpl; by rewrite Hme).
    rewrite (st_bind_Ret _ _ _ _ _ Ha). done.
  - unfold login_events, run_events. rewrite (st_bind_Ret _ _ _ _ _ Ec). cbn [step].
    unfold st_bind at 1. unfold k1 at 1. simpl (ifs _). rewrite lookup_insert_eq. by rewrite (st_bind_Ret _ _ _ _ _ Ha).
Qed.

Lemma handshake_addresses j s ok j' s' :
  async_handshake j s = (Ret (ok, j'), s') -> m_local_addr j' = m_local_addr j /\ is_Some (m_remote_addr j').
Proof.
  intros E. unfold async_handshake in E. inv_bind. injection E as _ <- _. eauto.
Qed.

Lemma on_core_inv {A} (m : ST kernel A) c a c' :
  on_core m c = (Ret a, c') -> exists k', m (core c) = (Ret a, k') /\ c' = with_core k' c.
Proof. unfold on_core. destruct (m (core c)) as [o k']. intros [= -> <-]. by exists k'. Qed.

Lemma on_core_eq {A} (m : ST kernel A) c a k' : m (core c) = (Ret a, k') -> on_core m c = (Ret a, with_core k' c).
Proof. unfold on_core. by intros ->. Qed.

(** ** The demo's kernel runs, and is never given a route *)

Definition runs_so_far (impl : AvifImpl O) (k : kernel) : Prop :=
  exists es, Forall adds_no_route es /\ run_events (AvifImpl0 := impl) es init_kernel = (Ret tt, k).

Definition logged_in (c : client) : Prop :=
  exists j, avinterface c = Some j /\ runs_so_far (jack_impl (fun _ => j)) (core c).

Definition demo_ok (p : place) (c : client) : Prop :=
  match p with
  | Connecting _ _ _ | Spawned _ | Handshaking _ =>
      unborn (core c) /\ forall impl, runs_so_far impl (core c)
  | Started _ => logged_in c
  | Sent _ id => logged_in c /\ known id (core c)
  end.

Lemma io_adds_no_route e : io_serves e = true -> adds_no_route e.
Proof. by destruct e. Qed.

Lemma runs_further impl es k k' :
  Forall adds_no_route es -> runs_so_far impl k -> run_events (AvifImpl0 := impl) es k = (Ret tt, k') -> runs_so_far impl k'.
Proof.
  intros He (es0 & He0 & E0) E. exists (es0 ++ es). split; [by apply Forall_app|].
  rewrite run_events_app. unfold st_bind. by rewrite E0.
Qed.

Lemma runs_step impl e k u k' :
  adds_no_route e -> runs_so_far impl k -> step (AvifImpl0 := impl) e k = (Ret u, k') -> runs_so_far impl k'.
Proof.
  intros He Hk E. apply (runs_further impl [e] k); [by constructor|done|]. cbn [run_events].
  destruct u. by rewrite (st_bind_Ret _ _ _ _ _ E).
Qed.

Context `{!StdSortLaws H2}.
#[local] Existing Instances work_prices work_laws.

Lemma runs_lively impl k : runs_so_far impl k -> lively k.
Proof. intros (es & _ & E). by destruct (init_pays (AvifImpl0 := impl) es tt k E) as [Hl _]. Qed.

Lemma demo_io e p c u c' :
  io_serves e = true -> demo_ok p c ->
  on_core (step (AvifImpl0 := jack_impl (fun _ => default new_avjackif (avinterface c))) e) c = (Ret u, c') -> demo_ok p c'.
Proof.
  intros He Hp (k' & E & ->)%on_core_inv. pose proof (io_adds_no_route e He) as Hr.
  assert (Hlog : logged_in c -> logged_in (with_core k' c)).
  { intros (j & Hj & Hruns). rewrite Hj in E. exists j. split; [done|]. by eapply runs_step. }
  destruct p as [rsa cert to|to|to|to|to id]; cbn [demo_ok with_core core] in *; [..|by apply Hlog|].
  4:{ destruct Hp as [Hp Hid]. split; [by apply Hlog|]. destruct Hp as (j & Hj & Hruns).
      eapply (step_known id e (core c)); [by eapply runs_lively|exact E|done]. }
  all: destruct Hp as [Hub Hruns]; split; [by eapply (unborn_step _ (jack_impl (fun _ => new_avjackif)))|].
  all: intros impl; destruct (unborn_step _ impl e _ _ _ Hub He E) as [E' _]; by eapply runs_step.
Qed.

Lemma demo_login c u c' :
  unborn (core c) -> (forall impl, runs_so_far impl (core c)) -> handshake_and_login c = (Ret u, c') -> logged_in c'.
Proof.
  intros Hub Hruns. unfold handshake_and_login. intros (j & c1 & [= Hj <-] & E)%st_bind_inv.
  apply st_bind_inv in E as ([ok j'] & c2 & Eh & E). unfold client_handshake in Eh.
  destruct (async_handshake j (conn c)) as [o s'] eqn:Ehs. simpl in Eh. injection Eh as -> <-.
  destruct (handshake_addresses _ _ _ _ _ Ehs) as [Hl Hr]. cbn [fst snd] in E.
  apply st_bind_inv in E as (u1 & c3 & E1 & (k' & E2 & ->)%on_core_inv).
  assert (E3 : exists k3, (if ok then step (AvifImpl0 := jack_impl (fun _ => j')) (EConstruct 0) else st_ret tt) (core c) = (Ret tt, k3) /\
    c3 = with_core k3 {| core := core c; avinterface := Some j'; conn := s' |}).
  { destruct ok; [apply on_core_inv in E1 as (k3 & E1 & ->); destruct u1; by exists k3|].
    injection E1 as _ <-. by exists (core c). }
  destruct E3 as (k3 & E3 & ->). cbn [core with_core] in E2.
  destruct (m_local_addr j') as [me|] eqn:Eme.
  2:{ exfalso. revert E2. unfold login_and_route, st_bind, st_lift. simpl. by rewrite Eme. }
  destruct (login_is_events j' me ok (core c) Hub Eme Hr) as (k2 & El & Er).
  rewrite (st_bind_Ret _ _ _ _ _ E3), E2 in El. injection El as _ ->.
  exists j'. split; [done|]. simpl. eapply runs_further; [|apply Hruns|exact Er].
  destruct ok; by repeat constructor.
Qed.

Lemma demo_step_ok ev p c p' c' :
  demo_ok p c -> demo_step ev p c = (Ret p', c') ->
  demo_ok p' c' /\ (addressee p <> "" -> addressee p' = addressee p).
Proof.
  intros Hp. destruct ev as [e|connected]; cbn [demo_step].
  - destruct (io_serves e) eqn:He; [|by intros [= <- <-]].
    intros ([] & c1 & E & [= <- <-])%st_bind_inv. split; [by eapply demo_io|done].
  - destruct p as [rsa cert to|to|to|to|to id]; cbn [demo_next].
    + intros ([] & c1 & E & [= <- <-])%st_bind_inv. split; [|done]. unfold real_main in E. destruct connected; [|done].
      by apply st_bind_inv in E as (j & c2 & [= _ <-] & [= <-]).
    + intros (to' & c1 & E & [= <- <-])%st_bind_inv. unfold msg_login_and_send in E.
      apply st_bind_inv in E as (j & c2 & [= _ <-] & (me & c3 & [= _ <-] & [= <- <-])%st_bind_inv).
      split; [done|]. simpl. intros Hto. by destruct (String.eqb_spec to "").
    + intros ([] & c1 & E & [= <- <-])%st_bind_inv. destruct Hp as [Hub Hruns]. split; [|done].
      by apply (demo_login c tt).
    + intros (id & c1 & (k' & E & ->)%on_core_inv & [= <- <-])%st_bind_inv. split; [|done].
      assert (Es : forall impl, step (AvifImpl0 := impl) (ESendto to (test_message to)) (core c) = (Ret tt, k'))
        by (intros impl; cbn [step]; by rewrite (st_bind_Ret _ _ _ _ _ E)).
      destruct Hp as (j & Hj & Hruns). split; [exists j; split; [done|exact (runs_step _ (ESendto to (test_message to)) _ tt k' I Hruns (Es _))]|].
      injection E as <- <-. left. simpl. rewrite omap_app. apply elem_of_app. right. by apply list_elem_of_here.
    + intros [= <- <-]. done.
Qed.

Lemma demo_run_ok evs p c p' c' :
  demo_ok p c -> demo_run evs p c = (Ret p', c') ->
  demo_ok p' c' /\ (addressee p <> "" -> addressee p' = addressee p).
Proof.
  revert p c. induction evs as [|ev evs IH]; intros p c Hp; cbn [demo_run]; [by intros [= <- <-]|].
  intros (p1 & c1 & E1 & E2)%st_bind_inv. destruct (demo_step_ok ev p c p1 c1 Hp E1) as [Hp1 Ha1].
  destruct (IH p1 c1 Hp1 E2) as [Hp2 Ha2]. split; [done|]. intros Hto. rewrite <-(Ha1 Hto). apply Ha2. by rewrite Ha1.
Qed.

Lemma demo_ok_runs p c : demo_ok p c -> exists impl, runs_so_far impl (core c).
Proof.
  destruct p; cbn [demo_ok]; intros Hp; [exists (jack_impl (fun _ => new_avjackif)); apply Hp..| |].
  - destruct Hp as (j & _ & Hruns). by eexists.
  - destruct Hp as [(j & _ & Hruns) _]. by eexists.
Qed.

Lemma main_starts argv tmp c p c1 :
  core c = init_kernel -> main argv tmp c = (Ret (inr p), c1) ->
  demo_ok p c1 /\ forall vm to, parse_command_line argv = Ret vm -> vm_to vm = Some to -> addressee p = to.
Proof.
  intros Hc. unfold main. intros (vm & c0 & [= Hvm <-] & E)%st_bind_inv. destruct (vm_help vm); [done|].
  unfold demo_main in E. apply st_bind_inv in E as ([[rsa cert]|] & c0 & [= _ <-] & E); [|done].
  apply st_bind_inv in E as (id & c2 & (k' & E1 & ->)%on_core_inv & [= <- <-]). rewrite Hc in E1. injection E1 as _ <-.
  split.
  - split; [split; try done; by repeat constructor|]. intros impl. exists [ERecvfrom]. split; [by repeat constructor|done].
  - intros vm' to Hvm' Ht. rewrite Hvm in Hvm'. injection Hvm' as <-. simpl. by rewrite Ht.
Qed.

(** It does get as far as the send, when the certificate names an address and
    the router answers the handshake, with whatever verdict. *)
Lemma set_pki_address key cert j :
  set_pki key cert new_avjackif = Ret j -> exists me, m_local_addr j = Some me.
Proof. unfold set_pki. intros E. inv_bind. injection E as <-. eauto. Qed.

Lemma demo_gets_there rsa_key x509_cert to c j ok j' s' :
  unborn (core c) -> set_pki rsa_key x509_cert new_avjackif = Ret j -> async_handshake j (conn c) = (Ret (ok, j'), s') ->
  exists whom id c', demo_run (replicate 4 (Next true)) (Connecting rsa_key x509_cert to) c = (Ret (Sent whom id), c').
Proof.
  intros Hub Hpki Hhs. destruct (set_pki_address _ _ _ Hpki) as [me Hme].
  destruct (handshake_addresses _ _ _ _ _ Hhs) as [Hl Hr]. rewrite Hme in Hl.
  destruct (login_is_events j' me ok (core c) Hub Hl Hr) as (k' & E & _).
  set (c1 := {| core := core c; avinterface := Some j; conn := conn c |}).
  set (whom := if String.eqb to "" then av_address_to_string me else to).
  set (c2 := {| core := k'; avinterface := Some j'; conn := s' |}).
  assert (E1 : demo_next true (Connecting rsa_key x509_cert to) c = (Ret (Spawned to), c1)).
  { cbn [demo_next]. unfold real_main, st_bind, st_lift, st_modify. by rewrite Hpki. }
  assert (E2 : demo_next true (Spawned to) c1 = (Ret (Handshaking whom), c1)).
  { cbn [demo_next]. unfold msg_login_and_send, st_bind, st_lift. cbn [avinterface c1 deref]. by rewrite Hme. }
  assert (E3 : demo_next true (Handshaking whom) c1 = (Ret (Started whom), c2)).
  { set (c0 := {| core := core c; avinterface := Some j'; conn := s' |}).
    assert (Eh : client_handshake j c1 = (Ret (ok, j'), c0)) by (unfold client_handshake; cbn [conn c1]; by rewrite Hhs).
    apply st_bind_inv in E as ([] & k0 & Ea & Eb).
    assert (Ea' : (if ok then on_core (step (AvifImpl0 := jack_impl (fun _ => j')) (EConstruct 0)) else st_ret tt) c0 =
      (Ret tt, with_core k0 c0)).
    { destruct ok; [by rewrite (on_core_eq _ c0 tt k0 Ea)|]. injection Ea as <-. done. }
    cbn [demo_next]. unfold handshake_and_login.
    rewrite (st_bind_Ret _ (fun _ => st_ret (Started whom)) c1 tt c2); [done|].
    rewrite (st_bind_Ret _ _ c1 j c1) by done. rewrite (st_bind_Ret _ _ _ _ _ Eh).
    cbn [fst snd]. rewrite (st_bind_Ret _ _ _ _ _ Ea'). exact (on_core_eq _ (with_core k0 c0) tt k' Eb). }
  eexists whom, _, _. cbn [replicate demo_run demo_step].
  rewrite (st_bind_Ret _ _ _ _ _ E1), (st_bind_Ret _ _ _ _ _ E2), (st_bind_Ret _ _ _ _ _ E3). done.
Qed.

(** C35: the demo never gets its message through.  Its [main] brings it to the
    point where the io_service takes over; from there its coroutines and the
    thread that sends go on in turn, and in between, before and after, the
    io_service runs tasks, reads and writes of the interface and timers, in any
    order and any number, whatever the router answers, whatever packets arrive
    and whoever the message is for.  As long as the process lives, no route is
    ever in the table, no packet of a send is ever in a queue or being written,
    every send that ends does so with network_unreachable, and the test
    message's send, once the thread has called [sendto], has not run yet or has
    ended so. *)
Theorem demo_message_unreachable argv tmp c p c1 evs p' c' :
  core c = init_kernel -> main argv tmp c = (Ret (inr p), c1) -> demo_run evs p c1 = (Ret p', c') ->
  let k := core c' in
  m_routes (table k) = [] /\ (forall i, queued i k = []) /\
  (forall id ec, SendDone id ec ∈ log k -> ec = network_unreachable) /\
  (forall to id, p' = Sent to id -> id ∈ omap sendto_id (tasks k) \/ SendDone id network_unreachable ∈ log k) /\
  forall vm to, parse_command_line argv = Ret vm -> vm_to vm = Some to -> to <> "" -> addressee p' = to.
Proof.
  intros Hc Hm Hrun k. destruct (main_starts argv tmp c p c1 Hc Hm) as [Hp Hto].
  destruct (demo_run_ok evs p c1 p' c' Hp Hrun) as [Hp' Ha].
  destruct (demo_ok_runs p' c' Hp') as (impl & es & Hes & E).
  destruct (unrouted_run (AvifImpl0 := impl) es k tt Hes E) as (Hr & Hq & Hl & Hd). split_and!; [done..| |].
  - intros to id ->. apply Hd, Hp'.
  - intros vm to Hvm Ht Hne. rewrite <-(Hto vm to Hvm Ht) in *. by apply Ha.
Qed.
End programs.

(** ** A concrete run *)
Module ProgramsDemo.
Import Jackif.JackDemo.
#[local] Existing Instances x86_host debug_build Toy.openssl Toy.laws ToyRegex.boost ToyRegex.laws
  InsertionSort.std InsertionSort.std_laws protobuf proto dh names.

#[local] Instance pem : PemFiles Toy.openssl :=
  {| BIO_new_file _ := true; PEM_read_bio_RSAPrivateKey _ _ := Some (x01 : @RSA Toy.openssl);
     PEM_read_bio_X509 _ := Some (x01 : @X509 Toy.openssl) |}.

Definition at_start : client := {| core := init_kernel; avinterface := None; conn := answering |}.

(** avim --to bob@av *)
#[local] Instance options : ProgramOptions :=
  {| parse_command_line argv :=
       match argv with
       | ["--to"; to] => Ret {| vm_help := false; vm_key := None; vm_cert := None; vm_to := Some to |}
       | ["--help"] => Ret {| vm_help := true; vm_key := None; vm_cert := None; vm_to := None |}
       | _ => Throw system_error
       end |}.

Example help_is_an_error : (main ["--help"] [] at_start).1 = Ret (inl 1).
Proof. reflexivity. Qed.

(** The reader receives, the login goes through, the message is given to the
    kernel, some packet comes in, and all tasks are run. *)
Definition stray : avPacket :=
  {| src := {| username := "bob"; domain := "av"; resource := None |};
     dest := {| username := "me"; domain := "av"; resource := None |}; upperlayerpotocol := "hello"; payload := None;
     publickey := None; time_to_live := 5 |}.
Definition evening : list demo_event :=
  [Io (ERun 0 0); Next true; Io (ETimer1 ec_success 1); Next true; Next true; Io (ERun 0 2); Next true;
   Io (ERead 0 (Some stray) 3); Io (ERun 0 4); Io (ERun 0 5); Io (ERun 0 6); Io (ETimer2 ec_success 7)].

Lemma demo_message_unreachable_witness :
  exists c', demo_run evening (Connecting (Some (x01 : @RSA Toy.openssl)) (Some (x01 : @X509 Toy.openssl)) "bob@av")
      (main ["--to"; "bob@av"] [] at_start).2 = (Ret (Sent "bob@av" 1), c') /\
    tasks (core c') = [] /\ SendDone 1 network_unreachable ∈ log (core c').
Proof.
  pose (p := Connecting (Some (x01 : @RSA Toy.openssl)) (Some (x01 : @X509 Toy.openssl)) "bob@av").
  pose (c1 := (main ["--to"; "bob@av"] [] at_start).2).
  assert (Em : main ["--to"; "bob@av"] [] at_start = (Ret (inr p), c1)) by (vm_compute; reflexivity).
  assert (Er : (demo_run evening p c1).1 = Ret (Sent "bob@av" 1)) by (vm_compute; reflexivity).
  assert (Et : tasks (core (demo_run evening p c1).2) = []) by (vm_compute; reflexivity).
  pose (c' := (demo_run evening p c1).2).
  assert (E : demo_run evening p c1 = (Ret (Sent "bob@av" 1), c')) by (unfold c'; destruct (demo_run evening p c1); simpl in Er; by rewrite Er).
  destruct (demo_message_unreachable ["--to"; "bob@av"] [] at_start p c1 evening (Sent "bob@av" 1) c' eq_refl Em E)
    as (_ & _ & _ & Hsent & _).
  exists c'. split_and!; [exact E|exact Et|]. destruct (Hsent _ _ eq_refl) as [Hin|Hdone]; [|exact Hdone].
  exfalso. unfold c' in Hin. rewrite Et in Hin. by apply elem_of_nil in Hin.
Defined.
End ProgramsDemo.
