(* ===== verification/Reader.v ===== *)
(** * Reader: the coroutine that shows what arrives

    [msg_reader] of demo/new_im.cpp, and [recvThread::recv_msg] of
    gui/gavim.cpp: a loop that receives a message, shows it and receives the
    next.  It is the only receiver of its program.  Joined to the kernel, it
    shows every message that arrives, once and in order. *)

From S2P Require Import Prelude Wire Serialization StdSort OpenSSL RsaChunk Regex Address CoroQueue Routing KeyStore Avif Kernel Effects Mailbox KernelDemo Jackif Login Programs.

Abbreviation message := Mailbox.message.

Section reader.
Context `{Build} `{O : OpenSSL} `{BoostRegex} `{StdSort} `{!AvifImpl O}.

(** The kernel, the receive the loop waits for, and what it has shown. *)
Record reader := { rd_core : kernel; rd_id : nat; printed : list message }.

(** The loop started on a kernel. *)
Definition reader_start (k : kernel) : outcome reader :=
  match msg_reader_start k with
  | (Ret id, k) => Ret {| rd_core := k; rd_id := id; printed := [] |}
  | (Throw e, _) => Throw e | (AssertFail, _) => AssertFail | (UB, _) => UB | (OutOfFuel, _) => OutOfFuel
  end.

(** The completion that an event of the io_service calls. *)
Definition completes (e : event) (k : kernel) : option completion :=
  match e with
  | ERun n _ =>
      match tasks k !! n with
      | Some (TRecvPop id ec v) => Some (RecvDone id ec (if failed ec then None else Some v))
      | _ => None
      end
  | _ => None
  end.

(** An event of the kernel; when it completes the loop's receive, the loop goes
    on inside it. *)
Definition reader_step (e : event) (r : reader) : outcome reader :=
  match step e (rd_core r) with
  | (Ret _, k) =>
      match completes e (rd_core r) with
      | Some c =>
          if bool_decide (recv_done c = Some (rd_id r)) then
            match msg_reader c k with
            | (Ret (v, id), k) =>
                Ret {| rd_core := k; rd_id := id; printed := printed r ++ option_list v |}
            | (Throw e, _) => Throw e | (AssertFail, _) => AssertFail | (UB, _) => UB
            | (OutOfFuel, _) => OutOfFuel
            end
          else Ret {| rd_core := k; rd_id := rd_id r; printed := printed r |}
      | None => Ret {| rd_core := k; rd_id := rd_id r; printed := printed r |}
      end
  | (Throw e, _) => Throw e | (AssertFail, _) => AssertFail | (UB, _) => UB | (OutOfFuel, _) => OutOfFuel
  end.

Fixpoint reader_run (es : list event) (r : reader) : outcome reader :=
  match es with [] => Ret r | e :: es => r ← reader_step e r; reader_run es r end.

(** The messages that arrive during a run. *)
Fixpoint arrived (es : list event) (r : reader) : list message :=
  match es with
  | [] => []
  | e :: es => arrivals (event_labels e (rd_core r)) ++
      match reader_step e r with Ret r => arrived es r | _ => [] end
  end.

(** Nothing else receives. *)
Definition no_receive (e : event) : Prop := match e with ERecvfrom => False | _ => True end.

(** ** One receiver at a mailbox *)

Definition solo (id : nat) (m : mailbox) : Prop := asking m ++ receivers m ++ (handed m).*1 = [id].
Definition one_waits (m : mailbox) : Prop := receivers m = [] \/ messages m = [].

Lemma solo_asking id id' pre post m :
  solo id m -> asking m = pre ++ id' :: post ->
  id' = id /\ pre = [] /\ post = [] /\ receivers m = [] /\ handed m = [].
Proof.
  unfold solo. intros Hs E. rewrite E in Hs.
  destruct pre as [|x pre]; simpl in Hs; injection Hs as -> Hs; [|by destruct pre].
  apply app_eq_nil in Hs as [-> Hs]. apply app_eq_nil in Hs as [Er Hs].
  split_and!; try done. by destruct (handed m).
Qed.

Lemma solo_receivers id id' ids m :
  solo id m -> receivers m = id' :: ids -> id' = id /\ ids = [] /\ asking m = [] /\ handed m = [].
Proof.
  unfold solo. intros Hs E. rewrite E in Hs.
  destruct (asking m) as [|x l]; simpl in Hs; injection Hs as -> Hs; [|by destruct l].
  apply app_eq_nil in Hs as [-> Hs]. split_and!; try done. by destruct (handed m).
Qed.

Lemma solo_handed id e pre post m :
  solo id m -> handed m = pre ++ e :: post ->
  e.1 = id /\ pre = [] /\ post = [] /\ asking m = [] /\ receivers m = [].
Proof.
  unfold solo. intros Hs E. rewrite E, fmap_app, !app_assoc in Hs. simpl in Hs.
  apply app_singleton in Hs as [[Hs He]|[? ?]]; [|done].
  apply app_eq_nil in Hs as [Hs Hp]. apply app_eq_nil in Hs as [Ea Er]. injection He as -> Hpost.
  split_and!; try done; [by destruct pre|by destruct post].
Qed.

Lemma solo_step id l m m' :
  solo id m -> one_waits m -> mailbox_step l m m' ->
  match l with
  | Ask _ => True
  | Complete => exists v, handed m = [(id, v)] /\ asking m' ++ receivers m' ++ (handed m').*1 = [] /\
      received m' = received m ++ [(id, v)] /\ all_messages m' = all_messages m /\ one_waits m'
  | _ => solo id m' /\ one_waits m' /\ received m' = received m /\
      all_messages m' = all_messages m ++ arrivals [l]
  end.
Proof.
  intros Hs Ho Hl.
  destruct Hl as [i m|i pre post m E En|i pre post v vs m E En|v m En|v i ids m En|e pre post m E]; [done|..].
  - destruct (solo_asking _ _ _ _ _ Hs E) as (-> & -> & -> & Er & Eh).
    unfold solo, one_waits, all_messages. simpl. rewrite Er, Eh, En, !app_nil_r. split_and!; try done. by right.
  - destruct (solo_asking _ _ _ _ _ Hs E) as (-> & -> & -> & Er & Eh).
    unfold solo, one_waits, all_messages. simpl. rewrite Er, Eh, En, !app_nil_r. split_and!; try done. by left.
  - unfold solo, one_waits, all_messages in *. simpl. rewrite En in Hs. rewrite !app_assoc.
    split_and!; try done. by left.
  - destruct (solo_receivers _ _ _ _ Hs En) as (-> & -> & Ea & Eh).
    assert (Em : messages m = []) by (destruct Ho as [Hr|]; [congruence|done]).
    unfold solo, one_waits, all_messages. simpl. rewrite Ea, Eh, Em, !app_nil_r. split_and!; try done. by left.
  - destruct (solo_handed _ _ _ _ _ Hs E) as (He & -> & -> & Ea & Er). destruct e as [i v]. simpl in He. subst i.
    exists v. unfold one_waits, all_messages. simpl. rewrite Ea, Er, E, fmap_app, <-app_assoc.
    split_and!; try done. by left.
Qed.

Lemma solo_arrivals id vs m m' :
  solo id m -> one_waits m -> mailbox_run (Arrive <$> vs) m m' ->
  solo id m' /\ one_waits m' /\ received m' = received m /\ all_messages m' = all_messages m ++ vs.
Proof.
  intros Hs Ho. remember (Arrive <$> vs) as ls eqn:El. intros Hr. revert vs El.
  induction Hr as [m|ls l m m1 m2 _ IH Hl]; intros vs El.
  - destruct vs; [|done]. by rewrite app_nil_r.
  - destruct vs as [|v vs _] using rev_ind; [by destruct ls|].
    rewrite fmap_app in El. apply app_inj_tail in El as [-> ->].
    destruct (IH Hs Ho vs eq_refl) as (Hs1 & Ho1 & Er1 & Ea1).
    destruct (solo_step id _ _ _ Hs1 Ho1 Hl) as (Hs2 & Ho2 & Er2 & Ea2).
    split_and!; [done|done|congruence|]. by rewrite Ea2, Ea1, <-app_assoc.
Qed.

(** ** The loop *)

(** The loop's one receive is under way, and it has shown what it was given. *)
Record reads (r : reader) : Prop := {
  re_ok : recv_ok (rd_core r);
  re_solo : solo (rd_id r) (mailbox_of (rd_core r));
  re_side : one_waits (mailbox_of (rd_core r));
  re_printed : printed r = (received (mailbox_of (rd_core r))).*2
}.

(** The next receive. *)
Lemma ask_next (k : kernel) :
  recv_ok k -> asking (mailbox_of k) ++ receivers (mailbox_of k) ++ (handed (mailbox_of k)).*1 = [] ->
  one_waits (mailbox_of k) ->
  exists k', msg_reader_start k = (Ret (next_op k), k') /\ recv_ok k' /\ solo (next_op k) (mailbox_of k') /\
    one_waits (mailbox_of k') /\ received (mailbox_of k') = received (mailbox_of k) /\
    all_messages (mailbox_of k') = all_messages (mailbox_of k).
Proof.
  intros Hok Hnone Hside. destruct (msg_reader_start k) as [o k'] eqn:E.
  assert (Es : step ERecvfrom k = (Ret tt, k') /\ o = Ret (next_op k)).
  { unfold msg_reader_start in E. cbn [step]. unfold st_bind. rewrite E. by injection E as <- _. }
  destruct Es as [Es ->]. destruct (step_simulated ERecvfrom k _ k' Hok Es) as (Hok' & _ & Hr).
  cbn [event_labels] in Hr. apply mailbox_run_one_inv in Hr. exists k'. split; [done|]. split; [done|].
  revert Hnone Hside Hr. generalize (mailbox_of k), (mailbox_of k'). clear. intros m m' Hnone Hside Hr.
  inversion Hr; subst. unfold solo, one_waits, all_messages. simpl.
  apply app_eq_nil in Hnone as [-> Hnone]. apply app_eq_nil in Hnone as [-> Hh]. rewrite Hh.
  split_and!; try done. by left.
Qed.

Lemma arrivals_arrive vs : arrivals (Arrive <$> vs) = vs.
Proof. induction vs as [|v vs IH]; [done|]. simpl. by f_equal. Qed.

Lemma event_moves e r k' :
  reads r -> no_receive e -> completes e (rd_core r) = None -> step e (rd_core r) = (Ret tt, k') ->
  let m := mailbox_of (rd_core r) in let m' := mailbox_of k' in
  solo (rd_id r) m' /\ one_waits m' /\ received m' = received m /\
    all_messages m' = all_messages m ++ arrivals (event_labels e (rd_core r)).
Proof.
  intros [Hok Hs Ho _] Hno Hc E m m'.
  destruct (step_simulated e _ _ k' Hok E) as (_ & _ & Hr). fold m m' in Hr, Hs, Ho.
  assert (Hv : forall vs, event_labels e (rd_core r) = Arrive <$> vs ->
    solo (rd_id r) m' /\ one_waits m' /\ received m' = received m /\
    all_messages m' = all_messages m ++ arrivals (event_labels e (rd_core r))).
  { intros vs Ev. rewrite Ev in *. rewrite arrivals_arrive. by apply (solo_arrivals _ vs). }
  destruct e as [| | | | | |n now| | | |]; try by apply (Hv []).
  cbn [event_labels completes] in *. destruct (tasks (rd_core r) !! n) as [[pkt i| | | |id| |]|]; try done; try by apply (Hv []).
  - by apply (Hv (arrives_in pkt i (rd_core r))).
  - cbn [task_labels] in *. apply mailbox_run_one_inv in Hr. by apply (solo_step _ _ _ _ Hs Ho Hr).
Qed.

(** The loop goes on as long as the kernel does. *)
Lemma reader_step_reads e r k' :
  reads r -> no_receive e -> step e (rd_core r) = (Ret tt, k') ->
  exists r', reader_step e r = Ret r' /\ reads r' /\
    all_messages (mailbox_of (rd_core r')) =
      all_messages (mailbox_of (rd_core r)) ++ arrivals (event_labels e (rd_core r)).
Proof.
  intros Hr Hno E. destruct (step_simulated e _ _ k' (re_ok r Hr) E) as (Hok' & _ & Hrun).
  unfold reader_step. rewrite E. destruct (completes e (rd_core r)) as [c|] eqn:Hc.
  2:{ destruct (event_moves e r k' Hr Hno Hc E) as (Hs & Ho & Er & Ea).
      eexists. split; [done|]. split; [|exact Ea]. split; try done. cbn [printed rd_core].
      rewrite Er. apply Hr. }
  destruct e as [| | | | | |n now| | | |]; try done. cbn [completes event_labels] in *.
  destruct (tasks (rd_core r) !! n) as [[| | | | | |id ec v]|] eqn:Et; try done.
  injection Hc as <-. cbn [task_labels] in *. apply mailbox_run_one_inv in Hrun.
  destruct (solo_step _ _ _ _ (re_solo r Hr) (re_side r Hr) Hrun) as (v' & Eh & Hnone & Er & Ea & Ho).
  destruct (recv_ok_unqueue n _ _ (re_ok r Hr) Et) as [_ Hec]. simpl in Hec. subst ec.
  assert (Hid : (id, v) = (rd_id r, v')).
  { apply list_elem_of_singleton. rewrite <-Eh. unfold mailbox_of. simpl. apply list_elem_of_omap.
    exists (TRecvPop id ec_success v). split; [by eapply list_elem_of_lookup_2|done]. }
  injection Hid as -> ->. cbn [failed recv_done]. rewrite bool_decide_eq_true_2 by done.
  destruct (ask_next k' Hok' Hnone Ho) as (k2 & E2 & Hok2 & Hs2 & Ho2 & Er2 & Ea2).
  unfold msg_reader. cbn [failed]. unfold st_bind. change (async_recvfrom k') with (msg_reader_start k').
  rewrite E2. cbn [st_ret]. eexists. split; [done|]. cbn [arrivals omap list_omap]. rewrite app_nil_r.
  split; [|cbn [rd_core]; congruence]. split; try done. cbn [printed rd_core option_list].
  rewrite Er2, Er, fmap_app, (re_printed r Hr). done.
Qed.

Lemma reader_run_reads es r r' :
  reads r -> Forall no_receive es -> reader_run es r = Ret r' ->
  reads r' /\ all_messages (mailbox_of (rd_core r')) = all_messages (mailbox_of (rd_core r)) ++ arrived es r.
Proof.
  intros Hr Hes. revert r Hr. induction Hes as [|e es He _ IH]; intros r Hr; cbn [reader_run arrived].
  { intros [= <-]. by rewrite app_nil_r. }
  intros E. destruct (step e (rd_core r)) as [[[]| | | |] k'] eqn:Es;
    try (unfold reader_step in E; by rewrite Es in E).
  destruct (reader_step_reads e r k' Hr He Es) as (r1 & E1 & Hr1 & Ea1).
  rewrite E1, outcome_bind_Ret in E. destruct (IH r1 Hr1 E) as [Hr' Ea]. split; [done|].
  by rewrite E1, Ea, Ea1, <-app_assoc.
Qed.

Lemma reader_init : exists r, reader_start init_kernel = Ret r /\ reads r /\
  all_messages (mailbox_of (rd_core r)) = [].
Proof.
  destruct (ask_next init_kernel init_recv_ok eq_refl (or_introl eq_refl))
    as (k & E & Hok & Hs & Ho & Er & Ea).
  eexists. unfold reader_start. rewrite E. split; [done|]. split; [|exact Ea]. split; try done.
  cbn [printed rd_core]. by rewrite Er.
Qed.

(** C21: the reader shows every message that arrives, once and in order: at any
    time what it has shown is what arrived, but for the messages on their way to
    it, and when the io_service has nothing left to run it is all of it.  It
    never stops by itself: an event that the kernel handles it handles too, and
    it is then waiting for the next message. *)
Theorem reader_shows_everything es r0 r :
  reader_start init_kernel = Ret r0 -> Forall no_receive es -> reader_run es r0 = Ret r ->
  let m := mailbox_of (rd_core r) in
  printed r ++ (handed m).*2 ++ messages m = arrived es r0 /\
  (tasks (rd_core r) = [] -> printed r = arrived es r0 /\ receivers m = [rd_id r]) /\
  forall e, no_receive e -> (step e (rd_core r)).1 = Ret tt -> exists r', reader_step e r = Ret r'.
Proof.
  intros E0 Hes E. destruct reader_init as (r1 & E1 & Hr0 & Ea0). rewrite E0 in E1. injection E1 as <-.
  destruct (reader_run_reads es r0 r Hr0 Hes E) as [Hr Ea]. rewrite Ea0 in Ea. simpl in Ea. split_and!.
  - rewrite <-Ea, (re_printed r Hr). done.
  - intros Ht. pose proof (re_solo r Hr) as Hs. unfold solo in Hs.
    rewrite <-Ea, (re_printed r Hr). unfold all_messages.
    assert (Eh : handed (mailbox_of (rd_core r)) = [] /\ asking (mailbox_of (rd_core r)) = [])
      by (unfold mailbox_of; simpl; by rewrite Ht).
    destruct Eh as [Eh Eas]. rewrite Eh, Eas in Hs. cbn [app fmap list_fmap] in Hs. rewrite app_nil_r in Hs. rewrite Eh.
    destruct (re_side r Hr) as [Hn|Em]; [by rewrite Hn in Hs|]. by rewrite Em, app_nil_r.
  - intros e He Es. destruct (step e (rd_core r)) as [o k'] eqn:Ee. simpl in Es. subst o.
    destruct (reader_step_reads e r k' Hr He Ee) as (r' & E' & _). by exists r'.
Qed.
End reader.

(** ** A concrete run *)

Module ReaderDemo.
Import KernelDemo.KernelDemo.
#[local] Existing Instances debug_build Toy.openssl Toy.laws ToyRegex.boost ToyRegex.laws
  InsertionSort.std InsertionSort.std_laws links.

(** bob's program gets alice's message twice; the second is on its way to the
    reader. *)
Definition bob_reads : list event :=
  [EConstruct 1; EAddInterface 1; EAddRoute ".+@.+" "" "if1" 100; ERun 0 0; ERun 0 0; ERun 0 0;
   ERead 1 (Some KernelDemo.KernelDemo.message) 7; ERun 0 8; ERun 0 9; ERead 1 (Some KernelDemo.KernelDemo.message) 10; ERun 1 11].

Definition bob_starts : reader := {| rd_core := (msg_reader_start init_kernel).2; rd_id := 0; printed := [] |}.
Definition bob_now : reader := match reader_run bob_reads bob_starts with Ret r => r | _ => bob_starts end.

Lemma bob_runs : reader_run bob_reads bob_starts = Ret bob_now.
Proof.
  assert (E : match reader_run bob_reads bob_starts with Ret _ => true | _ => false end = true)
    by (vm_compute; reflexivity).
  unfold bob_now. by destruct (reader_run bob_reads bob_starts).
Qed.

Lemma reader_shows_everything_witness :
  printed bob_now = [("alice@av", hello)] /\
  printed bob_now ++ (handed (mailbox_of (rd_core bob_now))).*2 ++ messages (mailbox_of (rd_core bob_now)) =
    [("alice@av", hello); ("alice@av", hello)].
Proof.
  split; [vm_compute; reflexivity|].
  assert (Ea : arrived bob_reads bob_starts = [("alice@av", hello); ("alice@av", hello)]) by (vm_compute; reflexivity).
  rewrite <-Ea. apply (reader_shows_everything bob_reads bob_starts bob_now eq_refl); [repeat constructor|exact bob_runs].
Defined.
End ReaderDemo.
