(* ===== verification/Gui.v ===== *)
(** * Gui: the graphical client

    gui/gavim.cpp and gavim.h: the window with its text box and its list of
    messages, the thread [recvThread::run], the clicks of the send button -- each
    starts a thread that calls [sendto] --, and the io_service, which runs only
    while some thread is inside [io_service_.run()].  The blocking
    [avjackif::handshake] spawns its coroutine on that io_service and waits.
    Colours, fonts, scrolling and the focus are left out. *)

From S2P Require Import Prelude Wire Serialization OpenSSL RsaChunk Regex Address StdSort CoroQueue Routing KeyStore Avif Kernel Hoare KernelInv Mailbox Jackif Login CApi Programs Reader.

(** Qt's strings, and the time [recvHandle] prints. *)
Class Qt := {
  QString : Type;
  fromStdString : bytes -> QString;
  toStdString : QString -> bytes;
  null_string : QString;                       (* the one that equals "" *)
  is_null (s : QString) : bool;
  concatenated : list QString -> QString
}.

Section gui.
Context `{Host} `{Build} `{P : Protobuf} `{O : OpenSSL} `{BoostRegex} `{StdSort}.
Context `{!AvimProto P} `{DiffieHellman} `{!X509Name O} `{!PemFiles O} `{Qt}.

(** The key files, what is typed for a pass phrase, and whether the router can
    be reached. *)
Variables (m_keyfile m_certfile : string) (tmp : bytes) (connected : bool).

(** Where [recvThread::run] is; once it runs the io_service, [rv] is the receive
    its coroutine [recv_msg] waits for. *)
Inductive thread := Begun | InHandshake | HandshakeReturned | InRun (rv : nat) | Exited.

Record window := {
  messageTextEdit : QString;
  messageBrowser : list QString;     (* its paragraphs *)
  recvReady : list message           (* signals the window has not handled *)
}.

Record gui := {
  recv_thread : thread;
  handshake_posted : bool;           (* its coroutine is on the io_service *)
  stopped : bool;                    (* io_service_.stop() *)
  avcore_ : kernel;
  interface : avjackif;
  socket : sock;
  sending : list (nat * bytes);      (* threads inside sendto: their sends and texts *)
  ui : window
}.

Definition new_gui (s : sock) : gui :=
  {| recv_thread := Begun; handshake_posted := false; stopped := false; avcore_ := init_kernel;
     interface := new_avjackif; socket := s; sending := [];
     ui := {| messageTextEdit := null_string; messageBrowser := []; recvReady := [] |} |}.

Definition set_thread (t : thread) (posted : bool) (j : avjackif) (s : sock) (g : gui) : gui :=
  {| recv_thread := t; handshake_posted := posted; stopped := stopped g; avcore_ := avcore_ g;
     interface := j; socket := s; sending := sending g; ui := ui g |}.
Definition set_core (k : kernel) (ts : list (nat * bytes)) (g : gui) : gui :=
  {| recv_thread := recv_thread g; handshake_posted := handshake_posted g; stopped := stopped g;
     avcore_ := k; interface := interface g; socket := socket g; sending := ts; ui := ui g |}.
Definition set_ui (w : window) (g : gui) : gui :=
  {| recv_thread := recv_thread g; handshake_posted := handshake_posted g; stopped := stopped g;
     avcore_ := avcore_ g; interface := interface g; socket := socket g; sending := sending g; ui := w |}.
Definition set_stopped (g : gui) : gui :=
  {| recv_thread := recv_thread g; handshake_posted := handshake_posted g; stopped := true;
     avcore_ := avcore_ g; interface := interface g; socket := socket g; sending := sending g; ui := ui g |}.

(** A call on the kernel, whose one interface is the object. *)
Definition on_avcore {A} (m : ST kernel A) : ST gui A := fun g =>
  let r := m (avcore_ g) in (r.1, set_core r.2 (sending g) g).

Definition g_impl (g : gui) : AvifImpl O := jack_impl (fun _ => interface g).

(** ** The receiving thread *)

(** [run] up to the wait inside [handshake()]. *)
Definition run_begin : ST gui unit := fun g =>
  match load_pki m_keyfile m_certfile tmp with
  | Ret None => (Ret tt, set_thread Exited false (interface g) (socket g) g)
  | Ret (Some (rsa_key, x509_cert)) =>
      if connected then
        match set_pki rsa_key x509_cert new_avjackif with
        | Ret j => (Ret tt, set_thread InHandshake true j (socket g) g)
        | Throw e => (Throw e, g) | AssertFail => (AssertFail, g) | UB => (UB, g) | OutOfFuel => (OutOfFuel, g)
        end
      else (Throw system_error, g)
  | Throw e => (Throw e, g) | AssertFail => (AssertFail, g) | UB => (UB, g) | OutOfFuel => (OutOfFuel, g)
  end.

(** [run] from the return of [handshake()], which is true whatever the router
    said, to [io_service_.run()]. *)
Definition run_rest : ST gui unit := fun g =>
  (on_avcore (step (AvifImpl0 := g_impl g) (EConstruct 0)) ;;-
   on_avcore (run_login (AvifImpl0 := g_impl g) 0) ;;-
   let* rv := on_avcore msg_reader_start in
   st_modify (fun g => set_thread (InRun rv) (handshake_posted g) (interface g) (socket g) g)) g.

(** [recvThread::run], as far as the thread gets by itself. *)
Definition thread_step : ST gui unit := fun g =>
  match recv_thread g with
  | Begun => run_begin g
  | HandshakeReturned => run_rest g
  | InHandshake | InRun _ | Exited => (Ret tt, g)
  end.

(** The coroutine of [handshake()]: it wakes the thread that waits. *)
Definition handshake_coroutine : ST gui unit := fun g =>
  let r := async_handshake (interface g) (socket g) in
  match r.1 with
  | Ret (_, j) =>
      (Ret tt, set_thread (match recv_thread g with InHandshake => HandshakeReturned | t => t end) false j r.2 g)
  | Throw e => (Throw e, g) | AssertFail => (AssertFail, g) | UB => (UB, g) | OutOfFuel => (OutOfFuel, g)
  end.

(** The io_service runs an event; [recv_msg], if its receive completes, emits
    recvReady with what it got. *)
Definition io_event (e : event) : ST gui unit := fun g =>
  match recv_thread g with
  | InRun rv =>
      (let* r := st_lift (reader_step (AvifImpl0 := g_impl g) e
                   {| rd_core := avcore_ g; rd_id := rv; printed := [] |}) in
       st_modify (fun g => set_thread (InRun (rd_id r)) (handshake_posted g) (interface g) (socket g)
         (set_core (rd_core r) (sending g)
           (set_ui {| messageTextEdit := messageTextEdit (ui g); messageBrowser := messageBrowser (ui g);
                      recvReady := recvReady (ui g) ++ printed r |} g)))) g
  | _ => (Ret tt, g)
  end.

(** ** The window *)

(** [getMessage]: the text, which leaves the box. *)
Definition getMessage : ST window QString := fun w =>
  (Ret (messageTextEdit w),
   {| messageTextEdit := null_string; messageBrowser := messageBrowser w; recvReady := recvReady w |}).

(** [on_sendButton_clicked], and the thread it starts. *)
Definition on_sendButton_clicked : ST gui unit := fun g =>
  if is_null (messageTextEdit (ui g)) then (Ret tt, g)
  else
    let msg := getMessage (ui g) in
    match msg.1 with
    | Ret text =>
        let r := async_sendto "test@avplayer.org" (toStdString text) (avcore_ g) in
        match r.1 with
        | Ret id => (Ret tt, set_core r.2 (sending g ++ [(id, toStdString text)]) (set_ui msg.2 g))
        | _ => (Ret tt, g)
        end
    | _ => (Ret tt, g)
    end.

(** [recvHandle], for the oldest recvReady. *)
Definition recvHandle (time : QString) (w : window) : window :=
  match recvReady w with
  | (sender, data) :: signals =>
      {| messageTextEdit := messageTextEdit w;
         messageBrowser := messageBrowser w ++
           [concatenated [fromStdString (s2b "["); fromStdString (s2b sender); fromStdString (s2b "]"); time];
            fromStdString data];
         recvReady := signals |}
  | [] => w
  end.

Inductive gui_event :=
  | GThread                            (* the receiving thread goes on *)
  | GIoHandshake                       (* the io_service runs the handshake *)
  | GIo (e : event)                    (* ... or something of the kernel *)
  | GType (text : QString)             (* the user edits the text box *)
  | GClick
  | GShow (time : QString)             (* the window handles a signal *)
  | GClose                             (* closeEvent *)
  | GSpurious.                         (* the wait returns without a notification *)

(** Some thread is in [io_service_.run()]: only the receiving thread calls it. *)
Definition io_runs (g : gui) : bool :=
  match recv_thread g with InRun _ => negb (stopped g) | _ => false end.

Definition gui_step (e : gui_event) : ST gui unit := fun g =>
  match e with
  | GThread => thread_step g
  | GIoHandshake => if io_runs g && handshake_posted g then handshake_coroutine g else (Ret tt, g)
  | GIo e => if io_runs g then io_event e g else (Ret tt, g)
  | GType text =>
      (Ret tt, set_ui {| messageTextEdit := text; messageBrowser := messageBrowser (ui g);
                         recvReady := recvReady (ui g) |} g)
  | GClick => on_sendButton_clicked g
  | GShow time => (Ret tt, set_ui (recvHandle time (ui g)) g)
  | GClose => (Ret tt, set_stopped g)
  | GSpurious =>
      (Ret tt, match recv_thread g with
        | InHandshake => set_thread HandshakeReturned (handshake_posted g) (interface g) (socket g) g
        | _ => g end)
  end.

Fixpoint gui_run (es : list gui_event) : ST gui unit :=
  match es with [] => st_ret tt | e :: es => gui_step e ;;- gui_run es end.

(** ** It never comes up *)

Definition not_spurious (e : gui_event) : Prop := match e with GSpurious => False | _ => True end.

(** The task of a send that was not looked at. *)
Definition given (t : nat * bytes) : task := TSendto t.1 "test@avplayer.org" t.2.

Definition untouched (k : kernel) (ts : list (nat * bytes)) : Prop :=
  tasks k = given <$> ts /\ log k = [] /\ sends k = ∅ /\ ifs k = ∅.

Record stuck (g : gui) : Prop := {
  stuck_thread : recv_thread g = Begun \/ recv_thread g = InHandshake \/ recv_thread g = Exited;
  stuck_core : untouched (avcore_ g) (sending g);
  stuck_ui : messageBrowser (ui g) = [] /\ recvReady (ui g) = [];
  stuck_remote : recv_thread g = InHandshake -> m_remote_addr (interface g) = None
}.

Lemma set_pki_remote key cert j : set_pki key cert new_avjackif = Ret j -> m_remote_addr j = None.
Proof. unfold set_pki. intros E. inv_bind. by injection E as <-. Qed.

Lemma sent_untouched id k k' ts text :
  untouched k ts -> async_sendto "test@avplayer.org" text k = (Ret id, k') -> untouched k' (ts ++ [(id, text)]).
Proof.
  intros (Ht & Hl & Hs & Hi). unfold async_sendto, st_bind, new_op, io_post, st_modify, st_ret.
  intros [= <- <-]. unfold untouched. simpl. rewrite Ht, fmap_app. by split_and!.
Qed.

Lemma clicked_stuck g u g' : stuck g -> on_sendButton_clicked g = (Ret u, g') -> stuck g'.
Proof.
  intros [Ht Hk Hu Hr]. unfold on_sendButton_clicked. destruct (is_null _); [by intros [= _ <-]|].
  cbn [getMessage fst snd]. destruct (async_sendto _ _ (avcore_ g)) as [[id| | | |] k'] eqn:E; cbn [fst snd];
    intros [= _ <-]; try by split.
  split; [exact Ht| |exact Hu|exact Hr]. by eapply sent_untouched.
Qed.

Lemma begin_stuck g u g' : stuck g -> thread_step g = (Ret u, g') -> stuck g'.
Proof.
  intros Hg. pose proof Hg as [Ht Hk Hu Hr]. unfold thread_step.
  destruct (recv_thread g) eqn:Et; try (destruct Ht as [|[]]; done); try by intros [= _ <-].
  unfold run_begin. destruct (load_pki _ _ _) as [[[key cert]|]| | | |]; try done.
  - destruct connected; [|done]. destruct (set_pki key cert new_avjackif) as [j| | | |] eqn:Ej; try done.
    intros [= _ <-]. split; [by right; left|exact Hk|exact Hu|]. intros _. by eapply set_pki_remote.
  - intros [= _ <-]. split; [by right; right|exact Hk|exact Hu|done].
Qed.

Lemma stuck_io g : stuck g -> io_runs g = false.
Proof. intros [Ht _ _ _]. unfold io_runs. by destruct Ht as [ -> | [ -> | -> ] ]. Qed.

Lemma gui_step_stuck e g u g' : not_spurious e -> stuck g -> gui_step e g = (Ret u, g') -> stuck g'.
Proof.
  intros He Hg. pose proof (stuck_io g Hg) as Hio.
  destruct e as [| |e|text| |time| |]; try done; cbn [gui_step]; rewrite ?Hio; cbn [andb].
  - by apply begin_stuck.
  - by intros [= _ <-].
  - by intros [= _ <-].
  - intros [= _ <-]. by destruct Hg.
  - by apply clicked_stuck.
  - destruct Hg as [Ht Hk [Hb Hv] Hr]. intros [= _ <-]. split; [exact Ht|exact Hk| |exact Hr].
    cbn [ui set_ui]. unfold recvHandle. by rewrite Hv.
  - intros [= _ <-]. by destruct Hg.
Qed.

Lemma gui_run_stuck es g u g' : Forall not_spurious es -> stuck g -> gui_run es g = (Ret u, g') -> stuck g'.
Proof.
  intros Hes. revert g. induction Hes as [|e es He _ IH]; intros g Hg; cbn [gui_run]; [by intros [= _ <-]|].
  intros ([] & g1 & E1 & E2)%st_bind_inv. eapply IH; [|exact E2]. by eapply gui_step_stuck.
Qed.

Lemma new_gui_stuck s : stuck (new_gui s).
Proof. split; [by left|by split_and!|done|done]. Qed.

(** C36: The io_service is only run after [handshake()] has returned, and
    [handshake()] waits for a coroutine on that io_service: however the typing,
    the clicks and the rest interleave, the receiving thread stays in
    [handshake()], nobody runs the io_service, every text sent stays with its
    thread in [sendto], where it is never looked at, and the window never shows a
    message.  Were the wait to end without a notification, the next step would
    dereference the router's address, which only the handshake sets. *)
Theorem gui_never_comes_up es s u g :
  Forall not_spurious es -> gui_run es (new_gui s) = (Ret u, g) ->
  io_runs g = false /\ recv_thread g <> HandshakeReturned /\ log (avcore_ g) = [] /\
  tasks (avcore_ g) = given <$> sending g /\ messageBrowser (ui g) = [] /\
  (recv_thread g = InHandshake -> (gui_run [GSpurious; GThread] g).1 = UB).
Proof.
  intros Hes E. pose proof (gui_run_stuck es _ u g Hes (new_gui_stuck s) E) as Hg.
  split_and!; [by apply stuck_io| |apply Hg|apply Hg|apply Hg|].
  { destruct Hg as [Ht _ _ _]. by destruct Ht as [ -> | [ -> | -> ] ]. }
  destruct Hg as [_ (_ & _ & _ & Hifs) _ Hr].
  intros Hin. cbn [gui_run].
  set (g1 := set_thread HandshakeReturned (handshake_posted g) (interface g) (socket g) g).
  rewrite (st_bind_Ret (gui_step GSpurious) _ g tt g1) by (cbn [gui_step]; by rewrite Hin).
  assert (Ed : (run_login (AvifImpl0 := g_impl g1) 0 (set_ifs {[0%nat := construct]} (avcore_ g))).1 = UB).
  { unfold run_login, add_interface, st_bind, ask_ifname, st_lift. cbn [g_impl jack_impl remote_address g1
      interface set_thread]. by rewrite (Hr Hin). }
  assert (E1 : (gui_step GThread g1).1 = UB).
  { cbn [gui_step thread_step g1 set_thread recv_thread]. unfold run_rest.
    rewrite (st_bind_Ret (on_avcore _) _ g1 tt (set_core (set_ifs {[0%nat := construct]} (avcore_ g)) (sending g) g1)).
    - unfold st_bind at 1, on_avcore at 1. cbn [avcore_ set_core].
      destruct (run_login 0 _) as [o k1]. simpl in Ed. by rewrite Ed.
    - unfold on_avcore. cbn [avcore_ g1 set_thread]. rewrite step_construct_core by by rewrite Hifs.
      by rewrite Hifs. }
  unfold st_bind at 1. destruct (gui_step GThread g1) as [o g2]. simpl in E1. by rewrite E1.
Qed.
End gui.

(** ** Starting the program (gui/main.cpp) *)

(** Qt's data locations, and boost::filesystem: the directories there are. *)
Class DataFiles := {
  standardLocations : list string;
  path_append : string -> string -> string;
  create_directories : string -> gset string -> outcome (gset string)
}.
Class DataFilesLaws (D : DataFiles) := {
  create_directories_made d dirs dirs' : create_directories d dirs = Ret dirs' -> d ∈ dirs' /\ dirs ⊆ dirs'
}.

Section start.
Context `{Host} `{Build} `{P : Protobuf} `{O : OpenSSL} `{BoostRegex} `{StdSort}.
Context `{!AvimProto P} `{DiffieHellman} `{!X509Name O} `{!PemFiles O} `{Qt} `{D : DataFiles}.

(** [QList::first] *)
Definition first {A} (l : list A) : outcome A := match l with [] => UB | a :: _ => Ret a end.

(** The constructor of the window: the key files of its receiving thread, and
    the window with that thread started. *)
Definition gavim (s : sock) : outcome (string * string * gui) :=
  avim_key ← first standardLocations;
  let avim_key := path_append avim_key "user.key" in
  avim_cert ← first standardLocations;
  let avim_cert := path_append avim_cert "user.cert" in
  Ret (avim_key, avim_cert, new_gui s).

Definition gui_main (dirs : gset string) (s : sock) : outcome (gset string * (string * string * gui)) :=
  appdatadir ← first standardLocations;
  dirs ← (if bool_decide (appdatadir ∈ dirs) then Ret dirs else create_directories appdatadir dirs);
  w ← gavim s;
  Ret (dirs, w).

Context `{!DataFilesLaws D}.

(** The program starts: the data directory is there, and the receiving thread
    looks for its two files in it.  The first time -- when there was no data
    directory, and so no file in it -- that thread ends the program at once:
    nothing makes the files. *)
Lemma gui_starts dirs s dirs' key cert g :
  gui_main dirs s = Ret (dirs', (key, cert, g)) ->
  exists d, head standardLocations = Some d /\ d ∈ dirs' /\ dirs ⊆ dirs' /\
    key = path_append d "user.key" /\ cert = path_append d "user.cert" /\ g = new_gui s /\
    (d ∉ dirs -> (forall f, BIO_new_file (path_append d f) = true -> d ∈ dirs) -> forall tmp connected,
       gui_run key cert tmp connected [GThread] g = (Ret tt, set_thread Exited false new_avjackif s g)).
Proof.
  unfold gui_main, gavim. destruct standardLocations as [|d l]; [done|]. cbn [first]. rewrite !outcome_bind_Ret.
  intros (dirs1 & Ed & [= <- <- <- <-])%outcome_bind_inv. exists d. cbn [head].
  assert (d ∈ dirs1 /\ dirs ⊆ dirs1) as [Hd Hs].
  { case_bool_decide; [by injection Ed as <-|]. exact (create_directories_made _ _ _ Ed). }
  split_and!; [done..|]. intros Hnew Hfiles tmp connected.
  cbn [gui_run gui_step thread_step recv_thread new_gui]. unfold st_bind. cbn [gui_step thread_step recv_thread new_gui].
  unfold run_begin, load_pki. destruct (BIO_new_file (path_append d "user.key")) eqn:Ek; [|done].
  by apply Hfiles in Ek.
Qed.
End start.

(** ** A concrete run *)
Module GuiDemo.
Import Jackif.JackDemo Programs.ProgramsDemo.
#[local] Existing Instances x86_host debug_build Toy.openssl Toy.laws ToyRegex.boost ToyRegex.laws
  InsertionSort.std protobuf proto dh names pem.

#[local] Instance bytes_qt : Qt :=
  {| QString := bytes; fromStdString b := b; toStdString b := b; null_string := [];
     is_null b := match b with [] => true | _ => false end; concatenated l := concat l |}.

Definition session : list gui_event :=
  [GThread; GType (s2b "hi"); GClick; GIoHandshake; GIo (ERun 0 0); GThread; GClick; GShow (s2b "noon"); GClose].

Lemma gui_never_comes_up_witness :
  exists g, gui_run "user.key" "user.cert" [] true session (new_gui answering) = (Ret tt, g) /\
    recv_thread g = InHandshake /\ log (avcore_ g) = [] /\
    tasks (avcore_ g) = [TSendto 0 "test@avplayer.org" (s2b "hi")].
Proof.
  assert (E : exists g, gui_run "user.key" "user.cert" [] true session (new_gui answering) = (Ret tt, g) /\
    recv_thread g = InHandshake /\ sending g = [(0%nat, s2b "hi")]) by (eexists; split_and!; vm_compute; reflexivity).
  destruct E as (g & E & Ht & Hs). exists g.
  destruct (gui_never_comes_up "user.key" "user.cert" [] true session answering tt g) as (_ & _ & Hlog & Hids & _).
  - by repeat constructor.
  - exact E.
  - split_and!; [exact E|exact Ht|exact Hlog|by rewrite Hids, Hs].
Defined.
End GuiDemo.
