(* ===== verification/Logging.v ===== *)
(** * Logging: the daily log files

    libavproto/src/logging.hpp, class [auto_logger_file]: in automatic mode each
    message goes to the file of the day, and at most AVROUTER_LOG_FILE_NUM (3)
    files are kept.  The file system is a map from names to contents; whether
    it lets a file be opened (after [create_directories] for its directory) or
    removed, and how it joins and formats names, are parameters. *)

From S2P Require Import Prelude.

Record date := { year : Z; month : Z; day : Z }.

(** Two readings of the local time, one after the other. *)
Record clock := { now_ : date; printed : date }.

Class FileSystem := {
  can_open : string -> bool;
  can_remove : string -> bool;
  path_join : string -> string -> string;   (* boost::filesystem::path / *)
  ymd : date -> string                      (* time_facet "%Y%m%d" *)
}.

Section logging.
Context `{FileSystem}.

Definition AVROUTER_LOG_FILE_NUM : nat := 3.

Record auto_logger_file := {
  m_file : option string;           (* the file m_file is open on *)
  m_good : bool;                    (* the state of that stream *)
  m_auto_mode : bool;
  m_log_path : string;
  m_log_list : gmap string bool;    (* std::map: is the stream open? *)
  m_last_day : option date;
  m_last_filename : string;
  disk : gmap string bytes
}.

Definition with_files (l : gmap string bool) (d : gmap string bytes) (g : auto_logger_file) :=
  {| m_file := m_file g; m_good := m_good g; m_auto_mode := m_auto_mode g; m_log_path := m_log_path g;
     m_log_list := l; m_last_day := m_last_day g; m_last_filename := m_last_filename g; disk := d |}.
Definition with_day (time : date) (fn : string) (g : auto_logger_file) :=
  {| m_file := m_file g; m_good := m_good g; m_auto_mode := m_auto_mode g; m_log_path := m_log_path g;
     m_log_list := m_log_list g; m_last_day := Some time; m_last_filename := fn; disk := disk g |}.
Definition with_mode (auto : bool) (path : string) (g : auto_logger_file) :=
  {| m_file := m_file g; m_good := m_good g; m_auto_mode := auto; m_log_path := path;
     m_log_list := m_log_list g; m_last_day := m_last_day g; m_last_filename := m_last_filename g;
     disk := disk g |}.
Definition with_stream (f : option string) (good : bool) (d : gmap string bytes) (g : auto_logger_file) :=
  {| m_file := f; m_good := good; m_auto_mode := m_auto_mode g; m_log_path := m_log_path g;
     m_log_list := m_log_list g; m_last_day := m_last_day g; m_last_filename := m_last_filename g;
     disk := d |}.

(** The constructor; the static object of [writer_single]. *)
Definition new_logger_file (d : gmap string bytes) : auto_logger_file :=
  {| m_file := None; m_good := true; m_auto_mode := false; m_log_path := ""; m_log_list := ∅;
     m_last_day := None; m_last_filename := ""; disk := d |}.

(** [make_filename]: only the day of the month is compared; the name is made
    from a second reading of the clock. *)
Definition make_filename (time : clock) (g : auto_logger_file) : string * auto_logger_file :=
  let fresh := let fn := path_join (m_log_path g) (ymd (printed time) +:+ ".log") in (fn, with_day (now_ time) fn g) in
  match m_last_day g with
  | Some last => if day last =? day (now_ time) then (m_last_filename g, g) else fresh
  | None => fresh
  end.

Definition append_file (fn : string) (str : bytes) (d : gmap string bytes) : gmap string bytes :=
  <[fn := default [] (d !! fn) ++ str]> d.

(** The branch of [write] for a name not in the list: open the file, file it,
    and drop the first file of the list when there are too many.  The result
    says whether the new stream is open afterwards. *)
Definition open_log (fn : string) (g : auto_logger_file) : bool * auto_logger_file :=
  let opened := can_open fn in
  let d := if opened then append_file fn [] (disk g) else disk g in
  let l := <[fn := opened]> (m_log_list g) in
  if decide (AVROUTER_LOG_FILE_NUM < size l)%nat then
    match map_iter l with
    | [] => (opened, with_files l d g)   (* not with a non-empty list *)
    | (first, _) :: _ =>
        (* closing the first stream closes the new one if they are the same *)
        ((if decide (first = fn) then false else opened),
         with_files (delete first l) (if can_remove first then delete first d else d) g)
    end
  else (opened, with_files l d g).

Definition write (time : clock) (str : bytes) (g : auto_logger_file) : auto_logger_file :=
  if negb (m_auto_mode g) then
    match m_file g with
    | Some f => if m_good g then with_files (m_log_list g) (append_file f str (disk g)) g else g
    | None => g
    end
  else
    let '(fn, g) := make_filename time g in
    let '(is_open, g) :=
      match m_log_list g !! fn with
      | None => open_log fn g
      | Some o => (o, g)
      end in
    if is_open then with_files (m_log_list g) (append_file fn str (disk g)) g else g.

Definition start_string : bytes := s2b "


*** starting log ***


".

(** [m_file.open]: fails, and spoils the stream, when a file is open already. *)
Definition open_stream (fn : string) (g : auto_logger_file) : auto_logger_file :=
  match m_file g with
  | Some f => with_stream (Some f) false (disk g) g
  | None =>
      if can_open fn then with_stream (Some fn) true (append_file fn [] (disk g)) g
      else with_stream None false (disk g) g
  end.

(** [open]: a name with a '*' selects the automatic mode, the part before it is
    the directory.  That part is copied into an array of 65536 zeros and read
    back as a C string. *)
Definition open (time : clock) (filename : bytes) (g : auto_logger_file) : outcome auto_logger_file :=
  match list_find (fun b => b = x2a) filename with
  | Some (len, _) =>
      let g := with_mode true (m_log_path g) g in
      if 65536 <? Z.of_nat len then Ret g
      else if Z.of_nat len =? 65536 then UB (* no NUL left in save_path *)
      else Ret (write time start_string (with_mode true (b2s (take len filename)) g))
  | None =>
      Ret (write time start_string (open_stream (b2s filename) (with_mode false (m_log_path g) g)))
  end.

Definition is_open (g : auto_logger_file) : bool :=
  m_auto_mode g || match m_file g with Some _ => true | None => false end.

(** ** Rotation *)

Lemma map_iter_head {A} (m : gmap string A) k a rest :
  map_iter m = (k, a) :: rest -> m !! k = Some a.
Proof. intros E. apply elem_of_map_iter. rewrite E. by left. Qed.

Lemma map_iter_nil {A} (m : gmap string A) : map_iter m = [] -> m = ∅.
Proof.
  intros E. apply map_empty. intros k. destruct (m !! k) as [a|] eqn:Ek; [|done].
  apply elem_of_map_iter in Ek. rewrite E in Ek. by apply elem_of_nil in Ek.
Qed.

Lemma open_log_bounded fn g :
  m_log_list g !! fn = None -> (size (m_log_list g) <= AVROUTER_LOG_FILE_NUM)%nat ->
  (size (m_log_list (open_log fn g).2) <= AVROUTER_LOG_FILE_NUM)%nat.
Proof.
  intros Hn Hs. unfold open_log. case_decide as Hbig; [|simpl; lia].
  destruct (map_iter _) as [|[first o] rest] eqn:E; simpl.
  - apply map_iter_nil in E. rewrite E in Hbig. rewrite map_size_empty in Hbig. lia.
  - apply map_iter_head in E. rewrite map_size_delete, E.
    rewrite map_size_insert_None by done. lia.
Qed.

(** At most three log files are open at any time: [write] keeps the bound,
    in every mode and whatever the file system answers. *)
Theorem log_files_bounded time str g :
  (size (m_log_list g) <= AVROUTER_LOG_FILE_NUM)%nat ->
  (size (m_log_list (write time str g)) <= AVROUTER_LOG_FILE_NUM)%nat.
Proof.
  intros Hs. unfold write. destruct (m_auto_mode g); simpl; [|by destruct (m_file g), (m_good g)].
  destruct (make_filename time g) as [fn g1] eqn:E.
  assert (Hl : m_log_list g1 = m_log_list g).
  { unfold make_filename in E. repeat case_match; by simplify_eq. }
  destruct (m_log_list g1 !! fn) as [o|] eqn:El.
  - destruct o; simpl; by rewrite Hl.
  - pose proof (open_log_bounded fn g1 El ltac:(by rewrite Hl)) as Hb.
    destruct (open_log fn g1) as [[] g2]; simpl in *; lia.
Qed.

(** The state while one file is logged to. *)
Definition logging_to (fn : string) (d : date) (content : bytes) (g : auto_logger_file) : auto_logger_file :=
  {| m_file := m_file g; m_good := m_good g; m_auto_mode := true; m_log_path := m_log_path g;
     m_log_list := {[fn := true]}; m_last_day := Some d; m_last_filename := fn;
     disk := <[fn := content]> (disk g) |}.

Lemma write_first d str g :
  let fn := path_join (m_log_path g) (ymd (printed d) +:+ ".log") in
  m_auto_mode g = true -> m_last_day g = None -> m_log_list g = ∅ -> can_open fn = true ->
  write d str g = logging_to fn (now_ d) (default [] (disk g !! fn) ++ str) g.
Proof.
  intros fn Ha Hl He Ho. unfold write, make_filename. rewrite Ha, Hl. cbn [negb m_log_list with_day].
  fold fn. rewrite He, lookup_empty. unfold open_log. cbn [m_log_list with_day disk]. rewrite Ho, He.
  rewrite decide_False.
  - unfold with_files, logging_to, append_file. cbn. f_equal; [done|].
    by rewrite lookup_insert_eq, insert_insert_eq, app_nil_r.
  - unfold AVROUTER_LOG_FILE_NUM. rewrite map_size_insert_None by apply lookup_empty.
    rewrite map_size_empty. lia.
Qed.

Lemma write_again fn d d' content str g :
  day d = day (now_ d') -> write d' str (logging_to fn d content g) = logging_to fn d (content ++ str) g.
Proof.
  intros Hd. unfold write, make_filename. cbn [logging_to m_auto_mode negb m_last_day m_last_filename].
  rewrite Hd, Z.eqb_refl. cbn [logging_to m_log_list]. rewrite lookup_singleton_eq.
  unfold with_files, logging_to, append_file. cbn. by rewrite lookup_insert_eq, insert_insert_eq.
Qed.

(** The log of a day goes to the file of that day only within one month:
    [make_filename] compares days of the month, so a message written on the same
    day of another month (or year) is appended to the old file, and no file of
    its own date is made. *)
Theorem log_month_collision d1 d2 s1 s2 g :
  m_auto_mode g = true -> m_last_day g = None -> m_log_list g = ∅ ->
  can_open (path_join (m_log_path g) (ymd (printed d1) +:+ ".log")) = true -> day (now_ d1) = day (now_ d2) ->
  let fn := path_join (m_log_path g) (ymd (printed d1) +:+ ".log") in
  disk (write d2 s2 (write d1 s1 g)) =
    <[fn := (default [] (disk g !! fn) ++ s1) ++ s2]> (disk g).
Proof.
  intros Ha Hl He Ho Hd fn. rewrite (write_first d1 s1 g Ha Hl He Ho), write_again by done. done.
Qed.

(** The length check of [open] is off by one: a directory name of exactly
    65536 bytes fills the array, and reading it back runs past its end; longer
    names are refused and leave the directory unset, shorter ones are taken. *)
Theorem open_length_check time pre rest g :
  (x2a ∉ pre) ->
  match Z.of_nat (length pre) ?= 65536 with
  | Eq => open time (pre ++ x2a :: rest) g = UB
  | Gt => exists g', open time (pre ++ x2a :: rest) g = Ret g' /\
            is_open g' = true /\ m_log_path g' = m_log_path g
  | Lt => exists g', open time (pre ++ x2a :: rest) g = Ret g' /\ is_open g' = true /\
            m_log_path g' = b2s pre
  end.
Proof.
  intros Hpre.
  assert (Hf : list_find (fun b => b = x2a) (pre ++ x2a :: rest) = Some (length pre, x2a)).
  { apply list_find_Some. split_and!; [by rewrite lookup_app_r, Nat.sub_diag|done|].
    intros j y Hy Hj ->. rewrite lookup_app_l in Hy by done. apply Hpre.
    by eapply list_elem_of_lookup_2. }
  unfold open. rewrite Hf. destruct (Z.compare_spec (Z.of_nat (length pre)) 65536) as [E|E|E].
  - by rewrite E.
  - rewrite (proj2 (Z.ltb_ge _ _)) by lia. rewrite (proj2 (Z.eqb_neq _ _)) by lia.
    eexists. split; [done|]. rewrite take_app_length.
    match goal with |- context [write _ _ ?g0] => set (g1 := g0) end.
    assert (Hw : m_auto_mode (write time start_string g1) = true /\
                 m_log_path (write time start_string g1) = b2s pre).
    { unfold write, make_filename, open_log. simpl. repeat (case_match; simplify_eq; simpl; try done). }
    unfold is_open. destruct Hw as [-> ->]. done.
  - rewrite (proj2 (Z.ltb_lt _ _)) by lia. by eexists.
Qed.
End logging.

(** ** Concrete runs *)
Module LoggingDemo.
#[local] Instance fs : FileSystem :=
  {| can_open _ := true; can_remove _ := true; path_join a b := a +:+ "/" +:+ b;
     ymd d := if month d =? 1 then "20140115" else "20140215" |}.

Definition fresh : auto_logger_file :=
  with_mode true "log" (new_logger_file ∅).
Definition at_noon (d : date) : clock := {| now_ := d; printed := d |}.
Definition january : clock := at_noon {| year := 2014; month := 1; day := 15 |}.
Definition february : clock := at_noon {| year := 2014; month := 2; day := 15 |}.

Lemma log_files_bounded_witness :
  (size (m_log_list (write january [x61] fresh)) <= AVROUTER_LOG_FILE_NUM)%nat.
Proof. apply (log_files_bounded january [x61] fresh). vm_compute. lia. Defined.

Lemma log_month_collision_witness :
  disk (write february [x62] (write january [x61] fresh)) =
    {["log/20140115.log" := [x61; x62]]}.
Proof. exact (log_month_collision january february [x61] [x62] fresh eq_refl eq_refl eq_refl eq_refl eq_refl). Defined.

Lemma open_length_check_witness :
  exists g', open january [x6c; x2a] fresh = Ret g' /\ is_open g' = true /\ m_log_path g' = "l".
Proof.
  apply (open_length_check january [x6c] [] fresh).
  apply (bool_decide_unpack _). vm_compute. exact I.
Defined.
End LoggingDemo.
