(* ===== verification/Logger.v ===== *)
(** * Logger: log statements

    The rest of libavproto/src/logging.hpp: a statement [LOG_INFO << a << b]
    makes a temporary [logger] that collects what is put into it and hands one
    line to [logger_writer] when it is destroyed; the line goes to the log file
    and, in colour, to the console.  What [<<] makes of a value, and the printed
    local time, are given as bytes. *)

From S2P Require Import Prelude Logging.

Section logger.
Context `{FileSystem}.

(** [writer_single<auto_logger_file>()], and what std::cout was given. *)
Record log_state := { file : auto_logger_file; console : bytes }.

(** ** A line *)

(** [time_now_string], [now] being the local time in microseconds as printed;
    [sprintf] writes into an array of 200. *)
Definition time_now_string (now : bytes) : outcome bytes :=
  let s := if 3 <? zlen now then take (Z.to_nat (zlen now - 3)) now else now in
  let str := c_str s ++ [x20] in
  if zlen str + 1 <=? 200 then Ret str else UB.

Definition LOGGER_DEBUG_STR : bytes := s2b "DEBUG".
Definition LOGGER_INFO_STR : bytes := s2b "INFO".
Definition LOGGER_WARN_STR : bytes := s2b "WARNING".
Definition LOGGER_ERR_STR : bytes := s2b "ERROR".
Definition LOGGER_FILE_STR : bytes := s2b "FILE".

Definition escape (code : string) : bytes := x1b :: s2b code.

(** [output_console], where it is not built for Windows. *)
Definition output_console (level prefix message : bytes) : bytes :=
  let coloured code := escape code ++ prefix ++ escape "[0m" ++ message in
  if decide (level = LOGGER_INFO_STR) then coloured "[32m"
  else if decide (level = LOGGER_DEBUG_STR) then coloured "[1;32m"
  else if decide (level = LOGGER_WARN_STR) then coloured "[1;33m"
  else if decide (level = LOGGER_ERR_STR) then coloured "[1;31m"
  else [].

Definition logger_writer (level message : bytes) (disable_cout : bool) (now : bytes) (day : clock)
    (st : log_state) : outcome log_state :=
  time ← time_now_string now;
  let prefix := time ++ s2b "[" ++ level ++ s2b "]: " in
  let tmp := message ++ [x0a] in
  let whole := prefix ++ tmp in
  Ret {| file := if is_open (file st) then write day whole (file st) else file st;
         console := console st ++ if disable_cout then [] else output_console level prefix tmp |}.

(** ** class logger *)
Record logger := { oss_ : bytes; level_ : bytes; disable_cout_ : bool }.

Definition new_logger (level : bytes) (disable_cout : bool) : logger :=
  {| oss_ := []; level_ := level; disable_cout_ := disable_cout |}.
Definition put (l : logger) (v : bytes) : logger :=
  {| oss_ := oss_ l ++ v; level_ := level_ l; disable_cout_ := disable_cout_ l |}.
Definition destroy_logger (l : logger) (now : bytes) (day : clock) (st : log_state) : outcome log_state :=
  logger_writer (level_ l) (oss_ l) (disable_cout_ l) now day st.

(** The macros [LOG_DBG], ... when logging is compiled in. *)
Inductive severity := DBG | INFO | WARN | ERR | FILE.

Definition log_object (s : severity) : logger :=
  match s with
  | DBG => new_logger LOGGER_DEBUG_STR false
  | INFO => new_logger LOGGER_INFO_STR false
  | WARN => new_logger LOGGER_WARN_STR false
  | ERR => new_logger LOGGER_ERR_STR false
  | FILE => new_logger LOGGER_FILE_STR true
  end.

(** One statement: its severity, the values put in, the printed time and the
    day it is executed, as [make_filename] reads it. *)
Record statement := { sev : severity; values : list bytes; at_time : bytes; on_day : clock }.

(** With logging compiled out the object is an [empty_logger]. *)
Definition log_statement (enabled : bool) (s : statement) (st : log_state) : outcome log_state :=
  if enabled then destroy_logger (foldl put (log_object (sev s)) (values s)) (at_time s) (on_day s) st
  else Ret st.

Fixpoint log_statements (enabled : bool) (ss : list statement) (st : log_state) : outcome log_state :=
  match ss with
  | [] => Ret st
  | s :: ss => st ← log_statement enabled s st; log_statements enabled ss st
  end.

(** ** Starting *)
Definition open_logger (filename : bytes) (day : clock) (st : log_state) : outcome log_state :=
  match filename with
  | [] => Ret st
  | _ => f ← open day (c_str filename) (file st); Ret {| file := f; console := console st |}
  end.

Definition INIT_LOGGER (logfile : bytes) : clock -> log_state -> outcome log_state := open_logger logfile.
Definition AUTO_LOGGER (path : bytes) : clock -> log_state -> outcome log_state := open_logger (path ++ [x2a]).

(** ** What a statement writes *)

Definition time_text (now : bytes) : bytes :=
  c_str (if 3 <? zlen now then take (Z.to_nat (zlen now - 3)) now else now) ++ [x20].
Definition prefix_of_statement (s : statement) : bytes :=
  time_text (at_time s) ++ s2b "[" ++ level_ (log_object (sev s)) ++ s2b "]: ".
Definition body (s : statement) : bytes := concat (values s) ++ [x0a].
Definition line (s : statement) : bytes := prefix_of_statement s ++ body s.
Definition shown (s : statement) : bytes :=
  let coloured code := escape code ++ prefix_of_statement s ++ escape "[0m" ++ body s in
  match sev s with
  | DBG => coloured "[1;32m" | INFO => coloured "[32m" | WARN => coloured "[1;33m"
  | ERR => coloured "[1;31m" | FILE => []
  end.

Lemma time_now_text now : zlen now <= 201 -> time_now_string now = Ret (time_text now).
Proof.
  intros Hn. unfold time_now_string, time_text. set (s := if 3 <? zlen now then _ else _).
  rewrite (proj2 (Z.leb_le _ _)); [done|]. rewrite zlen_app. change (zlen [x20]) with 1.
  pose proof (c_str_length s). assert (zlen s <= 198); [|lia]. unfold s.
  destruct (Z.ltb_spec 3 (zlen now)); [|lia]. unfold zlen in *. rewrite length_take. lia.
Qed.

Lemma foldl_put l vs :
  foldl put l vs = {| oss_ := oss_ l ++ concat vs; level_ := level_ l; disable_cout_ := disable_cout_ l |}.
Proof.
  revert l. induction vs as [|v vs IH]; intros l; simpl; [by rewrite app_nil_r; destruct l|].
  rewrite IH. simpl. by rewrite <-app_assoc.
Qed.

Lemma log_statement_eq s st :
  zlen (at_time s) <= 201 ->
  log_statement true s st =
    Ret {| file := if is_open (file st) then write (on_day s) (line s) (file st) else file st;
           console := console st ++ shown s |}.
Proof.
  intros Ht. unfold log_statement, destroy_logger. rewrite foldl_put. unfold logger_writer.
  rewrite (time_now_text _ Ht), outcome_bind_Ret. cbn [level_ oss_ disable_cout_].
  replace (oss_ (log_object (sev s))) with (@nil byte) by by destruct (sev s).
  fold (prefix_of_statement s). fold (body s). fold (line s). do 3 f_equal.
  unfold shown, output_console. destruct (sev s); cbn [log_object new_logger level_ disable_cout_];
    repeat first [rewrite (decide_True _ _ eq_refl) | rewrite decide_False by (vm_compute; discriminate)]; done.
Qed.

(** C38: every log statement comes out as one line: after [AUTO_LOGGER] with a
    directory the statements of a day, whatever values are put into them, append
    their lines -- time, level, values, in this order and nothing else -- to the
    file of that day, one after the other and after what it held, and show them on
    the console in the colour of the level, except [LOG_FILE], which is not shown.
    The logger is one that was not used before, and its file can be opened; the
    file's name is made from the second reading of the clock. *)
Theorem statements_logged dir d ss st :
  let f := file st in
  let fn := path_join (b2s dir) (ymd (printed d) +:+ ".log") in
  (x2a ∉ dir) -> (x00 ∉ dir) -> zlen dir < 65536 ->
  m_last_day f = None -> m_log_list f = ∅ -> can_open fn = true ->
  Forall (fun s => day (now_ (on_day s)) = day (now_ d) /\ zlen (at_time s) <= 201) ss ->
  exists st', (st ← AUTO_LOGGER dir d st; log_statements true ss st) = Ret st' /\
    disk (file st') =
      <[fn := default [] (disk f !! fn) ++ start_string ++ concat (line <$> ss)]> (disk f) /\
    console st' = console st ++ concat (shown <$> ss).
Proof.
  intros f fn Hstar Hnul Hlen Hday Hlist Hopen Hss.
  set (g := with_mode true (b2s dir) (with_mode true (m_log_path f) f)).
  assert (E : AUTO_LOGGER dir d st =
    Ret {| file := logging_to fn (now_ d) (default [] (disk f !! fn) ++ start_string) g; console := console st |}).
  { unfold AUTO_LOGGER, open_logger. destruct (dir ++ [x2a]) as [|x l] eqn:El; [by destruct dir|].
    rewrite <-El, c_str_id by set_solver. unfold open.
    assert (Hf : list_find (fun b => b = x2a) (dir ++ [x2a]) = Some (length dir, x2a)).
    { apply list_find_Some. split_and!; [by rewrite lookup_app_r, Nat.sub_diag|done|].
      intros j y Hy Hj ->. rewrite lookup_app_l in Hy by done. by eapply Hstar, list_elem_of_lookup_2. }
    rewrite Hf. unfold zlen in Hlen. rewrite (proj2 (Z.ltb_ge _ _)) by lia.
    rewrite (proj2 (Z.eqb_neq _ _)) by lia. rewrite take_app_length, outcome_bind_Ret.
    fold f. fold g. do 2 f_equal. by apply (write_first d start_string g). }
  rewrite E, outcome_bind_Ret. clear E. set (content := _ ++ start_string). rewrite app_assoc. fold content.
  generalize content (console st). clear content. induction Hss as [|s ss [Hd Ht] _ IH]; intros content shown_so_far.
  { eexists. split; [done|]. simpl. by rewrite !app_nil_r. }
  cbn [log_statements fmap list_fmap concat]. rewrite (log_statement_eq s _ Ht), outcome_bind_Ret.
  change (is_open (file _)) with true. cbn [file console]. rewrite write_again by done.
  destruct (IH (content ++ line s) (shown_so_far ++ shown s)) as (st' & E & Hdisk & Hcons).
  exists st'. split; [exact E|]. by rewrite Hdisk, Hcons, !app_assoc.
Qed.
End logger.

(** ** A concrete run *)
Module LoggerDemo.
Import LoggingDemo.
#[local] Existing Instance fs.

Definition two : list statement :=
  [{| sev := WARN; values := [s2b "delete log failed: "; s2b "x"]; at_time := s2b "2014-01-15 10:00:00.123456";
      on_day := january |};
   {| sev := FILE; values := [s2b "hi"]; at_time := s2b "2014-01-15 10:00:01.000000"; on_day := january |}].
Definition quiet : log_state := {| file := new_logger_file ∅; console := [] |}.

Lemma statements_logged_witness :
  exists st', (st ← AUTO_LOGGER (s2b "log") january quiet; log_statements true two st) = Ret st' /\
    disk (file st') = {["log/20140115.log" := start_string ++ concat (line <$> two)]} /\
    console st' = escape "[1;33m" ++ s2b "2014-01-15 10:00:00.123 [WARNING]: " ++ escape "[0m" ++
      s2b "delete log failed: x" ++ [x0a].
Proof.
  destruct (statements_logged (s2b "log") january two quiet) as (st' & E & Hd & Hc).
  - apply (bool_decide_unpack _). vm_compute. exact I.
  - apply (bool_decide_unpack _). vm_compute. exact I.
  - vm_compute. reflexivity.
  - reflexivity.
  - reflexivity.
  - reflexivity.
  - repeat constructor; vm_compute; discriminate.
  - exists st'. split; [exact E|]. rewrite Hd, Hc. split; vm_compute; reflexivity.
Defined.
End LoggerDemo.
